(* ===== verification/_CoqProject ===== *)
-Q . S2P
Prelude.v
Collections.v
Core.v
Demo.v
Mempool.v
MempoolFacts.v
MempoolSelect.v
MempoolProps.v
Miner.v
Cache.v
Bytes.v
Storage.v
StorageFacts.v
StorageLedger.v
StorageReads.v
StorageSaved.v
StorageDemo.v
StorageProps.v
Node.v
NodeFacts.v
NodeProps.v
NodeIndex.v
NodeSync.v
NodeShared.v
NodeStart.v
NodeDemo.v
Network.v
Stream.v
P2p.v
P2pDemo.v
Gossip.v
GossipProps.v
Wallet.v
WalletProps.v
Config.v
ConfigProps.v
Http.v
HttpProps.v
Gateway.v
PeersFile.v
Service.v
ServiceProps.v
ServiceDemo.v
Explorer.v
ExplorerProps.v
Rpc.v
RpcProps.v
RpcDemo.v
Routes.v
RoutesProps.v
Daemon.v
DaemonProps.v
DaemonDemo.v
System.v
SystemDemo.v
EndToEnd.v
EndToEndDemo.v
Catchup.v
CatchupDemo.v
Commands.v
CommandsProps.v
Locks.v
ChainStorage.v
Messages.v
MessagesProps.v
Libp2p.v
Sockets.v
Cli.v
CliProps.v
CliDemo.v
Program.v
ProgramDemo.v
