(* ===== verification/Prelude.v ===== *)
(** * A verification development for the Paqus node

    [paqus-node] is the full node of a proof-of-work chain with accounts.  It
    keeps a tree of blocks, switches to the best branch, stores the active
    chain in LMDB, keeps a pool of pending transactions, mines, exchanges
    blocks with peers over framed TCP, answers an RPC interface, and comes with
    a wallet.  This library models it as executable functions and proves what
    makes each part correct.  The rules of the ledger (validation, signatures,
    fork choice, difficulty) are those of the [paqus] crate, which is not part
    of the repository: [Core.Paqus] is its interface, a parameter of everything
    else.

    ** Parts, files and sources (paths under [src/src])

    - [Prelude], [Collections], [Bytes]: machine integers, results, the state
      and error monad [SE] with its preservation lemmas and tactics, stable
      sorting, ordered maps, big-endian integers.
    - [Core]: the interface of the crate and the constants of
      [runtime/mod.rs].  [Demo] is a small concrete instance, on which
      theorems are evaluated.
    - [Mempool], [MempoolFacts], [MempoolSelect], [MempoolProps]:
      [runtime/mempool].
    - [Miner]: [runtime/miner/miner.rs].  [Cache]: [runtime/cache.rs].
    - [Storage] (methods), [StorageFacts] (their big-step judgement),
      [StorageLedger], [StorageReads], [StorageSaved] (the tables of a saved
      ledger), [StorageDemo], [StorageProps]: [runtime/storage].
      [ChainStorage]: the legacy [storage.rs] next to [main.rs].
    - [Node], [NodeFacts], [NodeProps], [NodeIndex], [NodeSync], [NodeShared]
      (what threads do to the node they share), [NodeStart] (opening it),
      [NodeDemo]: [runtime/node/node.rs].  The struct is the record [Node.Node]; a method
      is a function of type [N A], that is [Node -> result NodeError A * Node],
      so what a failing method leaves behind is part of the model.
    - [Network], [Stream], [Sockets]: [runtime/network], [request_on_stream] and
      the sockets of [network.rs], [p2p.rs] and [gateway.rs].
    - [P2p], [P2pDemo], [PeersFile]: [p2p.rs].
    - [Gossip], [GossipProps]: [gossip.rs].
    - [Wallet], [WalletProps]: [runtime/wallet], [mempool.rs] and the
      payment command of [main.rs].
    - [Config], [ConfigProps]: [RunConfig], its file and its command line in
      [main.rs].
    - [Http], [HttpProps]: the HTTP clients of [network.rs] and [gateway.rs].
      [Gateway]: [gateway.rs].
    - [Service], [ServiceProps], [ServiceDemo]: the tables and methods of
      [NodeService] in [main.rs]: peers, synchronisation, mining.
    - [Daemon], [DaemonProps], [DaemonDemo]: the rest of [NodeService]:
      preflight, gateway refresh, accepting connections and the thread of each,
      the loop [run] and shutdown.
    - [Explorer], [ExplorerProps]: the views of blocks, transactions,
      addresses and the chain's statistics in [main.rs].  [Rpc], [RpcProps],
      [RpcDemo]: the RPC handlers.  [Routes], [RoutesProps]: the table of
      routes, and one request from its path to its handler.
    - [Commands], [CommandsProps]: [wallet pay], [wallet send], wallet files
      and the wallet menus of [main.rs].  [Cli], [CliProps], [CliDemo]: [run],
      the menu and every other command.  [Program], [ProgramDemo]: [run_node],
      from the command line to the loop, and [main].
    - [Messages], [MessagesProps]: the texts and sources of errors
      ([runtime/*/error.rs]) and of log lines.  [Libp2p]: [libp2p_node.rs].
    - [System], [SystemDemo]: the loop, the inbound connections and the RPC
      requests of one node together.  [EndToEnd], [EndToEndDemo]: a payment,
      from the command of the wallet to the pool of the node.  [Catchup],
      [CatchupDemo]: a node that polls a peer which runs the same program.
    - [Locks]: the sequences of mutexes the operations of the service take, as
      a transition system of threads.

    The service owns the node, the tables of peers and connections, and the
    counters; the RPC handlers and the threads of inbound connections share
    them.  [Service.Service] is that shared state as one thread sees it: a
    method is a sequence of critical sections, and what other threads do
    between two of them is an oracle ([node_others], [others], [meanwhile]),
    about which theorems assume only that it keeps the invariants.  [System]
    closes this circle: each thread changes the node by the steps of
    [NodeShared.shared_step], which is what it assumes of the others.  [Daemon]
    adds the clocks and counters of the loop.  Messages go through
    [Network.handle_message], polls through [P2p] over the connection of the
    peer, broadcasts through [Gossip].

    ** Parameters and their laws

    Code outside the repository is a class, and what is assumed of it another:
    [Paqus] (protocol crate) with [TxLaws], [BlockLaws], [ForkChoiceLaws],
    [LedgerLaws]; [Kv] (ordered tables of bytes) with [KvLaws]; [Lmdb] (which
    engine calls fail) with [NoFaults] where a theorem is about a working
    disk; [Borsh] and [Codecs] with [BorshLaws] and [CodecLaws] (decoding undoes
    encoding); [Clock] (wall clock); [ChainParams]; [Read] and [Write]; [Wire]
    and [PeerWorld] (answers of peers, connection attempts); [Crypto],
    [WalletEnv], [FilesEnv] (signatures, files, terminal); [ConfigEnv] (parsing
    of addresses, JSON of the configuration); [HttpWorld], [GatewayJson],
    [PeersEnv], [ExplorerEnv], [ServiceEnv], [DaemonEnv]; [Router] (axum) with
    [RouterLaws], its documented choice of a route; [ErrorTexts] (texts of the
    errors of other crates) with [ErrorTextLaws]; [Os] (system calls on
    sockets); [CliEnv] (constants of the build, directories, the databases that
    are found, JSON); [ChainStorage.Texts].  The laws the properties use have an
    instance on the demo protocol, so that no theorem is vacuous.

    ** What the theorems show

    - Pool: bounds that hold of every reachable pool; an accepted transaction
      continues its sender's queue; the selection for a block refines a greedy
      specification; [remove_confirmed] leaves the byte counter too high.
    - Storage: saving and loading round trip; saving is atomic under any
      failures, and an error after the commit is the flush's; the integrity check accepts exactly complete chains; address
      histories are exact.
    - Node: the orphan pool's invariant; what an accepted block does, and what
      a rejected one leaves behind: nothing, unless it was valid and the disk or
      the switch of branch failed; the loops over orphans and stored blocks end;
      after any sequence of blocks the database holds the ledger, so that a
      restart recovers it; a node starts from an empty database and from what a
      node left, and is in order, and only a stored block outside the ledger that
      the fork choice refuses can stop it with an error; a reorganisation leaves
      confirmed transactions pending.
    - Miner and mining: the first nonce is found; a block mined on a stale tip
      is never added; exactly when mining starts.
    - Peers: frames round trip; a poll asks for at most 64 consecutive
      heights; a node without orphans has its peer's ledger after one poll for
      every 64 blocks it was behind, while nothing else interferes; a failed parent request drops the other due parents; pushed
      messages shift the answers of a stream; the duplicate filter refines a
      window over the last distinct hashes.
    - Service loop: every round of [run], and every inbound connection
      whatever it sends, keeps the node's invariant and the limits of the
      peer table.  The threads never block each other for good, unless the
      status is requested while a peer is polled, for which a deadlock is shown.
    - The whole node: any execution of the loop, inbound connections and RPC
      requests, in any order, keeps the node in order and restartable, and
      keeps the contract each thread relies on; what [run_node] serves with is
      in order.
    - RPC: no [GET] request changes anything, whatever its path, neither the node
      nor the tables of peers; a submission is accepted as a whole or leaves the
      pool alone, except when the flush fails; a payment command that has signed
      its transaction posts it once, and prints the answer and succeeds, whatever
      became of it: accepted, refused, or kept by a node that could not save it;
      the explorer's scan agrees with the index of the database; address pages
      and statistics are exact.
    - HTTP: a response is read the same way however it is cut into reads; the
      gateway's reader is the wallet's reader with a check of the status; a
      truncated response is accepted.
    - Wallet and configuration: the next nonce; what a payment signs; the
      short forms of the command are abbreviations of the long one; every
      accepted configuration is usable, and the file that [node config] writes
      configures the same as no file.
    - Commands: the menu ends within as many turns as lines are typed, or goes
      round for ever at the end of its input; [wallet new] shows the secret key
      on demand only; the help names exactly the routes of the server.
    - Texts: an error is identified by its text; the description of a
      difficulty is exact for the hashes it describes.

    ** Bounds and fuel

    Loops that are not structural take fuel.  [process_fuel] is one more than
    the number of orphans ([orphan_loop_terminates]); [index_loop] gets one
    more than the number of stored blocks ([stored_blocks_indexed]);
    [mine_loop] has the attempts of its argument, [select_loop] the limit of the
    block, [evict_loop] one more than the length of the queue, each pass
    of which removes an entry; a 64-bit number has at most 20 decimal
    digits.  [accept_loop] returns as soon as no listener has a connection
    ([accept_terminates]).  [run] does not end by itself and is modelled for
    any number of rounds.  Integers are those of [Z], with saturating, checked
    and wrapping operations written where the source has them; [usize] has 64
    bits.

    The interactive menu ends by what is typed: [interactive_menu] takes a
    number of turns, and [menu_ends_or_spins] says how many are enough.

    ** Not modelled

    - What axum, serde_json, the [libp2p] swarm and the operating system do: the
      choice of a route and the outcome of system calls are parameters, an
      answer is its status and the record that is printed as JSON.
    - The logs of the service and what a prompt prints before a line is read.
    - [prepared_node] stops before [preflight], which asks the gateway and the
      peers; [Daemon.preflight] has it, and [run_node] composes both.
    - [temporary] of the storage and of the node, which choose a directory;
      [paquscore.rs], which re-exports; the unit tests in the sources.
    - White space is trimmed for ASCII, not for all of Unicode.

    Next: the unit tests of the sources as examples of the definitions; the
    guards of the sockets inside the reads of messages; fairness of the service
    loop (a due peer is asked in a bounded number of rounds). *)

From stdpp Require Export base gmap list sorting numbers strings.
From Stdlib Require Export Sorting.Sorted.

Open Scope Z_scope.

(** ** Machine integers

    Unsigned integers of width [w] are integers of [Z] together with the Rust
    operations the sources use on them. *)

Definition umax (w : Z) : Z := 2 ^ w - 1.
Definition u32_max : Z := 4294967295.
Definition u64_max : Z := 18446744073709551615.

(** [usize] is 64 bits wide on the platforms the node targets. *)
Definition usize_max : Z := u64_max.

Definition in_u32 (x : Z) : Prop := 0 ≤ x ≤ u32_max.
Definition in_u64 (x : Z) : Prop := 0 ≤ x ≤ u64_max.

(** [saturating_add], [saturating_sub], [checked_add] and the wrapping sum. *)
Definition sat_add (bound a b : Z) : Z := Z.min (a + b) bound.
Definition sat_sub (a b : Z) : Z := Z.max 0 (a - b).
Definition sat_mul (bound a b : Z) : Z := Z.min (a * b) bound.
Definition checked_add (bound a b : Z) : option Z :=
  if bool_decide (a + b ≤ bound) then Some (a + b) else None.
Definition wrap (bound a : Z) : Z := a mod (bound + 1).

Lemma sat_add_bound bound a b : sat_add bound a b ≤ bound.
Proof. unfold sat_add; lia. Qed.

Lemma sat_add_nonneg bound a b :
  0 ≤ bound → 0 ≤ a → 0 ≤ b → 0 ≤ sat_add bound a b.
Proof. unfold sat_add; lia. Qed.

Lemma sat_sub_le a b : 0 ≤ a → 0 ≤ b → sat_sub a b ≤ a.
Proof. unfold sat_sub; lia. Qed.

Lemma checked_add_Some bound a b c :
  checked_add bound a b = Some c ↔ c = a + b ∧ a + b ≤ bound.
Proof. unfold checked_add. case_bool_decide; naive_solver. Qed.

Lemma wrap_small bound a : 0 ≤ a ≤ bound → wrap bound a = a.
Proof. intros. unfold wrap. apply Z.mod_small. lia. Qed.

(** ** Results

    [Result<A, E>], with stdpp's monad notation ([x ← m; k] is [?] followed by
    the continuation). *)

Inductive result (E A : Type) : Type :=
  | Ok (a : A)
  | Err (e : E).
Arguments Ok {E A} a.
Arguments Err {E A} e.

#[global] Instance result_ret {E} : MRet (result E) := λ A a, Ok a.
#[global] Instance result_bind {E} : MBind (result E) := λ A B f m,
  match m with Ok a => f a | Err e => Err e end.
#[global] Instance result_fmap {E} : FMap (result E) := λ A B f m,
  match m with Ok a => Ok (f a) | Err e => Err e end.

#[global] Instance result_eq_dec {E A} `{EqDecision E, EqDecision A} :
  EqDecision (result E A).
Proof. solve_decision. Defined.

(** [Result::map_err], [Option::ok_or], [Result::is_ok]. *)
Definition map_err {E F A} (f : E → F) (r : result E A) : result F A :=
  match r with Ok a => Ok a | Err e => Err (f e) end.
Definition ok_or {E A} (o : option A) (e : E) : result E A :=
  match o with Some a => Ok a | None => Err e end.
Definition is_ok {E A} (r : result E A) : bool :=
  match r with Ok _ => true | Err _ => false end.

Lemma map_err_Ok {E F A} (f : E → F) (r : result E A) a :
  map_err f r = Ok a ↔ r = Ok a.
Proof. destruct r; simpl; naive_solver. Qed.

Lemma result_bind_Ok {E A B} (f : A → result E B) (m : result E A) b :
  m ≫= f = Ok b ↔ ∃ a, m = Ok a ∧ f a = Ok b.
Proof. destruct m; unfold mbind, result_bind; naive_solver. Qed.

Lemma ok_or_Ok {E A} (o : option A) (e : E) a : ok_or o e = Ok a ↔ o = Some a.
Proof. destruct o; simpl; naive_solver. Qed.

(** ** State with errors

    A method [&mut self -> Result<A, E>]: the new state is returned on the
    error path as well, because a Rust method that returns early with [?]
    keeps every mutation made before. *)

Definition SE (S E A : Type) : Type := S → result E A * S.

#[global] Instance SE_ret {S E} : MRet (SE S E) := λ A a s, (Ok a, s).
#[global] Instance SE_bind {S E} : MBind (SE S E) := λ A B f m s,
  match m s with
  | (Ok a, s') => f a s'
  | (Err e, s') => (Err e, s')
  end.

Definition get_state {S E} : SE S E S := λ s, (Ok s, s).
Definition gets {S E A} (f : S → A) : SE S E A := λ s, (Ok (f s), s).
Definition modify {S E} (f : S → S) : SE S E () := λ s, (Ok tt, f s).
Definition throw {S E A} (e : E) : SE S E A := λ s, (Err e, s).
Definition lift {S E A} (r : result E A) : SE S E A := λ s, (r, s).

(** A method that returns no [Result]. *)
Definition infallible {S E A} (f : S → A * S) : SE S E A := λ s, let '(a, s') := f s in (Ok a, s').

(** [let r = m;] where [r : Result<A, E>] is then inspected by the code. *)
Definition attempt {S E F A} (m : SE S E A) : SE S F (result E A) := λ s,
  let '(r, s') := m s in (Ok r, s').

(** A method of a field [view] of the state, its error converted by [From]. *)
Definition zoom {S T E F A} (view : S → T) (update : T → S → S) (conv : E → F)
    (m : SE T E A) : SE S F A := λ s,
  let '(r, t) := m (view s) in (map_err conv r, update t s).

(** [for x in l { f(x)?; }] *)
Fixpoint for_each {S E A} (f : A → SE S E ()) (l : list A) : SE S E () :=
  match l with
  | [] => mret tt
  | x :: l' => f x ;; for_each f l'
  end.

Lemma run_eq {S E A} (m : SE S E A) s r : (m s).1 = r → m s = (r, (m s).2).
Proof. intros <-. apply surjective_pairing. Qed.

Lemma SE_bind_unfold {S E A B} (f : A → SE S E B) (m : SE S E A) s :
  (m ≫= f) s =
  match m s with (Ok a, s') => f a s' | (Err e, s') => (Err e, s') end.
Proof. reflexivity. Qed.

Lemma SE_bind_lift {S E A B} (f : A → SE S E B) (r : result E A) s :
  (lift r ≫= f) s = match r with Ok a => f a s | Err e => (Err e, s) end.
Proof. reflexivity. Qed.

Lemma SE_bind_get {S E B} (f : S → SE S E B) s : (get_state ≫= f) s = f s s.
Proof. reflexivity. Qed.

Lemma SE_bind_gets {S E A B} (g : S → A) (f : A → SE S E B) s : (gets g ≫= f) s = f (g s) s.
Proof. reflexivity. Qed.

Lemma SE_bind_modify {S E B} (g : S → S) (f : () → SE S E B) s :
  (modify g ≫= f) s = f tt (g s).
Proof. reflexivity. Qed.

Lemma SE_bind_ret {S E A B} (a : A) (f : A → SE S E B) s : (mret a ≫= f) s = f a s.
Proof. reflexivity. Qed.

Lemma SE_bind_throw {S E A B} e (f : A → SE S E B) s : (throw e ≫= f) s = (Err e, s).
Proof. reflexivity. Qed.

Lemma SE_bind_attempt {S E F A B} (m : SE S E A) (f : result E A → SE S F B) s :
  (attempt m ≫= f) s = f (m s).1 (m s).2.
Proof. rewrite SE_bind_unfold. unfold attempt. by destruct (m s). Qed.

(** The course of a sequence that succeeds. *)
Lemma SE_bind_Ok {S E A B} (m : SE S E A) (f : A → SE S E B) s b s' :
  (m ≫= f) s = (Ok b, s') ↔ ∃ a s1, m s = (Ok a, s1) ∧ f a s1 = (Ok b, s').
Proof. rewrite SE_bind_unfold. destruct (m s) as [[a|e] s1]; naive_solver. Qed.

Lemma for_each_app {S E A} (f : A → SE S E ()) l l' s :
  for_each f (l ++ l') s = (for_each f l ;; for_each f l') s.
Proof.
  revert s. induction l as [|x l IH]; intros s; [done|]. cbn [for_each app]. rewrite !SE_bind_unfold.
  destruct (f x s) as [[?|?] s1]; [|done]. by rewrite IH.
Qed.

Create Rewrite HintDb se.
#[export] Hint Rewrite @SE_bind_lift @SE_bind_get @SE_bind_gets @SE_bind_modify
  @SE_bind_ret @SE_bind_throw @SE_bind_attempt : se.

(** Run straight-line stateful code, splitting on the results it inspects. *)
Ltac se_split :=
  match goal with
  | |- context [match map_err _ ?r with Ok _ => _ | Err _ => _ end] =>
      destruct r eqn:?; cbn [map_err]
  | |- context [match ?r with Ok _ => _ | Err _ => _ end] => destruct r eqn:?
  end.
Ltac units := repeat match goal with u : () |- _ => destruct u end.
Ltac se_run := repeat (autorewrite with se; try se_split); units.

(** Decide a closed goal by running the virtual machine on its decision. *)
Ltac by_eval :=
  match goal with
  | |- ?P => refine (proj1 (bool_decide_eq_true P) _); vm_compute; reflexivity
  end.

(** *** Invariants of stateful code

    [keeps R m]: whatever [m] returns, the states before and after are
    related by [R].  With [R := λ s s', I s → I s'] it says that [m] preserves
    [I]; with an equivalence on part of the state it is a frame property. *)
Definition keeps {S E A} (R : S → S → Prop) (m : SE S E A) : Prop :=
  ∀ s, R s (m s).2.

Definition preserves {S E A} (I : S → Prop) (m : SE S E A) : Prop :=
  keeps (λ s s', I s → I s') m.

Section keeps.
Context {S E : Type} (R : S → S → Prop) `{!PreOrder R}.

Lemma keeps_ret {A} (a : A) : keeps R (mret a : SE S E A).
Proof. intros s; simpl; reflexivity. Qed.

Lemma keeps_throw {A} e : keeps R (throw e : SE S E A).
Proof. intros s; simpl; reflexivity. Qed.

Lemma keeps_gets {A} (f : S → A) : keeps R (gets f : SE S E A).
Proof. intros s; simpl; reflexivity. Qed.

Lemma keeps_get : keeps R (get_state : SE S E S).
Proof. intros s; simpl; reflexivity. Qed.

Lemma keeps_lift {A} (r : result E A) : keeps R (lift r : SE S E A).
Proof. intros s; simpl; reflexivity. Qed.

Lemma keeps_modify (f : S → S) :
  (∀ s, R s (f s)) → keeps R (modify f : SE S E ()).
Proof. intros Hf s; apply Hf. Qed.

Lemma keeps_bind {A B} (f : A → SE S E B) (m : SE S E A) :
  keeps R m → (∀ a, keeps R (f a)) → keeps R (m ≫= f).
Proof.
  intros Hm Hf s. rewrite SE_bind_unfold. specialize (Hm s).
  destruct (m s) as [[a|e] s'] eqn:?; simpl in *; [|done].
  transitivity s'; [done|apply Hf].
Qed.

Lemma keeps_for_each {A} (f : A → SE S E ()) l :
  (∀ a, a ∈ l → keeps R (f a)) → keeps R (for_each f l).
Proof.
  induction l as [|a l IH]; intros Hf; simpl; [apply keeps_ret|].
  apply keeps_bind; [apply Hf; set_solver|].
  intros _. apply IH. intros; apply Hf; set_solver.
Qed.

End keeps.

Lemma keeps_attempt {S E F A} (R : S → S → Prop) (m : SE S E A) :
  keeps R m → keeps R (attempt m : SE S F (result E A)).
Proof. intros Hm s. unfold attempt. specialize (Hm s). by destruct (m s). Qed.

#[export] Instance implication_preorder {S} (I : S → Prop) :
  PreOrder (λ s s', I s → I s').
Proof. split; repeat intro; auto. Qed.

Create HintDb paqus.
#[export] Hint Resolve keeps_ret keeps_throw keeps_gets keeps_get keeps_lift
  keeps_attempt : paqus.
