(* ===== verification/Collections.v ===== *)
(** * Collections: stable sorting and the ordered maps of the standard library

    [sort_by_key] is the stable sort of [slice::sort_by_key]; a [BTreeMap] is a
    [gmap] read through [bt_iter], which lists its entries in key order, the
    way [BTreeMap::iter] and an LMDB cursor do. *)

From S2P Require Import Prelude.

(** ** Sums of integers *)

Definition sumZ (l : list Z) : Z := foldr Z.add 0 l.

Lemma sumZ_app l1 l2 : sumZ (l1 ++ l2) = sumZ l1 + sumZ l2.
Proof. unfold sumZ. induction l1; simpl; lia. Qed.

#[export] Instance sumZ_perm : Proper ((≡ₚ) ==> (=)) sumZ.
Proof. intros l1 l2. unfold sumZ. induction 1; simpl; lia. Qed.

Lemma sumZ_nonneg l : Forall (λ x, 0 ≤ x) l → 0 ≤ sumZ l.
Proof. unfold sumZ. induction 1; simpl; lia. Qed.

(** A left fold of saturating additions is the sum cut off at the bound. *)
Lemma foldl_sat_add bound l acc :
  0 ≤ acc ≤ bound → Forall (λ x, 0 ≤ x) l →
  foldl (sat_add bound) acc l = Z.min (acc + sumZ l) bound.
Proof.
  intros Hacc Hl; revert acc Hacc; induction Hl as [|x l Hx Hl IH]; simpl;
    intros acc Hacc; [lia|].
  pose proof (sumZ_nonneg _ Hl). rewrite IH; unfold sat_add; unfold sumZ in *; simpl; lia.
Qed.

(** The last number of an ascending list is the largest. *)
Lemma sorted_last_max l x : StronglySorted Z.le l → last l = Some x → Forall (λ y, y ≤ x) l.
Proof.
  induction 1 as [|y l Hs IH Hy]; [done|]. rewrite last_cons. destruct (last l) as [z|] eqn:E.
  - intros [= <-]. specialize (IH eq_refl). constructor; [|done].
    rewrite Forall_forall in Hy. apply Hy. rewrite last_lookup in E. by eapply list_elem_of_lookup_2.
  - intros [= <-]. apply last_None in E as ->. by constructor.
Qed.

(** ** Filtering lists *)

Lemma filter_all {A} (P : A → Prop) `{!∀ x, Decision (P x)} l :
  Forall P l → filter P l = l.
Proof.
  induction 1 as [|x l Hx Hl IH]; simpl; [done|].
  rewrite filter_cons, decide_True by done. by rewrite IH.
Qed.

Lemma filter_none {A} (P : A → Prop) `{!∀ x, Decision (P x)} l :
  Forall (λ x, ¬ P x) l → filter P l = [].
Proof.
  induction 1 as [|x l Hx Hl IH]; simpl; [done|].
  rewrite filter_cons, decide_False by done. done.
Qed.

(** Filters that agree on the elements. *)
Lemma list_filter_iff_on {A} (P Q : A → Prop) `{!∀ x, Decision (P x), !∀ x, Decision (Q x)} (l : list A) :
  (∀ x, x ∈ l → P x ↔ Q x) → filter P l = filter Q l.
Proof.
  induction l as [|x l IH]; intros Hpq; [done|]. rewrite !filter_cons, IH by set_solver.
  destruct (decide (P x)) as [Hp|Hp], (decide (Q x)) as [Hq|Hq]; try done.
  - destruct Hq. apply Hpq; [set_solver|done].
  - destruct Hp. apply Hpq; [set_solver|done].
Qed.

Lemma elem_of_concat {A} (ls : list (list A)) x : x ∈ concat ls ↔ ∃ l, l ∈ ls ∧ x ∈ l.
Proof.
  induction ls as [|l ls IH]; simpl; [set_solver|]. rewrite elem_of_app, IH. set_solver.
Qed.

(** A list all of whose elements are images is the image of a list. *)
Lemma list_image {A B} (f : A → B) (P : A → Prop) (l : list B) :
  (∀ y, y ∈ l → ∃ x, P x ∧ y = f x) → ∃ xs, l = f <$> xs ∧ ∀ x, x ∈ xs → P x.
Proof.
  induction l as [|y l IH]; intros Hl; [exists []; split; [done|set_solver]|].
  destruct IH as (xs & -> & Hxs); [set_solver|].
  destruct (Hl y) as (x & Hx & ->); [set_solver|]. exists (x :: xs). set_solver.
Qed.

(** ** Stable sorting *)

Class TotalLeb {A} (leb : A → A → bool) : Prop := {
  leb_total x y : leb x y = true ∨ leb y x = true;
  leb_trans x y z : leb x y = true → leb y z = true → leb x z = true;
}.

(** The relation a boolean comparison decides. *)
Definition le_of {A} (leb : A → A → bool) : relation A := λ x y, leb x y = true.

Section sort.
Context {A : Type} (leb : A → A → bool).

Fixpoint sort_insert (x : A) (l : list A) : list A :=
  match l with
  | [] => [x]
  | y :: l' => if leb x y then x :: l else y :: sort_insert x l'
  end.

(** Inserting from the right, in front of the first element that is not
    smaller, keeps equal elements in their original order. *)
Definition sort_by (l : list A) : list A := foldr sort_insert [] l.

Lemma sort_insert_perm x l : sort_insert x l ≡ₚ x :: l.
Proof.
  induction l as [|y l IH]; simpl; [done|].
  destruct (leb x y); [done|]. rewrite IH. apply Permutation_swap.
Qed.

Lemma sort_by_perm l : sort_by l ≡ₚ l.
Proof.
  induction l as [|x l IH]; simpl; [done|]. by rewrite sort_insert_perm, IH.
Qed.

Lemma elem_of_sort_by x l : x ∈ sort_by l ↔ x ∈ l.
Proof. by rewrite sort_by_perm. Qed.

Lemma length_sort_by l : length (sort_by l) = length l.
Proof. by rewrite sort_by_perm. Qed.

Lemma sort_by_nil_inv l : sort_by l = [] → l = [].
Proof. intros H. apply (f_equal length) in H. rewrite length_sort_by in H. by destruct l. Qed.

Context `{!TotalLeb leb}.

Lemma sort_insert_hd_rel x y l :
  leb y x = true → HdRel (le_of leb) y l → HdRel (le_of leb) y (sort_insert x l).
Proof. intros Hyx Hl. destruct Hl; simpl; [by constructor|]. case_match; by constructor. Qed.

Lemma sort_insert_sorted x l : Sorted (le_of leb) l → Sorted (le_of leb) (sort_insert x l).
Proof.
  induction 1 as [|y l Hl IH Hhd]; simpl; [repeat constructor|].
  destruct (leb x y) eqn:Hxy; constructor; auto.
  apply sort_insert_hd_rel; [|done]. destruct (leb_total x y); congruence.
Qed.

Lemma sort_by_Sorted l : Sorted (le_of leb) (sort_by l).
Proof. induction l; simpl; [constructor|by apply sort_insert_sorted]. Qed.

Lemma sort_by_StronglySorted l : StronglySorted (le_of leb) (sort_by l).
Proof.
  apply Sorted_StronglySorted; [|apply sort_by_Sorted].
  intros x y z. apply leb_trans.
Qed.

(** Stability: the elements of one equivalence class keep their order. *)
Lemma sort_insert_stable (P : A → Prop) `{!∀ x, Decision (P x)} x l :
  (∀ y z, P y → P z → leb y z = true) →
  filter P (sort_insert x l) = filter P (x :: l).
Proof.
  intros HP. induction l as [|y l IH]; simpl; [done|].
  destruct (leb x y) eqn:Hxy; [done|].
  rewrite !filter_cons in *. destruct (decide (P x)), (decide (P y)); rewrite ?IH; try done.
  rewrite HP in Hxy by done. congruence.
Qed.

Lemma sort_by_stable (P : A → Prop) `{!∀ x, Decision (P x)} l :
  (∀ y z, P y → P z → leb y z = true) → filter P (sort_by l) = filter P l.
Proof.
  intros HP. induction l as [|x l IH]; simpl; [done|].
  rewrite sort_insert_stable by done. rewrite !filter_cons, IH. done.
Qed.

End sort.

(** ** Ordered keys *)

Class OrdKey (K : Type) := {
  key_leb : K → K → bool;
  key_leb_total : TotalLeb key_leb;
  key_leb_antisym x y : key_leb x y = true → key_leb y x = true → x = y;
}.
#[export] Existing Instance key_leb_total.

Lemma key_total {K} `{!OrdKey K} (x y : K) :
  key_leb x y = true ∨ key_leb y x = true.
Proof. apply (leb_total (leb := key_leb)). Qed.

Lemma key_trans {K} `{!OrdKey K} (x y z : K) :
  key_leb x y = true → key_leb y z = true → key_leb x z = true.
Proof. apply (leb_trans (leb := key_leb)). Qed.

(** Sorting by a key, [v.sort_by_key(|x| key(x))]. *)
Definition sort_by_key {A K} `{!OrdKey K} (key : A → K) (l : list A) : list A :=
  sort_by (λ a b, key_leb (key a) (key b)) l.

#[export] Instance leb_on_key {A K} `{!OrdKey K} (key : A → K) :
  TotalLeb (λ a b, key_leb (key a) (key b)).
Proof.
  split; [intros x y; apply key_total|intros x y z; apply key_trans].
Qed.

#[export] Program Instance Z_ord : OrdKey Z := {| key_leb := Z.leb |}.
Next Obligation. split; intros; rewrite ?Z.leb_le in *; lia. Qed.
Next Obligation. intros x y; rewrite !Z.leb_le; lia. Qed.

(** Tuples compare lexicographically, [false < true]. *)
#[export] Program Instance prod_ord {A B} `{!OrdKey A, !OrdKey B} : OrdKey (A * B) :=
  {| key_leb p q := key_leb p.1 q.1 && (negb (key_leb q.1 p.1) || key_leb p.2 q.2) |}.
Next Obligation.
  intros A B ? ?; split.
  - intros [a b] [a' b']; simpl.
    pose proof (key_total a a'); pose proof (key_total b b').
    destruct (key_leb a a'), (key_leb a' a), (key_leb b b'), (key_leb b' b); naive_solver.
  - intros [a b] [a' b'] [a'' b'']; simpl. rewrite !andb_true_iff, !orb_true_iff, !negb_true_iff.
    intros [H1 H2] [H3 H4]. split; [by eapply key_trans|].
    destruct (key_leb a'' a) eqn:H5; [|by left]. right.
    assert (key_leb a' a = true) as H6 by (by eapply key_trans).
    assert (key_leb a'' a' = true) as H7 by (by eapply key_trans).
    destruct H2, H4; try congruence. by eapply key_trans.
Qed.
Next Obligation.
  intros A B ? ? [a b] [a' b']; simpl. rewrite !andb_true_iff, !orb_true_iff, !negb_true_iff.
  intros [H1 H2] [H3 H4]. destruct H2, H4; try congruence.
  f_equal; by apply key_leb_antisym.
Qed.

#[export] Program Instance bool_ord : OrdKey bool := {| key_leb := implb |}.
Next Obligation. split; [intros [] []|intros [] [] []]; simpl; auto. Qed.
Next Obligation. by intros [] []. Qed.

(** Byte strings compare lexicographically, as LMDB orders its keys. *)
Fixpoint lex_leb (l k : list Z) : bool :=
  match l, k with
  | [], _ => true
  | _ :: _, [] => false
  | x :: l', y :: k' => (x <? y) || ((x =? y) && lex_leb l' k')
  end.

#[export] Program Instance bytes_ord : OrdKey (list Z) := {| key_leb := lex_leb |}.
Next Obligation.
  split.
  - induction x as [|x l IH]; intros [|y k]; simpl; auto.
    destruct (IH k) as [->| ->];
      destruct (Z.ltb_spec x y), (Z.ltb_spec y x), (Z.eqb_spec x y), (Z.eqb_spec y x);
      simpl; auto; lia.
  - induction x as [|x l IH]; intros [|y k] [|z m]; simpl; try done.
    rewrite !orb_true_iff, !andb_true_iff, !Z.ltb_lt, !Z.eqb_eq.
    intros [?|[-> ?]] [?|[-> ?]]; [left; lia|left; lia|left; lia|right; eauto].
Qed.
Next Obligation.
  induction x as [|x l IH]; intros [|y k]; simpl; try done.
  rewrite !orb_true_iff, !andb_true_iff, !Z.ltb_lt, !Z.eqb_eq.
  intros [?|[-> ?]] [?|[? ?]]; [lia|lia|lia|f_equal; auto].
Qed.

(** ** Ordered maps *)

Section btree.
Context {K V : Type} `{Countable K, !OrdKey K}.
Implicit Types m : gmap K V.

(** [BTreeMap::iter], [keys], [values]. *)
Definition bt_iter m : list (K * V) := sort_by_key fst (map_to_list m).
Definition bt_keys m : list K := (bt_iter m).*1.
Definition bt_values m : list V := (bt_iter m).*2.

Lemma bt_iter_perm m : bt_iter m ≡ₚ map_to_list m.
Proof. apply sort_by_perm. Qed.

Lemma elem_of_bt_iter m k v : (k, v) ∈ bt_iter m ↔ m !! k = Some v.
Proof. by rewrite bt_iter_perm, elem_of_map_to_list. Qed.

Lemma length_bt_iter m : length (bt_iter m) = size m.
Proof. by rewrite bt_iter_perm, length_map_to_list. Qed.

Lemma bt_keys_NoDup m : NoDup (bt_keys m).
Proof. unfold bt_keys. rewrite bt_iter_perm. apply NoDup_fst_map_to_list. Qed.

Lemma elem_of_bt_keys m k : k ∈ bt_keys m ↔ is_Some (m !! k).
Proof.
  unfold bt_keys. rewrite list_elem_of_fmap. split.
  - intros [[k' v] [-> Hkv%elem_of_bt_iter]]; eauto.
  - intros [v Hv]. exists (k, v). by rewrite elem_of_bt_iter.
Qed.

Lemma elem_of_bt_values m v : v ∈ bt_values m ↔ ∃ k, m !! k = Some v.
Proof.
  unfold bt_values. rewrite list_elem_of_fmap. split.
  - intros [[k v'] [-> Hkv%elem_of_bt_iter]]; eauto.
  - intros [k Hk]. exists (k, v). by rewrite elem_of_bt_iter.
Qed.

Lemma bt_iter_sorted m : StronglySorted (λ p q, key_leb p.1 q.1 = true) (bt_iter m).
Proof. apply (sort_by_StronglySorted (λ p q, key_leb p.1 q.1)). Qed.

Lemma bt_iter_empty : bt_iter (∅ : gmap K V) = [].
Proof. unfold bt_iter. by rewrite map_to_list_empty. Qed.

Lemma bt_iter_nil_inv m : bt_iter m = [] → m = ∅.
Proof.
  intros Hm. apply map_empty. intros k. apply eq_None_not_Some. intros [v Hv].
  apply elem_of_bt_iter in Hv. rewrite Hm in Hv. set_solver.
Qed.

Lemma bt_values_insert m k v :
  m !! k = None → bt_values (<[k := v]> m) ≡ₚ v :: bt_values m.
Proof. intros Hk. unfold bt_values. by rewrite !bt_iter_perm, map_to_list_insert. Qed.

Lemma bt_values_delete m k v :
  m !! k = Some v → bt_values m ≡ₚ v :: bt_values (delete k m).
Proof. intros Hk. unfold bt_values. by rewrite !bt_iter_perm, <-(map_to_list_delete m k v). Qed.

End btree.

Section btree_facts.
Context {K V : Type} `{Countable K, !OrdKey K}.
Implicit Types m : gmap K V.

Lemma bt_iter_insert m k v :
  m !! k = None → bt_iter (<[k := v]> m) ≡ₚ (k, v) :: bt_iter m.
Proof. intros Hk. by rewrite !bt_iter_perm, map_to_list_insert. Qed.

Lemma bt_iter_NoDup m : NoDup (bt_iter m).
Proof. apply (NoDup_fmap_1 fst), bt_keys_NoDup. Qed.

(** Skipping one key while iterating is iterating the map without it. *)
Lemma bt_iter_skip m k :
  filter (λ kv, Some kv.1 ≠ Some k) (bt_iter m) ≡ₚ bt_iter (delete k m).
Proof.
  apply NoDup_Permutation; [apply NoDup_filter, bt_iter_NoDup|apply bt_iter_NoDup|].
  intros [k' v]. rewrite list_elem_of_filter, !elem_of_bt_iter, lookup_delete_Some; simpl.
  naive_solver congruence.
Qed.

Lemma bt_iter_skip_none m
    `{!∀ kv : K * V, Decision (Some kv.1 ≠ (None : option K))} :
  filter (λ kv, Some kv.1 ≠ None) (bt_iter m) = bt_iter m.
Proof. apply filter_all, Forall_forall. intros. congruence. Qed.

Lemma bt_values_filter (P : K * V → Prop) `{!∀ x, Decision (P x)} m :
  bt_values (filter P m) ≡ₚ (filter P (bt_iter m)).*2.
Proof.
  unfold bt_values. f_equiv.
  apply NoDup_Permutation; [apply bt_iter_NoDup|apply NoDup_filter, bt_iter_NoDup|].
  intros [k v]. rewrite list_elem_of_filter, !elem_of_bt_iter, map_lookup_filter_Some.
  naive_solver.
Qed.

End btree_facts.

(** ** Sorted permutations are equal when keys identify elements *)
Lemma sort_by_key_unique {A K} `{!OrdKey K} (key : A → K) (l k : list A) :
  l ≡ₚ k → StronglySorted (λ a b, key_leb (key a) (key b) = true) k → NoDup (key <$> k) →
  sort_by_key key l = k.
Proof.
  intros Hperm Hk Hnd. unfold sort_by_key.
  apply (StronglySorted_unique_strong (le_of (λ a b, key_leb (key a) (key b)))); [| |done|].
  - intros x y Hx Hy Hxy Hyx. rewrite elem_of_sort_by, Hperm in Hx.
    assert (key x = key y) as Hkey by (by apply key_leb_antisym).
    apply list_elem_of_lookup in Hx as [i Hi]. apply list_elem_of_lookup in Hy as [j Hj].
    assert (i = j) as ->; [|congruence].
    eapply NoDup_lookup; [exact Hnd| |]; rewrite list_lookup_fmap;
      [rewrite Hi|rewrite Hj]; simpl; by rewrite ?Hkey.
  - apply sort_by_StronglySorted, _.
  - by rewrite sort_by_perm.
Qed.
