(* ===== verification/Core.v ===== *)
(** * Core: the interface of the [paqus] protocol crate, and the node's parameters

    The node is written against the crates.io package [paqus] (transactions,
    blocks, ledger, consensus, fork choice), whose sources are not part of the
    repository.  The class [Paqus] lists the types and operations the node
    calls, with the signatures the calls show; nothing is assumed of them.
    What a theorem needs of the crate is a separate class of laws, stated next
    to the component that relies on it.

    Byte arrays [\[u8; 64\]] (hashes) and [\[u8; 20\]] (addresses) are integers
    read big endian, so that the derived [Ord] of the arrays is the order of
    the integers. *)

From S2P Require Import Prelude Collections.

(** ** Identifiers and amounts *)

Abbreviation Hash := Z (only parsing).
Abbreviation BlockHash := Z (only parsing).
Abbreviation TransactionHash := Z (only parsing).
Abbreviation Address := Z (only parsing).
Abbreviation Height := Z (only parsing).
Abbreviation Nonce := Z (only parsing).
Abbreviation Amount := Z (only parsing).
Abbreviation Timestamp := Z (only parsing).
Abbreviation bytes := (list Z) (only parsing).

Definition HASH_SIZE : nat := 64.
Definition ADDRESS_SIZE : nat := 20.

(** [Hash(\[0; HASH_SIZE\])] *)
Definition zero_hash : Hash := 0.

(** ** Errors of the crate

    The constructors the node names; the others are numbered. *)

Inductive TransactionError :=
  | FromFuture
  | Expired
  | OtherTransactionError (code : Z).

Inductive StateError :=
  | InvalidNonce
  | BalanceOverflow
  | InsufficientBalance
  | OtherStateError (code : Z).

Inductive LedgerError :=
  | AccountNotFound
  | InvalidState (error : StateError)
  | LedgerDuplicateBlock
  | LedgerInvalidStateRoot
  | OtherLedgerError (code : Z).

Inductive BlockError :=
  | BlockInvalidStateRoot
  | OtherBlockError (code : Z).

Inductive ConsensusError :=
  | UnexpectedDifficulty
  | InvalidBlock (error : BlockError)
  | OtherConsensusError (code : Z).

Inductive ForkChoiceError :=
  | MissingParent
  | ForkDuplicateBlock
  | OtherForkChoiceError (code : Z).

#[export] Instance TransactionError_eq_dec : EqDecision TransactionError.
Proof. solve_decision. Defined.
#[export] Instance StateError_eq_dec : EqDecision StateError.
Proof. solve_decision. Defined.
#[export] Instance LedgerError_eq_dec : EqDecision LedgerError.
Proof. solve_decision. Defined.
#[export] Instance BlockError_eq_dec : EqDecision BlockError.
Proof. solve_decision. Defined.
#[export] Instance ConsensusError_eq_dec : EqDecision ConsensusError.
Proof. solve_decision. Defined.
#[export] Instance ForkChoiceError_eq_dec : EqDecision ForkChoiceError.
Proof. solve_decision. Defined.

(** ** Types of the crate *)

Class PaqusTypes := {
  SignedTransaction : Type;
  Block : Type;
  Account : Type;
  Chain : Type;
  Consensus : Type;
  ForkChoice : Type;
  SignedTransaction_eq_dec :: EqDecision SignedTransaction;
  Block_eq_dec :: EqDecision Block;
  Account_eq_dec :: EqDecision Account;
}.

(** [Ledger { accounts, chain }], as the node builds it literally. *)
Record Ledger `{PaqusTypes} := mkLedger {
  accounts : gmap Address Account;
  chain : Chain;
}.
Arguments mkLedger {_} _ _.

(** A node of the fork-choice index: the fields the node reads. *)
Record ForkNode `{PaqusTypes} := mkForkNode {
  fn_hash : BlockHash;
  fn_height : Height;
  fn_block : Block;
}.
Arguments mkForkNode {_} _ _ _.

(** [CoinbaseTransaction::new(to, subsidy, fees)] *)
Record CoinbaseTransaction := mkCoinbase {
  cb_to : Address;
  cb_subsidy : Amount;
  cb_fees : Amount;
}.
#[export] Instance CoinbaseTransaction_eq_dec : EqDecision CoinbaseTransaction.
Proof. solve_decision. Defined.

(** ** Operations of the crate *)

Class Paqus := {
  paqus_types :: PaqusTypes;

  (** *** [paqus::transaction] *)
  tx_from : SignedTransaction → Address;
  tx_to : SignedTransaction → Address;
  tx_amount : SignedTransaction → Amount;
  tx_fee : SignedTransaction → Amount;
  tx_nonce : SignedTransaction → Nonce;
  tx_timestamp : SignedTransaction → Timestamp;
  tx_hash : SignedTransaction → TransactionHash;
  tx_size : SignedTransaction → Z;
  (** [validate_signed_at(now)], and [validate_signed()] at the instant
      [clock] of the call. *)
  validate_signed_at : SignedTransaction → Timestamp → result TransactionError ();
  validate_signed : Timestamp → SignedTransaction → result TransactionError ();

  (** *** [paqus::block] *)
  block_height : Block → Height;
  block_hash : Block → BlockHash;
  previous_hash : Block → BlockHash;
  block_state_root : Block → Hash;
  miner_address : Block → Address;
  block_difficulty : Block → Z;
  block_timestamp : Block → Timestamp;
  block_nonce : Block → Nonce;
  block_transactions : Block → list SignedTransaction;
  block_coinbase : Block → option CoinbaseTransaction;
  block_is_genesis : Block → bool;
  with_coinbase : Height → BlockHash → Address → Z → Timestamp → Nonce →
    option CoinbaseTransaction → list SignedTransaction → Block;
  set_state_root : Hash → Block → Block;
  set_header_nonce : Nonce → Block → Block;
  set_header_difficulty : Z → Block → Block;

  (** *** [paqus::state] *)
  account_address : Account → Address;
  account_nonce : Account → Nonce;
  account_balance : Account → Amount;
  available_balance_at : Account → Height → Amount;
  unspendable_balance_at : Account → Height → Amount;

  (** *** [paqus::ledger] *)
  ledger_new : Ledger;
  tip_height : Ledger → option Height;
  tip_hash : Ledger → option BlockHash;
  ledger_account : Ledger → Address → option Account;
  ledger_balance : Ledger → Address → option Amount;
  ledger_confirmed_balance : Ledger → Address → option Amount;
  ledger_block : Ledger → Height → option Block;
  ledger_apply_block : Block → SE Ledger LedgerError ();
  ledger_state_root : Ledger → Hash;
  state_root_after_block : Ledger → Block → result LedgerError Hash;
  mintable_subsidy : Ledger → Height → result LedgerError Amount;
  calculate_state_root : gmap Address Account → Hash;
  chain_new : Chain;
  chain_blocks : Chain → list Block;
  chain_insert_block : Block → SE Chain LedgerError ();
  is_snapshot_height : Height → bool;

  (** *** [paqus::ledger::fork_choice] *)
  fc_new : ForkChoice;
  fc_get : ForkChoice → BlockHash → option ForkNode;
  fc_contains : ForkChoice → BlockHash → bool;
  fc_insert_block : Block → SE ForkChoice ForkChoiceError BlockHash;
  fc_best_tip : ForkChoice → option ForkNode;
  fc_ancestor_hashes : ForkChoice → BlockHash → list BlockHash;
  fc_branch_from_ancestor : ForkChoice → BlockHash → BlockHash → option (list Block);

  (** *** [paqus::consensus], [paqus::checkpoint], [paqus::genesis] *)
  consensus_difficulty : Consensus → Z;
  validate_genesis_block_at : Consensus → Block → Timestamp → result ConsensusError ();
  validate_next_block_with_tip_at :
    Consensus → Block → Block → Timestamp → result ConsensusError ();
  retarget_difficulty : Consensus → Z → Timestamp → Timestamp → Z → result ConsensusError Z;
  proof_of_work_hash : Consensus → Block → result ConsensusError Hash;
  validate_proof_of_work_hash_with_difficulty :
    Consensus → Hash → Z → result ConsensusError ();
  validate_checkpoint : Height → BlockHash → bool;
  genesis_block : Block;
  GENESIS_HASH : BlockHash;

  (** *** [paqus::params] *)
  BLOCK_TIME : Z;
  DIFFICULTY_START : Z;
  DIFFICULTY_ADJUSTMENT_INTERVAL : Z;
}.

(** ** Parameters of the node, [runtime::params] *)

Definition MINUTE : Z := 60.
Definition DAY : Z := 24 * 60 * MINUTE.

Definition STORAGE_VERSION : Z := 1.
Definition MAX_RELAY_TRANSACTION_AGE_SECS : Z := DAY.
Definition MAX_RELAY_TRANSACTION_FUTURE_SECS `{Paqus} : Z := BLOCK_TIME.
Definition LOW_FEE_EXPIRY_SECS : Z := 30 * MINUTE.
Definition MEMPOOL_EXPIRY_SECS : Z := DAY.
Definition MAX_MEMPOOL_TXS : Z := 1000.
Definition MAX_MEMPOOL_BYTES : Z := 10 * 1024 * 1024.
Definition MAX_NETWORK_MESSAGE_SIZE : Z := 8 * 1024 * 1024.
Definition BASE_FEE : Z := 2.
Definition DEFAULT_TRANSACTION_FEE : Z := BASE_FEE.
Definition MIN_RELAY_FEE_FLOOR : Z := 1.
Definition DEFAULT_MIN_RELAY_FEE : Z := MIN_RELAY_FEE_FLOOR.
Definition DEFAULT_MARKET_FEE : Z := DEFAULT_TRANSACTION_FEE.

(** ** Laws of block construction

    The constructor [Block::with_coinbase] and the header setters store their
    arguments in the fields the accessors return, and setters leave the other
    fields alone. *)
Class BlockLaws `{Paqus} : Prop := {
  with_coinbase_fields h p m d t n c txs (b := with_coinbase h p m d t n c txs) :
    block_height b = h ∧ previous_hash b = p ∧ miner_address b = m ∧
    block_difficulty b = d ∧ block_timestamp b = t ∧ block_nonce b = n ∧
    block_coinbase b = c ∧ block_transactions b = txs;
  set_state_root_fields r b (b' := set_state_root r b) :
    block_state_root b' = r ∧ block_height b' = block_height b ∧
    previous_hash b' = previous_hash b ∧ miner_address b' = miner_address b ∧
    block_difficulty b' = block_difficulty b ∧ block_timestamp b' = block_timestamp b ∧
    block_nonce b' = block_nonce b ∧ block_coinbase b' = block_coinbase b ∧
    block_transactions b' = block_transactions b;
  set_header_nonce_fields n b (b' := set_header_nonce n b) :
    block_nonce b' = n ∧ block_state_root b' = block_state_root b ∧
    block_height b' = block_height b ∧ previous_hash b' = previous_hash b ∧
    block_difficulty b' = block_difficulty b ∧ block_transactions b' = block_transactions b;
  set_header_nonce_twice n n' b :
    set_header_nonce n (set_header_nonce n' b) = set_header_nonce n b;
  set_header_difficulty_fields d b (b' := set_header_difficulty d b) :
    block_difficulty b' = d ∧ block_state_root b' = block_state_root b ∧
    block_height b' = block_height b ∧ previous_hash b' = previous_hash b ∧
    block_nonce b' = block_nonce b ∧ block_coinbase b' = block_coinbase b ∧
    block_transactions b' = block_transactions b;
}.
