(* ===== verification/Demo.v ===== *)
(** * Demo: a small concrete instance of the protocol crate

    A toy protocol with the signatures of [Core.Paqus], on which the theorems
    are evaluated.  It is not a model of the crate: it shows that the laws the
    theorems ask for can hold together, and gives the witnesses something to
    compute with. *)

From S2P Require Import Prelude Collections Core.

Module Demo.

Record Tx := mkTx {
  d_id : Z; d_from : Z; d_to : Z; d_amount : Z; d_fee : Z; d_nonce : Z; d_time : Z;
}.
#[export] Instance Tx_eq_dec : EqDecision Tx.
Proof. solve_decision. Defined.

Record Blk := mkBlk {
  b_height : Z; b_prev : Z; b_miner : Z; b_diff : Z; b_time : Z; b_nonce : Z;
  b_coinbase : option CoinbaseTransaction; b_txs : list Tx; b_root : Z;
}.
#[export] Instance Blk_eq_dec : EqDecision Blk.
Proof. solve_decision. Defined.

Record Acct := mkAcct { a_addr : Z; a_balance : Z; a_nonce : Z }.
#[export] Instance Acct_eq_dec : EqDecision Acct.
Proof. solve_decision. Defined.

#[local] Instance demo_types : PaqusTypes := {|
  SignedTransaction := Tx; Block := Blk; Account := Acct; Chain := list Blk;
  Consensus := Z; ForkChoice := list Blk;
|}.

Definition blk_hash (b : Blk) : Z :=
  1 + b_height b + 100 * b_miner b + 10000 * b_nonce b + 1000000 * b_prev b.

Definition blk_set_root (r : Z) (b : Blk) : Blk :=
  mkBlk (b_height b) (b_prev b) (b_miner b) (b_diff b) (b_time b) (b_nonce b)
    (b_coinbase b) (b_txs b) r.
Definition blk_set_nonce (n : Z) (b : Blk) : Blk :=
  mkBlk (b_height b) (b_prev b) (b_miner b) (b_diff b) (b_time b) n
    (b_coinbase b) (b_txs b) (b_root b).
Definition blk_set_diff (d : Z) (b : Blk) : Blk :=
  mkBlk (b_height b) (b_prev b) (b_miner b) d (b_time b) (b_nonce b)
    (b_coinbase b) (b_txs b) (b_root b).

(** ** Ledger *)

Definition get_acct (m : gmap Z Acct) (a : Z) : Acct := default (mkAcct a 0 0) (m !! a).

Definition credit (a v : Z) (m : gmap Z Acct) : gmap Z Acct :=
  let x := get_acct m a in <[a := mkAcct a (a_balance x + v) (a_nonce x)]> m.

Definition pay (m : gmap Z Acct) (t : Tx) : option (gmap Z Acct) :=
  x ← m !! d_from t;
  if bool_decide (a_nonce x = d_nonce t ∧ d_amount t + d_fee t ≤ a_balance x) then
    Some (credit (d_to t) (d_amount t)
      (<[d_from t := mkAcct (d_from t) (a_balance x - d_amount t - d_fee t) (a_nonce x + 1)]> m))
  else None.

Definition pay_all (m : gmap Z Acct) (b : Blk) : option (gmap Z Acct) :=
  m1 ← foldl (λ o t, o ≫= λ m, pay m t) (Some m) (b_txs b);
  Some match b_coinbase b with
       | Some c => credit (cb_to c) (cb_subsidy c + cb_fees c) m1
       | None => m1
       end.

Definition root_of (m : gmap Z Acct) : Z :=
  7 + sumZ ((λ x, a_balance x * (a_addr x + 1) + a_nonce x) <$> bt_values m).

Definition chain_extends (c : list Blk) (b : Blk) : bool :=
  bool_decide (Z.of_nat (length (b_txs b)) ≤ 1000) &&
  match last c with
  | None => bool_decide (b_height b = 0)
  | Some t => bool_decide (b_height b = b_height t + 1 ∧ b_prev b = blk_hash t)
  end.

Definition chain_insert (b : Blk) : SE (list Blk) LedgerError () := λ c,
  if chain_extends c b then (Ok tt, c ++ [b]) else (Err LedgerDuplicateBlock, c).

Definition ledger_apply (b : Blk) : SE Ledger LedgerError () := λ l,
  match pay_all (accounts l) b, chain_extends (chain l) b with
  | Some m, true => (Ok tt, mkLedger m (chain l ++ [b]))
  | None, _ => (Err (InvalidState InsufficientBalance), l)
  | _, false => (Err LedgerDuplicateBlock, l)
  end.

(** ** Fork choice: the set of known blocks, the highest first inserted wins *)

Definition node_of (b : Blk) : ForkNode := mkForkNode (blk_hash b) (b_height b) b.

Definition fork_get (f : list Blk) (h : Z) : option ForkNode :=
  node_of <$> find (λ b, bool_decide (blk_hash b = h)) f.

Definition fork_insert (b : Blk) : SE (list Blk) ForkChoiceError Z := λ f,
  if bool_decide (is_Some (fork_get f (blk_hash b))) then (Err ForkDuplicateBlock, f)
  else if bool_decide (b_height b = 0) || bool_decide (is_Some (fork_get f (b_prev b)))
  then (Ok (blk_hash b), f ++ [b]) else (Err MissingParent, f).

Definition fork_best (f : list Blk) : option ForkNode :=
  foldl (λ best b, match best with
    | None => Some (node_of b)
    | Some n => if bool_decide (fn_height n < b_height b) then Some (node_of b) else Some n
    end) None f.

Fixpoint fork_ancestors (fuel : nat) (f : list Blk) (h : Z) : list Z :=
  match fuel, fork_get f h with
  | S fuel', Some n =>
      h :: (if bool_decide (fn_height n = 0) then []
            else fork_ancestors fuel' f (b_prev (fn_block n)))
  | _, _ => []
  end.

Definition fork_branch (f : list Blk) (anc tip : Z) : option (list Blk) :=
  let hs := fork_ancestors (S (length f)) f tip in
  if bool_decide (anc ∈ hs) then
    Some (rev (omap (λ h : Z,
        match fork_get f h with Some n => Some (fn_block n : Blk) | None => None end)
      ((fix until l := match l with
        | [] => []
        | h :: l' => if bool_decide (h = anc) then [] else h :: until l'
        end) hs)))
  else None.

Definition demo_genesis : Blk := mkBlk 0 0 9 0 1000 0 None [] 7.

#[export] Instance demo : Paqus := {|
  paqus_types := demo_types;
  tx_from := d_from; tx_to := d_to; tx_amount := d_amount; tx_fee := d_fee;
  tx_nonce := d_nonce; tx_timestamp := d_time; tx_hash := d_id;
  tx_size _ := 100;
  validate_signed_at t _ :=
    if bool_decide (0 < d_id t) then Ok tt else Err (OtherTransactionError 1);
  validate_signed _ t :=
    if bool_decide (0 < d_id t) then Ok tt else Err (OtherTransactionError 1);
  block_height := b_height; block_hash := blk_hash; previous_hash := b_prev;
  block_state_root := b_root; miner_address := b_miner; block_difficulty := b_diff;
  block_timestamp := b_time; block_nonce := b_nonce; block_transactions := b_txs;
  block_coinbase := b_coinbase; block_is_genesis b := bool_decide (b_height b = 0);
  with_coinbase h p m d t n c txs := mkBlk h p m d t n c txs 0;
  set_state_root := blk_set_root; set_header_nonce := blk_set_nonce;
  set_header_difficulty := blk_set_diff;
  account_address := a_addr; account_nonce := a_nonce; account_balance := a_balance;
  available_balance_at a _ := a_balance a; unspendable_balance_at _ _ := 0;
  ledger_new := mkLedger ∅ [];
  tip_height l := b_height <$> last (chain l);
  tip_hash l := blk_hash <$> last (chain l);
  ledger_account l a := accounts l !! a;
  ledger_balance l a := a_balance <$> accounts l !! a;
  ledger_confirmed_balance l a := a_balance <$> accounts l !! a;
  ledger_block l h := find (λ b, bool_decide (b_height b = h)) (chain l);
  ledger_apply_block := ledger_apply;
  ledger_state_root l := root_of (accounts l);
  state_root_after_block l b :=
    match pay_all (accounts l) b with
    | Some m => Ok (root_of m)
    | None => Err (InvalidState InsufficientBalance)
    end;
  mintable_subsidy _ _ := Ok 50;
  calculate_state_root := root_of;
  chain_new := []; chain_blocks c := c; chain_insert_block := chain_insert;
  is_snapshot_height h := bool_decide (h mod 100 = 0);
  fc_new := []; fc_get := fork_get;
  fc_contains f h := bool_decide (is_Some (fork_get f h));
  fc_insert_block := fork_insert; fc_best_tip := fork_best;
  fc_ancestor_hashes f h := fork_ancestors (S (length f)) f h;
  fc_branch_from_ancestor := fork_branch;
  consensus_difficulty c := c;
  validate_genesis_block_at _ b _ :=
    if bool_decide (b_prev b = 0) then Ok tt else Err (OtherConsensusError 1);
  validate_next_block_with_tip_at _ b p now :=
    if bool_decide (b_height b = b_height p + 1 ∧ b_time p < b_time b ≤ now + 60)
    then Ok tt else Err (OtherConsensusError 2);
  retarget_difficulty _ d first last n := Ok (if bool_decide (last - first < n) then d + 1 else d);
  proof_of_work_hash _ b := Ok (blk_hash b);
  validate_proof_of_work_hash_with_difficulty _ h d :=
    if bool_decide (h mod (d + 1) = 0) then Ok tt else Err (OtherConsensusError 3);
  validate_checkpoint _ _ := true;
  genesis_block := demo_genesis;
  GENESIS_HASH := blk_hash demo_genesis;
  BLOCK_TIME := 60; DIFFICULTY_START := 1; DIFFICULTY_ADJUSTMENT_INTERVAL := 10;
|}.

(** ** Sample data *)

Definition alice : Z := 1.
Definition bob : Z := 2.
Definition genesis_accts : gmap Z Acct :=
  <[alice := mkAcct alice 1000 0]> (<[bob := mkAcct bob 50 0]> ∅).
Definition ledger0 : @Ledger (@paqus_types demo) := mkLedger genesis_accts [demo_genesis].

Definition tx0 : @SignedTransaction (@paqus_types demo) := mkTx 11 alice bob 10 2 0 5000.
Definition tx1 : @SignedTransaction (@paqus_types demo) := mkTx 12 alice bob 20 3 1 5000.
Definition tx1' : @SignedTransaction (@paqus_types demo) := mkTx 13 alice bob 20 9 1 5000.
Definition txb : @SignedTransaction (@paqus_types demo) := mkTx 14 bob alice 5 4 0 5000.

#[export] Instance demo_block_laws : BlockLaws.
Proof. split; intros; repeat split. Qed.

End Demo.
