(* ===== verification/Mempool.v ===== *)
(** * Mempool: the pool of pending transactions ([src/runtime/mempool])

    The pool is a [BTreeMap] from transaction hashes to entries, a policy
    configuration and a byte counter.  [Module Mempool] translates every method
    of [mempool.rs]; the lemmas about it are in [MempoolFacts] and
    [MempoolSelect]. *)

From S2P Require Import Prelude Collections Core.

Module Mempool.

(** ** Data *)

Inductive MempoolError :=
  | DuplicateTransaction
  | FeeTooLow
  | MempoolFull
  | ReplacementFeeTooLow
  | InvalidTransaction (error : TransactionError)
  | InvalidLedgerState (error : LedgerError).

#[export] Instance MempoolError_eq_dec : EqDecision MempoolError.
Proof. solve_decision. Defined.

Record MempoolConfig := mkConfig {
  max_transactions : Z;
  max_bytes : Z;
  transaction_ttl_secs : Z;
  low_fee_ttl_secs : Z;
  min_relay_fee : Z;
  market_fee : Z;
}.

#[export] Instance MempoolConfig_eq_dec : EqDecision MempoolConfig.
Proof. solve_decision. Defined.

Definition default_config : MempoolConfig := {|
  max_transactions := MAX_MEMPOOL_TXS;
  max_bytes := MAX_MEMPOOL_BYTES;
  transaction_ttl_secs := MEMPOOL_EXPIRY_SECS;
  low_fee_ttl_secs := LOW_FEE_EXPIRY_SECS;
  min_relay_fee := DEFAULT_MIN_RELAY_FEE;
  market_fee := DEFAULT_MARKET_FEE;
|}.

Section mempool.
Context `{Paqus}.

Record MempoolEntry := mkEntry {
  entry_transaction : SignedTransaction;
  inserted_at : Timestamp;
}.

Record Mempool := mkMempool {
  transactions : gmap TransactionHash MempoolEntry;
  config : MempoolConfig;
  total_bytes : Z;
}.

#[export] Instance MempoolEntry_eq_dec : EqDecision MempoolEntry.
Proof. solve_decision. Defined.

#[export] Instance Mempool_eq_dec : EqDecision Mempool.
Proof. solve_decision. Defined.

Implicit Types mp : Mempool.

Definition with_config (c : MempoolConfig) : Mempool := mkMempool ∅ c 0.
Definition new : Mempool := with_config default_config.

(** ** Queries *)

Definition get mp (hash : TransactionHash) : option SignedTransaction :=
  entry_transaction <$> transactions mp !! hash.
Definition contains mp (hash : TransactionHash) : bool :=
  bool_decide (is_Some (transactions mp !! hash)).
Definition len mp : Z := Z.of_nat (size (transactions mp)).
Definition is_empty mp : bool := bool_decide (len mp = 0).

(** [transactions()]: the pending transactions in hash order. *)
Definition pending mp : list SignedTransaction :=
  entry_transaction <$> bt_values (transactions mp).

(** ** Removal *)

Definition remove (hash : TransactionHash) mp : option SignedTransaction * Mempool :=
  match transactions mp !! hash with
  | Some entry =>
      (Some (entry_transaction entry),
       mkMempool (delete hash (transactions mp)) (config mp)
         (sat_sub (total_bytes mp) (tx_size (entry_transaction entry))))
  | None => (None, mp)
  end.

Definition clear mp : Mempool := mkMempool ∅ (config mp) 0.

(** The lifetime of an entry depends on its fee. *)
Definition entry_ttl (c : MempoolConfig) (entry : MempoolEntry) : Z :=
  if bool_decide (tx_fee (entry_transaction entry) < market_fee c)
  then low_fee_ttl_secs c else transaction_ttl_secs c.

Definition retained (c : MempoolConfig) (now : Timestamp) (entry : MempoolEntry) : bool :=
  bool_decide (sat_sub now (inserted_at entry) ≤ entry_ttl c entry).

Definition prune_expired (now : Timestamp) mp : Z * Mempool :=
  let kept := filter (λ kv, retained (config mp) now kv.2 = true) (transactions mp) in
  let retained_bytes :=
    foldl (sat_add usize_max) 0
      ((λ entry, tx_size (entry_transaction entry)) <$> bt_values kept) in
  (sat_sub (len mp) (Z.of_nat (size kept)),
   mkMempool kept (config mp) retained_bytes).

(** The transactions of a block leave the pool; the byte counter stays. *)
Definition remove_confirmed (block : Block) mp : Mempool :=
  mkMempool
    (foldl (λ txs tx, delete (tx_hash tx) txs) (transactions mp)
       (block_transactions block))
    (config mp) (total_bytes mp).

(** ** Policy checks *)

Definition validate_fee_policy mp (tx : SignedTransaction) : result MempoolError () :=
  let min_fee := Z.max (min_relay_fee (config mp)) MIN_RELAY_FEE_FLOOR in
  if bool_decide (tx_fee tx < min_fee) then Err FeeTooLow else Ok tt.

Definition validate_timestamp_policy (tx : SignedTransaction) (now : Timestamp) :
    result MempoolError () :=
  if bool_decide (tx_timestamp tx > sat_add u64_max now MAX_RELAY_TRANSACTION_FUTURE_SECS)
  then Err (InvalidTransaction FromFuture)
  else if bool_decide (sat_sub now (tx_timestamp tx) > MAX_RELAY_TRANSACTION_AGE_SECS)
  then Err (InvalidTransaction Expired)
  else Ok tt.

Definition same_slot (tx : SignedTransaction) (entry : MempoolEntry) : bool :=
  bool_decide (tx_from (entry_transaction entry) = tx_from tx) &&
  bool_decide (tx_nonce (entry_transaction entry) = tx_nonce tx).

Definition replacement_candidate mp (tx : SignedTransaction) :
    result MempoolError (option TransactionHash) :=
  match find (λ kv, same_slot tx kv.2) (bt_iter (transactions mp)) with
  | None => Ok None
  | Some (hash, entry) =>
      if bool_decide (tx_fee tx ≤ tx_fee (entry_transaction entry))
      then Err ReplacementFeeTooLow
      else Ok (Some hash)
  end.

(** ** Validation against the ledger *)

Definition invalid_state {A} (e : StateError) : result MempoolError A :=
  Err (InvalidLedgerState (InvalidState e)).

(** One transaction spends from a sender whose next nonce is [nonce] and whose
    spendable balance is [spendable]. *)
Definition spend (tx : SignedTransaction) (nonce : Nonce) (spendable : Amount) :
    result MempoolError (Nonce * Amount) :=
  if bool_decide (tx_nonce tx ≠ nonce) then invalid_state InvalidNonce
  else match checked_add u32_max (tx_amount tx) (tx_fee tx) with
  | None => invalid_state BalanceOverflow
  | Some total =>
      if bool_decide (spendable < total) then invalid_state InsufficientBalance
      else Ok (sat_add u64_max nonce 1, spendable - total)
  end.

Fixpoint spend_all (txs : list SignedTransaction) (nonce : Nonce) (spendable : Amount) :
    result MempoolError (Nonce * Amount) :=
  match txs with
  | [] => Ok (nonce, spendable)
  | tx :: txs' => '(nonce', spendable') ← spend tx nonce spendable;
      spend_all txs' nonce' spendable'
  end.

(** The sender's other pending transactions, in nonce order. *)
Definition pending_from mp (excluded : option TransactionHash) (from : Address) :
    list SignedTransaction :=
  sort_by_key tx_nonce
    (filter (λ tx, tx_from tx = from)
      ((λ kv, entry_transaction kv.2) <$>
        filter (λ kv, Some kv.1 ≠ excluded) (bt_iter (transactions mp)))).

Definition validate_against_ledger_excluding (clock : Timestamp) mp (ledger : Ledger)
    (tx : SignedTransaction) (excluded : option TransactionHash) : result MempoolError () :=
  _ ← map_err InvalidTransaction (validate_signed clock tx);
  _ ← validate_fee_policy mp tx;
  sender ← ok_or (ledger_account ledger (tx_from tx)) (InvalidLedgerState AccountNotFound);
  let current_height := default 0 (tip_height ledger) in
  '(expected_nonce, spendable) ←
    spend_all (pending_from mp excluded (tx_from tx))
      (account_nonce sender) (available_balance_at sender current_height);
  _ ← spend tx expected_nonce spendable;
  Ok tt.

Definition validate_against_ledger (clock : Timestamp) mp (ledger : Ledger)
    (tx : SignedTransaction) : result MempoolError () :=
  _ ← map_err InvalidTransaction (validate_signed clock tx);
  _ ← validate_fee_policy mp tx;
  validate_against_ledger_excluding clock mp ledger tx None.

(** ** Insertion *)

Definition insert_unchecked (tx : SignedTransaction) (now : Timestamp)
    (replacement : option TransactionHash) : SE Mempool MempoolError TransactionHash := λ mp,
  let hash := tx_hash tx in
  if contains mp hash then (Err DuplicateTransaction, mp) else
  let transaction_size := tx_size tx in
  let replacement_size :=
    default 0 ((λ entry, tx_size (entry_transaction entry)) <$>
      (replacement ≫= λ h, transactions mp !! h)) in
  if bool_decide (replacement = None) && bool_decide (max_transactions (config mp) ≤ len mp)
  then (Err MempoolFull, mp) else
  if bool_decide (max_bytes (config mp) <
       sat_add usize_max (sat_sub (total_bytes mp) replacement_size) transaction_size)
  then (Err MempoolFull, mp) else
  let mp1 := match replacement with Some h => (remove h mp).2 | None => mp end in
  (Ok hash,
   mkMempool (<[hash := mkEntry tx now]> (transactions mp1)) (config mp1)
     (sat_add usize_max (total_bytes mp1) transaction_size)).

Definition insert_at (tx : SignedTransaction) (now : Timestamp) :
    SE Mempool MempoolError TransactionHash :=
  modify (λ mp, (prune_expired now mp).2) ;;
  lift (validate_timestamp_policy tx now) ;;
  lift (map_err InvalidTransaction (validate_signed_at tx now)) ;;
  mp ← get_state;
  lift (validate_fee_policy mp tx) ;;
  insert_unchecked tx now None.

Definition insert_validated_at (clock : Timestamp) (ledger : Ledger)
    (tx : SignedTransaction) (now : Timestamp) : SE Mempool MempoolError TransactionHash :=
  modify (λ mp, (prune_expired now mp).2) ;;
  lift (validate_timestamp_policy tx now) ;;
  lift (map_err InvalidTransaction (validate_signed_at tx now)) ;;
  mp ← get_state;
  lift (validate_fee_policy mp tx) ;;
  replacement ← lift (replacement_candidate mp tx);
  lift (validate_against_ledger_excluding clock mp ledger tx replacement) ;;
  insert_unchecked tx now replacement.

(** [SystemTime::now().duration_since(UNIX_EPOCH)], 0 before the epoch. *)
Definition current_unix_timestamp (since_epoch : option Timestamp) : Timestamp := default 0 since_epoch.

Definition insert (since_epoch : option Timestamp) (tx : SignedTransaction) : SE Mempool MempoolError TransactionHash :=
  insert_at tx (current_unix_timestamp since_epoch).

Definition insert_validated (clock : Timestamp) (since_epoch : option Timestamp) (ledger : Ledger)
    (tx : SignedTransaction) : SE Mempool MempoolError TransactionHash :=
  insert_validated_at clock ledger tx (current_unix_timestamp since_epoch).

(** ** Selection of the transactions of a block *)

Abbreviation Senders := (gmap Address (list SignedTransaction)) (only parsing).

Definition by_sender_push (m : Senders) (tx : SignedTransaction) : Senders :=
  <[tx_from tx := default [] (m !! tx_from tx) ++ [tx]]> m.

Definition by_sender mp : Senders :=
  sort_by_key (λ tx, (tx_nonce tx, tx_hash tx)) <$>
    foldl by_sender_push ∅ (pending mp).

Definition cmp_then (c d : comparison) : comparison :=
  match c with Eq => d | _ => c end.

(** A candidate: sender, fee, nonce and hash of the sender's next transaction. *)
Abbreviation candidate := (Address * Amount * Nonce * TransactionHash)%type (only parsing).

Definition candidate_cmp (left right : candidate) : comparison :=
  let '(_, lfee, lnonce, lhash) := left in
  let '(_, rfee, rnonce, rhash) := right in
  cmp_then (lfee ?= rfee) (cmp_then (rnonce ?= lnonce) (rhash ?= lhash)).

(** [Iterator::max_by]: the last of the greatest elements. *)
Definition max_by {A} (cmp : A → A → comparison) (l : list A) : option A :=
  foldl (λ best x, match best with
    | None => Some x
    | Some b => Some (match cmp b x with Gt => b | _ => x end)
    end) None l.

Definition head_candidate (kv : Address * list SignedTransaction) : option candidate :=
  (λ tx, (kv.1, tx_fee tx, tx_nonce tx, tx_hash tx)) <$> head kv.2.

Definition best_sender (m : Senders) : option Address :=
  (λ c, c.1.1.1) <$> max_by candidate_cmp (omap head_candidate (bt_iter m)).

(** One iteration per selected transaction: [count] is [limit - selected.len()]. *)
Fixpoint select_loop (count : nat) (m : Senders) : list SignedTransaction :=
  match count with
  | O => []
  | S count' =>
      match best_sender m with
      | None => []
      | Some sender =>
          match m !! sender with
          | Some (tx :: rest) =>
              tx :: select_loop count'
                (if bool_decide (rest = []) then delete sender m else <[sender := rest]> m)
          | _ => []
          end
      end
  end.

Definition select_for_block mp (limit : Z) : list SignedTransaction :=
  select_loop (Z.to_nat limit) (by_sender mp).

(** ** Candidate blocks *)

Definition create_candidate_block mp (ledger : Ledger) (miner : Address)
    (timestamp : Timestamp) (nonce : Nonce) (transaction_limit : Z) :
    result LedgerError Block :=
  let height :=
    default 0 ((λ h, sat_add u64_max h 1) <$> tip_height ledger) in
  let previous := default zero_hash (tip_hash ledger) in
  let txs := select_for_block mp transaction_limit in
  let fees := wrap u32_max (sumZ (tx_fee <$> txs)) in
  coinbase ←
    (if bool_decide (height = 0) && bool_decide (previous = zero_hash) then Ok None
     else subsidy ← mintable_subsidy ledger height;
          Ok (Some (mkCoinbase miner subsidy fees)));
  let block :=
    with_coinbase height previous miner DIFFICULTY_START timestamp nonce coinbase txs in
  state_root ← state_root_after_block ledger block;
  Ok (set_state_root state_root block).

End mempool.

End Mempool.
