(* ===== verification/MempoolFacts.v ===== *)
(** * MempoolFacts: invariants and admission of the pool of pending transactions

    [pool_bounded] holds of every pool the node can reach; [pool_exact] adds
    that the byte counter is the size of the entries, which [remove_confirmed]
    breaks and the pruning step of every insertion restores. *)

From S2P Require Import Prelude Collections Core Mempool.

Module MempoolFacts.
Import Mempool.

(** Sizes are those of serialized values: [serialized_size() -> usize]. *)
Class TxLaws `{Paqus} : Prop := {
  tx_size_nonneg tx : 0 ≤ tx_size tx;
}.

Section facts.
Context `{Paqus}.
Implicit Types (mp : Mempool) (txs : gmap TransactionHash MempoolEntry).

(** ** The size of the entries *)

Definition entry_size (e : MempoolEntry) : Z := tx_size (entry_transaction e).
Definition pool_bytes txs : Z := sumZ (entry_size <$> bt_values txs).

Lemma pool_bytes_insert txs h e :
  txs !! h = None → pool_bytes (<[h := e]> txs) = entry_size e + pool_bytes txs.
Proof. intros Hh. unfold pool_bytes. by rewrite bt_values_insert. Qed.

Lemma pool_bytes_delete txs h e :
  txs !! h = Some e → pool_bytes txs = entry_size e + pool_bytes (delete h txs).
Proof. intros Hh. unfold pool_bytes. by rewrite (bt_values_delete _ _ _ Hh). Qed.

Lemma pool_bytes_empty : pool_bytes ∅ = 0.
Proof. unfold pool_bytes, bt_values. by rewrite bt_iter_empty. Qed.

(** ** Invariants *)

Definition config_wf (c : MempoolConfig) : Prop :=
  0 ≤ max_transactions c ≤ usize_max ∧ 0 ≤ max_bytes c < usize_max.

(** Entries sit under their hash, the counter bounds the entries from above,
    and both limits of the configuration are respected. *)
Record pool_bounded mp : Prop := {
  pb_config : config_wf (config mp);
  pb_keyed h e : transactions mp !! h = Some e → tx_hash (entry_transaction e) = h;
  pb_bytes : pool_bytes (transactions mp) ≤ total_bytes mp;
  pb_max_bytes : total_bytes mp ≤ max_bytes (config mp);
  pb_len : len mp ≤ max_transactions (config mp);
}.

Definition pool_exact mp : Prop :=
  pool_bounded mp ∧ total_bytes mp = pool_bytes (transactions mp).

Context `{!TxLaws}.

Lemma pool_bytes_nonneg txs : 0 ≤ pool_bytes txs.
Proof.
  apply sumZ_nonneg, Forall_fmap, Forall_forall. intros e _. apply tx_size_nonneg.
Qed.

Lemma pool_bytes_filter_le (P : Z * MempoolEntry → Prop) `{!∀ x, Decision (P x)} txs :
  pool_bytes (filter P txs) ≤ pool_bytes txs.
Proof.
  unfold pool_bytes. rewrite bt_values_filter. unfold bt_values.
  induction (bt_iter txs) as [|[h e] l IH]; csimpl; [done|].
  rewrite filter_cons. assert (0 ≤ entry_size e) by apply tx_size_nonneg.
  case_decide; unfold sumZ in *; csimpl; lia.
Qed.

Lemma with_config_exact c : config_wf c → pool_exact (with_config c).
Proof.
  intros [Hn Hb]. split; [split|]; simpl; try lia.
  - done.
  - intros h e. by rewrite lookup_empty.
  - rewrite pool_bytes_empty. done.
  - unfold len; simpl. rewrite map_size_empty. lia.
  - by rewrite pool_bytes_empty.
Qed.

Lemma clear_exact mp : pool_bounded mp → pool_exact (clear mp).
Proof. intros [Hc _ _ _ _]. apply (with_config_exact _ Hc). Qed.

(** ** Pruning *)

Lemma prune_lookup now mp h e :
  transactions (prune_expired now mp).2 !! h = Some e ↔
  transactions mp !! h = Some e ∧
  sat_sub now (inserted_at e) ≤ entry_ttl (config mp) e.
Proof.
  simpl. rewrite map_lookup_filter_Some. simpl. unfold retained.
  by rewrite bool_decide_eq_true.
Qed.

Lemma prune_total now mp :
  pool_bytes (transactions mp) ≤ usize_max →
  total_bytes (prune_expired now mp).2 = pool_bytes (transactions (prune_expired now mp).2).
Proof.
  intros Hmax. simpl.
  rewrite foldl_sat_add; [|unfold usize_max, u64_max; lia|].
  - pose proof (pool_bytes_filter_le (λ kv, retained (config mp) now kv.2 = true)
      (transactions mp)). unfold pool_bytes, entry_size in *. lia.
  - apply Forall_fmap, Forall_forall. intros e _. apply tx_size_nonneg.
Qed.

Lemma prune_len_le now mp : len (prune_expired now mp).2 ≤ len mp.
Proof.
  unfold len; simpl. apply Nat2Z.inj_le, map_subseteq_size, map_filter_subseteq.
Qed.

Lemma prune_exact now mp : pool_bounded mp → pool_exact (prune_expired now mp).2.
Proof.
  intros [Hc Hk Hb Hm Hl].
  assert (total_bytes (prune_expired now mp).2 =
    pool_bytes (transactions (prune_expired now mp).2)) as Htot.
  { apply prune_total. destruct Hc. lia. }
  split; [split|done]; try done.
  - intros h e [? _]%prune_lookup. eauto.
  - lia.
  - rewrite Htot. simpl.
    pose proof (pool_bytes_filter_le (λ kv, retained (config mp) now kv.2 = true)
      (transactions mp)). lia.
  - pose proof (prune_len_le now mp). simpl in *. lia.
Qed.

(** ** Removal *)

Lemma len_delete_le mp txs h c b :
  txs = delete h (transactions mp) → len (mkMempool txs c b) ≤ len mp.
Proof.
  intros ->. unfold len; simpl. apply Nat2Z.inj_le, map_subseteq_size, delete_subseteq.
Qed.

Lemma remove_bounded h mp : pool_bounded mp → pool_bounded (remove h mp).2.
Proof.
  intros Hmp. unfold remove. destruct (transactions mp !! h) as [e|] eqn:Hh; [|done].
  destruct Hmp as [Hc Hk Hb Hm Hl].
  pose proof (pool_bytes_delete _ _ _ Hh). pose proof (tx_size_nonneg (entry_transaction e)).
  pose proof (pool_bytes_nonneg (delete h (transactions mp))).
  unfold entry_size in *. split; simpl; try done.
  - intros h' e' [_ ?]%lookup_delete_Some. eauto.
  - unfold sat_sub. lia.
  - unfold sat_sub. destruct Hc. lia.
  - etrans; [by eapply len_delete_le|done].
Qed.

Lemma remove_exact h mp : pool_exact mp → pool_exact (remove h mp).2.
Proof.
  intros [Hmp Hex]. split; [by apply remove_bounded|].
  unfold remove. destruct (transactions mp !! h) as [e|] eqn:Hh; [|done]; simpl.
  pose proof (pool_bytes_delete _ _ _ Hh). pose proof (tx_size_nonneg (entry_transaction e)).
  pose proof (pool_bytes_nonneg (delete h (transactions mp))).
  unfold sat_sub, entry_size in *. lia.
Qed.

Lemma pool_bytes_subseteq txs txs' : txs ⊆ txs' → pool_bytes txs ≤ pool_bytes txs'.
Proof.
  intros Hsub.
  assert (txs = filter (λ kv, is_Some (txs !! kv.1)) txs') as ->; [|apply pool_bytes_filter_le].
  apply map_eq. intros h. apply option_eq. intros e.
  rewrite map_lookup_filter_Some; simpl. split.
  - intros Hh. split; [by eapply lookup_weaken|by exists e].
  - intros [Hh' [e' He']]. pose proof (lookup_weaken _ _ _ _ He' Hsub). congruence.
Qed.

Lemma delete_confirmed_lookup (l : list SignedTransaction) txs h :
  foldl (λ m tx, delete (tx_hash tx) m) txs l !! h =
  if decide (h ∈ tx_hash <$> l) then None else txs !! h.
Proof.
  revert txs. induction l as [|tx l IH]; intros txs; csimpl; [done|].
  rewrite IH, lookup_delete. repeat case_decide; set_solver.
Qed.

Lemma remove_confirmed_lookup block mp h :
  transactions (remove_confirmed block mp) !! h =
  if decide (h ∈ tx_hash <$> block_transactions block) then None else transactions mp !! h.
Proof. apply delete_confirmed_lookup. Qed.

Lemma delete_confirmed_subseteq (l : list SignedTransaction) txs :
  foldl (λ m tx, delete (tx_hash tx) m) txs l ⊆ txs.
Proof.
  apply map_subseteq_spec. intros h e. rewrite delete_confirmed_lookup. by case_decide.
Qed.

Lemma remove_confirmed_bounded block mp :
  pool_bounded mp → pool_bounded (remove_confirmed block mp).
Proof.
  intros [Hc Hk Hb Hm Hl]. split; simpl; try done.
  - intros h e Hh. eapply Hk, lookup_weaken; [exact Hh|apply delete_confirmed_subseteq].
  - etrans; [apply pool_bytes_subseteq, delete_confirmed_subseteq|done].
  - etrans; [|exact Hl]. unfold len; simpl.
    apply Nat2Z.inj_le, map_subseteq_size, delete_confirmed_subseteq.
Qed.

(** ** Insertion *)

(** What [insert_unchecked] checks, and the pool it builds. *)
Lemma insert_unchecked_Ok tx now r mp h mp' :
  insert_unchecked tx now r mp = (Ok h, mp') →
  h = tx_hash tx ∧ transactions mp !! h = None ∧
  (r = None → len mp < max_transactions (config mp)) ∧
  mp' = (let mp1 := match r with Some h => (remove h mp).2 | None => mp end in
    mkMempool (<[h := mkEntry tx now]> (transactions mp1)) (config mp1)
      (sat_add usize_max (total_bytes mp1) (tx_size tx))) ∧
  sat_add usize_max (sat_sub (total_bytes mp)
    (default 0 (entry_size <$> (r ≫= λ h, transactions mp !! h)))) (tx_size tx)
    ≤ max_bytes (config mp).
Proof.
  unfold insert_unchecked, contains. intros Hins.
  case_bool_decide as Hc; [done|].
  destruct (bool_decide (r = None) && bool_decide (max_transactions (config mp) ≤ len mp))
    eqn:Hfull; [done|].
  case_bool_decide as Hbytes; [done|]. simplify_eq.
  split_and!; try done.
  - by apply eq_None_not_Some.
  - intros ->. rewrite bool_decide_eq_true_2 in Hfull by done. simpl in Hfull.
    apply bool_decide_eq_false in Hfull. lia.
  - unfold entry_size. lia.
Qed.

Lemma insert_unchecked_Err tx now r mp e mp' :
  insert_unchecked tx now r mp = (Err e, mp') → mp' = mp.
Proof. unfold insert_unchecked. intros. repeat case_match; naive_solver. Qed.

(** A replacement names an entry of the pool. *)
Definition replaces mp (r : option TransactionHash) : Prop :=
  match r with Some h => is_Some (transactions mp !! h) | None => True end.

Lemma remove_lookup_None h k mp :
  transactions mp !! k = None → transactions (remove h mp).2 !! k = None.
Proof.
  intros Hk. unfold remove. destruct (transactions mp !! h); [|done]; simpl.
  rewrite lookup_delete_None. auto.
Qed.

Lemma len_insert mp1 h e c b :
  transactions mp1 !! h = None →
  len (mkMempool (<[h := e]> (transactions mp1)) c b) = len mp1 + 1.
Proof. intros. unfold len; simpl. rewrite map_size_insert_None by done. lia. Qed.

Lemma remove_config h mp : config (remove h mp).2 = config mp.
Proof. unfold remove. by case_match. Qed.

Lemma remove_len h mp :
  is_Some (transactions mp !! h) → len (remove h mp).2 = len mp - 1.
Proof.
  intros [e He]. unfold remove. rewrite He. unfold len; simpl.
  rewrite map_size_delete, He. simpl.
  assert (size (transactions mp) ≠ 0%nat); [|lia].
  intros Hs%map_size_empty_inv. rewrite Hs, lookup_empty in He. done.
Qed.

Lemma remove_total h mp :
  total_bytes (remove h mp).2 =
  sat_sub (total_bytes mp) (default 0 (entry_size <$> (transactions mp !! h))) ∨
  transactions mp !! h = None.
Proof. unfold remove. case_match; simpl; auto. Qed.

Lemma insert_unchecked_exact tx now r mp h mp' :
  insert_unchecked tx now r mp = (Ok h, mp') → replaces mp r →
  pool_exact mp → pool_exact mp'.
Proof.
  intros (-> & Hnone & Hlen & -> & Hbytes)%insert_unchecked_Ok Hr Hex.
  set (mp1 := match r with Some h => _ | None => _ end).
  assert (pool_exact mp1) as [Hmp1 Hex1]
    by (unfold mp1; destruct r; [by apply remove_exact|done]).
  assert (transactions mp1 !! tx_hash tx = None) as Hnone1
    by (unfold mp1; destruct r; [by apply remove_lookup_None|done]).
  assert (config mp1 = config mp) as Hcfg by (unfold mp1; destruct r; [apply remove_config|done]).
  assert (total_bytes mp1 = sat_sub (total_bytes mp)
    (default 0 (entry_size <$> (r ≫= λ h, transactions mp !! h)))) as Htot.
  { unfold mp1. destruct r as [h|]; simpl.
    - destruct (remove_total h mp) as [|Hh]; [done|]. simpl in Hr. rewrite Hh in Hr. by destruct Hr.
    - unfold sat_sub. destruct Hex as [[] ->]. pose proof (pool_bytes_nonneg (transactions mp)). lia. }
  rewrite <-Htot in Hbytes.
  destruct Hmp1 as [Hc Hk Hb Hm Hl].
  pose proof (pool_bytes_nonneg (transactions mp1)). pose proof (tx_size_nonneg tx).
  assert (sat_add usize_max (total_bytes mp1) (tx_size tx) = total_bytes mp1 + tx_size tx) as Hsat.
  { rewrite <-Hcfg in Hbytes. destruct Hc. unfold sat_add in *. lia. }
  split; [split|]; cbn -[len]; rewrite ?Hsat, ?pool_bytes_insert by done;
    unfold entry_size in *; simpl; try lia.
  - done.
  - intros h e [[<- <-]|[? ?]]%lookup_insert_Some; eauto.
  - rewrite Hsat in Hbytes. rewrite Hcfg. lia.
  - rewrite len_insert, Hcfg by done. unfold mp1. destruct r as [h|].
    + rewrite remove_len by done. destruct Hex as [[] _]. lia.
    + specialize (Hlen eq_refl). lia.
Qed.

(** *** The checks of the public insertions *)

Lemma replacement_candidate_Some mp tx h :
  replacement_candidate mp tx = Ok (Some h) →
  ∃ e, transactions mp !! h = Some e ∧ tx_from (entry_transaction e) = tx_from tx ∧
    tx_nonce (entry_transaction e) = tx_nonce tx ∧
    tx_fee (entry_transaction e) < tx_fee tx.
Proof.
  unfold replacement_candidate, same_slot. intros Hr.
  case_match eqn:Hf; [|done]. case_match; subst. case_bool_decide; [done|]. simplify_eq.
  apply find_some in Hf as [Hin%list_elem_of_In Hs]; simpl in Hs.
  apply elem_of_bt_iter in Hin. apply andb_true_iff in Hs as [Hs1 Hs2].
  apply bool_decide_eq_true in Hs1, Hs2. eexists; split_and!; eauto with lia.
Qed.

Lemma replacement_candidate_None mp tx h e :
  replacement_candidate mp tx = Ok None → transactions mp !! h = Some e →
  tx_from (entry_transaction e) = tx_from tx →
  tx_nonce (entry_transaction e) ≠ tx_nonce tx.
Proof.
  unfold replacement_candidate, same_slot. intros Hr He Hfrom Hnonce.
  case_match eqn:Hf; [case_match; by case_bool_decide|].
  assert ((h, e) ∈ bt_iter (transactions mp)) as Hin by (by apply elem_of_bt_iter).
  apply list_elem_of_In, (find_none _ _ Hf) in Hin; simpl in Hin.
  by rewrite !bool_decide_eq_true_2 in Hin.
Qed.

Lemma replacement_candidate_replaces mp tx r :
  replacement_candidate mp tx = Ok r → replaces mp r.
Proof.
  destruct r as [h|]; [|done]. intros (e & He & _)%replacement_candidate_Some. by exists e.
Qed.

(** The policy of the node, before the ledger is looked at. *)
Definition admissible mp (tx : SignedTransaction) (now : Timestamp) : Prop :=
  validate_timestamp_policy tx now = Ok tt ∧ validate_signed_at tx now = Ok tt ∧
  validate_fee_policy mp tx = Ok tt.

Lemma insert_at_Ok tx now mp h mp' :
  insert_at tx now mp = (Ok h, mp') ↔
  admissible (prune_expired now mp).2 tx now ∧
  insert_unchecked tx now None (prune_expired now mp).2 = (Ok h, mp').
Proof.
  unfold insert_at, admissible. se_run; naive_solver.
Qed.

Lemma insert_at_Err tx now mp e mp' :
  insert_at tx now mp = (Err e, mp') → mp' = (prune_expired now mp).2.
Proof. unfold insert_at. se_run; eauto using insert_unchecked_Err; naive_solver. Qed.

Lemma insert_validated_at_Ok clock ledger tx now mp h mp' :
  insert_validated_at clock ledger tx now mp = (Ok h, mp') ↔
  let mp1 := (prune_expired now mp).2 in
  admissible mp1 tx now ∧ ∃ r, replacement_candidate mp1 tx = Ok r ∧
  validate_against_ledger_excluding clock mp1 ledger tx r = Ok tt ∧
  insert_unchecked tx now r mp1 = (Ok h, mp').
Proof.
  unfold insert_validated_at, admissible. cbn zeta.
  se_run; try naive_solver; split; try naive_solver.
  all: intros (?&?&?&?&?); simplify_eq; congruence.
Qed.

Lemma insert_validated_at_Err clock ledger tx now mp e mp' :
  insert_validated_at clock ledger tx now mp = (Err e, mp') →
  mp' = (prune_expired now mp).2.
Proof. unfold insert_validated_at. se_run; eauto using insert_unchecked_Err; naive_solver. Qed.

Lemma insert_at_exact tx now mp :
  pool_bounded mp → pool_exact (insert_at tx now mp).2.
Proof.
  intros Hmp. pose proof (prune_exact now mp Hmp) as Hpr.
  destruct (insert_at tx now mp) as [[h|e] mp'] eqn:Hi; simpl.
  - apply insert_at_Ok in Hi as [_ Hi]. by eapply insert_unchecked_exact.
  - by apply insert_at_Err in Hi as ->.
Qed.

Lemma insert_validated_at_exact clock ledger tx now mp :
  pool_bounded mp → pool_exact (insert_validated_at clock ledger tx now mp).2.
Proof.
  intros Hmp. pose proof (prune_exact now mp Hmp) as Hpr.
  destruct (insert_validated_at clock ledger tx now mp) as [[h|e] mp'] eqn:Hi; simpl.
  - apply insert_validated_at_Ok in Hi as (_ & r & Hr & _ & Hi).
    eapply insert_unchecked_exact; eauto using replacement_candidate_replaces.
  - by apply insert_validated_at_Err in Hi as ->.
Qed.

(** ** Acceptance conditions *)

Lemma validate_timestamp_policy_Ok tx now :
  0 ≤ now → validate_timestamp_policy tx now = Ok tt ↔
  tx_timestamp tx ≤ sat_add u64_max now BLOCK_TIME ∧ now - tx_timestamp tx ≤ DAY.
Proof.
  intros. unfold validate_timestamp_policy, sat_sub, MAX_RELAY_TRANSACTION_FUTURE_SECS,
    MAX_RELAY_TRANSACTION_AGE_SECS.
  assert (0 ≤ DAY) by (unfold DAY, MINUTE; lia).
  repeat case_bool_decide; naive_solver lia.
Qed.

Lemma validate_fee_policy_Ok mp tx :
  validate_fee_policy mp tx = Ok tt ↔ Z.max (min_relay_fee (config mp)) 1 ≤ tx_fee tx.
Proof.
  unfold validate_fee_policy, MIN_RELAY_FEE_FLOOR. case_bool_decide; naive_solver lia.
Qed.

Lemma insert_unchecked_accepts tx now mp :
  pool_exact mp →
  is_ok (insert_unchecked tx now None mp).1 = true ↔
  contains mp (tx_hash tx) = false ∧ len mp < max_transactions (config mp) ∧
  pool_bytes (transactions mp) + tx_size tx ≤ max_bytes (config mp).
Proof.
  intros [[[_ Hc] _ _ _ _] Htot]. unfold insert_unchecked. rewrite Htot. cbn [default].
  rewrite (bool_decide_eq_true_2 (None = None)) by done. cbn [andb].
  pose proof (pool_bytes_nonneg (transactions mp)). pose proof (tx_size_nonneg tx).
  simpl. unfold sat_sub, sat_add.
  destruct (contains mp (tx_hash tx)); [naive_solver|].
  repeat case_bool_decide; simpl; naive_solver lia.
Qed.

(** ** Every reachable pool *)

(** The mutations of the pool the node performs, in any order. *)
Inductive pool_step : relation Mempool :=
  | step_insert tx now mp : pool_step mp (insert_at tx now mp).2
  | step_insert_validated clock ledger tx now mp :
      pool_step mp (insert_validated_at clock ledger tx now mp).2
  | step_remove h mp : pool_step mp (remove h mp).2
  | step_prune now mp : pool_step mp (prune_expired now mp).2
  | step_confirm block mp : pool_step mp (remove_confirmed block mp)
  | step_clear mp : pool_step mp (clear mp).

Lemma pool_step_bounded mp mp' : pool_step mp mp' → pool_bounded mp → pool_bounded mp'.
Proof.
  destruct 1; intros Hmp.
  - by apply insert_at_exact.
  - by apply insert_validated_at_exact.
  - by apply remove_bounded.
  - by apply prune_exact.
  - by apply remove_confirmed_bounded.
  - by apply clear_exact.
Qed.

(** ** Spending in nonce order *)

Lemma spend_Ok tx nonce bal nonce' bal' :
  spend tx nonce bal = Ok (nonce', bal') ↔
  tx_nonce tx = nonce ∧ tx_amount tx + tx_fee tx ≤ u32_max ∧
  tx_amount tx + tx_fee tx ≤ bal ∧ nonce' = sat_add u64_max nonce 1 ∧
  bal' = bal - (tx_amount tx + tx_fee tx).
Proof.
  unfold spend, invalid_state, checked_add.
  repeat case_bool_decide; try case_match; repeat case_bool_decide; naive_solver lia.
Qed.

Lemma spend_all_cons tx l n b r :
  spend_all (tx :: l) n b = Ok r ↔
  ∃ n' b', spend tx n b = Ok (n', b') ∧ spend_all l n' b' = Ok r.
Proof.
  simpl. rewrite result_bind_Ok. split; [intros ([] & ? & ?)|intros (? & ? & ? & ?)]; eauto.
Qed.

Lemma spend_all_app l1 l2 n b r :
  spend_all (l1 ++ l2) n b = Ok r ↔
  ∃ n' b', spend_all l1 n b = Ok (n', b') ∧ spend_all l2 n' b' = Ok r.
Proof.
  revert n b. induction l1 as [|tx l1 IH]; intros n b.
  - simpl. naive_solver.
  - rewrite <-app_comm_cons, !spend_all_cons. setoid_rewrite IH.
    setoid_rewrite spend_all_cons. naive_solver.
Qed.

(** Below the top of the nonce range the nonces of a spendable queue count up
    by one from the account's nonce. *)
Lemma spend_all_nonces l n b n' b' :
  spend_all l n b = Ok (n', b') → n' < u64_max →
  n' = n + Z.of_nat (length l) ∧ tx_nonce <$> l = seqZ n (Z.of_nat (length l)).
Proof.
  revert n b. induction l as [|tx l IH]; intros n b.
  { simpl. intros [= -> ->]. split; [lia|done]. }
  intros (n1 & b1 & (Hn & _ & _ & Hn1 & _)%spend_Ok & Hs)%spend_all_cons Hlt.
  destruct (IH _ _ Hs Hlt) as [Hlen Hseq].
  assert (n1 = n + 1) as -> by (unfold sat_add in Hn1; lia).
  split; [simpl; lia|]. csimpl. rewrite seqZ_cons by lia. rewrite Hn, Hseq.
  do 2 f_equal; lia.
Qed.

Definition cost (tx : SignedTransaction) : Z := tx_amount tx + tx_fee tx.

Lemma spend_all_balance l n b n' b' :
  spend_all l n b = Ok (n', b') → b' = b - sumZ (cost <$> l) ∧ (l ≠ [] → 0 ≤ b').
Proof.
  revert n b. induction l as [|tx l IH]; intros n b.
  { simpl. intros [= -> ->]. split; [lia|done]. }
  intros (n1 & b1 & (_ & _ & Hb & _ & Hb1)%spend_Ok & Hs)%spend_all_cons.
  destruct (IH _ _ Hs) as [-> Hpos]. csimpl. unfold cost in *.
  split; [unfold sumZ; simpl; lia|]. intros _.
  destruct l; [unfold sumZ; simpl; lia|by apply Hpos].
Qed.

Lemma seqZ_nonces_sorted (l : list SignedTransaction) n :
  tx_nonce <$> l = seqZ n (Z.of_nat (length l)) →
  StronglySorted (λ a b, key_leb (tx_nonce a) (tx_nonce b) = true) l.
Proof.
  revert n. induction l as [|tx l IH]; intros n Hl; [constructor|].
  csimpl in *. rewrite seqZ_cons in Hl by lia. injection Hl as Hn Hl.
  replace (Z.pred (Z.of_nat (S (length l)))) with (Z.of_nat (length l)) in Hl by lia.
  constructor; [by eapply IH|]. apply Forall_forall. intros y Hy.
  apply (list_elem_of_fmap_2 tx_nonce) in Hy. rewrite Hl in Hy.
  apply elem_of_seqZ in Hy. simpl. apply Z.leb_le. lia.
Qed.

(** The sender's transactions, unordered. *)
Definition sender_txs txs (from : Address) : list SignedTransaction :=
  filter (λ tx, tx_from tx = from) (entry_transaction <$> bt_values txs).

Definition without txs (r : option TransactionHash) : gmap TransactionHash MempoolEntry :=
  match r with Some h => delete h txs | None => txs end.

Lemma pending_from_perm mp r from :
  pending_from mp r from ≡ₚ sender_txs (without (transactions mp) r) from.
Proof.
  unfold pending_from, sender_txs, sort_by_key. rewrite sort_by_perm. f_equiv.
  unfold bt_values. rewrite <-list_fmap_compose. destruct r as [h|]; simpl.
  - by rewrite bt_iter_skip.
  - by rewrite bt_iter_skip_none.
Qed.

Lemma sender_txs_insert txs h e from :
  txs !! h = None → tx_from (entry_transaction e) = from →
  sender_txs (<[h := e]> txs) from ≡ₚ entry_transaction e :: sender_txs txs from.
Proof.
  intros Hh Hfrom. unfold sender_txs. rewrite bt_values_insert by done. csimpl.
  by rewrite filter_cons, decide_True.
Qed.

Lemma insert_unchecked_transactions tx now r mp h mp' :
  insert_unchecked tx now r mp = (Ok h, mp') →
  transactions mp' = <[h := mkEntry tx now]> (without (transactions mp) r) ∧
  without (transactions mp) r !! h = None.
Proof.
  intros (-> & Hnone & _ & -> & _)%insert_unchecked_Ok. destruct r as [h|]; simpl; [|done].
  unfold remove. destruct (transactions mp !! h) eqn:Hh; simpl.
  - by rewrite lookup_delete_None; auto.
  - by rewrite delete_id.
Qed.

(** The validation of a transaction against the ledger, spelled out. *)
Lemma validate_against_ledger_excluding_Ok clock mp ledger tx r :
  validate_against_ledger_excluding clock mp ledger tx r = Ok tt →
  ∃ sender n' b', ledger_account ledger (tx_from tx) = Some sender ∧
    spend_all (pending_from mp r (tx_from tx) ++ [tx]) (account_nonce sender)
      (available_balance_at sender (default 0 (tip_height ledger))) = Ok (n', b').
Proof.
  unfold validate_against_ledger_excluding. cbn zeta. rewrite !result_bind_Ok.
  intros (? & _ & (? & _ & Hv)%result_bind_Ok).
  apply result_bind_Ok in Hv as (sender & Hs%ok_or_Ok & Hv).
  apply result_bind_Ok in Hv as ([n b] & Hall & Hv).
  apply result_bind_Ok in Hv as ([n' b'] & Hsp & _).
  exists sender, n', b'. split; [done|]. apply spend_all_app. exists n, b. split; [done|].
  apply spend_all_cons. by exists n', b'.
Qed.

Lemma queue_after_insert clock ledger tx now r mp h mp' :
  validate_against_ledger_excluding clock mp ledger tx r = Ok tt →
  insert_unchecked tx now r mp = (Ok h, mp') → tx_nonce tx < u64_max →
  ∃ sender, ledger_account ledger (tx_from tx) = Some sender ∧
    let queue := pending_from mp r (tx_from tx) in
    pending_from mp' None (tx_from tx) = queue ++ [tx] ∧
    tx_nonce <$> (queue ++ [tx]) =
      seqZ (account_nonce sender) (Z.of_nat (length queue) + 1) ∧
    sumZ (cost <$> (queue ++ [tx])) ≤
      available_balance_at sender (default 0 (tip_height ledger)).
Proof.
  intros (sender & n' & b' & Hs & Hspend)%validate_against_ledger_excluding_Ok Hins Hlt.
  exists sender. split; [done|]. cbn zeta. set (queue := pending_from mp r (tx_from tx)) in *.
  assert (tx_nonce <$> (queue ++ [tx]) =
    seqZ (account_nonce sender) (Z.of_nat (length (queue ++ [tx])))) as Hseq.
  { apply spend_all_app in Hspend as (n & b & Hq & (n1 & b1 & Hsp & _)%spend_all_cons).
    apply spend_Ok in Hsp as (Hn & _).
    assert (n < u64_max) as Hn' by lia.
    destruct (spend_all_nonces _ _ _ _ _ Hq Hn') as [Hlen Hqs].
    rewrite fmap_app, Hqs, length_app, Nat2Z.inj_add, seqZ_app by lia. csimpl.
    by rewrite Hn, Hlen. }
  split_and!.
  - apply insert_unchecked_transactions in Hins as [Htr Hnone].
    unfold pending_from. apply sort_by_key_unique.
    + change (sort_by_key tx_nonce) with (sort_by_key (A := SignedTransaction) tx_nonce).
      trans (pending_from mp' None (tx_from tx)).
      { unfold pending_from, sort_by_key. by rewrite sort_by_perm. }
      rewrite pending_from_perm; simpl. rewrite Htr, sender_txs_insert by done. simpl.
      unfold queue. rewrite pending_from_perm. apply Permutation_cons_append.
    + by eapply seqZ_nonces_sorted.
    + rewrite Hseq. apply NoDup_seqZ.
  - rewrite Hseq, length_app. simpl. f_equal. lia.
  - destruct (spend_all_balance _ _ _ _ _ Hspend) as [Hb Hpos].
    assert (0 ≤ b') by (apply Hpos; by destruct queue). lia.
Qed.

End facts.

End MempoolFacts.
