(* ===== verification/MempoolSelect.v ===== *)
(** * MempoolSelect: the choice of transactions for a block

    [select_for_block] repeatedly takes the best next transaction over all
    senders.  The abstract specification [greedy] states that choice step by
    step; [select_loop] refines it, picks each pending transaction at most once
    and keeps the nonce order of every sender. *)

From S2P Require Import Prelude Collections Core Mempool.

Module MempoolSelect.
Import Mempool.

(** ** [max_by] *)

Section max_by.
Context {A : Type} (cmp : A → A → comparison) (le : A → A → Prop).
Context (le_refl : ∀ x, le x x) (le_trans : ∀ x y z, le x y → le y z → le x z).
Context (cmp_Gt : ∀ x y, cmp x y = Gt → le y x) (cmp_le : ∀ x y, cmp x y ≠ Gt → le x y).

Definition max_step (best : option A) (x : A) : option A :=
  match best with
  | None => Some x
  | Some b => Some (match cmp b x with Gt => b | _ => x end)
  end.

Lemma max_fold_spec l b :
  ∃ x, foldl max_step (Some b) l = Some x ∧ (x = b ∨ x ∈ l) ∧ le b x ∧
    ∀ y, y ∈ l → le y x.
Proof.
  revert b. induction l as [|a l IH]; intros b; simpl.
  { exists b. set_solver. }
  destruct (IH (match cmp b a with Gt => b | _ => a end)) as (x & -> & Hx & Hle & Hall).
  exists x. split; [done|].
  destruct (cmp b a) eqn:Hc.
  1,2: assert (le b a) by (apply cmp_le; congruence);
    split_and!; [set_solver|eauto|]; intros y [->|?]%elem_of_cons; eauto.
  split_and!; [set_solver|done|]. intros y [->|?]%elem_of_cons; eauto.
Qed.

Lemma max_by_Some l x : max_by cmp l = Some x → x ∈ l ∧ ∀ y, y ∈ l → le y x.
Proof.
  unfold max_by. destruct l as [|a l]; [done|]. simpl.
  destruct (max_fold_spec l a) as (z & Hz & Hin & Ha & Hall). unfold max_step in Hz.
  rewrite Hz. intros [= ->]. split; [set_solver|]. intros y [->|?]%elem_of_cons; eauto.
Qed.

Lemma max_by_None l : max_by cmp l = None → l = [].
Proof.
  unfold max_by. destruct l as [|a l]; [done|]. simpl.
  destruct (max_fold_spec l a) as (z & Hz & _). unfold max_step in Hz. by rewrite Hz.
Qed.

End max_by.

Section select.
Context `{Paqus}.
Implicit Types (m : gmap Address (list SignedTransaction)) (mp : Mempool).

(** ** The order of candidates *)

(** [better a b]: [a] is at least as good as [b]: a higher fee, then a lower
    nonce, then a lower hash. *)
Definition better (a b : SignedTransaction) : Prop :=
  tx_fee b < tx_fee a ∨
  (tx_fee b = tx_fee a ∧ (tx_nonce a < tx_nonce b ∨
    (tx_nonce a = tx_nonce b ∧ tx_hash a ≤ tx_hash b))).

Definition cand_le (a b : Address * Amount * Nonce * TransactionHash) : Prop :=
  let '(_, fa, na, ha) := a in let '(_, fb, nb, hb) := b in
  fa < fb ∨ (fa = fb ∧ (nb < na ∨ (nb = na ∧ hb ≤ ha))).

Lemma cand_le_refl a : cand_le a a.
Proof. destruct a as [[[]]]; simpl; lia. Qed.

Lemma cand_le_trans a b c : cand_le a b → cand_le b c → cand_le a c.
Proof. destruct a as [[[]]], b as [[[]]], c as [[[]]]; simpl; lia. Qed.

Lemma candidate_cmp_Gt a b : candidate_cmp a b = Gt → cand_le b a.
Proof.
  destruct a as [[[? fa] na] ha], b as [[[? fb] nb] hb]; simpl. unfold cmp_then.
  destruct (Z.compare_spec fa fb), (Z.compare_spec nb na), (Z.compare_spec hb ha);
    simpl; intros; try discriminate; lia.
Qed.

Lemma candidate_cmp_le a b : candidate_cmp a b ≠ Gt → cand_le a b.
Proof.
  destruct a as [[[? fa] na] ha], b as [[[? fb] nb] hb]; simpl. unfold cmp_then.
  destruct (Z.compare_spec fa fb), (Z.compare_spec nb na), (Z.compare_spec hb ha);
    simpl; intros; try congruence; lia.
Qed.

(** ** Queues of senders *)

(** Every queue is non-empty and holds transactions of its sender. *)
Definition queues_wf m : Prop :=
  ∀ s l, m !! s = Some l → l ≠ [] ∧ Forall (λ tx, tx_from tx = s) l.

(** Taking the first transaction of a queue; an empty queue disappears. *)
Definition pop m (s : Address) (rest : list SignedTransaction) :
    gmap Address (list SignedTransaction) :=
  if bool_decide (rest = []) then delete s m else <[s := rest]> m.

Lemma pop_wf m s tx rest : queues_wf m → m !! s = Some (tx :: rest) → queues_wf (pop m s rest).
Proof.
  intros Hwf Hs s' l. unfold pop. case_bool_decide as Hr.
  - rewrite lookup_delete_Some. intros [_ ?]. eauto.
  - rewrite lookup_insert_Some. intros [[<- <-]|[_ ?]]; [|eauto].
    split; [done|]. destruct (Hwf _ _ Hs) as [_ Hall]. by inversion Hall.
Qed.

Lemma pop_lookup m s rest s' :
  default [] (pop m s rest !! s') = if decide (s = s') then rest else default [] (m !! s').
Proof.
  unfold pop. case_bool_decide as Hr; [rewrite lookup_delete|rewrite lookup_insert];
    by case_decide; subst.
Qed.

(** All queued transactions. *)
Definition flat m : list SignedTransaction := concat (map_to_list m).*2.

Lemma flat_delete m s l : m !! s = Some l → flat m ≡ₚ l ++ flat (delete s m).
Proof. intros Hs. unfold flat. by rewrite <-(map_to_list_delete m s l). Qed.

Lemma flat_insert m s l : flat (<[s := l]> m) ≡ₚ l ++ flat (delete s m).
Proof.
  rewrite (flat_delete _ s l) by apply lookup_insert_eq. by rewrite delete_insert_eq.
Qed.

Lemma flat_pop m s tx rest : m !! s = Some (tx :: rest) → flat m ≡ₚ tx :: flat (pop m s rest).
Proof.
  intros Hs. rewrite (flat_delete _ _ _ Hs). simpl. f_equiv. unfold pop.
  case_bool_decide as Hr; [by subst|by rewrite flat_insert].
Qed.

(** ** The best sender *)

Lemma best_sender_Some m s :
  best_sender m = Some s →
  ∃ tx rest, m !! s = Some (tx :: rest) ∧
    ∀ s' tx' rest', m !! s' = Some (tx' :: rest') → better tx tx'.
Proof.
  unfold best_sender. intros (c & Hc & ->)%fmap_Some.
  apply (max_by_Some _ cand_le cand_le_refl cand_le_trans candidate_cmp_Gt candidate_cmp_le)
    in Hc as [Hin Hmax].
  apply list_elem_of_omap in Hin as ([s' l] & Hs'%elem_of_bt_iter & Hhd).
  destruct l as [|tx rest]; [done|]. unfold head_candidate in Hhd; simplify_eq/=.
  exists tx, rest. split; [done|]. intros s tx' rest' Hs.
  specialize (Hmax (s, tx_fee tx', tx_nonce tx', tx_hash tx')).
  simpl in Hmax. unfold better. cut (cand_le (s, tx_fee tx', tx_nonce tx', tx_hash tx')
    (s', tx_fee tx, tx_nonce tx, tx_hash tx)); [simpl; lia|].
  apply Hmax, list_elem_of_omap. exists (s, tx' :: rest').
  split; [by apply elem_of_bt_iter|done].
Qed.

Lemma best_sender_None m : queues_wf m → best_sender m = None → m = ∅.
Proof.
  unfold best_sender. intros Hwf Hn%fmap_None.
  apply (max_by_None _ cand_le cand_le_refl cand_le_trans candidate_cmp_Gt candidate_cmp_le) in Hn.
  apply map_empty. intros s. apply eq_None_not_Some. intros [l Hl].
  destruct (Hwf _ _ Hl) as [Hne _]. destruct l as [|tx rest]; [done|].
  assert ((s, tx_fee tx, tx_nonce tx, tx_hash tx) ∈ omap head_candidate (bt_iter m)) as Hin.
  { apply list_elem_of_omap. exists (s, tx :: rest). by rewrite elem_of_bt_iter. }
  rewrite Hn in Hin. set_solver.
Qed.

(** ** Specification of the selection *)

(** A run of [count] choices on the queues [m]. *)
Inductive greedy : nat → gmap Address (list SignedTransaction) →
    list SignedTransaction → Prop :=
  | greedy_full m : greedy 0 m []
  | greedy_dry count : greedy count ∅ []
  | greedy_pick count m s tx rest l :
      m !! s = Some (tx :: rest) →
      (∀ s' tx' rest', m !! s' = Some (tx' :: rest') → better tx tx') →
      greedy count (pop m s rest) l →
      greedy (S count) m (tx :: l).

Lemma select_loop_greedy count m : queues_wf m → greedy count m (select_loop count m).
Proof.
  revert m. induction count as [|count IH]; intros m Hwf; simpl; [constructor|].
  destruct (best_sender m) as [s|] eqn:Hb.
  - destruct (best_sender_Some _ _ Hb) as (tx & rest & Hs & Hbest).
    rewrite Hs. apply (greedy_pick count m s tx rest); [done..|]. apply IH.
    by apply (pop_wf m s tx).
  - apply best_sender_None in Hb as ->; [constructor|done].
Qed.

Lemma greedy_submseteq count m l : greedy count m l → l ⊆+ flat m.
Proof.
  induction 1 as [| |count m s tx rest l Hs Hbest Hg IH]; [apply submseteq_nil_l..|].
  rewrite (flat_pop _ _ _ _ Hs). by apply submseteq_skip.
Qed.

Lemma greedy_length count m l : greedy count m l → length l = Nat.min count (length (flat m)).
Proof.
  induction 1 as [|count|count m s tx rest l Hs Hbest Hg IH]; simpl; [done| |].
  - unfold flat. rewrite map_to_list_empty. simpl. lia.
  - rewrite (flat_pop _ _ _ _ Hs). simpl. lia.
Qed.

Lemma greedy_prefix count m l s :
  queues_wf m → greedy count m l →
  filter (λ tx, tx_from tx = s) l `prefix_of` default [] (m !! s).
Proof.
  intros Hwf Hg. induction Hg as [| |count m s' tx rest l Hs Hbest Hg IH];
    [apply prefix_nil..|].
  specialize (IH (pop_wf _ _ _ _ Hwf Hs)). rewrite pop_lookup in IH.
  destruct (Hwf _ _ Hs) as [_ [Htx _]%Forall_cons_1].
  rewrite filter_cons, Htx. destruct (decide (s' = s)) as [<-|]; [|done].
  rewrite Hs. simpl. by apply prefix_cons.
Qed.

(** ** Grouping by sender *)

Lemma push_lookup l m s :
  default [] (foldl by_sender_push m l !! s) =
  default [] (m !! s) ++ filter (λ tx, tx_from tx = s) l.
Proof.
  revert m. induction l as [|tx l IH]; intros m; simpl; [by rewrite app_nil_r|].
  rewrite IH. unfold by_sender_push. rewrite lookup_insert, filter_cons.
  case_decide as Hs; simpl; [|done]. subst. by rewrite <-app_assoc.
Qed.

Lemma push_wf l m : queues_wf m → queues_wf (foldl by_sender_push m l).
Proof.
  revert m. induction l as [|tx l IH]; intros m Hwf; simpl; [done|].
  apply IH. unfold by_sender_push. intros s q.
  rewrite lookup_insert_Some. intros [[<- <-]|[_ ?]]; [|eauto].
  split; [by destruct (default [] _)|]. apply Forall_app. split; [|by repeat constructor].
  destruct (m !! tx_from tx) as [q|] eqn:Hq; simpl; [|constructor]. by apply Hwf in Hq as [].
Qed.

Lemma flat_push m tx : flat (by_sender_push m tx) ≡ₚ tx :: flat m.
Proof.
  unfold by_sender_push. rewrite flat_insert.
  destruct (m !! tx_from tx) as [q|] eqn:Hq; simpl.
  - rewrite (flat_delete _ _ _ Hq). rewrite <-app_assoc. simpl. by rewrite Permutation_middle.
  - by rewrite delete_id.
Qed.

Lemma flat_foldl_push l m : flat (foldl by_sender_push m l) ≡ₚ l ++ flat m.
Proof.
  revert m. induction l as [|tx l IH]; intros m; simpl; [done|].
  rewrite IH, flat_push. by rewrite Permutation_middle.
Qed.

Lemma flat_fmap_perm (f : list SignedTransaction → list SignedTransaction) m :
  (∀ l, f l ≡ₚ l) → flat (f <$> m) ≡ₚ flat m.
Proof.
  intros Hf. unfold flat. rewrite map_to_list_fmap.
  induction (map_to_list m) as [|[s l] q IH]; csimpl; [done|]. by rewrite Hf, IH.
Qed.

Lemma by_sender_flat mp : flat (by_sender mp) ≡ₚ pending mp.
Proof.
  unfold by_sender. rewrite flat_fmap_perm by (intros; apply sort_by_perm).
  rewrite flat_foldl_push. unfold flat. rewrite map_to_list_empty. simpl. by rewrite app_nil_r.
Qed.

Lemma by_sender_lookup mp s :
  default [] (by_sender mp !! s) =
  sort_by_key (λ tx, (tx_nonce tx, tx_hash tx)) (filter (λ tx, tx_from tx = s) (pending mp)).
Proof.
  unfold by_sender. rewrite lookup_fmap.
  pose proof (push_lookup (pending mp) ∅ s) as Hp. rewrite lookup_empty in Hp. simpl in Hp.
  rewrite <-Hp. by destruct (foldl _ _ _ !! s).
Qed.

Lemma by_sender_wf mp : queues_wf (by_sender mp).
Proof.
  intros s l. unfold by_sender. rewrite lookup_fmap. intros (q & Hq & ->)%fmap_Some.
  assert (queues_wf ∅) as Hemp by (intros ??; by rewrite lookup_empty).
  apply (push_wf (pending mp) ∅ Hemp) in Hq as [Hne Hall]. unfold sort_by_key. split.
  - intros ?%sort_by_nil_inv. done.
  - by rewrite sort_by_perm.
Qed.

Lemma pending_length mp : length (pending mp) = size (transactions mp).
Proof. unfold pending, bt_values. by rewrite !length_fmap, length_bt_iter. Qed.

End select.

End MempoolSelect.
