(* ===== verification/MempoolProps.v ===== *)
(** * MempoolProps: what the pool of pending transactions guarantees *)

From S2P Require Import Prelude Collections Core Mempool MempoolFacts MempoolSelect Demo.

Module MempoolProps.
Import Mempool MempoolFacts MempoolSelect.

Section props.
Context `{Paqus}.

(** C8: every pool reachable from an empty one, by insertions (validated or
    not), removals, pruning, confirmation of blocks and clearing in any order,
    stores entries under their own hash, never holds more entries than
    [max_transactions], and its byte counter is between the size of the stored
    transactions and [max_bytes]. *)
Theorem reachable_pool_bounded `{!TxLaws} c mp :
  config_wf c → rtc pool_step (with_config c) mp → pool_bounded mp.
Proof.
  intros Hc. apply (rtc_ind_r pool_bounded); [by apply with_config_exact|].
  intros; by eapply pool_step_bounded.
Qed.

(** An insertion, whether it succeeds or fails, leaves a pool whose byte
    counter is exactly the size of the stored transactions, even when the
    counter had drifted before. *)
Theorem insertion_counts_bytes `{!TxLaws} mp clock ledger tx now :
  pool_bounded mp →
  pool_exact (insert_at tx now mp).2 ∧
  pool_exact (insert_validated_at clock ledger tx now mp).2.
Proof. intros. split; [by apply insert_at_exact|by apply insert_validated_at_exact]. Qed.

(** [remove_confirmed] takes the transactions of a block out of the pool
    without touching the byte counter: as soon as the block confirms a pending
    transaction, the counter exceeds the size of the stored transactions. *)
Theorem remove_confirmed_overcounts `{!TxLaws} mp block tx e :
  pool_exact mp → tx ∈ block_transactions block →
  transactions mp !! tx_hash tx = Some e → 0 < entry_size e →
  total_bytes (remove_confirmed block mp) = total_bytes mp ∧
  pool_bytes (transactions (remove_confirmed block mp)) < total_bytes (remove_confirmed block mp).
Proof.
  intros [_ Htot] Hin He Hsize. split; [done|].
  change (total_bytes (remove_confirmed block mp)) with (total_bytes mp).
  rewrite Htot, (pool_bytes_delete _ _ _ He).
  enough (pool_bytes (transactions (remove_confirmed block mp)) ≤
    pool_bytes (delete (tx_hash tx) (transactions mp))) by lia.
  apply pool_bytes_subseteq, map_subseteq_spec. intros h e'.
  rewrite remove_confirmed_lookup, lookup_delete_Some. case_decide as Hh; [done|].
  intros Hh'. split; [|done]. intros <-. apply Hh, list_elem_of_fmap. eauto.
Qed.

(** C12: a transaction accepted by [insert_validated_at] closes its sender's
    queue: the sender's pending transactions, sorted by nonce, are the earlier
    ones followed by the new one, their nonces count up by one from the nonce
    of the account, and together they spend at most the balance available at
    the tip. *)
Theorem accepted_transaction_fits_queue clock ledger tx now mp h mp' :
  insert_validated_at clock ledger tx now mp = (Ok h, mp') → tx_nonce tx < u64_max →
  h = tx_hash tx ∧ get mp' h = Some tx ∧
  ∃ sender queue, ledger_account ledger (tx_from tx) = Some sender ∧
    pending_from mp' None (tx_from tx) = queue ++ [tx] ∧
    tx_nonce <$> (queue ++ [tx]) =
      seqZ (account_nonce sender) (Z.of_nat (length queue) + 1) ∧
    sumZ (cost <$> (queue ++ [tx])) ≤
      available_balance_at sender (default 0 (tip_height ledger)).
Proof.
  intros (_ & r & _ & Hv & Hins)%insert_validated_at_Ok Hlt.
  destruct (insert_unchecked_transactions _ _ _ _ _ _ Hins) as [Htr _].
  split; [by apply insert_unchecked_Ok in Hins as []|].
  split; [unfold get; by rewrite Htr, lookup_insert_eq|].
  destruct (queue_after_insert _ _ _ _ _ _ _ _ Hv Hins Hlt) as (sender & Hs & Hq).
  exists sender. eexists. split; [done|exact Hq].
Qed.

(** When a transaction of the same sender and nonce is pending, an accepted
    transaction pays a strictly higher fee and takes its place; every other
    pending transaction of the sender has a lower nonce, so only the last one
    of a queue can be replaced. *)
Theorem replacement_raises_fee clock ledger tx now mp h mp' h0 e0 :
  insert_validated_at clock ledger tx now mp = (Ok h, mp') → tx_nonce tx < u64_max →
  transactions (prune_expired now mp).2 !! h0 = Some e0 →
  tx_from (entry_transaction e0) = tx_from tx →
  tx_nonce (entry_transaction e0) = tx_nonce tx →
  ∃ old eold, transactions (prune_expired now mp).2 !! old = Some eold ∧
    tx_from (entry_transaction eold) = tx_from tx ∧
    tx_nonce (entry_transaction eold) = tx_nonce tx ∧
    tx_fee (entry_transaction eold) < tx_fee tx ∧
    contains mp' old = false ∧
    Forall (λ t, t = tx ∨ tx_nonce t < tx_nonce tx) (pending_from mp' None (tx_from tx)).
Proof.
  intros (_ & r & Hr & Hv & Hins)%insert_validated_at_Ok Hlt He0 Hfrom Hnonce.
  destruct r as [old|]; [|by eapply replacement_candidate_None in Hr].
  destruct (replacement_candidate_Some _ _ _ Hr) as (eold & Hold & Hf & Hn & Hfee).
  exists old, eold. split_and!; try done.
  - destruct (insert_unchecked_transactions _ _ _ _ _ _ Hins) as [Htr Hnone].
    apply bool_decide_eq_false, eq_None_not_Some. rewrite Htr. unfold without.
    apply insert_unchecked_Ok in Hins as (-> & Hnew & _).
    assert (tx_hash tx ≠ old) by (intros <-; by rewrite Hold in Hnew).
    by rewrite lookup_insert_ne, lookup_delete_eq.
  - destruct (queue_after_insert _ _ _ _ _ _ _ _ Hv Hins Hlt) as (sender & _ & Hall).
    cbn zeta in Hall. destruct Hall as (Hq & Hseq & _). rewrite Hq. clear Hq.
    generalize dependent (pending_from (prune_expired now mp).2 (Some old) (tx_from tx)).
    intros queue Hseq. apply Forall_app. split; [|by repeat constructor].
    rewrite fmap_app, seqZ_app in Hseq by lia. apply app_inj_1 in Hseq as [Hs1 Hs2];
      [|rewrite length_fmap, length_seqZ; lia].
    csimpl in Hs2. rewrite seqZ_cons in Hs2 by lia. injection Hs2 as Hs2.
    apply Forall_forall. intros t Ht. right.
    apply (list_elem_of_fmap_2 tx_nonce) in Ht. rewrite Hs1 in Ht.
    apply elem_of_seqZ in Ht. lia.
Qed.

(** A rejected insertion changes nothing but the pruning of expired
    entries it starts with. *)
Theorem failed_insertion_only_prunes clock ledger tx now mp e mp' :
  insert_at tx now mp = (Err e, mp') ∨
  insert_validated_at clock ledger tx now mp = (Err e, mp') →
  mp' = (prune_expired now mp).2.
Proof. intros [?%insert_at_Err|?%insert_validated_at_Err]; done. Qed.

(** [insert_at] accepts a transaction exactly when its timestamp lies
    between one day before and one block time after [now], its signature check
    succeeds, its fee reaches the relay fee (never below one unit), it is not
    pending yet, and the pruned pool has room for one more entry and for its
    bytes. *)
Theorem insert_at_accepts_iff `{!TxLaws} tx now mp :
  pool_bounded mp → 0 ≤ now →
  let pool := (prune_expired now mp).2 in
  is_ok (insert_at tx now mp).1 = true ↔
  tx_timestamp tx ≤ sat_add u64_max now BLOCK_TIME ∧ now - tx_timestamp tx ≤ DAY ∧
  validate_signed_at tx now = Ok tt ∧
  Z.max (min_relay_fee (config mp)) 1 ≤ tx_fee tx ∧
  contains pool (tx_hash tx) = false ∧
  len pool < max_transactions (config mp) ∧
  pool_bytes (transactions pool) + tx_size tx ≤ max_bytes (config mp).
Proof.
  intros Hmp Hnow pool. destruct (prune_exact now mp Hmp) as [Hb Htot]. fold pool in Hb, Htot.
  assert (config pool = config mp) as Hcfg by done.
  assert (is_ok (insert_at tx now mp).1 = true ↔
    admissible pool tx now ∧ is_ok (insert_unchecked tx now None pool).1 = true) as ->.
  { split.
    - destruct (insert_at tx now mp) as [[h|] mp'] eqn:Hi; [intros _|done].
      apply insert_at_Ok in Hi as [? Hi]. unfold pool. by rewrite Hi.
    - intros [Ha Hok]. destruct (insert_unchecked tx now None pool) as [[h|] mp'] eqn:Hi; [|done].
      assert (insert_at tx now mp = (Ok h, mp')) as ->; [by apply insert_at_Ok|done]. }
  unfold admissible.
  rewrite validate_timestamp_policy_Ok, validate_fee_policy_Ok, insert_unchecked_accepts by done.
  rewrite Hcfg. naive_solver.
Qed.

(** Pruning keeps exactly the entries within their lifetime, which is the
    short one for fees under the market fee; it reports the number of entries
    dropped, and pruning again at the same instant changes nothing. *)
Theorem prune_expired_exact now mp :
  0 ≤ low_fee_ttl_secs (config mp) → 0 ≤ transaction_ttl_secs (config mp) →
  let '(dropped, mp') := prune_expired now mp in
  (∀ h e, transactions mp' !! h = Some e ↔ transactions mp !! h = Some e ∧
    now - inserted_at e ≤
      (if bool_decide (tx_fee (entry_transaction e) < market_fee (config mp))
       then low_fee_ttl_secs (config mp) else transaction_ttl_secs (config mp))) ∧
  dropped = len mp - len mp' ∧ prune_expired now mp' = (0, mp').
Proof.
  intros Hlow Httl. pose proof (prune_len_le now mp) as Hlen.
  pose proof (prune_lookup now mp) as Hlook.
  destruct (prune_expired now mp) as [dropped mp'] eqn:Hp. cbn [snd] in *. split_and!.
  - intros h e. rewrite Hlook. unfold sat_sub, entry_ttl. case_bool_decide; naive_solver lia.
  - unfold prune_expired in Hp. simplify_eq. unfold len in *. simpl in *. unfold sat_sub. lia.
  - unfold prune_expired in Hp. simplify_eq. unfold prune_expired, sat_sub, len; simpl.
    rewrite map_filter_filter_l by done. f_equal. lia.
Qed.

(** C13: the selection of transactions for a block refines the greedy
    specification: each step takes, among the first transactions of all
    senders' queues, one with the highest fee (then the lowest nonce, then the
    lowest hash), and stops only at the limit or when no queue is left. *)
Theorem selection_is_greedy mp limit :
  greedy (Z.to_nat limit) (by_sender mp) (select_for_block mp limit).
Proof. apply select_loop_greedy, by_sender_wf. Qed.

(** The selection takes each pending transaction at most once, as many as
    the limit and the pool allow, and from each sender an initial segment of
    that sender's pending transactions in nonce order. *)
Theorem selection_sound mp limit :
  let selected := select_for_block mp limit in
  selected ⊆+ pending mp ∧
  length selected = Nat.min (Z.to_nat limit) (size (transactions mp)) ∧
  ∀ s, filter (λ tx, tx_from tx = s) selected `prefix_of`
    sort_by_key (λ tx, (tx_nonce tx, tx_hash tx)) (filter (λ tx, tx_from tx = s) (pending mp)).
Proof.
  cbn zeta. pose proof (select_loop_greedy (Z.to_nat limit) _ (by_sender_wf mp)) as Hg.
  fold (select_for_block mp limit) in Hg. split_and!.
  - rewrite <-by_sender_flat. by eapply greedy_submseteq.
  - by rewrite (greedy_length _ _ _ Hg), by_sender_flat, pending_length.
  - intros s. rewrite <-by_sender_lookup. eapply greedy_prefix; [apply by_sender_wf|done].
Qed.

(** A candidate block extends the tip of the ledger: its height is one
    more than the tip's, its parent is the tip, it carries the selected
    transactions and the state root the ledger computes for it; past genesis
    its coinbase pays the miner the subsidy the ledger allows and the fees of
    the selected transactions. *)
Theorem candidate_block_extends_tip `{!BlockLaws} mp ledger miner now nonce limit tip hash block :
  tip_height ledger = Some tip → tip_hash ledger = Some hash → 0 ≤ tip < u64_max →
  Forall (λ tx, 0 ≤ tx_fee tx) (pending mp) →
  sumZ (tx_fee <$> select_for_block mp limit) ≤ u32_max →
  create_candidate_block mp ledger miner now nonce limit = Ok block →
  block_height block = tip + 1 ∧ previous_hash block = hash ∧
  block_transactions block = select_for_block mp limit ∧
  (∃ subsidy, mintable_subsidy ledger (tip + 1) = Ok subsidy ∧
    block_coinbase block = Some (mkCoinbase miner subsidy
      (sumZ (tx_fee <$> select_for_block mp limit)))) ∧
  ∃ unrooted, block = set_state_root (block_state_root block) unrooted ∧
    state_root_after_block ledger unrooted = Ok (block_state_root block).
Proof.
  intros Ht Hh Hrange Hfees Hsum. unfold create_candidate_block. rewrite Ht, Hh.
  cbn [fmap option_fmap option_map from_option id]. cbn zeta.
  assert (sat_add u64_max tip 1 = tip + 1) as -> by (unfold sat_add; lia).
  rewrite (bool_decide_eq_false_2 (tip + 1 = 0)) by lia. simpl andb. cbn iota.
  rewrite wrap_small; cycle 1.
  { split; [|done]. apply sumZ_nonneg, Forall_fmap, Forall_forall. intros tx Htx.
    rewrite Forall_forall in Hfees. apply Hfees. eapply elem_of_submseteq; [exact Htx|].
    rewrite <-by_sender_flat. eapply greedy_submseteq, select_loop_greedy, by_sender_wf. }
  intros (c & (subsidy & Hs & [= <-])%result_bind_Ok & (r & Hr & [= <-])%result_bind_Ok)%result_bind_Ok.
  match type of Hr with state_root_after_block _ ?b = _ => set (b0 := b) in * end.
  destruct (set_state_root_fields r b0) as (Hroot & E1 & E2 & _ & _ & _ & _ & E3 & E4).
  rewrite Hroot, E1, E2, E3, E4. unfold b0.
  match goal with |- context [with_coinbase ?h ?p ?m ?d ?t ?n ?c ?l] =>
    destruct (with_coinbase_fields h p m d t n c l) as (F1 & F2 & _ & _ & _ & _ & F3 & F4) end.
  rewrite F1, F2, F3, F4. split_and!; eauto.
Qed.

End props.

(** ** Witnesses on the demo protocol *)

Import Demo.

#[export] Instance demo_tx_laws : TxLaws.
Proof. split. intros tx. simpl. lia. Qed.

Definition pool0 : Mempool := new.
Definition pool1 : Mempool := (insert_validated_at 5000 ledger0 tx0 5000 pool0).2.
Definition pool2 : Mempool := (insert_validated_at 5000 ledger0 tx1 5001 pool1).2.
Definition block1 : Block := mkBlk 1 (blk_hash demo_genesis) 9 1 6000 0 None [tx0] 0.

Definition candidate1 : Block :=
  match create_candidate_block pool2 ledger0 9 7000 0 10 with Ok b => b | Err _ => block1 end.

Lemma default_config_wf : config_wf default_config.
Proof. split; by_eval. Qed.

Lemma pool0_exact : pool_exact pool0.
Proof. exact (with_config_exact _ default_config_wf). Qed.

Lemma pool1_exact : pool_exact pool1.
Proof. exact (insert_validated_at_exact _ _ _ _ _ (proj1 pool0_exact)). Qed.

Lemma pool2_exact : pool_exact pool2.
Proof. exact (insert_validated_at_exact _ _ _ _ _ (proj1 pool1_exact)). Qed.

Lemma reachable_pool_bounded_witness :
  size (transactions pool2) = 2%nat ∧ pool_bounded (remove_confirmed block1 pool2).
Proof.
  split; [by_eval|].
  apply (reachable_pool_bounded default_config); [apply default_config_wf|].
  eapply rtc_l; [apply (step_insert_validated 5000 ledger0 tx0 5000)|].
  eapply rtc_l; [apply (step_insert_validated 5000 ledger0 tx1 5001)|].
  apply rtc_once, (step_confirm block1).
Defined.

Lemma insertion_counts_bytes_witness :
  total_bytes pool2 = 200 ∧ pool_exact (insert_at txb 5002 pool2).2 ∧
  pool_exact (insert_validated_at 5002 ledger0 txb 5002 pool2).2.
Proof.
  split; [by_eval|]. apply (insertion_counts_bytes pool2 5002 ledger0 txb 5002).
  exact (proj1 pool2_exact).
Defined.

Lemma remove_confirmed_overcounts_witness :
  total_bytes (remove_confirmed block1 pool2) = total_bytes pool2 ∧
  pool_bytes (transactions (remove_confirmed block1 pool2))
    < total_bytes (remove_confirmed block1 pool2).
Proof.
  apply (remove_confirmed_overcounts pool2 block1 tx0 (mkEntry tx0 5000)).
  - exact pool2_exact.
  - simpl. set_solver.
  - by_eval.
  - by_eval.
Defined.

Lemma accepted_transaction_fits_queue_witness :
  tx_hash tx1 = tx_hash tx1 ∧ get pool2 (tx_hash tx1) = Some tx1 ∧
  ∃ sender queue, ledger_account ledger0 (tx_from tx1) = Some sender ∧
    pending_from pool2 None (tx_from tx1) = queue ++ [tx1] ∧
    tx_nonce <$> (queue ++ [tx1]) =
      seqZ (account_nonce sender) (Z.of_nat (length queue) + 1) ∧
    sumZ (cost <$> (queue ++ [tx1])) ≤
      available_balance_at sender (default 0 (tip_height ledger0)).
Proof.
  apply (accepted_transaction_fits_queue 5000 ledger0 tx1 5001 pool1); by_eval.
Defined.

Lemma replacement_raises_fee_witness :
  ∃ old eold, transactions (prune_expired 5002 pool2).2 !! old = Some eold ∧
    tx_from (entry_transaction eold) = tx_from tx1' ∧
    tx_nonce (entry_transaction eold) = tx_nonce tx1' ∧
    tx_fee (entry_transaction eold) < tx_fee tx1' ∧
    contains (insert_validated_at 5002 ledger0 tx1' 5002 pool2).2 old = false ∧
    Forall (λ t, t = tx1' ∨ tx_nonce t < tx_nonce tx1')
      (pending_from (insert_validated_at 5002 ledger0 tx1' 5002 pool2).2 None (tx_from tx1')).
Proof.
  apply (replacement_raises_fee 5002 ledger0 tx1' 5002 pool2 13 _ 12 (mkEntry tx1 5001));
    by_eval.
Defined.

Lemma failed_insertion_only_prunes_witness :
  (insert_at tx0 5002 pool2).2 = (prune_expired 5002 pool2).2.
Proof.
  apply (failed_insertion_only_prunes 5002 ledger0 tx0 5002 pool2 DuplicateTransaction).
  left. by_eval.
Defined.

Lemma insert_at_accepts_iff_witness :
  let pool := (prune_expired 5002 pool2).2 in
  is_ok (insert_at txb 5002 pool2).1 = true ↔
  tx_timestamp txb ≤ sat_add u64_max 5002 BLOCK_TIME ∧ 5002 - tx_timestamp txb ≤ DAY ∧
  validate_signed_at txb 5002 = Ok tt ∧
  Z.max (min_relay_fee (config pool2)) 1 ≤ tx_fee txb ∧
  contains pool (tx_hash txb) = false ∧
  len pool < max_transactions (config pool2) ∧
  pool_bytes (transactions pool) + tx_size txb ≤ max_bytes (config pool2).
Proof. apply (insert_at_accepts_iff txb 5002 pool2); [exact (proj1 pool2_exact)|lia]. Defined.

Lemma prune_expired_exact_witness :
  let '(dropped, mp') := prune_expired 100000 pool2 in
  (∀ h e, transactions mp' !! h = Some e ↔ transactions pool2 !! h = Some e ∧
    100000 - inserted_at e ≤
      (if bool_decide (tx_fee (entry_transaction e) < market_fee (config pool2))
       then low_fee_ttl_secs (config pool2) else transaction_ttl_secs (config pool2))) ∧
  dropped = len pool2 - len mp' ∧ prune_expired 100000 mp' = (0, mp').
Proof. apply (prune_expired_exact 100000 pool2); by_eval. Defined.

Lemma candidate_block_extends_tip_witness :
  create_candidate_block pool2 ledger0 9 7000 0 10 = Ok candidate1 ∧
  block_height candidate1 = 0 + 1 ∧ previous_hash candidate1 = blk_hash demo_genesis ∧
  block_transactions candidate1 = select_for_block pool2 10 ∧
  (∃ subsidy, mintable_subsidy ledger0 (0 + 1) = Ok subsidy ∧
    block_coinbase candidate1 = Some (mkCoinbase 9 subsidy
      (sumZ (tx_fee <$> select_for_block pool2 10)))) ∧
  ∃ unrooted, candidate1 = set_state_root (block_state_root candidate1) unrooted ∧
    state_root_after_block ledger0 unrooted = Ok (block_state_root candidate1).
Proof.
  split; [by_eval|].
  apply (candidate_block_extends_tip pool2 ledger0 9 7000 0 10 0 (blk_hash demo_genesis));
    by_eval.
Defined.

End MempoolProps.
