(* ===== verification/Miner.v ===== *)
(** * Miner: preparing and mining candidate blocks ([src/runtime/miner/miner.rs]) *)

From S2P Require Import Prelude Collections Core Mempool Demo.

Module Miner.

Record MiningConfig := mkMiningConfig {
  difficulty : Z;
  max_attempts : Z;
  transaction_limit : Z;
}.

Section miner.
Context `{Paqus}.

Record MiningResult := mkMiningResult {
  mined_block : Block;
  attempts : Z;
}.

#[export] Instance MiningResult_eq_dec : EqDecision MiningResult.
Proof. solve_decision. Defined.

(** Every failure of [create_candidate_block] is reported as an invalid state
    root; the retargeted difficulty replaces the starting one. *)
Definition prepare_candidate_block (mp : Mempool.Mempool) (ledger : Ledger)
    (miner : Address) (timestamp : Timestamp) (limit diff : Z) :
    result ConsensusError Block :=
  block ← map_err (λ _, InvalidBlock BlockInvalidStateRoot)
    (Mempool.create_candidate_block mp ledger miner timestamp 0 limit);
  Ok (set_header_difficulty diff block).

(** The loop [for attempt in 0..max_attempts]: [count] iterations are left. *)
Fixpoint mine_loop (count : nat) (attempt : Nonce) (block : Block) (consensus : Consensus)
    (c : MiningConfig) : result ConsensusError (option MiningResult) :=
  match count with
  | O => Ok None
  | S count' =>
      let block' := set_header_nonce attempt block in
      if bool_decide (difficulty c = 0) then
        Ok (Some (mkMiningResult block' (sat_add u64_max attempt 1)))
      else
        hash ← proof_of_work_hash consensus block';
        if is_ok (validate_proof_of_work_hash_with_difficulty consensus hash (difficulty c)) then
          Ok (Some (mkMiningResult block' (sat_add u64_max attempt 1)))
        else mine_loop count' (attempt + 1) block' consensus c
  end.

Definition mine_prepared_block (block : Block) (consensus : Consensus) (c : MiningConfig) :
    result ConsensusError (option MiningResult) :=
  mine_loop (Z.to_nat (max_attempts c)) 0 block consensus c.

Definition mine_candidate_block (mp : Mempool.Mempool) (ledger : Ledger)
    (consensus : Consensus) (miner : Address) (timestamp : Timestamp) (c : MiningConfig) :
    result ConsensusError (option MiningResult) :=
  block ← prepare_candidate_block mp ledger miner timestamp
    (transaction_limit c) (difficulty c);
  mine_prepared_block block consensus c.

End miner.

End Miner.

Module MinerProps.
Import Miner.

Section props.
Context `{Paqus}.

(** [accepts consensus block d n]: the block with nonce [n] has a proof of work
    of difficulty [d] (difficulty zero turns the check off). *)
Definition accepts (consensus : Consensus) (block : Block) (d : Z) (n : Nonce) : Prop :=
  d = 0 ∨ ∃ hash, proof_of_work_hash consensus (set_header_nonce n block) = Ok hash ∧
    is_ok (validate_proof_of_work_hash_with_difficulty consensus hash d) = true.

(** [rejects]: the hash is computed and misses the target. *)
Definition rejects (consensus : Consensus) (block : Block) (d : Z) (n : Nonce) : Prop :=
  d ≠ 0 ∧ ∃ hash, proof_of_work_hash consensus (set_header_nonce n block) = Ok hash ∧
    is_ok (validate_proof_of_work_hash_with_difficulty consensus hash d) = false.

(** A nonce written by an earlier attempt does not influence later ones. *)
Lemma mine_loop_nonce `{!BlockLaws} count attempt n block consensus c :
  mine_loop count attempt (set_header_nonce n block) consensus c =
  mine_loop count attempt block consensus c.
Proof. destruct count; simpl; [done|]. by rewrite set_header_nonce_twice. Qed.

Lemma mine_loop_spec `{!BlockLaws} count attempt block consensus c :
  match mine_loop count attempt block consensus c with
  | Ok (Some r) => ∃ k, (k < count)%nat ∧ let n := attempt + Z.of_nat k in
      mined_block r = set_header_nonce n block ∧ attempts r = sat_add u64_max n 1 ∧
      accepts consensus block (difficulty c) n ∧
      ∀ j, (j < k)%nat → rejects consensus block (difficulty c) (attempt + Z.of_nat j)
  | Ok None =>
      ∀ j, (j < count)%nat → rejects consensus block (difficulty c) (attempt + Z.of_nat j)
  | Err e => ∃ k, (k < count)%nat ∧
      proof_of_work_hash consensus (set_header_nonce (attempt + Z.of_nat k) block) = Err e ∧
      ∀ j, (j < k)%nat → rejects consensus block (difficulty c) (attempt + Z.of_nat j)
  end.
Proof.
  revert attempt block. induction count as [|count IH]; intros attempt block; simpl; [lia|].
  case_bool_decide as Hd.
  { exists 0%nat. rewrite Z.add_0_r. split_and!; try done; [lia|by left|lia]. }
  unfold mbind, result_bind.
  destruct (proof_of_work_hash consensus (set_header_nonce attempt block)) as [hash|e] eqn:Hp; cycle 1.
  { exists 0%nat. rewrite Z.add_0_r. split_and!; [lia|done|lia]. }
  destruct (is_ok _) eqn:Hok.
  { exists 0%nat. rewrite Z.add_0_r. split_and!; try done; [lia|right; eauto|lia]. }
  assert (rejects consensus block (difficulty c) attempt) as Hr by (split; eauto).
  specialize (IH (attempt + 1) block). rewrite mine_loop_nonce.
  assert (∀ k (Q : Z → Prop), Q attempt →
    (∀ j, (j < k)%nat → Q (attempt + 1 + Z.of_nat j)) →
    ∀ j, (j < S k)%nat → Q (attempt + Z.of_nat j)) as Hshift.
  { intros k Q HQ0 HQ [|j] Hj; [by rewrite Z.add_0_r|].
    replace (attempt + Z.of_nat (S j)) with (attempt + 1 + Z.of_nat j) by lia. apply HQ. lia. }
  destruct (mine_loop count (attempt + 1) _ consensus c) as [[r|]|e].
  - destruct IH as (k & Hk & Hb & Ha & Hacc & Hrej). exists (S k). cbn zeta in *.
    replace (attempt + Z.of_nat (S k)) with (attempt + 1 + Z.of_nat k) by lia.
    split_and!; try done; [lia|]. by apply Hshift.
  - by apply Hshift.
  - destruct IH as (k & Hk & He & Hrej). exists (S k).
    replace (attempt + Z.of_nat (S k)) with (attempt + 1 + Z.of_nat k) by lia.
    split_and!; [lia|done|]. by apply Hshift.
Qed.

(** C32: mining a prepared block tries the nonces 0, 1, 2, ... in order.  A
    mined block is the prepared block with the first nonce whose proof of work
    meets the difficulty, and the number of attempts is that nonce plus one;
    no block is returned only when all [max_attempts] nonces miss the target;
    an error is the one of the first nonce whose hash cannot be computed. *)
Theorem mining_finds_first_nonce `{!BlockLaws} block consensus c :
  0 ≤ max_attempts c ≤ u64_max →
  match mine_prepared_block block consensus c with
  | Ok (Some r) => ∃ n, 0 ≤ n < max_attempts c ∧
      mined_block r = set_header_nonce n block ∧ attempts r = n + 1 ∧
      accepts consensus block (difficulty c) n ∧
      ∀ m, 0 ≤ m < n → rejects consensus block (difficulty c) m
  | Ok None => ∀ m, 0 ≤ m < max_attempts c → rejects consensus block (difficulty c) m
  | Err e => ∃ n, 0 ≤ n < max_attempts c ∧
      proof_of_work_hash consensus (set_header_nonce n block) = Err e ∧
      ∀ m, 0 ≤ m < n → rejects consensus block (difficulty c) m
  end.
Proof.
  intros Hmax. unfold mine_prepared_block.
  pose proof (mine_loop_spec (Z.to_nat (max_attempts c)) 0 block consensus c) as Hspec.
  assert (∀ k (Q : Z → Prop), (∀ j, (j < k)%nat → Q (0 + Z.of_nat j)) →
    ∀ m, 0 ≤ m < Z.of_nat k → Q m) as Hnat.
  { intros k Q HQ m Hm. replace m with (0 + Z.of_nat (Z.to_nat m)) by lia. apply HQ. lia. }
  destruct (mine_loop _ _ _ _ _) as [[r|]|e].
  - destruct Hspec as (k & Hk & Hb & Ha & Hacc & Hrej). cbn zeta in *. rewrite Z.add_0_l in *.
    exists (Z.of_nat k). split_and!; try done; try lia.
    + rewrite Ha. unfold sat_add. lia.
    + by apply Hnat.
  - intros m Hm. apply (Hnat _ _ Hspec). lia.
  - destruct Hspec as (k & Hk & He & Hrej). rewrite Z.add_0_l in *.
    exists (Z.of_nat k). split_and!; try done; try lia. by apply Hnat.
Qed.

End props.

Import Demo.

Definition mining_block : @Block (@paqus_types demo) := mkBlk 1 901 9 1 6000 0 None [] 0.

Lemma mining_finds_first_nonce_witness :
  match mine_prepared_block mining_block 1 (mkMiningConfig 6 150 10) with
  | Ok (Some r) => ∃ n, 0 ≤ n < 150 ∧
      mined_block r = set_header_nonce n mining_block ∧ attempts r = n + 1 ∧
      accepts 1 mining_block 6 n ∧
      ∀ m, 0 ≤ m < n → rejects 1 mining_block 6 m
  | Ok None => ∀ m, 0 ≤ m < 150 → rejects 1 mining_block 6 m
  | Err e => ∃ n, 0 ≤ n < 150 ∧
      proof_of_work_hash 1 (set_header_nonce n mining_block) = Err e ∧
      ∀ m, 0 ≤ m < n → rejects 1 mining_block 6 m
  end.
Proof.
  apply (mining_finds_first_nonce mining_block 1 (mkMiningConfig 6 150 10)). by_eval.
Defined.

End MinerProps.
