(* ===== verification/Cache.v ===== *)
(** * Cache: the in-memory mirror of the active chain ([src/runtime/cache.rs]) *)

From S2P Require Import Prelude Collections Core Demo.

Module Cache.
Section cache.
Context `{Paqus}.

Record CoreCache := mkCache {
  cached_accounts : gmap Address Account;
  blocks_by_height : gmap Height Block;
  blocks_by_hash : gmap BlockHash Block;
  cached_tip_height : option Height;
  cached_tip_hash : option BlockHash;
}.

Definition new : CoreCache := mkCache ∅ ∅ ∅ None None.

Definition insert_account (account : Account) (c : CoreCache) : CoreCache :=
  mkCache (<[account_address account := account]> (cached_accounts c))
    (blocks_by_height c) (blocks_by_hash c) (cached_tip_height c) (cached_tip_hash c).

Definition account (c : CoreCache) (a : Address) : option Account := cached_accounts c !! a.

Definition insert_block (block : Block) (c : CoreCache) : CoreCache :=
  mkCache (cached_accounts c)
    (<[block_height block := block]> (blocks_by_height c))
    (<[block_hash block := block]> (blocks_by_hash c))
    (Some (block_height block)) (Some (block_hash block)).

Definition block_by_height (c : CoreCache) (h : Height) : option Block := blocks_by_height c !! h.
Definition block_by_hash (c : CoreCache) (h : BlockHash) : option Block := blocks_by_hash c !! h.

Definition from_ledger (ledger : Ledger) : CoreCache :=
  let c1 := foldl (λ c a, insert_account a c) new (bt_values (accounts ledger)) in
  let c2 := foldl (λ c b, insert_block b c) c1 (chain_blocks (chain ledger)) in
  mkCache (cached_accounts c2) (blocks_by_height c2) (blocks_by_hash c2)
    (tip_height ledger) (tip_hash ledger).

Definition clear (c : CoreCache) : CoreCache := mkCache ∅ ∅ ∅ None None.

End cache.
End Cache.

Module CacheFacts.
Import Cache.
Section facts.
Context `{Paqus}.
Implicit Types c : CoreCache.

(** Everything is stored under its own key. *)
Record coherent c : Prop := {
  coh_account a x : account c a = Some x → account_address x = a;
  coh_height h b : block_by_height c h = Some b → block_height b = h;
  coh_hash h b : block_by_hash c h = Some b → block_hash b = h;
}.

Lemma new_coherent : coherent new.
Proof. split; intros ??; unfold account, block_by_height, block_by_hash; simpl;
  by rewrite lookup_empty. Qed.

Lemma insert_account_coherent x c : coherent c → coherent (insert_account x c).
Proof.
  intros [Ha Hh Hs]. split; [|done|done]. intros a y. unfold account; simpl.
  intros [[<- <-]|[_ ?]]%lookup_insert_Some; [done|]. by apply Ha.
Qed.

Lemma insert_block_coherent b c : coherent c → coherent (insert_block b c).
Proof.
  intros [Ha Hh Hs]. split; [done| |]; intros k y;
    unfold block_by_height, block_by_hash; simpl;
    intros [[<- <-]|[_ ?]]%lookup_insert_Some; [done|by apply Hh|done|by apply Hs].
Qed.

Lemma fold_accounts_coherent l c :
  coherent c → coherent (foldl (λ c a, insert_account a c) c l).
Proof. revert c. induction l; simpl; auto using insert_account_coherent. Qed.

Lemma fold_blocks_coherent l c :
  coherent c → coherent (foldl (λ c b, insert_block b c) c l).
Proof. revert c. induction l; simpl; auto using insert_block_coherent. Qed.

Lemma fold_blocks_accounts l c a :
  account (foldl (λ c b, insert_block b c) c l) a = account c a.
Proof. revert c. induction l as [|b l IH]; intros c; simpl; [done|]. by rewrite IH. Qed.

Lemma fold_accounts_lookup l c x :
  NoDup (account_address <$> l) → x ∈ l →
  account (foldl (λ c a, insert_account a c) c l) (account_address x) = Some x.
Proof.
  revert c. induction l as [|y l IH] using rev_ind; intros c Hnd Hx; [set_solver|].
  rewrite fmap_app in Hnd. apply NoDup_app in Hnd as (Hnd & Hdisj & _).
  rewrite foldl_snoc. unfold account; simpl. apply elem_of_app in Hx as [Hx|Hx].
  - rewrite lookup_insert_ne; [by apply IH|]. intros Heq.
    apply (Hdisj (account_address x)); [by apply list_elem_of_fmap_2|]. csimpl. set_solver.
  - apply list_elem_of_singleton in Hx as ->. apply lookup_insert_eq.
Qed.

Lemma fold_accounts_absent l c a :
  account c a = None → a ∉ account_address <$> l →
  account (foldl (λ c a, insert_account a c) c l) a = None.
Proof.
  revert c. induction l as [|y l IH]; intros c Hc Ha; simpl; [done|].
  apply IH; [|set_solver]. unfold account; simpl. rewrite lookup_insert_ne; [done|set_solver].
Qed.

Lemma fold_blocks_lookup {K} (key : Block → K)
    (look : CoreCache → K → option Block) l c b :
  (∀ c b, look (insert_block b c) (key b) = Some b) →
  (∀ c b k, key b ≠ k → look (insert_block b c) k = look c k) →
  NoDup (key <$> l) → b ∈ l →
  look (foldl (λ c b, insert_block b c) c l) (key b) = Some b.
Proof.
  intros Hin Hout. revert c. induction l as [|y l IH] using rev_ind; intros c Hnd Hx; [set_solver|].
  rewrite fmap_app in Hnd. apply NoDup_app in Hnd as (Hnd & Hdisj & _).
  rewrite foldl_snoc. apply elem_of_app in Hx as [Hx|Hx].
  - rewrite Hout; [by apply IH|]. intros Heq.
    apply (Hdisj (key b)); [by apply list_elem_of_fmap_2|]. csimpl. set_solver.
  - apply list_elem_of_singleton in Hx as ->. apply Hin.
Qed.

(** Accounts and blocks of a ledger are identified by their keys. *)
Record ledger_keyed (ledger : Ledger) : Prop := {
  lk_accounts a x : accounts ledger !! a = Some x → account_address x = a;
  lk_heights : NoDup (block_height <$> chain_blocks (chain ledger));
  lk_hashes : NoDup (block_hash <$> chain_blocks (chain ledger));
}.

Lemma ledger_keyed_addresses ledger :
  ledger_keyed ledger → account_address <$> bt_values (accounts ledger) = bt_keys (accounts ledger).
Proof.
  intros [Ha _ _]. unfold bt_values, bt_keys. rewrite <-list_fmap_compose.
  apply list_fmap_ext. intros i [a x] Hi. simpl. apply Ha, elem_of_bt_iter.
  by eapply list_elem_of_lookup_2.
Qed.

Lemma from_ledger_account ledger a :
  ledger_keyed ledger → account (from_ledger ledger) a = accounts ledger !! a.
Proof.
  intros Hk. pose proof (ledger_keyed_addresses _ Hk) as Haddr.
  unfold from_ledger, account; simpl. change (cached_accounts ?c !! a) with (account c a).
  rewrite fold_blocks_accounts.
  destruct (accounts ledger !! a) as [x|] eqn:Ha.
  - rewrite <-(lk_accounts _ Hk _ _ Ha). apply fold_accounts_lookup.
    + rewrite Haddr. apply bt_keys_NoDup.
    + apply elem_of_bt_values. eauto.
  - apply fold_accounts_absent; [done|]. rewrite Haddr, elem_of_bt_keys, Ha. by intros [].
Qed.

Lemma from_ledger_block ledger b :
  ledger_keyed ledger → b ∈ chain_blocks (chain ledger) →
  block_by_height (from_ledger ledger) (block_height b) = Some b ∧
  block_by_hash (from_ledger ledger) (block_hash b) = Some b.
Proof.
  intros [_ Hh Hs] Hb. unfold from_ledger; simpl. split.
  - apply (fold_blocks_lookup block_height block_by_height); auto; intros;
      unfold block_by_height; simpl; [apply lookup_insert_eq|by apply lookup_insert_ne].
  - apply (fold_blocks_lookup block_hash block_by_hash); auto; intros;
      unfold block_by_hash; simpl; [apply lookup_insert_eq|by apply lookup_insert_ne].
Qed.

(** A cached block comes from the chain. *)
Lemma fold_blocks_sound l c h b :
  block_by_hash (foldl (λ c b, insert_block b c) c l) h = Some b →
  b ∈ l ∨ block_by_hash c h = Some b.
Proof.
  revert c. induction l as [|y l IH]; intros c; simpl; [by right|].
  intros [?|Hb]%IH; [left; set_solver|]. unfold block_by_hash in Hb; simpl in Hb.
  apply lookup_insert_Some in Hb as [[_ <-]|[_ ?]]; [left; set_solver|by right].
Qed.

Lemma fold_accounts_blocks l c h :
  block_by_hash (foldl (λ c a, insert_account a c) c l) h = block_by_hash c h.
Proof. revert c. induction l as [|a l IH]; intros c; simpl; [done|]. by rewrite IH. Qed.

Lemma from_ledger_block_hash ledger h b :
  ledger_keyed ledger →
  block_by_hash (from_ledger ledger) h = Some b ↔
  b ∈ chain_blocks (chain ledger) ∧ block_hash b = h.
Proof.
  intros Hk. split.
  - intros Hb. split.
    + unfold from_ledger, block_by_hash in Hb; simpl in Hb.
      change (blocks_by_hash ?c !! h) with (block_by_hash c h) in Hb.
      apply fold_blocks_sound in Hb as [?|Hb]; [done|].
      rewrite fold_accounts_blocks in Hb. unfold block_by_hash in Hb; simpl in Hb.
      by rewrite lookup_empty in Hb.
    + apply (coh_hash (from_ledger ledger)) in Hb; [done|]. unfold from_ledger.
      pose proof (fold_blocks_coherent (chain_blocks (chain ledger)) _
        (fold_accounts_coherent (bt_values (accounts ledger)) _ new_coherent)) as [].
      split; done.
  - intros [Hb <-]. by apply from_ledger_block.
Qed.

(** A cache built from a ledger answers every query as the ledger does:
    the account of an address, the block of a hash on the active chain (and no
    other block), the block of a height, and the tip. *)
Theorem cache_mirrors_ledger ledger :
  ledger_keyed ledger →
  (∀ a, account (from_ledger ledger) a = accounts ledger !! a) ∧
  (∀ h b, block_by_hash (from_ledger ledger) h = Some b ↔
     b ∈ chain_blocks (chain ledger) ∧ block_hash b = h) ∧
  (∀ b, b ∈ chain_blocks (chain ledger) →
     block_by_height (from_ledger ledger) (block_height b) = Some b) ∧
  cached_tip_height (from_ledger ledger) = tip_height ledger ∧
  cached_tip_hash (from_ledger ledger) = tip_hash ledger.
Proof.
  intros Hk. split_and!; try done.
  - intros a. by apply from_ledger_account.
  - intros h b. by apply from_ledger_block_hash.
  - intros b Hb. by apply from_ledger_block.
Qed.

End facts.

Import Demo.

Definition block1 : @Block (@paqus_types demo) := mkBlk 1 901 9 1 2000 0 None [] 0.
Definition ledger1 : @Ledger (@paqus_types demo) := mkLedger genesis_accts [demo_genesis; block1].

Lemma cache_mirrors_ledger_witness :
  account (from_ledger ledger1) alice = Some (mkAcct alice 1000 0) ∧
  (∀ a, account (from_ledger ledger1) a = accounts ledger1 !! a).
Proof.
  split; [by_eval|]. apply (cache_mirrors_ledger ledger1). split; [|by_eval..].
  assert (map_Forall (λ a x, account_address x = a) (accounts ledger1)) as Hall by by_eval.
  exact Hall.
Defined.

End CacheFacts.
