(* ===== verification/Bytes.v ===== *)
(** * Bytes: big-endian integers and key prefixes

    [to_be_bytes] of the integer types, and the byte images of the fixed-size
    arrays that [Core] keeps as integers. *)

From S2P Require Import Prelude Collections.

(** The last [n] base-256 digits of [z], most significant first. *)
Fixpoint be_bytes (n : nat) (z : Z) : list Z :=
  match n with
  | O => []
  | S n' => be_bytes n' (z / 256) ++ [z mod 256]
  end.

Definition be_value (l : list Z) : Z := foldl (λ acc b, acc * 256 + b) 0 l.

Lemma length_be_bytes n z : length (be_bytes n z) = n.
Proof. revert z; induction n as [|n IH]; intros z; simpl; [done|]. rewrite length_app, IH. simpl. lia. Qed.

Lemma be_bytes_range n z : Forall (λ b, 0 ≤ b < 256) (be_bytes n z).
Proof.
  revert z. induction n as [|n IH]; intros z; [constructor|]. apply Forall_app. split; [apply IH|].
  constructor; [apply Z.mod_pos_bound; lia|constructor].
Qed.

Lemma be_value_snoc l b : be_value (l ++ [b]) = be_value l * 256 + b.
Proof. unfold be_value. by rewrite foldl_snoc. Qed.

Lemma be_value_bytes n z : be_value (be_bytes n z) = z mod 256 ^ Z.of_nat n.
Proof.
  revert z. induction n as [|n IH]; intros z; simpl be_bytes.
  - unfold be_value. simpl. by rewrite Z.mod_1_r.
  - rewrite be_value_snoc, IH. replace (Z.of_nat (S n)) with (Z.of_nat n + 1) by lia.
    rewrite Z.pow_add_r, Z.pow_1_r by lia. set (p := 256 ^ Z.of_nat n).
    assert (0 < p) by (apply Z.pow_pos_nonneg; lia).
    rewrite (Z.mul_comm p 256), Z.rem_mul_r by lia. lia.
Qed.

Lemma be_value_bytes_small n z : 0 ≤ z < 256 ^ Z.of_nat n → be_value (be_bytes n z) = z.
Proof. intros. rewrite be_value_bytes. by apply Z.mod_small. Qed.

Lemma be_bytes_inj n x y :
  0 ≤ x < 256 ^ Z.of_nat n → 0 ≤ y < 256 ^ Z.of_nat n → be_bytes n x = be_bytes n y → x = y.
Proof. intros Hx Hy Heq. by rewrite <-(be_value_bytes_small n x), <-(be_value_bytes_small n y), Heq. Qed.

(** The values the fixed-size arrays and integers range over. *)
Definition fits (n : nat) (z : Z) : Prop := 0 ≤ z < 256 ^ Z.of_nat n.

(** [slice::starts_with] *)
Fixpoint starts_with (key prefix : list Z) : bool :=
  match prefix, key with
  | [], _ => true
  | _ :: _, [] => false
  | p :: prefix', k :: key' => bool_decide (p = k) && starts_with key' prefix'
  end.

Lemma starts_with_app prefix l : starts_with (prefix ++ l) prefix = true.
Proof. induction prefix; simpl; [by destruct l|]. by rewrite bool_decide_eq_true_2. Qed.

(** Prefixes of equal length are compared exactly. *)
Lemma starts_with_same_length prefix prefix' l :
  length prefix = length prefix' →
  starts_with (prefix ++ l) prefix' = true ↔ prefix = prefix'.
Proof.
  revert prefix'. induction prefix as [|p prefix IH]; intros [|p' prefix'] Hlen; simplify_eq/=.
  - by destruct l.
  - rewrite andb_true_iff, bool_decide_eq_true, IH by done. naive_solver.
Qed.

#[global] Arguments be_bytes : simpl never.
