(* ===== verification/Storage.v ===== *)
(** * Storage: the LMDB database of the node ([src/runtime/storage])

    The database engine and the Borsh codec are parameters: [Kv] gives the
    operations of one table, [Borsh] a codec per stored type, and [Lmdb] an
    oracle that says which engine call fails.  [Module Storage] translates the
    methods of [storage.rs]; a write transaction works on a copy of the tables
    that [commit] installs. *)

From S2P Require Import Prelude Collections Core Bytes.

Open Scope string_scope.
Open Scope list_scope.
Open Scope Z_scope.

(** ** Parameters *)

(** One LMDB table: a finite map from byte strings to byte strings, iterated
    by a cursor. *)
Class Kv := {
  Table : Type;
  kv_empty : Table;
  kv_get : Table → bytes → option bytes;
  kv_put : bytes → bytes → Table → Table;
  kv_iter : Table → list (bytes * bytes);
}.

(** Reads see the last write of their key, and a cursor lists every key once,
    in lexicographic order. *)
Class KvLaws `{Kv} : Prop := {
  kv_get_empty k : kv_get kv_empty k = None;
  kv_get_put k v t k' : kv_get (kv_put k v t) k' = if decide (k = k') then Some v else kv_get t k';
  kv_iter_get t k v : (k, v) ∈ kv_iter t ↔ kv_get t k = Some v;
  kv_iter_sorted t : StronglySorted (λ p q, lex_leb p.1 q.1 = true) (kv_iter t);
  kv_iter_keys t : NoDup (kv_iter t).*1;
}.

(** [BorshSerialize] and [BorshDeserialize] of one type; errors are codes of
    [io::Error]. *)
Class Borsh (A : Type) := {
  encode : A → result Z bytes;
  decode : bytes → result Z A;
}.
Class BorshLaws (A : Type) `{!Borsh A} : Prop := {
  encode_total x : ∃ b, encode x = Ok b;
  decode_encode x b : encode x = Ok b → decode b = Ok x;
}.

(** The [n]-th call of the engine fails with an error code, or not. *)
Class Lmdb := { lmdb_fault : nat → option Z }.

Module Storage.

(** ** Data *)

Inductive StorageError :=
  | Database (error : Z)
  | Io (error : Z)
  | Serialization (error : Z)
  | Integrity (message : string)
  | MissingStorageVersion
  | UnsupportedStorageVersion (expected found : Z).

#[export] Instance StorageError_eq_dec : EqDecision StorageError.
Proof. solve_decision. Defined.

(** [ErrorKind::InvalidData], the code of [invalid_data]. *)
Definition INVALID_DATA : Z := 0.

Definition invalid_data (message : string) : StorageError := Serialization INVALID_DATA.

Record StateSnapshot `{Paqus} := mkSnapshot {
  ss_height : Height;
  ss_block_hash : BlockHash;
  ss_state_root : Hash;
  ss_accounts : gmap Address Account;
}.
Arguments mkSnapshot {_} _ _ _ _.

Record TransactionLocation := mkLocation {
  tl_block_height : Height;
  tl_block_hash : BlockHash;
  tl_tx_index : Z;
}.

Record AddressTransactionLocation := mkAddressLocation {
  al_tx_hash : TransactionHash;
  al_block_height : Height;
  al_block_hash : BlockHash;
  al_tx_index : Z;
  al_sent : bool;
}.

#[export] Instance TransactionLocation_eq_dec : EqDecision TransactionLocation.
Proof. solve_decision. Defined.
#[export] Instance AddressTransactionLocation_eq_dec : EqDecision AddressTransactionLocation.
Proof. solve_decision. Defined.

(** The codecs of everything the node stores. *)
Class Codecs `{Paqus} := {
  block_borsh :: Borsh Block;
  account_borsh :: Borsh Account;
  accounts_borsh :: Borsh (gmap Address Account);
  snapshot_borsh :: Borsh StateSnapshot;
  location_borsh :: Borsh TransactionLocation;
  address_location_borsh :: Borsh AddressTransactionLocation;
  int_borsh :: Borsh Z;
}.
Class CodecLaws `{Codecs} : Prop := {
  block_laws :: BorshLaws Block;
  account_laws :: BorshLaws Account;
  accounts_laws :: BorshLaws (gmap Address Account);
  snapshot_laws :: BorshLaws StateSnapshot;
  location_laws :: BorshLaws TransactionLocation;
  address_location_laws :: BorshLaws AddressTransactionLocation;
  int_laws :: BorshLaws Z;
}.

(** ** Keys *)

Definition height_key (h : Height) : bytes := be_bytes 8 h.
Definition hash_key (h : Hash) : bytes := be_bytes HASH_SIZE h.
Definition address_key (a : Address) : bytes := be_bytes ADDRESS_SIZE a.

Definition address_tx_key (a : Address) (h : Height) (tx_index : Z) (sent : bool) : bytes :=
  address_key a ++ be_bytes 8 h ++ be_bytes 4 tx_index ++ [if sent then 1 else 0].

(** [b"tip_height"], [b"tip_hash"], [b"storage_version"], [b"accounts"]. *)
Definition ascii_bytes (s : string) : bytes :=
  (λ a, Z.of_nat (Ascii.nat_of_ascii a)) <$> String.list_ascii_of_string s.
Definition TIP_HEIGHT_KEY : bytes := ascii_bytes "tip_height".
Definition TIP_HASH_KEY : bytes := ascii_bytes "tip_hash".
Definition STORAGE_VERSION_KEY : bytes := ascii_bytes "storage_version".
Definition ACCOUNTS_KEY : bytes := ascii_bytes "accounts".

(** ** The environment *)

Inductive Database_ :=
  | BlocksByHeight | BlocksByHash | Accounts | GenesisAccounts
  | StateSnapshots | TxIndex | AddressTxIndex | Meta.

#[export] Instance Database__eq_dec : EqDecision Database_.
Proof. solve_decision. Defined.

Section storage.
Context `{Paqus, Kv, Lmdb}.

(** The committed tables, and the number of engine calls made so far. *)
Abbreviation Tables := (Database_ → Table) (only parsing).

Record Store := mkStore {
  tables : Tables;
  calls : nat;
}.

Definition set_table (db : Database_) (t : Table) (tb : Tables) : Tables :=
  λ db', if decide (db' = db) then t else tb db'.

Local Abbreviation St := (SE Store StorageError).

(** A call of the engine. *)
Definition lmdb_call : St () := λ st,
  let st' := mkStore (tables st) (S (calls st)) in
  match lmdb_fault (calls st) with
  | None => (Ok tt, st')
  | Some e => (Err (Database e), st')
  end.

(** A write transaction: an early return drops it, [commit] installs it. *)
Definition rw_txn {A} (body : St A) : St A := λ st,
  match lmdb_call st with
  | (Err e, st1) => (Err e, st1)
  | (Ok _, st1) =>
      match body st1 with
      | (Err e, st2) => (Err e, mkStore (tables st) (calls st2))
      | (Ok a, st2) =>
          match lmdb_call st2 with
          | (Err e, st3) => (Err e, mkStore (tables st) (calls st3))
          | (Ok _, st3) => (Ok a, st3)
          end
      end
  end.

Definition ro_txn {A} (body : St A) : St A := lmdb_call ;; body.

Definition modify_table (db : Database_) (f : Table → Table) : St () :=
  modify (λ st, mkStore (set_table db (f (tables st db)) (tables st)) (calls st)).

Definition put (db : Database_) (key value : bytes) : St () :=
  lmdb_call ;; modify_table db (kv_put key value).

Definition clear_db (db : Database_) : St () :=
  lmdb_call ;; modify_table db (λ _, kv_empty).

Definition encode_ {A} `{!Borsh A} (x : A) : St bytes := lift (map_err Serialization (encode x)).
Definition decode_ {A} `{!Borsh A} (b : bytes) : St A := lift (map_err Serialization (decode b)).

Definition put_value {A} `{!Borsh A} (db : Database_) (key : bytes) (value : A) : St () :=
  b ← encode_ value; put db key b.

(** [NotFound] is an absent value, any other engine error is returned. *)
Definition read_bytes (db : Database_) (key : bytes) : St (option bytes) :=
  lmdb_call ;; gets (λ st, kv_get (tables st db) key).

Definition read_value {A} `{!Borsh A} (db : Database_) (key : bytes) : St (option A) :=
  o ← read_bytes db key;
  match o with
  | None => mret None
  | Some b => x ← decode_ b; mret (Some x)
  end.

Definition cursor_iter (db : Database_) : St (list (bytes * bytes)) :=
  lmdb_call ;; gets (λ st, kv_iter (tables st db)).

Definition is_db_empty (db : Database_) : St bool :=
  l ← cursor_iter db; mret (bool_decide (l = [])).

Definition flush : St () := lmdb_call.

Fixpoint map_decode {A} `{!Borsh A} (l : list bytes) : St (list A) :=
  match l with
  | [] => mret []
  | b :: l' => x ← decode_ b; xs ← map_decode l'; mret (x :: xs)
  end.

(** ** Version *)

Context `{!Codecs}.

Definition load_storage_version : St (option Z) :=
  ro_txn (read_value Meta STORAGE_VERSION_KEY).

Definition save_storage_version (version : Z) : St () :=
  rw_txn (put_value Meta STORAGE_VERSION_KEY version).

(** Every table but [Meta], in the order the conjunction tests them. *)
Definition data_tables : list Database_ :=
  [BlocksByHeight; BlocksByHash; Accounts; GenesisAccounts; StateSnapshots; TxIndex; AddressTxIndex].

Fixpoint all_empty (dbs : list Database_) : St bool :=
  match dbs with
  | [] => mret true
  | db :: dbs' => e ← is_db_empty db; if e : bool then all_empty dbs' else mret false
  end.

Definition is_empty_database : St bool := ro_txn (all_empty data_tables).

Definition ensure_storage_version : St () :=
  v ← load_storage_version;
  match v with
  | Some found =>
      if bool_decide (found = STORAGE_VERSION) then mret tt
      else throw (UnsupportedStorageVersion STORAGE_VERSION found)
  | None =>
      e ← is_empty_database;
      if e : bool then save_storage_version STORAGE_VERSION ;; flush
      else throw MissingStorageVersion
  end.

(** ** Opening *)

(** The table names, in the order the tables are created. *)
Definition table_name (db : Database_) : string :=
  match db with
  | BlocksByHeight => "blocks_by_height" | BlocksByHash => "blocks_by_hash" | Accounts => "accounts"
  | GenesisAccounts => "genesis_accounts" | StateSnapshots => "state_snapshots" | TxIndex => "tx_index"
  | AddressTxIndex => "address_tx_index" | Meta => "meta"
  end.
Definition MAX_DBS : Z := 16.

(** [create_db] for every table; an existing table is opened as it is. *)
Definition from_env : St () := for_each (λ _, lmdb_call) (data_tables ++ [Meta]).

(** [directory] is what [fs::create_dir_all] returns for the path. *)
Definition open (directory : result Z ()) : St () :=
  lift (map_err Io directory) ;;
  lmdb_call ;;
  from_env ;;
  ensure_storage_version.

(** ** Blocks *)

Definition index_transaction (block : Block) (entry : nat * SignedTransaction) : St () :=
  let '(index, tx) := entry in
  let tx_index := Z.of_nat index in
  if bool_decide (u32_max < tx_index) then throw (Integrity "transaction index exceeds u32")
  else
    let location := mkLocation (block_height block) (block_hash block) tx_index in
    put_value TxIndex (hash_key (tx_hash tx)) location ;;
    let sent_location := mkAddressLocation (tx_hash tx) (block_height block)
      (block_hash block) tx_index true in
    put_value AddressTxIndex
      (address_tx_key (tx_from tx) (block_height block) tx_index true) sent_location ;;
    if bool_decide (tx_to tx ≠ tx_from tx) then
      put_value AddressTxIndex
        (address_tx_key (tx_to tx) (block_height block) tx_index false)
        (mkAddressLocation (tx_hash tx) (block_height block) (block_hash block) tx_index false)
    else mret tt.

Definition index_block_transactions (block : Block) : St () :=
  for_each (index_transaction block) (imap pair (block_transactions block)).

(** The two block tables and the indexes, inside a write transaction. *)
Definition write_block (block : Block) : St () :=
  b ← encode_ block;
  put BlocksByHeight (height_key (block_height block)) b ;;
  put BlocksByHash (hash_key (block_hash block)) b ;;
  index_block_transactions block.

(** [save_block] encodes the block before it opens the transaction. *)
Definition save_block (block : Block) : St () :=
  b ← encode_ block;
  rw_txn (
    put BlocksByHeight (height_key (block_height block)) b ;;
    put BlocksByHash (hash_key (block_hash block)) b ;;
    index_block_transactions block).

Definition save_side_block (block : Block) : St () :=
  b ← encode_ block;
  rw_txn (put BlocksByHash (hash_key (block_hash block)) b).

Definition load_block_by_height (h : Height) : St (option Block) :=
  ro_txn (
    o ← read_bytes BlocksByHeight (height_key h);
    match o with
    | None => mret None
    | Some b =>
        block ← decode_ b;
        if bool_decide (block_height block ≠ h)
        then throw (Integrity "stored block height does not match height key")
        else mret (Some block)
    end).

Definition load_block_by_hash (h : BlockHash) : St (option Block) :=
  ro_txn (
    o ← read_bytes BlocksByHash (hash_key h);
    match o with
    | None => mret None
    | Some b =>
        block ← decode_ b;
        if bool_decide (block_hash block ≠ h)
        then throw (Integrity "stored block hash does not match hash key")
        else mret (Some block)
    end).

Definition load_blocks_by_hash : St (list Block) :=
  ro_txn (entries ← cursor_iter BlocksByHash; map_decode entries.*2).

(** ** Transactions *)

Definition load_transaction_location (h : TransactionHash) : St (option TransactionLocation) :=
  ro_txn (read_value TxIndex (hash_key h)).

Definition load_transaction (h : TransactionHash) :
    St (option (TransactionLocation * SignedTransaction)) :=
  loc ← load_transaction_location h;
  match loc with
  | None => mret None
  | Some location =>
      ob ← load_block_by_height (tl_block_height location);
      match ob with
      | None => throw (Integrity "indexed transaction block is missing")
      | Some block =>
          if bool_decide (block_hash block ≠ tl_block_hash location)
          then throw (Integrity "indexed transaction block hash mismatch")
          else match block_transactions block !! Z.to_nat (tl_tx_index location) with
          | None => throw (Integrity "indexed transaction position is missing")
          | Some tx =>
              if bool_decide (tx_hash tx ≠ h)
              then throw (Integrity "indexed transaction hash does not match transaction")
              else mret (Some (location, tx))
          end
      end
  end.

Definition load_address_transaction_locations (a : Address) :
    St (list AddressTransactionLocation) :=
  ro_txn (
    entries ← cursor_iter AddressTxIndex;
    locations ← map_decode (filter (λ kv, starts_with kv.1 (address_key a) = true) entries).*2;
    mret (sort_by_key (λ l, (al_block_height l, al_tx_index l, al_sent l)) locations)).

(** ** Accounts and snapshots *)

Definition save_account (account : Account) : St () :=
  rw_txn (put_value Accounts (address_key (account_address account)) account).

Definition load_account (a : Address) : St (option Account) :=
  ro_txn (read_value Accounts (address_key a)).

Definition save_genesis_accounts (accts : gmap Address Account) : St () :=
  rw_txn (put_value GenesisAccounts ACCOUNTS_KEY accts).

Definition load_genesis_accounts : St (option (gmap Address Account)) :=
  ro_txn (read_value GenesisAccounts ACCOUNTS_KEY).

Definition verify_state_root (s : StateSnapshot) : bool :=
  bool_decide (calculate_state_root (ss_accounts s) = ss_state_root s).

Definition verify_against_block (s : StateSnapshot) (block : Block) : bool :=
  bool_decide (block_height block = ss_height s) &&
  bool_decide (block_hash block = ss_block_hash s) &&
  bool_decide (block_state_root block = ss_state_root s) &&
  verify_state_root s.

Definition snapshot_of (ledger : Ledger) (height : Height) (hash : BlockHash) : StateSnapshot :=
  mkSnapshot height hash (ledger_state_root ledger) (accounts ledger).

Definition save_state_snapshot (ledger : Ledger) : St () :=
  match tip_height ledger, tip_hash ledger with
  | Some height, Some hash =>
      if bool_decide (height ≠ 0) && negb (is_snapshot_height height)
      then throw (Integrity "state snapshot height is not a protocol snapshot height")
      else rw_txn (put_value StateSnapshots (height_key height) (snapshot_of ledger height hash))
  | _, _ => mret tt
  end.

Definition load_state_snapshot (h : Height) : St (option StateSnapshot) :=
  ro_txn (
    o ← read_bytes StateSnapshots (height_key h);
    match o with
    | None => mret None
    | Some b =>
        snapshot ← decode_ b;
        if bool_decide (ss_height snapshot ≠ h)
        then throw (Integrity "stored state snapshot height does not match height key")
        else if negb (verify_state_root snapshot)
        then throw (Integrity "stored state snapshot root does not match accounts")
        else mret (Some snapshot)
    end).

(** ** Tip *)

Definition write_tip (height : Height) (hash : BlockHash) : St () :=
  put_value Meta TIP_HEIGHT_KEY height ;; put Meta TIP_HASH_KEY (hash_key hash).

Definition save_tip (height : Height) (hash : BlockHash) : St () :=
  rw_txn (write_tip height hash).

Definition load_tip : St (option (Height * BlockHash)) :=
  ro_txn (
    oh ← read_bytes Meta TIP_HEIGHT_KEY;
    match oh with
    | None => mret None
    | Some height_bytes =>
        os ← read_bytes Meta TIP_HASH_KEY;
        match os with
        | None => mret None
        | Some hash_bytes =>
            height ← decode_ height_bytes;
            if bool_decide (length hash_bytes = HASH_SIZE)
            then mret (Some (height, be_value hash_bytes))
            else throw (invalid_data "stored tip hash has invalid length")
        end
    end).

(** ** The ledger *)

Definition write_ledger (ledger : Ledger) : St () :=
  for_each clear_db [BlocksByHeight; Accounts; StateSnapshots; TxIndex; AddressTxIndex] ;;
  for_each (λ a, put_value Accounts (address_key (account_address a)) a)
    (bt_values (accounts ledger)) ;;
  for_each write_block (chain_blocks (chain ledger)) ;;
  match tip_height ledger, tip_hash ledger with
  | Some height, Some hash =>
      write_tip height hash ;;
      (if bool_decide (height = 0) || is_snapshot_height height
       then put_value StateSnapshots (height_key height) (snapshot_of ledger height hash)
       else mret tt) ;;
      (if bool_decide (height = 0)
       then put_value GenesisAccounts ACCOUNTS_KEY (accounts ledger)
       else mret tt)
  | _, _ => mret tt
  end.

Definition save_ledger (ledger : Ledger) : St () :=
  rw_txn (write_ledger ledger) ;; flush.

(** One height of the integrity check, from the tip down. *)
Definition check_height (expected_hash : BlockHash) (h : Height) : St BlockHash :=
  ob ← load_block_by_height h;
  block ← lift (ok_or ob (Integrity "stored chain block is missing"));
  if bool_decide (block_hash block ≠ expected_hash)
  then throw (Integrity "stored chain block hash does not match expected hash")
  else if bool_decide (h = 0) then
    if bool_decide (previous_hash block ≠ zero_hash)
    then throw (Integrity "stored genesis block previous hash is not zero")
    else mret expected_hash
  else
    op ← load_block_by_height (h - 1);
    previous ← lift (ok_or op (Integrity "stored previous chain block is missing"));
    if bool_decide (previous_hash block ≠ block_hash previous)
    then throw (Integrity "stored chain block previous hash is broken")
    else mret (block_hash previous).

Fixpoint check_heights (expected_hash : BlockHash) (hs : list Height) : St () :=
  match hs with
  | [] => mret tt
  | h :: hs' => next ← check_height expected_hash h; check_heights next hs'
  end.

Definition validate_chain_integrity : St () :=
  tip ← load_tip;
  match tip with
  | None => mret tt
  | Some (height, hash) =>
      ob ← load_block_by_height height;
      tip_block ← lift (ok_or ob (Integrity "stored tip height block is missing"));
      if bool_decide (block_hash tip_block ≠ hash)
      then throw (Integrity "stored tip hash does not match tip height block")
      else check_heights hash (reverse (seqZ 0 (height + 1)))
  end.

Fixpoint load_accounts (entries : list (bytes * bytes)) (accts : gmap Address Account) :
    St (gmap Address Account) :=
  match entries with
  | [] => mret accts
  | (key, b) :: entries' =>
      account ← decode_ b;
      if bool_decide (address_key (account_address account) ≠ key)
      then throw (Integrity "stored account address does not match account key")
      else load_accounts entries' (<[account_address account := account]> accts)
  end.

Fixpoint load_chain (hs : list Height) (c : Chain) : St Chain :=
  match hs with
  | [] => mret c
  | h :: hs' =>
      ob ← load_block_by_height h;
      block ← lift (ok_or ob (Integrity "stored chain block is missing"));
      match chain_insert_block block c with
      | (Ok _, c') => load_chain hs' c'
      | (Err _, _) => throw (Integrity "stored chain block is invalid")
      end
  end.

Definition load_ledger : St Ledger :=
  ensure_storage_version ;;
  validate_chain_integrity ;;
  accts ← ro_txn (entries ← cursor_iter Accounts; load_accounts entries (accounts ledger_new));
  tip ← load_tip;
  match tip with
  | None => mret (mkLedger accts (chain ledger_new))
  | Some (height, _) =>
      c ← load_chain (seqZ 0 (height + 1)) (chain ledger_new);
      mret (mkLedger accts c)
  end.

Definition difficulty_window (tip : Height) (window : Z) :
    St (option (Timestamp * Timestamp * Z * Z)) :=
  if bool_decide (window = 0) || bool_decide (tip < window) then mret None
  else
    ot ← load_block_by_height tip;
    match ot with
    | None => mret None
    | Some tip_block =>
        let first_height := tip - window in
        ofirst ← load_block_by_height first_height;
        match ofirst with
        | None => mret None
        | Some first =>
            let block_count := sat_sub tip first_height in
            mret (Some (block_timestamp first, block_timestamp tip_block, block_count,
                        block_difficulty tip_block))
        end
    end.

End storage.

(** Storage code. *)
Abbreviation St := (SE Store StorageError).

End Storage.
