(* ===== verification/StorageFacts.v ===== *)
(** * StorageFacts: running the storage methods

    [runs m tb r tb'] is the big-step judgement of storage code: on committed
    (or working) tables [tb] the method [m] returns [r] and leaves [tb'],
    whatever the number of engine calls made before.  The lemmas give the
    judgement of every primitive when the engine does not fail, and the tables
    the writers leave behind. *)

From S2P Require Import Prelude Collections Core Bytes Storage.

Module StorageFacts.
Import Storage.

(** No call of the engine fails. *)
Class NoFaults `{Lmdb} : Prop := no_fault n : lmdb_fault n = None.

(** ** One table written many times *)

Section table.
Context `{Kv, !KvLaws}.

Definition puts (kvs : list (bytes * bytes)) (t : Table) : Table :=
  foldl (λ t kv, kv_put kv.1 kv.2 t) t kvs.

Lemma kv_get_puts_out kvs t k : k ∉ kvs.*1 → kv_get (puts kvs t) k = kv_get t k.
Proof.
  revert t. induction kvs as [|[k' v'] kvs IH]; intros t Hk; simpl; [done|].
  rewrite IH by set_solver. rewrite kv_get_put, decide_False by set_solver. done.
Qed.

Lemma kv_get_puts_in kvs t k v :
  (k, v) ∈ kvs → (∀ v', (k, v') ∈ kvs → v' = v) → kv_get (puts kvs t) k = Some v.
Proof.
  revert t. induction kvs as [|[k' v'] kvs IH]; intros t Hin Hfun; [set_solver|]. simpl.
  destruct (decide (k ∈ kvs.*1)) as [([k1 v1] & Hk1 & Hv1)%list_elem_of_fmap|Hout].
  - simpl in Hk1. subst k1. assert (v1 = v) as -> by (apply Hfun; set_solver).
    apply IH; [done|]. intros; apply Hfun; set_solver.
  - rewrite kv_get_puts_out, kv_get_put by done. apply elem_of_cons in Hin as [[= -> ->]|Hin].
    + by rewrite decide_True.
    + destruct Hout. apply list_elem_of_fmap. by exists (k, v).
Qed.

Lemma kv_get_puts_inv kvs t k v :
  kv_get (puts kvs t) k = Some v → (k, v) ∈ kvs ∨ kv_get t k = Some v.
Proof.
  induction kvs as [|[k' v'] kvs IH] using rev_ind; simpl; [by right|].
  unfold puts. rewrite foldl_snoc. simpl. rewrite kv_get_put.
  case_decide as Hk; [intros [= ->]; subst; left; set_solver|].
  intros [Hin|Ht]%IH; [left; set_solver|by right].
Qed.

Lemma kv_get_puts_empty kvs k v :
  kv_get (puts kvs kv_empty) k = Some v → (k, v) ∈ kvs.
Proof. intros [Hin|He]%kv_get_puts_inv; [done|]. by rewrite kv_get_empty in He. Qed.

End table.

(** ** Tables are independent *)

Section independent.
Context `{Kv}.
Abbreviation Tables := (Database_ → Table) (only parsing).
Implicit Types tb : Database_ → Table.

Definition put_tb (db : Database_) (k v : bytes) tb : Tables :=
  set_table db (kv_put k v (tb db)) tb.

Lemma set_table_eq db t tb : set_table db t tb db = t.
Proof. unfold set_table. by rewrite decide_True. Qed.

Lemma set_table_ne db db' t tb : db' ≠ db → set_table db t tb db' = tb db'.
Proof. intros. unfold set_table. by rewrite decide_False. Qed.

Lemma put_tb_eq db k v tb : put_tb db k v tb db = kv_put k v (tb db).
Proof. apply set_table_eq. Qed.

Lemma put_tb_ne db db' k v tb : db' ≠ db → put_tb db k v tb db' = tb db'.
Proof. apply set_table_ne. Qed.

End independent.

Section facts.
Context `{Paqus, Kv, Lmdb}.
Abbreviation Tables := (Database_ → Table) (only parsing).
Implicit Types tb : Database_ → Table.

Definition runs {A} (m : St A) tb (r : result StorageError A) tb' : Prop :=
  ∀ n, ∃ n', m (mkStore tb n) = (r, mkStore tb' n').

(** ** Structural rules *)

Lemma runs_ret {A} (a : A) tb : runs (mret a) tb (Ok a) tb.
Proof. intros n. by exists n. Qed.

Lemma runs_throw {A} e tb : runs (throw e : St A) tb (Err e) tb.
Proof. intros n. by exists n. Qed.

Lemma runs_lift {A} (r : result StorageError A) tb : runs (lift r) tb r tb.
Proof. intros n. by exists n. Qed.

Lemma runs_bind {A B} (m : St A) (f : A → St B) tb a tb1 r tb2 :
  runs m tb (Ok a) tb1 → runs (f a) tb1 r tb2 → runs (m ≫= f) tb r tb2.
Proof.
  intros Hm Hf n. destruct (Hm n) as [n1 Hn1]. destruct (Hf n1) as [n2 Hn2].
  exists n2. by rewrite SE_bind_unfold, Hn1.
Qed.

Lemma runs_bind_Err {A B} (m : St A) (f : A → St B) tb e tb1 :
  runs m tb (Err e) tb1 → runs (m ≫= f) tb (Err e) tb1.
Proof. intros Hm n. destruct (Hm n) as [n1 Hn1]. exists n1. by rewrite SE_bind_unfold, Hn1. Qed.

(** A method has one outcome. *)
Lemma runs_det {A} (m : St A) tb r tb1 r' tb1' :
  runs m tb r tb1 → runs m tb r' tb1' → r = r' ∧ tb1 = tb1'.
Proof. intros H1' H2'. destruct (H1' 0%nat) as [? E1], (H2' 0%nat) as [? E2]. rewrite E1 in E2.
  by simplify_eq. Qed.

Lemma runs_for_each {A} (f : A → St ()) (g : A → Tables → Tables) l tb :
  (∀ x tb, x ∈ l → runs (f x) tb (Ok tt) (g x tb)) →
  runs (for_each f l) tb (Ok tt) (foldl (λ tb x, g x tb) tb l).
Proof.
  revert tb. induction l as [|x l IH]; intros tb Hf; simpl; [apply runs_ret|].
  eapply runs_bind; [apply Hf; set_solver|]. apply IH. intros; apply Hf; set_solver.
Qed.

Context `{!NoFaults}.

(** ** Engine calls *)

Lemma runs_call tb : runs lmdb_call tb (Ok tt) tb.
Proof. intros n. exists (S n). unfold lmdb_call; simpl. by rewrite no_fault. Qed.

Lemma runs_ro {A} (m : St A) tb r tb' : runs m tb r tb' → runs (ro_txn m) tb r tb'.
Proof. intros Hm. eapply runs_bind; [apply runs_call|done]. Qed.

Lemma runs_rw {A} (m : St A) tb a tb' :
  runs m tb (Ok a) tb' → runs (rw_txn m) tb (Ok a) tb'.
Proof.
  intros Hm n. destruct (Hm (S n)) as [n1 Hn1]. exists (S n1).
  unfold rw_txn, lmdb_call; simpl. rewrite no_fault, Hn1. simpl. by rewrite no_fault.
Qed.

Lemma runs_modify_table db f tb :
  runs (modify_table db f) tb (Ok tt) (set_table db (f (tb db)) tb).
Proof. intros n. by exists n. Qed.

Lemma runs_put db k v tb : runs (put db k v) tb (Ok tt) (put_tb db k v tb).
Proof. eapply runs_bind; [apply runs_call|apply runs_modify_table]. Qed.

Lemma runs_clear db tb : runs (clear_db db) tb (Ok tt) (set_table db kv_empty tb).
Proof. eapply runs_bind; [apply runs_call|apply runs_modify_table]. Qed.

Lemma runs_read_bytes db k tb : runs (read_bytes db k) tb (Ok (kv_get (tb db) k)) tb.
Proof. eapply runs_bind; [apply runs_call|]. intros n. by exists n. Qed.

Lemma runs_cursor db tb : runs (cursor_iter db) tb (Ok (kv_iter (tb db))) tb.
Proof. eapply runs_bind; [apply runs_call|]. intros n. by exists n. Qed.

Lemma runs_decode {A} `{!Borsh A} b (x : A) tb : decode b = Ok x → runs (decode_ b) tb (Ok x) tb.
Proof. intros Hb. unfold decode_. rewrite Hb. apply runs_lift. Qed.

(** ** Codecs *)

Definition enc {A} `{!Borsh A} (x : A) : bytes :=
  match encode x with Ok b => b | Err _ => [] end.

Lemma encode_enc {A} `{!Borsh A, !BorshLaws A} (x : A) : encode x = Ok (enc x).
Proof. unfold enc. by destruct (encode_total x) as [b ->]. Qed.

Lemma decode_enc {A} `{!Borsh A, !BorshLaws A} (x : A) : decode (enc x) = Ok x.
Proof. apply decode_encode, encode_enc. Qed.

Lemma enc_inj {A} `{!Borsh A, !BorshLaws A} (x y : A) : enc x = enc y → x = y.
Proof. intros Hxy. pose proof (decode_enc x) as Hx. rewrite Hxy, decode_enc in Hx. by simplify_eq. Qed.

Lemma runs_encode {A} `{!Borsh A, !BorshLaws A} (x : A) tb : runs (encode_ x) tb (Ok (enc x)) tb.
Proof. unfold encode_. rewrite encode_enc. apply runs_lift. Qed.

Lemma runs_put_value {A} `{!Borsh A, !BorshLaws A} db k (x : A) tb :
  runs (put_value db k x) tb (Ok tt) (put_tb db k (enc x) tb).
Proof. eapply runs_bind; [apply runs_encode|apply runs_put]. Qed.

Lemma runs_read_value {A} `{!Borsh A} db k (x : A) b tb :
  kv_get (tb db) k = Some b → decode b = Ok x →
  runs (read_value db k) tb (Ok (Some x)) tb.
Proof.
  intros Hk Hb. eapply runs_bind; [apply runs_read_bytes|]. rewrite Hk.
  eapply runs_bind; [by apply runs_decode|apply runs_ret].
Qed.

Lemma runs_read_value_None {A} `{!Borsh A} db k tb :
  kv_get (tb db) k = None → runs (read_value (A := A) db k) tb (Ok None) tb.
Proof.
  intros Hk. eapply runs_bind; [apply runs_read_bytes|]. rewrite Hk. apply runs_ret.
Qed.

End facts.

(** ** Reading methods

    A method that opens no write transaction leaves the tables alone, also
    when the engine fails. *)

Section readers.
Context `{Paqus, Kv, Lmdb, !Codecs}.

Definition same_tables (st st' : Store) : Prop := tables st = tables st'.
#[export] Instance same_tables_preorder : PreOrder same_tables.
Proof. split; unfold same_tables; [done|congruence]. Qed.

Lemma keeps_call : keeps same_tables lmdb_call.
Proof. intros st. unfold lmdb_call, same_tables. by destruct (lmdb_fault _). Qed.

Lemma keeps_read_bytes db k : keeps same_tables (read_bytes db k).
Proof. apply keeps_bind; [apply _|apply keeps_call|intros _; apply keeps_gets, _]. Qed.

(** A read of a block by either key. *)
Lemma keeps_load db k (check : Block → SE Store StorageError (option Block)) :
  (∀ b, keeps same_tables (check b)) →
  keeps same_tables (ro_txn (
    o ← read_bytes db k;
    match o with None => mret None | Some b => block ← decode_ b; check block end)).
Proof.
  intros Hc. apply keeps_bind; [apply _|apply keeps_call|intros _].
  apply keeps_bind; [apply _|apply keeps_read_bytes|intros [b|]]; [|apply keeps_ret, _].
  apply keeps_bind; [apply _|apply keeps_lift, _|apply Hc].
Qed.

Lemma keeps_load_by_height h : keeps same_tables (load_block_by_height h).
Proof. apply keeps_load. intros b. case_bool_decide; [apply keeps_throw, _|apply keeps_ret, _]. Qed.
Lemma keeps_load_by_hash h : keeps same_tables (load_block_by_hash h).
Proof. apply keeps_load. intros b. case_bool_decide; [apply keeps_throw, _|apply keeps_ret, _]. Qed.

Lemma keeps_difficulty_window tip window : keeps same_tables (difficulty_window tip window).
Proof.
  unfold difficulty_window. case_match; [apply keeps_ret, _|].
  apply keeps_bind; [apply _|apply keeps_load_by_height|intros [b|]]; [|apply keeps_ret, _]. cbn zeta.
  apply keeps_bind; [apply _|apply keeps_load_by_height|intros [b'|]]; apply keeps_ret, _.
Qed.

End readers.

End StorageFacts.
