(* ===== verification/StorageLedger.v ===== *)
(** * StorageLedger: what saving a ledger writes

    The records a ledger is stored as, as one list of writes ([ledger_ops]),
    and the two facts the storage theorems rest on: a write that reports
    success has made exactly those writes, whatever engine calls fail, and
    without failures it does report success. *)

From S2P Require Import Prelude Collections Core Bytes Storage StorageFacts.

Module StorageLedger.
Import Storage StorageFacts.

(** One record written: the table, the key and the value. *)
Abbreviation op := (Database_ * (bytes * bytes))%type (only parsing).

Section ledger.
Context `{Paqus, Kv, Lmdb, !Codecs}.
Implicit Types tb : Database_ → Table.

Definition apply_ops (ops : list op) tb : Database_ → Table :=
  foldl (λ tb o, put_tb o.1 o.2.1 o.2.2 tb) tb ops.

(** The records of one table. *)
Definition ops_of (db : Database_) (ops : list op) : list (bytes * bytes) :=
  (filter (λ o, o.1 = db) ops).*2.

Lemma apply_ops_app ops1 ops2 tb :
  apply_ops (ops1 ++ ops2) tb = apply_ops ops2 (apply_ops ops1 tb).
Proof. apply foldl_app. Qed.

Lemma apply_ops_table ops tb db : apply_ops ops tb db = puts (ops_of db ops) (tb db).
Proof.
  revert tb. induction ops as [|[db' [k v]] ops IH]; intros tb; simpl; [done|].
  rewrite IH. unfold ops_of. rewrite filter_cons. simpl. case_decide as Hdb; simpl.
  - subst. by rewrite put_tb_eq.
  - by rewrite put_tb_ne by done.
Qed.

(** ** The records of a ledger *)

Definition tx_ops (block : Block) (index : nat) (tx : SignedTransaction) : list op :=
  let i := Z.of_nat index in
  let at_ sent := mkAddressLocation (tx_hash tx) (block_height block) (block_hash block) i sent in
  (TxIndex, (hash_key (tx_hash tx), enc (mkLocation (block_height block) (block_hash block) i))) ::
  (AddressTxIndex, (address_tx_key (tx_from tx) (block_height block) i true, enc (at_ true))) ::
  if bool_decide (tx_to tx ≠ tx_from tx)
  then [(AddressTxIndex, (address_tx_key (tx_to tx) (block_height block) i false, enc (at_ false)))]
  else [].

Definition block_ops (block : Block) : list op :=
  (BlocksByHeight, (height_key (block_height block), enc block)) ::
  (BlocksByHash, (hash_key (block_hash block), enc block)) ::
  concat (imap (tx_ops block) (block_transactions block)).

Definition account_op (a : Account) : op := (Accounts, (address_key (account_address a), enc a)).

Definition tip_ops (ledger : Ledger) (height : Height) (hash : BlockHash) : list op :=
  (Meta, (TIP_HEIGHT_KEY, enc height)) :: (Meta, (TIP_HASH_KEY, hash_key hash)) ::
  (if bool_decide (height = 0) || is_snapshot_height height
   then [(StateSnapshots, (height_key height, enc (snapshot_of ledger height hash)))] else []) ++
  (if bool_decide (height = 0) then [(GenesisAccounts, (ACCOUNTS_KEY, enc (accounts ledger)))] else []).

Definition ledger_ops (ledger : Ledger) : list op :=
  (account_op <$> bt_values (accounts ledger)) ++
  concat (block_ops <$> chain_blocks (chain ledger)) ++
  match tip_height ledger, tip_hash ledger with
  | Some height, Some hash => tip_ops ledger height hash
  | _, _ => []
  end.

Definition clear_tables tb : Database_ → Table :=
  foldl (λ tb db, set_table db kv_empty tb) tb
    [BlocksByHeight; Accounts; StateSnapshots; TxIndex; AddressTxIndex].

(** The tables after a ledger was saved over [tb]. *)
Definition ledger_tables (ledger : Ledger) tb : Database_ → Table :=
  apply_ops (ledger_ops ledger) (clear_tables tb).

(** ** Writes that succeed are complete *)

(** Whatever the engine does, success means the tables moved by [g]. *)
Definition moves {A} (m : St A) (g : (Database_ → Table) → (Database_ → Table)) : Prop :=
  ∀ st a st', m st = (Ok a, st') → tables st' = g (tables st).

Lemma moves_ret {A} (a : A) : moves (mret a) id.
Proof. intros st a' st' [= _ <-]. done. Qed.

Lemma moves_throw {A} e g : moves (throw e : St A) g.
Proof. intros st a' st' [=]. Qed.

Lemma moves_call : moves lmdb_call id.
Proof. intros st a st'. unfold lmdb_call. destruct (lmdb_fault _); intros [=]; by subst. Qed.

Lemma moves_bind {A B} (m : St A) (f : A → St B) g1 g2 :
  moves m g1 → (∀ a, moves (f a) g2) → moves (m ≫= f) (λ tb, g2 (g1 tb)).
Proof.
  intros Hm Hf st b st'. rewrite SE_bind_unfold.
  destruct (m st) as [[a|e] st1] eqn:E; [|intros [=]]. intros E2.
  by rewrite (Hf _ _ _ _ E2), (Hm _ _ _ E).
Qed.

Lemma moves_put db k v : moves (put db k v) (apply_ops [(db, (k, v))]).
Proof.
  intros st a st' E. refine (moves_bind _ _ id (apply_ops [(db, (k, v))]) moves_call _ _ _ _ E).
  intros _ s b s' [= _ <-]. done.
Qed.

Lemma moves_clear db : moves (clear_db db) (set_table db kv_empty).
Proof.
  intros st a st' E. refine (moves_bind _ _ id (set_table db kv_empty) moves_call _ _ _ _ E).
  intros _ s b s' [= _ <-]. done.
Qed.

Lemma moves_encode {A B} `{!Borsh A} (x : A) (f : bytes → St B) g :
  moves (f (enc x)) g → moves (encode_ x ≫= f) g.
Proof.
  intros Hf st a st'. unfold encode_, enc in *. rewrite SE_bind_lift.
  destruct (encode x); simpl; [apply Hf|intros [=]].
Qed.

Lemma moves_put_value {A} `{!Borsh A} db k (x : A) :
  moves (put_value db k x) (apply_ops [(db, (k, enc x))]).
Proof. apply moves_encode, moves_put. Qed.

Lemma moves_ops_bind {A B} (m : St A) (f : A → St B) ops1 ops2 :
  moves m (apply_ops ops1) → (∀ a, moves (f a) (apply_ops ops2)) →
  moves (m ≫= f) (apply_ops (ops1 ++ ops2)).
Proof.
  intros Hm Hf st b st' E. rewrite apply_ops_app.
  exact (moves_bind _ _ _ _ Hm Hf _ _ _ E).
Qed.

Lemma moves_for_each {A} (f : A → St ()) (ops : A → list op) l :
  (∀ x, moves (f x) (apply_ops (ops x))) →
  moves (for_each f l) (apply_ops (concat (ops <$> l))).
Proof.
  intros Hf. induction l as [|x l IH]; csimpl; [apply moves_ret|].
  apply moves_ops_bind; [apply Hf|by intros _].
Qed.

Lemma concat_imap_pair {A} (f : nat → A → list op) (l : list A) :
  concat ((λ p, f p.1 p.2) <$> imap pair l) = concat (imap f l).
Proof. f_equal. rewrite fmap_imap. by apply imap_ext. Qed.

Lemma moves_index_transaction block i tx :
  moves (index_transaction block (i, tx)) (apply_ops (tx_ops block i tx)).
Proof.
  unfold index_transaction, tx_ops. case_bool_decide as Hi; [apply moves_throw|].
  apply (moves_ops_bind _ _ [_]); [apply moves_put_value|intros _].
  apply (moves_ops_bind _ _ [_]); [apply moves_put_value|intros _].
  case_bool_decide; [apply moves_put_value|apply moves_ret].
Qed.

Lemma moves_index block :
  moves (index_block_transactions block)
    (apply_ops (concat (imap (tx_ops block) (block_transactions block)))).
Proof.
  unfold index_block_transactions. rewrite <-concat_imap_pair. apply moves_for_each.
  intros [i tx]. apply moves_index_transaction.
Qed.

Lemma moves_write_block block : moves (write_block block) (apply_ops (block_ops block)).
Proof.
  apply moves_encode. apply (moves_ops_bind _ _ [_]); [apply moves_put|intros _].
  apply (moves_ops_bind _ _ [_]); [apply moves_put|intros _]. apply moves_index.
Qed.

Lemma moves_write_tip height hash :
  moves (write_tip height hash)
    (apply_ops [(Meta, (TIP_HEIGHT_KEY, enc height)); (Meta, (TIP_HASH_KEY, hash_key hash))]).
Proof.
  apply (moves_ops_bind _ _ [_]); [apply moves_put_value|intros _]. apply moves_put.
Qed.

Lemma moves_clear_all dbs :
  moves (for_each clear_db dbs) (λ tb, foldl (λ tb db, set_table db kv_empty tb) tb dbs).
Proof.
  induction dbs as [|db dbs IH]; simpl; [apply moves_ret|].
  exact (moves_bind _ _ _ _ (moves_clear db) (λ _, IH)).
Qed.

Lemma account_ops_concat l : account_op <$> l = concat ((λ a, [account_op a]) <$> l).
Proof. induction l; csimpl; [done|by f_equal]. Qed.

Lemma moves_write_ledger ledger : moves (write_ledger ledger) (ledger_tables ledger).
Proof.
  unfold write_ledger, ledger_tables.
  apply (moves_bind _ _ clear_tables (apply_ops (ledger_ops ledger))); [apply moves_clear_all|intros _].
  unfold ledger_ops. rewrite account_ops_concat.
  apply moves_ops_bind; [apply moves_for_each; intros a; apply moves_put_value|intros _].
  apply moves_ops_bind; [apply moves_for_each, moves_write_block|intros _].
  destruct (tip_height ledger) as [height|]; [|apply moves_ret].
  destruct (tip_hash ledger) as [hash|]; [|apply moves_ret].
  apply (moves_ops_bind _ _ [_; _]); [apply moves_write_tip|intros _].
  apply moves_ops_bind; [case_match; [apply moves_put_value|apply moves_ret]|intros _].
  case_match; [apply moves_put_value|apply moves_ret].
Qed.

(** ** Transactions are atomic *)

(** A write transaction either reports success and has moved the tables, or
    reports an error and has not. *)
Lemma rw_txn_atomic {A} (m : St A) g st :
  moves m g →
  match rw_txn m st with
  | (Ok _, st') => tables st' = g (tables st)
  | (Err _, st') => tables st' = tables st
  end.
Proof.
  intros Hm. unfold rw_txn. pose proof (moves_call st) as Hc.
  destruct (lmdb_call st) as [[[]|e] st1] eqn:E1; cycle 1.
  { unfold lmdb_call in E1. by destruct (lmdb_fault _); simplify_eq. }
  specialize (Hc _ _ eq_refl). simpl in Hc.
  destruct (m st1) as [[a|e] st2] eqn:E2; [|done].
  apply Hm in E2. destruct (lmdb_call st2) as [[[]|e] st3] eqn:E3; [|done].
  apply moves_call in E3. simpl in E3. by rewrite E3, E2, Hc.
Qed.

Lemma moves_save_side_block block :
  moves (save_side_block block)
    (put_tb BlocksByHash (hash_key (block_hash block)) (enc block)).
Proof.
  apply moves_encode. intros st a st' E.
  pose proof (rw_txn_atomic _ _ st (moves_put BlocksByHash (hash_key (block_hash block)) (enc block))) as Hs.
  by rewrite E in Hs.
Qed.

(** A side block is saved, or the tables stand. *)
Lemma save_side_block_cases block st :
  tables (save_side_block block st).2 = tables st ∨
  tables (save_side_block block st).2 =
    put_tb BlocksByHash (hash_key (block_hash block)) (enc block) (tables st).
Proof.
  unfold save_side_block, encode_. rewrite SE_bind_lift.
  pose proof (moves_put BlocksByHash (hash_key (block_hash block)) (enc block)) as Hp. unfold enc in *.
  destruct (encode block) as [v|]; [|by left]. cbn [map_err].
  pose proof (rw_txn_atomic _ _ st Hp) as Hrw.
  destruct (rw_txn _ st) as [[a|e] st']; [by right|by left].
Qed.

(** The outcomes of a save under any failures of the engine.  An error either
    comes from the write transaction, which then has changed nothing, or from
    the final flush, the one call made after the commit. *)
Inductive saved (ledger : Ledger) (st : Store) : result StorageError () * Store → Prop :=
  | saved_done st' :
      tables st' = ledger_tables ledger (tables st) →
      saved ledger st (Ok tt, st')
  | saved_nothing e st' :
      rw_txn (write_ledger ledger) st = (Err e, st') → tables st' = tables st →
      saved ledger st (Err e, st')
  | saved_unflushed code st1 :
      rw_txn (write_ledger ledger) st = (Ok tt, st1) →
      tables st1 = ledger_tables ledger (tables st) →
      lmdb_fault (calls st1) = Some code →
      saved ledger st (Err (Database code), mkStore (tables st1) (S (calls st1))).

Lemma save_ledger_saved ledger st : saved ledger st (save_ledger ledger st).
Proof.
  pose proof (rw_txn_atomic _ _ st (moves_write_ledger ledger)) as Hrw.
  unfold save_ledger. rewrite SE_bind_unfold.
  destruct (rw_txn (write_ledger ledger) st) as [[[]|e] st1] eqn:E; [|by constructor].
  unfold flush, lmdb_call. destruct (lmdb_fault _) eqn:Ef; by econstructor.
Qed.

Lemma save_ledger_cases ledger st :
  match save_ledger ledger st with
  | (Ok _, st') => tables st' = ledger_tables ledger (tables st)
  | (Err _, st') => tables st' = tables st ∨ tables st' = ledger_tables ledger (tables st)
  end.
Proof. destruct (save_ledger_saved ledger st); auto. Qed.

(** ** Without failures writes succeed *)

Context `{!NoFaults, !CodecLaws}.

Definition succeeds {A} (m : St A) : Prop := ∀ st, ∃ a st', m st = (Ok a, st').

Lemma succeeds_ret {A} (a : A) : succeeds (mret a).
Proof. intros st. by exists a, st. Qed.

Lemma succeeds_bind {A B} (m : St A) (f : A → St B) :
  succeeds m → (∀ a, succeeds (f a)) → succeeds (m ≫= f).
Proof.
  intros Hm Hf st. rewrite SE_bind_unfold. destruct (Hm st) as (a & st1 & ->). apply Hf.
Qed.

Lemma succeeds_call : succeeds lmdb_call.
Proof. intros st. unfold lmdb_call. rewrite no_fault. eauto. Qed.

Lemma succeeds_put db k v : succeeds (put db k v).
Proof. apply succeeds_bind; [apply succeeds_call|]. intros _ st. by repeat eexists. Qed.

Lemma succeeds_clear db : succeeds (clear_db db).
Proof. apply succeeds_bind; [apply succeeds_call|]. intros _ st. by repeat eexists. Qed.

Lemma succeeds_encode {A} `{!Borsh A, !BorshLaws A} (x : A) : succeeds (encode_ x).
Proof. intros st. unfold encode_, lift. rewrite encode_enc. by repeat eexists. Qed.

Lemma succeeds_put_value {A} `{!Borsh A, !BorshLaws A} db k (x : A) : succeeds (put_value db k x).
Proof. apply succeeds_bind; [apply succeeds_encode|intros b; apply succeeds_put]. Qed.

Lemma succeeds_for_each {A} (f : A → St ()) l :
  (∀ x, x ∈ l → succeeds (f x)) → succeeds (for_each f l).
Proof.
  induction l as [|x l IH]; intros Hf; simpl; [apply succeeds_ret|].
  apply succeeds_bind; [apply Hf; set_solver|]. intros _. apply IH. intros; apply Hf; set_solver.
Qed.

Lemma succeeds_rw {A} (m : St A) : succeeds m → succeeds (rw_txn m).
Proof.
  intros Hm st. unfold rw_txn. destruct (succeeds_call st) as (a & st1 & ->).
  destruct (Hm st1) as (b & st2 & ->). destruct (succeeds_call st2) as (c & st3 & ->). eauto.
Qed.

#[local] Hint Resolve succeeds_ret succeeds_call succeeds_put succeeds_clear : paqus.
#[local] Hint Extern 1 (succeeds (put_value _ _ _)) => apply succeeds_put_value : paqus.
#[local] Hint Extern 1 (succeeds (encode_ _)) => apply succeeds_encode : paqus.

Lemma succeeds_index block :
  Z.of_nat (length (block_transactions block)) ≤ u32_max →
  succeeds (index_block_transactions block).
Proof.
  intros Hlen. apply succeeds_for_each.
  intros p (i & tx & -> & Hj)%elem_of_lookup_imap.
  apply lookup_lt_Some in Hj. unfold index_transaction. cbn zeta.
  rewrite bool_decide_eq_false_2 by lia.
  do 2 (apply succeeds_bind; [eauto with paqus|intros _]). case_match; eauto with paqus.
Qed.

Lemma succeeds_write_ledger ledger :
  (∀ block, block ∈ chain_blocks (chain ledger) →
    Z.of_nat (length (block_transactions block)) ≤ u32_max) →
  succeeds (write_ledger ledger).
Proof.
  intros Hlen. unfold write_ledger.
  apply succeeds_bind; [apply succeeds_for_each; eauto with paqus|intros _].
  apply succeeds_bind; [apply succeeds_for_each; eauto with paqus|intros _].
  apply succeeds_bind; [apply succeeds_for_each; intros block Hb|intros _].
  { apply succeeds_bind; [eauto with paqus|intros b].
    do 2 (apply succeeds_bind; [eauto with paqus|intros _]). by apply succeeds_index, Hlen. }
  destruct (tip_height ledger), (tip_hash ledger); eauto with paqus.
  apply succeeds_bind; [apply succeeds_bind; eauto with paqus|intros _].
  apply succeeds_bind; [|intros _]; case_match; eauto with paqus.
Qed.

(** Success and [moves] give the outcome of a method without a result. *)
Lemma runs_moves (m : St ()) g tb : succeeds m → moves m g → runs m tb (Ok tt) (g tb).
Proof.
  intros Hs Hm n. destruct (Hs (mkStore tb n)) as ([] & [tb' n'] & E).
  pose proof (Hm _ _ _ E) as Ht. simpl in Ht. subst. eauto.
Qed.

Lemma runs_save_ledger ledger tb :
  (∀ block, block ∈ chain_blocks (chain ledger) →
    Z.of_nat (length (block_transactions block)) ≤ u32_max) →
  runs (save_ledger ledger) tb (Ok tt) (ledger_tables ledger tb).
Proof.
  intros Hlen. eapply runs_bind; [|apply runs_call].
  apply runs_rw, runs_moves; [by apply succeeds_write_ledger|apply moves_write_ledger].
Qed.

End ledger.

End StorageLedger.
