(* ===== verification/StorageReads.v ===== *)
(** * StorageReads: storage queries as functions of the tables

    Reading methods never write.  When no engine call fails a reading method
    [m] denotes a function of the tables ([denotes m f]); the functions are
    the methods' bodies in the error monad, and the theorems about stored data
    are proved on them. *)

From S2P Require Import Prelude Collections Core Bytes Storage StorageFacts.

Open Scope string_scope.
Open Scope list_scope.
Open Scope Z_scope.

Module StorageReads.
Import Storage StorageFacts.

Section reads.
Context `{Paqus, Kv, Lmdb, !NoFaults, !Codecs}.
Implicit Types tb : Database_ → Table.

Definition denotes {A} (m : St A) (f : (Database_ → Table) → result StorageError A) : Prop :=
  ∀ tb, runs m tb (f tb) tb.

Lemma denotes_ret {A} (a : A) : denotes (mret a) (λ _, Ok a).
Proof. intros tb. apply runs_ret. Qed.

Lemma denotes_throw {A} e : denotes (throw e : St A) (λ _, Err e).
Proof. intros tb. apply runs_throw. Qed.

Lemma denotes_lift {A} (r : result StorageError A) : denotes (lift r) (λ _, r).
Proof. intros tb. apply runs_lift. Qed.

Lemma denotes_bind {A B} (m : St A) (k : A → St B) f g :
  denotes m f → (∀ a, denotes (k a) (g a)) →
  denotes (m ≫= k) (λ tb, f tb ≫= λ a, g a tb).
Proof.
  intros Hm Hk tb. specialize (Hm tb). destruct (f tb) as [a|e].
  - eapply runs_bind; [done|apply Hk].
  - by apply runs_bind_Err.
Qed.

Lemma denotes_ro {A} (m : St A) f : denotes m f → denotes (ro_txn m) f.
Proof. intros Hm tb. by apply runs_ro. Qed.

Lemma denotes_read_bytes db k : denotes (read_bytes db k) (λ tb, Ok (kv_get (tb db) k)).
Proof. intros tb. apply runs_read_bytes. Qed.

Lemma denotes_cursor db : denotes (cursor_iter db) (λ tb, Ok (kv_iter (tb db))).
Proof. intros tb. apply runs_cursor. Qed.

Lemma denotes_decode {A} `{!Borsh A} b :
  denotes (decode_ (A := A) b) (λ _, map_err Serialization (decode b)).
Proof. intros tb. apply runs_lift. Qed.

(** A reading method gives the same answer again. *)
Lemma denotes_Ok {A} (m : St A) f tb a :
  denotes m f → (runs m tb (Ok a) tb ↔ f tb = Ok a).
Proof.
  intros Hm. split; [|intros <-; apply Hm].
  intros Hr. by destruct (runs_det _ _ _ _ _ _ Hr (Hm tb)).
Qed.

(** ** Blocks *)

Definition block_at tb (h : Height) : result StorageError (option Block) :=
  match kv_get (tb BlocksByHeight) (height_key h) with
  | None => Ok None
  | Some b =>
      block ← map_err Serialization (decode b);
      if bool_decide (block_height block ≠ h)
      then Err (Integrity "stored block height does not match height key")
      else Ok (Some block)
  end.

Lemma denotes_block_at h : denotes (load_block_by_height h) (λ tb, block_at tb h).
Proof.
  apply denotes_ro. intros tb. unfold block_at. eapply runs_bind; [apply runs_read_bytes|].
  destruct (kv_get _ _) as [b|]; [|apply runs_ret].
  refine (denotes_bind _ _ _ (λ block _, if bool_decide (block_height block ≠ h) then _ else _)
    (denotes_decode b) _ tb).
  intros block. case_bool_decide; [apply denotes_throw|apply denotes_ret].
Qed.

Lemma block_at_stored tb h block :
  block_at tb h = Ok (Some block) →
  block_height block = h ∧
  ∃ b, kv_get (tb BlocksByHeight) (height_key h) = Some b ∧ decode b = Ok block.
Proof.
  unfold block_at. destruct (kv_get _ _) as [b|]; [|done].
  intros (x & Hx & Hb)%result_bind_Ok. case_bool_decide as Hh; [done|]. simplify_eq.
  apply map_err_Ok in Hx. split; [done|eauto].
Qed.

(** ** Tip *)

Definition tip_at tb : result StorageError (option (Height * BlockHash)) :=
  match kv_get (tb Meta) TIP_HEIGHT_KEY with
  | None => Ok None
  | Some height_bytes =>
      match kv_get (tb Meta) TIP_HASH_KEY with
      | None => Ok None
      | Some hash_bytes =>
          height ← map_err Serialization (decode height_bytes);
          if bool_decide (length hash_bytes = HASH_SIZE)
          then Ok (Some (height, be_value hash_bytes))
          else Err (invalid_data "stored tip hash has invalid length")
      end
  end.

Lemma denotes_tip_at : denotes load_tip tip_at.
Proof.
  apply denotes_ro. intros tb. unfold tip_at. eapply runs_bind; [apply runs_read_bytes|].
  destruct (kv_get _ TIP_HEIGHT_KEY) as [hb|]; [|apply runs_ret].
  eapply runs_bind; [apply runs_read_bytes|].
  destruct (kv_get _ TIP_HASH_KEY) as [sb|]; [|apply runs_ret].
  refine (denotes_bind _ _ _ (λ height _, if bool_decide (length sb = HASH_SIZE) then _ else _)
    (denotes_decode hb) _ tb).
  intros height. case_bool_decide; [apply denotes_ret|apply denotes_throw].
Qed.

(** ** The integrity check *)

Definition height_check tb (expected : BlockHash) (h : Height) : result StorageError BlockHash :=
  ob ← block_at tb h;
  block ← ok_or ob (Integrity "stored chain block is missing");
  if bool_decide (block_hash block ≠ expected)
  then Err (Integrity "stored chain block hash does not match expected hash")
  else if bool_decide (h = 0) then
    if bool_decide (previous_hash block ≠ zero_hash)
    then Err (Integrity "stored genesis block previous hash is not zero")
    else Ok expected
  else
    op ← block_at tb (h - 1);
    previous ← ok_or op (Integrity "stored previous chain block is missing");
    if bool_decide (previous_hash block ≠ block_hash previous)
    then Err (Integrity "stored chain block previous hash is broken")
    else Ok (block_hash previous).

Fixpoint heights_check tb (expected : BlockHash) (hs : list Height) : result StorageError () :=
  match hs with
  | [] => Ok tt
  | h :: hs' => next ← height_check tb expected h; heights_check tb next hs'
  end.

Definition integrity_check tb : result StorageError () :=
  tip ← tip_at tb;
  match tip with
  | None => Ok tt
  | Some (height, hash) =>
      ob ← block_at tb height;
      tip_block ← ok_or ob (Integrity "stored tip height block is missing");
      if bool_decide (block_hash tip_block ≠ hash)
      then Err (Integrity "stored tip hash does not match tip height block")
      else heights_check tb hash (reverse (seqZ 0 (height + 1)))
  end.

Lemma denotes_height_check expected h :
  denotes (check_height expected h) (λ tb, height_check tb expected h).
Proof.
  unfold check_height, height_check.
  apply (denotes_bind _ _ _ (λ ob tb, ok_or ob _ ≫= _)); [apply denotes_block_at|intros ob].
  apply (denotes_bind _ _ _ (λ block tb, if bool_decide (block_hash block ≠ expected) then _ else _));
    [apply denotes_lift|intros block].
  case_bool_decide; [apply denotes_throw|].
  case_bool_decide; [case_bool_decide; [apply denotes_throw|apply denotes_ret]|].
  apply (denotes_bind _ _ _ (λ op tb, ok_or op _ ≫= _)); [apply denotes_block_at|intros op].
  apply (denotes_bind _ _ _ (λ previous tb, if bool_decide _ then _ else _));
    [apply denotes_lift|intros previous].
  case_bool_decide; [apply denotes_throw|apply denotes_ret].
Qed.

Lemma denotes_heights_check hs : ∀ expected,
  denotes (check_heights expected hs) (λ tb, heights_check tb expected hs).
Proof.
  induction hs as [|h hs IH]; intros expected; simpl; [apply denotes_ret|].
  apply (denotes_bind _ _ _ (λ next tb, heights_check tb next hs)); [apply denotes_height_check|done].
Qed.

Lemma denotes_integrity_check : denotes validate_chain_integrity integrity_check.
Proof.
  unfold validate_chain_integrity, integrity_check.
  apply (denotes_bind _ _ _ (λ tip tb, match tip with None => _ | Some (height, hash) => _ end));
    [apply denotes_tip_at|intros [[height hash]|]; [|apply denotes_ret]].
  apply (denotes_bind _ _ _ (λ ob tb, ok_or ob _ ≫= _)); [apply denotes_block_at|intros ob].
  apply (denotes_bind _ _ _ (λ block tb, if bool_decide (block_hash block ≠ hash) then _ else _));
    [apply denotes_lift|intros block].
  case_bool_decide; [apply denotes_throw|apply denotes_heights_check].
Qed.

(** The stored chain the check looks for: one block per height, linked by the
    previous hashes from a genesis block to the tip. *)
Record intact tb (height : Height) (hash : BlockHash) (blocks : list Block) : Prop := {
  intact_length : Z.of_nat (length blocks) = height + 1;
  intact_stored i block : blocks !! i = Some block → block_at tb (Z.of_nat i) = Ok (Some block);
  intact_tip : block_hash <$> last blocks = Some hash;
  intact_genesis block : blocks !! 0%nat = Some block → previous_hash block = zero_hash;
  intact_links i block next : blocks !! i = Some block → blocks !! S i = Some next →
    previous_hash next = block_hash block;
}.

Lemma seqZ_reverse_snoc (n : nat) :
  reverse (seqZ 0 (Z.of_nat (S n) + 1)) = Z.of_nat (S n) :: reverse (seqZ 0 (Z.of_nat n + 1)).
Proof.
  replace (Z.of_nat (S n) + 1) with ((Z.of_nat n + 1) + 1) by lia.
  rewrite (seqZ_app 0 (Z.of_nat n + 1) 1), reverse_app by lia.
  replace (0 + (Z.of_nat n + 1)) with (Z.of_nat (S n)) by lia. done.
Qed.

Lemma height_check_zero tb expected next :
  height_check tb expected 0 = Ok next ↔
  ∃ block, block_at tb 0 = Ok (Some block) ∧ block_hash block = expected ∧
    previous_hash block = zero_hash ∧ next = expected.
Proof.
  unfold height_check. split.
  - intros (ob & Hb & (block & Hob%ok_or_Ok & Hc)%result_bind_Ok)%result_bind_Ok. subst.
    repeat case_bool_decide; simplify_eq/=. exists block. split_and!; done.
  - intros (block & -> & <- & Hp & ->). cbn. rewrite Hp.
    by rewrite !(bool_decide_eq_false_2 (_ ≠ _)) by naive_solver.
Qed.

Lemma height_check_succ tb expected h next :
  0 < h → height_check tb expected h = Ok next ↔
  ∃ block previous, block_at tb h = Ok (Some block) ∧ block_at tb (h - 1) = Ok (Some previous) ∧
    block_hash block = expected ∧ previous_hash block = block_hash previous ∧
    next = block_hash previous.
Proof.
  intros Hh. unfold height_check. rewrite (bool_decide_eq_false_2 (h = 0)) by lia. split.
  - intros (ob & Hb & (block & Hob%ok_or_Ok & Hc)%result_bind_Ok)%result_bind_Ok. subst.
    case_bool_decide as He; [done|].
    apply result_bind_Ok in Hc as (op & Hp & (previous & Hop%ok_or_Ok & Hc)%result_bind_Ok). subst.
    case_bool_decide; simplify_eq. exists block, previous. split_and!; done.
  - intros (block & previous & -> & Hp & <- & Hl & ->). cbn.
    rewrite (bool_decide_eq_false_2 (block_hash block ≠ _)) by naive_solver.
    rewrite Hp. cbn. by rewrite (bool_decide_eq_false_2 (_ ≠ _)) by naive_solver.
Qed.

Lemma intact_snoc tb n hash blocks block previous :
  intact tb (Z.of_nat n) (block_hash previous) blocks → 
  block_at tb (Z.of_nat (S n)) = Ok (Some block) → block_hash block = hash →
  previous_hash block = block_hash previous → block_at tb (Z.of_nat n) = Ok (Some previous) →
  intact tb (Z.of_nat (S n)) hash (blocks ++ [block]).
Proof.
  intros [Hlen Hst Htip Hgen Hlinks] Hb Hhash Hprev Hbp.
  assert (length blocks = S n) as HlenN by lia. split.
  - rewrite length_app. simpl. lia.
  - intros i b [Hi|[Hi Hbi]]%lookup_app_Some; [by apply Hst|].
    apply list_lookup_singleton_Some in Hbi as [Hi0 <-].
    by replace i with (S n) by lia.
  - rewrite last_snoc. simpl. by f_equal.
  - intros b. rewrite lookup_app_l by lia. apply Hgen.
  - intros i b next Hi Hn. apply lookup_app_Some in Hn as [Hn|[Hn Hb']].
    + apply lookup_lt_Some in Hn as Hlt. rewrite lookup_app_l in Hi by lia. eauto.
    + apply list_lookup_singleton_Some in Hb' as [Hi0 <-]. assert (i = n) as -> by lia.
      rewrite lookup_app_l in Hi by lia. rewrite last_lookup, HlenN in Htip. simpl in Htip.
      rewrite Hi in Htip. simpl in Htip. congruence.
Qed.

Lemma intact_split tb n hash blocks :
  intact tb (Z.of_nat (S n)) hash blocks →
  ∃ blocks' previous block, blocks = blocks' ++ [block] ∧
    intact tb (Z.of_nat n) (block_hash previous) blocks' ∧
    block_at tb (Z.of_nat (S n)) = Ok (Some block) ∧
    block_at tb (Z.of_nat n) = Ok (Some previous) ∧
    block_hash block = hash ∧ previous_hash block = block_hash previous.
Proof.
  intros [Hlen Hst Htip Hgen Hlinks].
  destruct blocks as [|block blocks' _] using rev_ind; [simpl in Hlen; lia|].
  rewrite length_app in Hlen. simpl in Hlen. assert (length blocks' = S n) as HlenN by lia.
  destruct (lookup_lt_is_Some_2 blocks' n) as [previous Hprev]; [lia|].
  assert ((blocks' ++ [block]) !! S n = Some block) as Hlast.
  { rewrite lookup_app_r by lia. by replace (S n - length blocks')%nat with 0%nat by lia. }
  assert ((blocks' ++ [block]) !! n = Some previous) as Hprev' by (by rewrite lookup_app_l by lia).
  exists blocks', previous, block. split_and!; eauto.
  - split; [lia|intros i b Hi; apply Hst; by apply lookup_app_l_Some| | |].
    + rewrite last_lookup, HlenN. simpl. by rewrite Hprev.
    + intros b Hb. apply Hgen. by apply lookup_app_l_Some.
    + intros i b nx Hb Hn. eapply Hlinks; by apply lookup_app_l_Some.
  - rewrite last_snoc in Htip. by simplify_eq/=.
Qed.

Lemma heights_check_intact tb n : ∀ hash,
  heights_check tb hash (reverse (seqZ 0 (Z.of_nat n + 1))) = Ok tt ↔
  ∃ blocks, intact tb (Z.of_nat n) hash blocks.
Proof.
  induction n as [|n IH]; intros hash.
  - change (reverse (seqZ 0 (Z.of_nat 0 + 1))) with [0]. cbn [heights_check]. split.
    + intros (next & (b & Hb & Hh & Hp & _)%height_check_zero & _)%result_bind_Ok.
      exists [b]. split; simpl; [done| |by f_equal|by intros ? [= <-]|].
      * by intros ? ? [-> <-]%list_lookup_singleton_Some.
      * by intros i ? ? _ Hn; rewrite lookup_nil in Hn.
    + intros [blocks [Hlen Hst Htip Hgen _]].
      destruct blocks as [|b [|]]; simplify_eq/=; [|lia].
      apply result_bind_Ok. exists (block_hash b). split; [|done]. apply height_check_zero.
      exists b. split_and!; [by apply (Hst 0%nat)|done|by apply Hgen|done].
  - rewrite seqZ_reverse_snoc. cbn [heights_check]. split.
    + intros (next & (b & p & Hb & Hp & Hh & Hl & ->)%height_check_succ & Hrest)%result_bind_Ok; [|lia].
      apply IH in Hrest as [blocks Hi]. exists (blocks ++ [b]).
      replace (Z.of_nat (S n) - 1) with (Z.of_nat n) in Hp by lia. by eapply intact_snoc.
    + intros [blocks Hi]. destruct (intact_split tb n hash blocks Hi)
        as (blocks' & p & b & -> & Hi' & Hb & Hp & Hh & Hl).
      apply result_bind_Ok. exists (block_hash p). split; [|apply IH; eauto].
      apply height_check_succ; [lia|]. exists b, p.
      replace (Z.of_nat (S n) - 1) with (Z.of_nat n) by lia. done.
Qed.

(** The integrity check accepts exactly the stored chains. *)
Lemma integrity_check_intact tb n hash :
  tip_at tb = Ok (Some (Z.of_nat n, hash)) →
  integrity_check tb = Ok tt ↔ ∃ blocks, intact tb (Z.of_nat n) hash blocks.
Proof.
  intros Htip. unfold integrity_check. rewrite Htip. cbn [mbind result_bind].
  rewrite <-heights_check_intact. split.
  - intros (ob & _ & (b & _ & Hc)%result_bind_Ok)%result_bind_Ok. by case_bool_decide.
  - intros Hc. pose proof Hc as [blocks [Hlen Hst Htp _ _]]%heights_check_intact.
    destruct (lookup_lt_is_Some_2 blocks n) as [b Hb]; [lia|].
    rewrite (Hst _ _ Hb). cbn. rewrite last_lookup in Htp.
    replace (pred (length blocks)) with n in Htp by lia. rewrite Hb in Htp. simplify_eq/=.
    by rewrite bool_decide_eq_false_2 by naive_solver.
Qed.

(** ** Accounts, chain and transactions *)

Fixpoint accounts_read (entries : list (bytes * bytes)) (accts : gmap Address Account) :
    result StorageError (gmap Address Account) :=
  match entries with
  | [] => Ok accts
  | (key, b) :: entries' =>
      account ← map_err Serialization (decode b);
      if bool_decide (address_key (account_address account) ≠ key)
      then Err (Integrity "stored account address does not match account key")
      else accounts_read entries' (<[account_address account := account]> accts)
  end.

Lemma denotes_accounts_read entries : ∀ accts,
  denotes (load_accounts entries accts) (λ _, accounts_read entries accts).
Proof.
  induction entries as [|[key b] entries IH]; intros accts; simpl; [apply denotes_ret|].
  apply (denotes_bind _ _ _ (λ account tb, if bool_decide _ then _ else _));
    [apply denotes_decode|intros account].
  case_bool_decide; [apply denotes_throw|apply IH].
Qed.

Fixpoint chain_read tb (hs : list Height) (c : Chain) : result StorageError Chain :=
  match hs with
  | [] => Ok c
  | h :: hs' =>
      ob ← block_at tb h;
      block ← ok_or ob (Integrity "stored chain block is missing");
      match chain_insert_block block c with
      | (Ok _, c') => chain_read tb hs' c'
      | (Err _, _) => Err (Integrity "stored chain block is invalid")
      end
  end.

Lemma denotes_chain_read hs : ∀ c, denotes (load_chain hs c) (λ tb, chain_read tb hs c).
Proof.
  induction hs as [|h hs IH]; intros c; simpl; [apply denotes_ret|].
  apply (denotes_bind _ _ _ (λ ob tb, ok_or ob _ ≫= _)); [apply denotes_block_at|intros ob].
  apply (denotes_bind _ _ _ (λ block tb, match chain_insert_block block c with _ => _ end));
    [apply denotes_lift|intros block].
  destruct (chain_insert_block block c) as [[]]; [apply IH|apply denotes_throw].
Qed.

Definition transaction_at tb (h : TransactionHash) :
    result StorageError (option (TransactionLocation * SignedTransaction)) :=
  match kv_get (tb TxIndex) (hash_key h) with
  | None => Ok None
  | Some b =>
      location ← map_err Serialization (decode b);
      ob ← block_at tb (tl_block_height location);
      match ob with
      | None => Err (Integrity "indexed transaction block is missing")
      | Some block =>
          if bool_decide (block_hash block ≠ tl_block_hash location)
          then Err (Integrity "indexed transaction block hash mismatch")
          else match block_transactions block !! Z.to_nat (tl_tx_index location) with
          | None => Err (Integrity "indexed transaction position is missing")
          | Some tx =>
              if bool_decide (tx_hash tx ≠ h)
              then Err (Integrity "indexed transaction hash does not match transaction")
              else Ok (Some (location, tx))
          end
      end
  end.

Definition value_at {A} `{!Borsh A} db k tb : result StorageError (option A) :=
  match kv_get (tb db) k with
  | None => Ok None
  | Some b => x ← map_err Serialization (decode b); Ok (Some x)
  end.

Lemma denotes_read_value {A} `{!Borsh A} db k : denotes (read_value (A := A) db k) (value_at db k).
Proof.
  intros tb. unfold read_value, value_at. eapply runs_bind; [apply runs_read_bytes|].
  destruct (kv_get _ _) as [b|]; [|apply runs_ret].
  refine (denotes_bind _ _ _ (λ x _, Ok (Some x)) (denotes_decode b) _ tb).
  intros x. apply denotes_ret.
Qed.

Lemma denotes_transaction_at h : denotes (load_transaction h) (λ tb, transaction_at tb h).
Proof.
  intros tb. unfold transaction_at. pose proof (denotes_ro _ _ (denotes_read_value (A := TransactionLocation) TxIndex (hash_key h)) tb)
    as Hv.
  unfold value_at in Hv. destruct (kv_get _ _) as [b|].
  2: { eapply runs_bind; [exact Hv|apply runs_ret]. }
  destruct (decode b) as [location|e]; cbn in *; [|by apply runs_bind_Err].
  eapply runs_bind; [exact Hv|]. cbn iota.
  refine (denotes_bind _ _ _ (λ ob tb, match ob with None => _ | Some block => _ end)
    (denotes_block_at _) _ tb).
  intros [block|]; [|apply denotes_throw].
  case_bool_decide; [apply denotes_throw|].
  destruct (_ !! _) as [tx|]; [|apply denotes_throw].
  case_bool_decide; [apply denotes_throw|apply denotes_ret].
Qed.

Fixpoint decode_list {A} `{!Borsh A} (l : list bytes) : result StorageError (list A) :=
  match l with
  | [] => Ok []
  | b :: l' => x ← map_err Serialization (decode b); xs ← decode_list l'; Ok (x :: xs)
  end.

Lemma denotes_decode_list {A} `{!Borsh A} l : denotes (map_decode (A := A) l) (λ _, decode_list l).
Proof.
  induction l as [|b l IH]; simpl; [apply denotes_ret|].
  apply (denotes_bind _ _ _ (λ x _, decode_list l ≫= _)); [apply denotes_decode|intros x].
  apply (denotes_bind _ _ _ (λ xs _, Ok (x :: xs))); [apply IH|intros xs; apply denotes_ret].
Qed.

Definition history_at tb (a : Address) : result StorageError (list AddressTransactionLocation) :=
  locations ← decode_list
    (filter (λ kv, starts_with kv.1 (address_key a) = true) (kv_iter (tb AddressTxIndex))).*2;
  Ok (sort_by_key (λ l, (al_block_height l, al_tx_index l, al_sent l)) locations).

Lemma denotes_history_at a : denotes (load_address_transaction_locations a) (λ tb, history_at tb a).
Proof.
  apply denotes_ro. intros tb. unfold history_at. eapply runs_bind; [apply runs_cursor|].
  refine (denotes_bind _ _ _ (λ l _, Ok (sort_by_key _ l)) (denotes_decode_list _) _ tb).
  intros l. apply denotes_ret.
Qed.

(** The difficulty window is read only. *)
Definition window_at tb (tip window : Z) : result StorageError (option (Z * Z * Z * Z)) :=
  if bool_decide (window = 0) || bool_decide (tip < window) then Ok None
  else
    ot ← block_at tb tip;
    match ot with
    | None => Ok None
    | Some tip_block =>
        ofirst ← block_at tb (tip - window);
        match ofirst with
        | None => Ok None
        | Some first => Ok (Some (block_timestamp first, block_timestamp tip_block,
            sat_sub tip (tip - window), block_difficulty tip_block))
        end
    end.

Lemma denotes_window_at tip window :
  denotes (difficulty_window tip window) (λ tb, window_at tb tip window).
Proof.
  unfold difficulty_window, window_at. case_match; [apply denotes_ret|].
  apply (denotes_bind _ _ _ (λ ot tb, match ot with None => _ | Some tip_block => _ end));
    [apply denotes_block_at|intros [tip_block|]; [|apply denotes_ret]]. cbn zeta.
  apply (denotes_bind _ _ _ (λ ofirst tb, match ofirst with None => _ | Some first => _ end));
    [apply denotes_block_at|intros [first|]; apply denotes_ret].
Qed.

End reads.

End StorageReads.
