(* ===== verification/StorageSaved.v ===== *)
(** * StorageSaved: the tables of a saved ledger

    Which record each key of each table holds after [save_ledger], for a
    ledger that is well formed for storage ([stored_wf]). *)

From S2P Require Import Prelude Collections Core Bytes Storage StorageFacts StorageLedger StorageReads.

Module StorageSaved.
Import Storage StorageFacts StorageLedger StorageReads.

(** Inserting the blocks one by one succeeds and gives the chain [c']. *)
Inductive replays `{Paqus} : list Block → Chain → Chain → Prop :=
  | replays_nil c : replays [] c c
  | replays_cons b bs c c1 c' : chain_insert_block b c = (Ok tt, c1) →
      replays bs c1 c' → replays (b :: bs) c c'.

(** A ledger the node can store and load back: a non-empty chain from height
    0 whose blocks are linked, accounts under their own addresses, and values
    in the range of their Rust types.  The chain is the one that inserting its
    blocks into an empty ledger builds. *)
Record stored_wf `{Paqus} (ledger : Ledger) : Prop := {
  sw_nonempty : chain_blocks (chain ledger) ≠ [];
  sw_heights i block : chain_blocks (chain ledger) !! i = Some block →
    block_height block = Z.of_nat i;
  sw_length : Z.of_nat (length (chain_blocks (chain ledger))) ≤ u64_max;
  sw_genesis block : chain_blocks (chain ledger) !! 0%nat = Some block →
    previous_hash block = zero_hash;
  sw_links i block next : chain_blocks (chain ledger) !! i = Some block →
    chain_blocks (chain ledger) !! S i = Some next → previous_hash next = block_hash block;
  sw_hash_fits block : block ∈ chain_blocks (chain ledger) → fits HASH_SIZE (block_hash block);
  sw_txs block : block ∈ chain_blocks (chain ledger) →
    Z.of_nat (length (block_transactions block)) ≤ u32_max;
  sw_accounts a x : accounts ledger !! a = Some x → account_address x = a ∧ fits ADDRESS_SIZE a;
  sw_tip_height : tip_height ledger = block_height <$> last (chain_blocks (chain ledger));
  sw_tip_hash : tip_hash ledger = block_hash <$> last (chain_blocks (chain ledger));
  sw_replay : replays (chain_blocks (chain ledger)) (chain ledger_new) (chain ledger);
  sw_new : accounts ledger_new = ∅;
}.

Section saved.
Context `{Paqus, Kv, Lmdb, !Codecs, !CodecLaws, !KvLaws}.
Implicit Types tb : Database_ → Table.

(** ** The records, by constructor *)

Inductive ledger_record (ledger : Ledger) : Database_ → bytes → bytes → Prop :=
  | rec_account a x : accounts ledger !! a = Some x →
      ledger_record ledger Accounts (address_key (account_address x)) (enc x)
  | rec_height block : block ∈ chain_blocks (chain ledger) →
      ledger_record ledger BlocksByHeight (height_key (block_height block)) (enc block)
  | rec_hash block : block ∈ chain_blocks (chain ledger) →
      ledger_record ledger BlocksByHash (hash_key (block_hash block)) (enc block)
  | rec_tx block i tx : block ∈ chain_blocks (chain ledger) → block_transactions block !! i = Some tx →
      ledger_record ledger TxIndex (hash_key (tx_hash tx))
        (enc (mkLocation (block_height block) (block_hash block) (Z.of_nat i)))
  | rec_address block i tx (sent : bool) : block ∈ chain_blocks (chain ledger) →
      block_transactions block !! i = Some tx → (sent = false → tx_to tx ≠ tx_from tx) →
      ledger_record ledger AddressTxIndex
        (address_tx_key (if sent then tx_from tx else tx_to tx) (block_height block) (Z.of_nat i) sent)
        (enc (mkAddressLocation (tx_hash tx) (block_height block) (block_hash block) (Z.of_nat i) sent))
  | rec_tip_height height hash : tip_height ledger = Some height → tip_hash ledger = Some hash →
      ledger_record ledger Meta TIP_HEIGHT_KEY (enc height)
  | rec_tip_hash height hash : tip_height ledger = Some height → tip_hash ledger = Some hash →
      ledger_record ledger Meta TIP_HASH_KEY (hash_key hash)
  | rec_snapshot height hash : tip_height ledger = Some height → tip_hash ledger = Some hash →
      height = 0 ∨ is_snapshot_height height = true →
      ledger_record ledger StateSnapshots (height_key height) (enc (snapshot_of ledger height hash))
  | rec_genesis hash : tip_height ledger = Some 0 → tip_hash ledger = Some hash →
      ledger_record ledger GenesisAccounts ACCOUNTS_KEY (enc (accounts ledger)).

(** The records of each table. *)
Lemma record_account_inv ledger k v : ledger_record ledger Accounts k v →
  ∃ a x, accounts ledger !! a = Some x ∧ k = address_key (account_address x) ∧ v = enc x.
Proof. inversion 1; eauto. Qed.

Lemma record_height_inv ledger k v : ledger_record ledger BlocksByHeight k v →
  ∃ block, block ∈ chain_blocks (chain ledger) ∧
    k = height_key (block_height block) ∧ v = enc block.
Proof. inversion 1; eauto. Qed.

Lemma record_hash_inv ledger k v : ledger_record ledger BlocksByHash k v →
  ∃ block, block ∈ chain_blocks (chain ledger) ∧
    k = hash_key (block_hash block) ∧ v = enc block.
Proof. inversion 1; eauto. Qed.

Lemma record_tx_inv ledger k v : ledger_record ledger TxIndex k v →
  ∃ block i tx, block ∈ chain_blocks (chain ledger) ∧ block_transactions block !! i = Some tx ∧
    k = hash_key (tx_hash tx) ∧
    v = enc (mkLocation (block_height block) (block_hash block) (Z.of_nat i)).
Proof. inversion 1; eauto 10. Qed.

Lemma record_address_inv ledger k v : ledger_record ledger AddressTxIndex k v →
  ∃ block i tx (sent : bool), block ∈ chain_blocks (chain ledger) ∧
    block_transactions block !! i = Some tx ∧ (sent = false → tx_to tx ≠ tx_from tx) ∧
    k = address_tx_key (if sent then tx_from tx else tx_to tx) (block_height block) (Z.of_nat i) sent ∧
    v = enc (mkAddressLocation (tx_hash tx) (block_height block) (block_hash block) (Z.of_nat i) sent).
Proof. inversion 1; eauto 12. Qed.

Lemma elem_of_block_ops ledger block o :
  block ∈ chain_blocks (chain ledger) → o ∈ block_ops block → ledger_record ledger o.1 o.2.1 o.2.2.
Proof.
  intros Hb. unfold block_ops. rewrite !elem_of_cons, elem_of_concat.
  intros [->|[->|(ops & (i & tx & -> & Htx)%elem_of_lookup_imap & Ho)]]; [by constructor..|].
  unfold tx_ops in Ho. rewrite !elem_of_cons in Ho. destruct Ho as [->|[->|Ho]].
  - by constructor.
  - by apply (rec_address _ _ _ _ true).
  - case_bool_decide; [|set_solver]. apply list_elem_of_singleton in Ho as ->.
    by apply (rec_address _ _ _ _ false).
Qed.

Lemma elem_of_tip_ops ledger height hash o :
  tip_height ledger = Some height → tip_hash ledger = Some hash →
  o ∈ tip_ops ledger height hash → ledger_record ledger o.1 o.2.1 o.2.2.
Proof.
  intros Hh Hs. unfold tip_ops. rewrite !elem_of_cons, elem_of_app.
  intros [->|[->|[Ho|Ho]]]; [by econstructor..| |].
  - destruct (_ || _) eqn:E; [|set_solver]. apply list_elem_of_singleton in Ho as ->.
    apply orb_true_iff in E as [E%bool_decide_eq_true|E]; by econstructor; eauto.
  - case_bool_decide; [|set_solver]. apply list_elem_of_singleton in Ho as ->. subst. by econstructor.
Qed.

Lemma ledger_ops_record ledger o : o ∈ ledger_ops ledger → ledger_record ledger o.1 o.2.1 o.2.2.
Proof.
  unfold ledger_ops. rewrite !elem_of_app, elem_of_concat.
  intros [(x & -> & (a & Ha)%elem_of_bt_values)%list_elem_of_fmap|
    [(ops & (block & -> & Hb)%list_elem_of_fmap & Ho)|Ho]].
  - by econstructor.
  - by eapply elem_of_block_ops.
  - destruct (tip_height ledger) as [height|] eqn:?; [|set_solver].
    destruct (tip_hash ledger) as [hash|] eqn:?; [|set_solver]. by eapply elem_of_tip_ops.
Qed.

Lemma tip_ops_in ledger height hash o :
  tip_height ledger = Some height → tip_hash ledger = Some hash →
  o ∈ tip_ops ledger height hash → o ∈ ledger_ops ledger.
Proof. intros Hh Hs Ho. unfold ledger_ops. rewrite Hh, Hs. set_solver. Qed.

Lemma block_ops_in ledger block o :
  block ∈ chain_blocks (chain ledger) → o ∈ block_ops block → o ∈ ledger_ops ledger.
Proof.
  intros Hb Ho. unfold ledger_ops. rewrite !elem_of_app, elem_of_concat. right. left.
  exists (block_ops block). split; [|done]. by apply list_elem_of_fmap_2.
Qed.

Lemma tx_ops_in ledger block i tx o :
  block ∈ chain_blocks (chain ledger) → block_transactions block !! i = Some tx →
  o ∈ tx_ops block i tx → o ∈ ledger_ops ledger.
Proof.
  intros Hb Htx Ho. apply (block_ops_in _ _ _ Hb). unfold block_ops.
  do 2 apply list_elem_of_further. apply elem_of_concat. eexists. split; [|done].
  by apply elem_of_lookup_imap_2.
Qed.

Lemma ledger_record_ops ledger db k v :
  ledger_record ledger db k v → (db, (k, v)) ∈ ledger_ops ledger.
Proof.
  destruct 1 as [a x Ha|block Hb|block Hb|block i tx Hb Htx|block i tx sent Hb Htx Hs
    |height hash Hh Hs|height hash Hh Hs|height hash Hh Hs Hsn|hash Hh Hs].
  - unfold ledger_ops. apply elem_of_app. left. apply (list_elem_of_fmap_2 account_op).
    apply elem_of_bt_values. eauto.
  - apply (block_ops_in _ _ _ Hb). unfold block_ops. set_solver.
  - apply (block_ops_in _ _ _ Hb). unfold block_ops. set_solver.
  - apply (tx_ops_in _ _ _ _ _ Hb Htx). unfold tx_ops. set_solver.
  - apply (tx_ops_in _ _ _ _ _ Hb Htx). unfold tx_ops. destruct sent; [set_solver|].
    rewrite bool_decide_eq_true_2 by auto. set_solver.
  - apply (tip_ops_in _ _ _ _ Hh Hs). unfold tip_ops. set_solver.
  - apply (tip_ops_in _ _ _ _ Hh Hs). unfold tip_ops. set_solver.
  - apply (tip_ops_in _ _ _ _ Hh Hs). unfold tip_ops.
    assert (bool_decide (height = 0) || is_snapshot_height height = true) as ->; [|set_solver].
    apply orb_true_iff. rewrite bool_decide_eq_true. naive_solver.
  - apply (tip_ops_in _ _ _ _ Hh Hs). unfold tip_ops. rewrite (bool_decide_eq_true_2 (0 = 0)) by done.
    set_solver.
Qed.

(** ** Reading a key back *)

Lemma elem_of_ops_of db ops k v : (k, v) ∈ ops_of db ops ↔ (db, (k, v)) ∈ ops.
Proof.
  unfold ops_of. rewrite list_elem_of_fmap. split.
  - intros ([db' kv] & -> & [Hdb Hin]%list_elem_of_filter). simpl in *. by subst.
  - intros Hin. exists (db, (k, v)). by rewrite list_elem_of_filter.
Qed.

(** A key with one record holds it. *)
Lemma saved_get ledger tb db k v :
  ledger_record ledger db k v → (∀ v', ledger_record ledger db k v' → v' = v) →
  kv_get (ledger_tables ledger tb db) k = Some v.
Proof.
  intros Hr Hfun. unfold ledger_tables. rewrite apply_ops_table. apply kv_get_puts_in.
  - by apply elem_of_ops_of, ledger_record_ops.
  - intros v' Hv'%elem_of_ops_of%ledger_ops_record. by apply Hfun.
Qed.

(** A cleared table holds only the ledger's records. *)
Lemma saved_get_inv ledger tb db k v :
  db ∈ [BlocksByHeight; Accounts; StateSnapshots; TxIndex; AddressTxIndex] →
  kv_get (ledger_tables ledger tb db) k = Some v → ledger_record ledger db k v.
Proof.
  intros Hdb. unfold ledger_tables. rewrite apply_ops_table.
  assert (clear_tables tb db = kv_empty) as ->.
  { unfold clear_tables; simpl. rewrite !elem_of_cons, elem_of_nil in Hdb.
    destruct Hdb as [->|[->|[->|[->|[->|[]]]]]]; reflexivity. }
  by intros Hg%kv_get_puts_empty%elem_of_ops_of%ledger_ops_record.
Qed.

(** Keys of the other tables that the ledger does not write keep their value. *)
Lemma saved_get_other ledger tb db k :
  db ∈ [BlocksByHash; GenesisAccounts; Meta] → (∀ v, ¬ ledger_record ledger db k v) →
  kv_get (ledger_tables ledger tb db) k = kv_get (tb db) k.
Proof.
  intros Hdb Hno. unfold ledger_tables. rewrite apply_ops_table, kv_get_puts_out.
  - f_equal. unfold clear_tables; simpl. rewrite !elem_of_cons, elem_of_nil in Hdb.
    destruct Hdb as [->|[->|[->|[]]]]; reflexivity.
  - intros ([k' v] & -> & Hin%elem_of_ops_of%ledger_ops_record)%list_elem_of_fmap. by eapply Hno.
Qed.

(** The records of the tables that are not cleared are the ledger's or older. *)
Lemma saved_get_cases ledger tb db k v :
  db ∈ [BlocksByHash; GenesisAccounts; Meta] → kv_get (ledger_tables ledger tb db) k = Some v →
  ledger_record ledger db k v ∨ kv_get (tb db) k = Some v.
Proof.
  intros Hdb. unfold ledger_tables. rewrite apply_ops_table.
  assert (clear_tables tb db = tb db) as ->.
  { unfold clear_tables; simpl. rewrite !elem_of_cons, elem_of_nil in Hdb.
    destruct Hdb as [->|[->|[->|[]]]]; reflexivity. }
  intros [Hin%elem_of_ops_of%ledger_ops_record|Ht]%kv_get_puts_inv; [by left|by right].
Qed.

(** ** Readable records *)

(** The records that are kept across saves can be read back: the accounts of
    the genesis block, and the blocks by their hashes. *)
Record readable tb : Prop := {
  readable_genesis v : kv_get (tb GenesisAccounts) ACCOUNTS_KEY = Some v →
    ∃ accts : gmap Address Account, v = enc accts;
  readable_blocks k v : kv_get (tb BlocksByHash) k = Some v →
    ∃ block : Block, k = hash_key (block_hash block) ∧ v = enc block;
}.

Lemma saved_readable ledger tb : readable tb → readable (ledger_tables ledger tb).
Proof.
  intros [Hg Hb]. split.
  - intros v [Hr|Ht]%saved_get_cases; [|by apply Hg|set_solver]. inversion Hr. by eexists.
  - intros k v [Hr|Ht]%saved_get_cases; [|by apply Hb|set_solver]. inversion Hr. by eexists.
Qed.

Lemma put_block_readable block tb :
  readable tb → readable (put_tb BlocksByHash (hash_key (block_hash block)) (enc block) tb).
Proof.
  intros [Hg Hb]. split; [intros v; rewrite put_tb_ne by done; apply Hg|].
  intros k v. rewrite put_tb_eq, kv_get_put. case_decide; [|apply Hb]. subst. intros [= <-]. by eexists.
Qed.

Lemma put_genesis_readable (accts : gmap Address Account) tb :
  readable tb → readable (put_tb GenesisAccounts ACCOUNTS_KEY (enc accts) tb).
Proof.
  intros [Hg Hb]. split; [|intros k v; rewrite put_tb_ne by done; apply Hb].
  intros v. rewrite put_tb_eq, kv_get_put, decide_True by done. intros [= <-]. by eexists.
Qed.

Lemma put_meta_readable k v tb : readable tb → readable (put_tb Meta k v tb).
Proof. intros [Hg Hb]. split; [intros w|intros k' w]; rewrite put_tb_ne by done; auto. Qed.

Lemma empty_readable : readable (λ _, kv_empty).
Proof. split; [intros v|intros k v]; by rewrite kv_get_empty. Qed.

(** The version record survives. *)
Lemma saved_version ledger tb :
  kv_get (ledger_tables ledger tb Meta) STORAGE_VERSION_KEY = kv_get (tb Meta) STORAGE_VERSION_KEY.
Proof. apply saved_get_other; [set_solver|]. intros v Hv. inversion Hv. Qed.

End saved.

End StorageSaved.
