(* ===== verification/StorageDemo.v ===== *)
(** * StorageDemo: a concrete database for the demo protocol

    Tables as sorted maps of byte strings, a codec for every countable type,
    and an engine that never fails.  They discharge the laws the storage
    theorems ask for and let the node's methods be evaluated. *)

From stdpp Require Import countable.
From S2P Require Import Prelude Collections Core Demo Bytes Storage StorageFacts.

Module StorageDemo.
Import Demo Storage StorageFacts.

#[export] Instance map_kv : Kv := {|
  Table := gmap (list Z) (list Z);
  kv_empty := ∅;
  kv_get t k := t !! k;
  kv_put k v t := <[k := v]> t;
  kv_iter t := bt_iter t;
|}.

#[export] Instance map_kv_laws : KvLaws.
Proof.
  split.
  - intros k. apply lookup_empty.
  - intros k v t k'. cbn. case_decide as E; [subst; apply lookup_insert_eq|by apply lookup_insert_ne].
  - intros t k v. apply elem_of_bt_iter.
  - intros t. exact (bt_iter_sorted (K := list Z) (V := list Z) t).
  - intros t. exact (bt_keys_NoDup (K := list Z) (V := list Z) t).
Qed.

(** Values are written as the one number that encodes them. *)
Definition countable_borsh {A} `{Countable A} : Borsh A := {|
  Storage.encode x := Ok [Z.pos (countable.encode x)];
  Storage.decode b :=
    match b with
    | [Z.pos p] => ok_or (countable.decode p) INVALID_DATA
    | _ => Err INVALID_DATA
    end;
|}.

Lemma countable_borsh_laws {A} `{Countable A} : @BorshLaws A countable_borsh.
Proof.
  split; [eexists; reflexivity|]. intros x b [= <-]. cbn. by rewrite countable.decode_encode.
Qed.

#[export] Instance Tx_countable : Countable Tx := inj_countable'
  (λ t, (d_id t, d_from t, d_to t, d_amount t, d_fee t, d_nonce t, d_time t))
  (λ '(a, b, c, d, e, f, g), mkTx a b c d e f g) (λ t, match t with mkTx _ _ _ _ _ _ _ => eq_refl end).
#[export] Instance Acct_countable : Countable Acct := inj_countable'
  (λ x, (a_addr x, a_balance x, a_nonce x))
  (λ '(a, b, c), mkAcct a b c) (λ t, match t with mkAcct _ _ _ => eq_refl end).
#[export] Instance Coinbase_countable : Countable CoinbaseTransaction := inj_countable'
  (λ x, (cb_to x, cb_subsidy x, cb_fees x))
  (λ '(a, b, c), mkCoinbase a b c) (λ t, match t with mkCoinbase _ _ _ => eq_refl end).
#[export] Instance Blk_countable : Countable Blk := inj_countable'
  (λ x, (b_height x, b_prev x, b_miner x, b_diff x, b_time x, b_nonce x, b_coinbase x, b_txs x, b_root x))
  (λ '(a, b, c, d, e, f, g, h, i), mkBlk a b c d e f g h i)
  (λ t, match t with mkBlk _ _ _ _ _ _ _ _ _ => eq_refl end).
#[export] Instance Location_countable : Countable TransactionLocation := inj_countable'
  (λ x, (tl_block_height x, tl_block_hash x, tl_tx_index x))
  (λ '(a, b, c), mkLocation a b c) (λ t, match t with mkLocation _ _ _ => eq_refl end).
#[export] Instance AddressLocation_countable : Countable AddressTransactionLocation := inj_countable'
  (λ x, (al_tx_hash x, al_block_height x, al_block_hash x, al_tx_index x, al_sent x))
  (λ '(a, b, c, d, e), mkAddressLocation a b c d e)
  (λ t, match t with mkAddressLocation _ _ _ _ _ => eq_refl end).

#[export] Instance demo_snapshot_eq_dec : EqDecision (@StateSnapshot demo).
Proof. intros [a b c m] [a' b' c' m']. unshelve refine (cast_if_and4
  (decide (a = a')) (decide (b = b')) (decide (c = c')) (decide ((m : gmap Z Acct) = m'))); congruence.
Defined.
#[export] Instance Snapshot_countable : Countable (@StateSnapshot demo) := inj_countable'
  (λ x : @StateSnapshot demo,
    (ss_height x, ss_block_hash x, ss_state_root x, ss_accounts x : gmap Z Acct))
  (λ '(a, b, c, d), mkSnapshot a b c d) (λ t, match t with mkSnapshot _ _ _ _ => eq_refl end).

#[export] Instance demo_codecs : Codecs := {|
  block_borsh := @countable_borsh Blk _ _;
  account_borsh := @countable_borsh Acct _ _;
  accounts_borsh := @countable_borsh (gmap Z Acct) _ _;
  snapshot_borsh := countable_borsh;
  location_borsh := countable_borsh;
  address_location_borsh := countable_borsh;
  int_borsh := countable_borsh;
|}.

#[export] Instance demo_codec_laws : CodecLaws.
Proof. split; apply countable_borsh_laws. Qed.

#[export] Instance sound_engine : Lmdb := {| lmdb_fault _ := None |}.
#[export] Instance sound_engine_no_faults : NoFaults.
Proof. done. Qed.

(** A new database that has been opened once. *)
Definition fresh_tables : Database_ → Table :=
  put_tb Meta STORAGE_VERSION_KEY (enc STORAGE_VERSION) (λ _, kv_empty).

(** A ledger of two blocks. *)
Definition pay_block : @Block (@paqus_types demo) :=
  mkBlk 1 (blk_hash demo_genesis) 9 1 6000 0 None [tx0; txb] 0.
Definition ledger1 : @Ledger (@paqus_types demo) :=
  (ledger_apply_block pay_block ledger0).2.

End StorageDemo.
