(* ===== verification/StorageProps.v ===== *)
(** * StorageProps: what the storage guarantees

    The claims about [src/runtime/storage] and their witnesses on the demo
    protocol with a concrete key-value table. *)

From S2P Require Import Prelude Collections Core Demo Bytes Storage StorageFacts.
From S2P Require Import StorageLedger StorageReads StorageSaved StorageDemo.

Module StorageProps.
Import Storage StorageFacts StorageLedger StorageReads StorageSaved.

(** ** Reading a saved ledger *)

Section lemmas.
Context `{Paqus, Kv, Lmdb, !Codecs, !CodecLaws, !KvLaws}.
Implicit Types tb : Database_ → Table.
Context (ledger : Ledger) (Hwf : stored_wf ledger).

Lemma u64_fits n : Z.of_nat n ≤ u64_max → fits 8 (Z.of_nat n).
Proof. unfold fits. change (256 ^ Z.of_nat 8) with (u64_max + 1). lia. Qed.

(** Two blocks of the chain with the same height are the same block. *)
Lemma chain_height_inj block block' :
  block ∈ chain_blocks (chain ledger) → block' ∈ chain_blocks (chain ledger) →
  height_key (block_height block) = height_key (block_height block') → block = block'.
Proof.
  intros [i Hi]%list_elem_of_lookup [j Hj]%list_elem_of_lookup Hk.
  pose proof (sw_length _ Hwf) as Hl.
  pose proof (lookup_lt_Some _ _ _ Hi). pose proof (lookup_lt_Some _ _ _ Hj).
  rewrite (sw_heights _ Hwf _ _ Hi), (sw_heights _ Hwf _ _ Hj) in Hk.
  apply be_bytes_inj in Hk; [|apply u64_fits; lia..].
  apply Nat2Z.inj in Hk. by simplify_eq.
Qed.

Lemma saved_block_at tb block :
  block ∈ chain_blocks (chain ledger) →
  block_at (ledger_tables ledger tb) (block_height block) = Ok (Some block).
Proof.
  intros Hb. unfold block_at. rewrite (saved_get _ _ _ _ (enc block)).
  - rewrite decode_enc. cbn. by rewrite bool_decide_eq_false_2 by naive_solver.
  - by constructor.
  - intros v' (block' & Hb' & Hk & ->)%record_height_inv. f_equal.
    by apply chain_height_inj.
Qed.

Lemma last_block : ∃ block, last (chain_blocks (chain ledger)) = Some block ∧
  block ∈ chain_blocks (chain ledger) ∧
  tip_height ledger = Some (block_height block) ∧ tip_hash ledger = Some (block_hash block) ∧
  block_height block = Z.of_nat (length (chain_blocks (chain ledger))) - 1.
Proof.
  pose proof (sw_nonempty _ Hwf) as Hne.
  destruct (last (chain_blocks (chain ledger))) as [block|] eqn:E; [|by apply last_None in E].
  rewrite last_lookup in E. exists block. rewrite (sw_tip_height _ Hwf), (sw_tip_hash _ Hwf), last_lookup, E.
  pose proof (lookup_lt_Some _ _ _ E).
  split_and!; try done; [by eapply list_elem_of_lookup_2|]. rewrite (sw_heights _ Hwf _ _ E). lia.
Qed.

Lemma saved_tip_at tb block :
  last (chain_blocks (chain ledger)) = Some block →
  tip_at (ledger_tables ledger tb) = Ok (Some (block_height block, block_hash block)).
Proof.
  intros Hb. destruct last_block as (block' & Hb' & Hin & Hh & Hs & _). simplify_eq.
  unfold tip_at. rewrite (saved_get _ _ Meta _ (enc (block_height block))); cycle 1.
  { by econstructor. }
  { intros v' Hv'. inversion Hv'; by simplify_eq. }
  rewrite (saved_get _ _ Meta _ (hash_key (block_hash block))); cycle 1.
  { by econstructor. }
  { intros v' Hv'. inversion Hv'; by simplify_eq. }
  rewrite decode_enc. cbn [map_err mbind result_bind].
  rewrite bool_decide_eq_true_2 by apply length_be_bytes.
  do 3 f_equal. apply be_value_bytes_small, (sw_hash_fits _ Hwf), Hin.
Qed.

Lemma saved_intact tb block :
  last (chain_blocks (chain ledger)) = Some block →
  intact (ledger_tables ledger tb) (block_height block) (block_hash block)
    (chain_blocks (chain ledger)).
Proof.
  intros Hb. destruct last_block as (block' & Hb' & Hin & _ & _ & Hlen). simplify_eq. split.
  - lia.
  - intros i b Hi. rewrite <-(sw_heights _ Hwf _ _ Hi).
    apply saved_block_at. by eapply list_elem_of_lookup_2.
  - by rewrite Hb.
  - apply (sw_genesis _ Hwf).
  - apply (sw_links _ Hwf).
Qed.

Lemma saved_integrity tb : integrity_check (ledger_tables ledger tb) = Ok tt.
Proof.
  destruct last_block as (block & Hb & Hin & _ & _ & Hlen).
  pose proof (lookup_lt_Some _ _ _ (eq_trans (eq_sym (last_lookup _)) Hb)) as Hlt.
  set (n := pred (length (chain_blocks (chain ledger)))) in *.
  assert (block_height block = Z.of_nat n) as Hn by lia.
  apply (integrity_check_intact _ n (block_hash block)).
  - rewrite <-Hn. by apply saved_tip_at.
  - rewrite <-Hn. eexists. by apply saved_intact.
Qed.

(** *** Accounts *)

Lemma account_key_inj a x a' x' :
  accounts ledger !! a = Some x → accounts ledger !! a' = Some x' →
  address_key (account_address x) = address_key (account_address x') → x = x'.
Proof.
  intros Ha Ha' Hk. destruct (sw_accounts _ Hwf _ _ Ha) as [Hx Hf].
  destruct (sw_accounts _ Hwf _ _ Ha') as [Hx' Hf']. rewrite Hx, Hx' in Hk.
  apply be_bytes_inj in Hk; [|done..]. by simplify_eq.
Qed.

Lemma saved_accounts_list tb : ∃ xs,
  kv_iter (ledger_tables ledger tb Accounts) = (account_op <$> xs).*2 ∧
  ∀ x, x ∈ xs ↔ ∃ a, accounts ledger !! a = Some x.
Proof.
  set (t := ledger_tables ledger tb Accounts).
  destruct (list_image (snd ∘ account_op) (λ x, ∃ a, accounts ledger !! a = Some x) (kv_iter t))
    as (xs & Heq & Hxs).
  { intros [k v] Hp%kv_iter_get%saved_get_inv; [|set_solver].
    apply record_account_inv in Hp as (a & x & Ha & -> & ->). eauto. }
  rewrite list_fmap_compose in Heq. exists xs. split; [done|].
  intros x. split; [apply Hxs|]. intros [a Ha].
  assert ((account_op x).2 ∈ kv_iter t) as Hin.
  { apply kv_iter_get, saved_get; [by econstructor|].
    intros v' (a' & x' & Ha' & Hk & ->)%record_account_inv. f_equal. by eapply account_key_inj. }
  rewrite Heq in Hin. apply list_elem_of_fmap in Hin as (o & Ho & (y & -> & Hy)%list_elem_of_fmap).
  apply (f_equal snd) in Ho. by rewrite (enc_inj x y Ho).
Qed.

Lemma accounts_read_records xs : ∀ acc,
  (∀ x, x ∈ xs → accounts ledger !! account_address x = Some x) →
  (∀ a x, accounts ledger !! a = Some x → x ∈ xs ∨ acc !! a = Some x) →
  (∀ a x, acc !! a = Some x → accounts ledger !! a = Some x) →
  accounts_read (account_op <$> xs).*2 acc = Ok (accounts ledger).
Proof.
  induction xs as [|x xs IH]; intros acc Hin Hall Hacc.
  - cbn. f_equal. apply map_eq. intros a. apply option_eq. intros x. split; [apply Hacc|].
    intros [?|?]%Hall; [set_solver|done].
  - cbn [accounts_read fmap list_fmap account_op snd]. rewrite decode_enc.
    cbn [map_err mbind result_bind]. rewrite bool_decide_eq_false_2 by naive_solver. apply IH.
    + intros y Hy. apply Hin. set_solver.
    + intros a y Hay. destruct (Hall _ _ Hay) as [[->|Hy]%elem_of_cons|Hy]; [|by left|].
      * right. destruct (sw_accounts _ Hwf _ _ Hay) as [-> _]. by rewrite lookup_insert_eq.
      * right. destruct (decide (account_address x = a)) as [<-|Hne].
        -- rewrite lookup_insert_eq. rewrite <-Hay. symmetry. apply Hin. set_solver.
        -- by rewrite lookup_insert_ne.
    + intros a y [[<- <-]|[_ Hy]]%lookup_insert_Some; [apply Hin; set_solver|by apply Hacc].
Qed.

Lemma saved_accounts_read tb :
  accounts_read (kv_iter (ledger_tables ledger tb Accounts)) ∅ = Ok (accounts ledger).
Proof.
  destruct (saved_accounts_list tb) as (xs & -> & Hxs). apply accounts_read_records.
  - intros x [a Ha]%Hxs. by destruct (sw_accounts _ Hwf _ _ Ha) as [-> _].
  - intros a x Ha. left. apply Hxs. eauto.
  - intros a x Hax. by rewrite lookup_empty in Hax.
Qed.

(** *** The chain *)

Lemma chain_read_replays tb bs : ∀ k c c',
  (∀ i b, bs !! i = Some b → block_at tb (k + Z.of_nat i) = Ok (Some b)) →
  replays bs c c' → chain_read tb (seqZ k (Z.of_nat (length bs))) c = Ok c'.
Proof.
  induction bs as [|b bs IH]; intros k c c' Hb Hr; inversion Hr; subst; [done|].
  rewrite seqZ_cons by (simpl; lia). cbn [chain_read].
  pose proof (Hb 0%nat b eq_refl) as Hb0. rewrite Z.add_0_r in Hb0. rewrite Hb0.
  cbn [mbind result_bind ok_or].
  match goal with E : chain_insert_block b c = _ |- _ => rewrite E end.
  replace (Z.pred (Z.of_nat (length (b :: bs)))) with (Z.of_nat (length bs)) by (simpl; lia).
  apply IH; [|done]. intros i b' Hi. replace (Z.succ k + Z.of_nat i) with (k + Z.of_nat (S i)) by lia.
  by apply Hb.
Qed.

Lemma saved_chain_read tb block :
  last (chain_blocks (chain ledger)) = Some block →
  chain_read (ledger_tables ledger tb) (seqZ 0 (block_height block + 1)) (chain ledger_new)
    = Ok (chain ledger).
Proof.
  intros Hb. destruct last_block as (block' & Hb' & _ & _ & _ & Hlen). simplify_eq.
  replace (block_height block + 1) with (Z.of_nat (length (chain_blocks (chain ledger)))) by lia.
  apply chain_read_replays; [|apply (sw_replay _ Hwf)].
  intros i b Hi. by apply (intact_stored _ _ _ _ (saved_intact tb block Hb)).
Qed.

(** *** The transaction index *)

Lemma saved_transaction_at tb block i tx :
  (∀ block' i' tx', block' ∈ chain_blocks (chain ledger) → block_transactions block' !! i' = Some tx' →
    hash_key (tx_hash tx') = hash_key (tx_hash tx) → block' = block ∧ i' = i) →
  block ∈ chain_blocks (chain ledger) → block_transactions block !! i = Some tx →
  transaction_at (ledger_tables ledger tb) (tx_hash tx) =
    Ok (Some (mkLocation (block_height block) (block_hash block) (Z.of_nat i), tx)).
Proof.
  intros Hfun Hb Htx. unfold transaction_at. erewrite saved_get; [|by econstructor|]; cycle 1.
  { intros v' (block' & i' & tx' & Hb' & Htx' & Hk & ->)%record_tx_inv.
    by destruct (Hfun _ _ _ Hb' Htx' (eq_sym Hk)) as [-> ->]. }
  rewrite decode_enc. cbn [map_err mbind result_bind tl_block_height tl_block_hash tl_tx_index].
  rewrite saved_block_at by done. cbn [mbind result_bind tl_block_height tl_block_hash tl_tx_index].
  rewrite bool_decide_eq_false_2 by naive_solver. rewrite Nat2Z.id, Htx.
  by rewrite bool_decide_eq_false_2 by naive_solver.
Qed.

Lemma saved_transaction_absent tb h :
  (∀ block i tx, block ∈ chain_blocks (chain ledger) → block_transactions block !! i = Some tx →
    hash_key (tx_hash tx) ≠ hash_key h) →
  transaction_at (ledger_tables ledger tb) h = Ok None.
Proof.
  intros Hno. unfold transaction_at. destruct (kv_get _ _) as [v|] eqn:E; [|done].
  apply saved_get_inv in E; [|set_solver].
  apply record_tx_inv in E as (block & i & tx & Hb & Htx & Hk & _). by destruct (Hno _ _ _ Hb Htx).
Qed.

(** *** The address index *)

(** The location [loc] is a payment sent or received by [a] in the chain. *)
Definition history_entry (a : Address) (loc : AddressTransactionLocation) : Prop :=
  ∃ block i tx, block ∈ chain_blocks (chain ledger) ∧ block_transactions block !! i = Some tx ∧
    loc = mkAddressLocation (tx_hash tx) (block_height block) (block_hash block) (Z.of_nat i)
      (al_sent loc) ∧
    if al_sent loc then tx_from tx = a else tx_to tx = a ∧ tx_to tx ≠ tx_from tx.

Lemma address_tx_key_inj a h i s a' h' i' s' :
  address_tx_key a h i s = address_tx_key a' h' i' s' →
  address_key a = address_key a' ∧ height_key h = height_key h' ∧
  be_bytes 4 i = be_bytes 4 i' ∧ s = s'.
Proof.
  unfold address_tx_key. intros Hk.
  apply app_inj_1 in Hk as [Ha Hk]; [|unfold address_key; by rewrite !length_be_bytes].
  apply app_inj_1 in Hk as [Hh Hk]; [|by rewrite !length_be_bytes].
  apply app_inj_1 in Hk as [Hi Hk]; [|by rewrite !length_be_bytes].
  split_and!; try done. by destruct s, s'.
Qed.

Lemma u32_fits n : Z.of_nat n ≤ u32_max → fits 4 (Z.of_nat n).
Proof. unfold fits. change (256 ^ Z.of_nat 4) with (u32_max + 1). lia. Qed.

Lemma index_inj block i tx i' tx' :
  block ∈ chain_blocks (chain ledger) → block_transactions block !! i = Some tx →
  block_transactions block !! i' = Some tx' → be_bytes 4 (Z.of_nat i) = be_bytes 4 (Z.of_nat i') →
  i = i'.
Proof.
  intros Hb%(sw_txs _ Hwf) Hi%lookup_lt_Some Hi'%lookup_lt_Some Hk.
  apply be_bytes_inj in Hk; [|apply u32_fits; lia..]. lia.
Qed.

Definition history_record (a : Address) (loc : AddressTransactionLocation) : bytes * bytes :=
  (address_tx_key a (al_block_height loc) (al_tx_index loc) (al_sent loc), enc loc).

Context (Hfits : ∀ block tx, block ∈ chain_blocks (chain ledger) → tx ∈ block_transactions block →
  fits ADDRESS_SIZE (tx_from tx) ∧ fits ADDRESS_SIZE (tx_to tx)).

Lemma saved_history_record tb a loc :
  history_entry a loc → history_record a loc ∈ kv_iter (ledger_tables ledger tb AddressTxIndex).
Proof.
  intros (block & i & tx & Hb & Htx & Hloc & Ha). apply kv_iter_get, saved_get.
  - unfold history_record. rewrite Hloc. simpl. replace a with
      (if al_sent loc then tx_from tx else tx_to tx) by (by destruct (al_sent loc); intuition).
    constructor; [done..|]. intros Hs. rewrite Hs in Ha. intuition.
  - intros v' (block' & i' & tx' & sent & Hb' & Htx' & _ & Hk & ->)%record_address_inv.
    unfold history_record in Hk. apply address_tx_key_inj in Hk as (_ & Hh & Hi & Hs).
    rewrite Hloc in Hh, Hi. simpl in Hh, Hi.
    assert (block = block') as <- by (by apply chain_height_inj).
    assert (i = i') as <- by (by eapply index_inj). simplify_eq. by rewrite Hloc at 2.
Qed.

Lemma saved_history_list tb a : fits ADDRESS_SIZE a → ∃ locs,
  filter (λ kv, starts_with kv.1 (address_key a) = true)
    (kv_iter (ledger_tables ledger tb AddressTxIndex)) = history_record a <$> locs ∧
  (∀ loc, loc ∈ locs ↔ history_entry a loc) ∧ NoDup locs.
Proof.
  intros Hfa. set (l := filter _ _).
  destruct (list_image (history_record a) (history_entry a) l) as (locs & Heq & Hlocs).
  { intros [k v] [Hpre Hin%kv_iter_get%saved_get_inv]%list_elem_of_filter; [|set_solver].
    apply record_address_inv in Hin as (block & i & tx & sent & Hb & Htx & Hs & -> & ->).
    cbn [fst] in Hpre. unfold address_tx_key in Hpre. apply starts_with_same_length in Hpre;
      [|unfold address_key; by rewrite !length_be_bytes].
    destruct (Hfits block tx Hb) as [Hf Ht]; [by eapply list_elem_of_lookup_2|].
    apply be_bytes_inj in Hpre; [|by destruct sent|done]. subst a.
    exists (mkAddressLocation (tx_hash tx) (block_height block) (block_hash block) (Z.of_nat i) sent).
    split; [|done]. exists block, i, tx. split_and!; [done..|]. by destruct sent; cbn; [|split; [|apply Hs]]. }
  exists locs. split_and!; [done| |].
  - intros loc. split; [apply Hlocs|]. intros He.
    assert (history_record a loc ∈ l) as Hin.
    { apply list_elem_of_filter. split; [apply starts_with_app|by apply saved_history_record]. }
    rewrite Heq in Hin. apply list_elem_of_fmap in Hin as (loc' & Hr & Hl').
    apply (f_equal snd) in Hr. by rewrite (enc_inj loc loc' Hr).
  - apply (NoDup_fmap_1 (history_record a)). rewrite <-Heq. apply NoDup_filter.
    eapply NoDup_fmap_1, kv_iter_keys.
Qed.

Lemma decode_list_enc {A} `{!Borsh A, !BorshLaws A} (xs : list A) : decode_list (enc <$> xs) = Ok xs.
Proof.
  induction xs as [|x xs IH]; cbn [fmap list_fmap decode_list]; [done|].
  rewrite decode_enc. cbn [map_err mbind result_bind]. by rewrite IH.
Qed.

End lemmas.

(** *** The emptiness test *)

Section empty.
Context `{Paqus, Kv, Lmdb, !NoFaults, !Codecs}.
Implicit Types tb : Database_ → Table.

Lemma elem_of_data_tables db : db ∈ data_tables ↔ db ≠ Meta.
Proof. unfold data_tables. destruct db; set_solver. Qed.

Lemma runs_all_empty tb dbs :
  runs (all_empty dbs) tb (Ok (bool_decide (Forall (λ db, kv_iter (tb db) = []) dbs))) tb.
Proof.
  induction dbs as [|db dbs IH]; cbn [all_empty]; [apply runs_ret|].
  eapply runs_bind; [eapply runs_bind; [apply runs_cursor|apply runs_ret]|].
  destruct (decide (kv_iter (tb db) = [])) as [E|E].
  - rewrite (bool_decide_eq_true_2 (kv_iter (tb db) = [])) by done.
    replace (bool_decide (Forall _ (db :: dbs))) with
      (bool_decide (Forall (λ db, kv_iter (tb db) = []) dbs)); [apply IH|].
    apply bool_decide_ext. rewrite Forall_cons. naive_solver.
  - rewrite (bool_decide_eq_false_2 (kv_iter (tb db) = [])) by done.
    rewrite bool_decide_eq_false_2; [apply runs_ret|]. rewrite Forall_cons. naive_solver.
Qed.

End empty.

(** ** Claims *)

Section claims.
Context `{Paqus, Kv, Lmdb, !Codecs}.
Implicit Types tb : Database_ → Table.

(** C28: saving a ledger is atomic under any failures of the engine.  When it
    reports success the tables are exactly the image of the ledger.  When it
    reports an error, either the write transaction failed with that error and the
    tables are unchanged, or the transaction was committed, the tables are the
    image of the ledger, and the error is that of the engine call right after
    the commit, the final flush. *)
Theorem save_ledger_atomic ledger st :
  match save_ledger ledger st with
  | (Ok _, st') => tables st' = ledger_tables ledger (tables st)
  | (Err e, st') =>
      rw_txn (write_ledger ledger) st = (Err e, st') ∧ tables st' = tables st ∨
      ∃ code st1, rw_txn (write_ledger ledger) st = (Ok tt, st1) ∧
        lmdb_fault (calls st1) = Some code ∧ e = Database code ∧
        st' = mkStore (tables st1) (S (calls st1)) ∧
        tables st' = ledger_tables ledger (tables st)
  end.
Proof. destruct (save_ledger_saved ledger st); [done|by left|right]. by eexists _, _. Qed.

Context `{!CodecLaws, !KvLaws, !NoFaults}.

(** C4: a ledger that was saved is loaded back unchanged, and loading leaves
    the database alone. *)
Theorem save_load_round_trip ledger tb :
  stored_wf ledger → kv_get (tb Meta) STORAGE_VERSION_KEY = Some (enc STORAGE_VERSION) →
  ∃ tb', runs (save_ledger ledger) tb (Ok tt) tb' ∧ runs load_ledger tb' (Ok ledger) tb'.
Proof.
  intros Hwf Hv. exists (ledger_tables ledger tb).
  split; [apply runs_save_ledger; intros block; apply (sw_txs _ Hwf)|].
  destruct (last_block ledger Hwf) as (block & Hb & _).
  assert (runs load_storage_version (ledger_tables ledger tb) (Ok (Some STORAGE_VERSION))
    (ledger_tables ledger tb)) as Hver.
  { apply runs_ro. eapply runs_read_value; [by rewrite saved_version|apply decode_enc]. }
  eapply runs_bind; [eapply runs_bind; [exact Hver|apply runs_ret]|].
  eapply runs_bind; [apply (denotes_Ok _ _ _ _ denotes_integrity_check), (saved_integrity _ Hwf)|].
  eapply runs_bind.
  { apply runs_ro. eapply runs_bind; [apply runs_cursor|].
    rewrite (sw_new _ Hwf). apply (denotes_Ok _ _ _ _ (denotes_accounts_read _ _)).
    by apply saved_accounts_read. }
  eapply runs_bind; [by apply (denotes_Ok _ _ _ _ denotes_tip_at), saved_tip_at|]. cbn iota.
  eapply runs_bind; [by apply (denotes_Ok _ _ _ _ (denotes_chain_read _ _)), saved_chain_read|].
  destruct ledger. apply runs_ret.
Qed.

(** C14: the start-up integrity check accepts a database with a recorded tip
    exactly when it holds a complete chain: one block under every height from
    0 to the tip, each naming the hash of the one below, the first with a zero
    previous hash, the last with the recorded tip hash. *)
Theorem integrity_check_exact tb n hash :
  runs load_tip tb (Ok (Some (Z.of_nat n, hash))) tb →
  runs validate_chain_integrity tb (Ok tt) tb ↔
  ∃ blocks, length blocks = S n ∧
    (∀ i block, blocks !! i = Some block →
      runs (load_block_by_height (Z.of_nat i)) tb (Ok (Some block)) tb) ∧
    block_hash <$> last blocks = Some hash ∧
    (∀ block, blocks !! 0%nat = Some block → previous_hash block = zero_hash) ∧
    (∀ i block next, blocks !! i = Some block → blocks !! S i = Some next →
      previous_hash next = block_hash block).
Proof.
  intros Htip%(denotes_Ok _ _ _ _ denotes_tip_at).
  rewrite (denotes_Ok _ _ _ _ denotes_integrity_check), (integrity_check_intact _ _ _ Htip).
  split; intros [blocks Hb]; exists blocks.
  - destruct Hb as [Hlen Hst Hl Hg Hlk]. split_and!; [lia| |done..].
    intros i block Hi. by apply (denotes_Ok _ _ _ _ (denotes_block_at _)), Hst.
  - destruct Hb as (Hlen & Hst & Hl & Hg & Hlk). split; [lia| |done..].
    intros i block Hi. by apply (denotes_Ok _ _ _ _ (denotes_block_at _)), Hst.
Qed.

(** After a ledger was saved, looking a transaction up by its hash gives
    the transaction with its block and position when the chain contains it,
    and nothing when no transaction of the chain has that hash. *)
Theorem saved_transaction_found ledger tb :
  stored_wf ledger →
  (∀ block block' i i' tx tx', block ∈ chain_blocks (chain ledger) →
    block' ∈ chain_blocks (chain ledger) → block_transactions block !! i = Some tx →
    block_transactions block' !! i' = Some tx' → hash_key (tx_hash tx) = hash_key (tx_hash tx') →
    block = block' ∧ i = i') →
  ∃ tb', runs (save_ledger ledger) tb (Ok tt) tb' ∧
    (∀ block i tx, block ∈ chain_blocks (chain ledger) → block_transactions block !! i = Some tx →
      runs (load_transaction (tx_hash tx)) tb' (Ok (Some
        (mkLocation (block_height block) (block_hash block) (Z.of_nat i), tx))) tb') ∧
    (∀ h, (∀ block i tx, block ∈ chain_blocks (chain ledger) →
        block_transactions block !! i = Some tx → hash_key (tx_hash tx) ≠ hash_key h) →
      runs (load_transaction h) tb' (Ok None) tb').
Proof.
  intros Hwf Hfun. exists (ledger_tables ledger tb). split_and!.
  - apply runs_save_ledger. intros block. apply (sw_txs _ Hwf).
  - intros block i tx Hb Htx. apply (denotes_Ok _ _ _ _ (denotes_transaction_at _)).
    apply saved_transaction_at; [done| |done..]. intros block' i' tx' Hb' Htx' Hk.
    by apply (Hfun block' block i' i tx' tx).
  - intros h Hno. apply (denotes_Ok _ _ _ _ (denotes_transaction_at _)).
    by apply saved_transaction_absent.
Qed.

(** C29: after a ledger was saved, the history of an address lists, without
    repetition and ordered by height, position and direction, exactly the
    payments of the chain the address sent or received; a payment to oneself
    is listed once, as sent. *)
Theorem address_history_exact ledger tb a :
  stored_wf ledger → fits ADDRESS_SIZE a →
  (∀ block tx, block ∈ chain_blocks (chain ledger) → tx ∈ block_transactions block →
    fits ADDRESS_SIZE (tx_from tx) ∧ fits ADDRESS_SIZE (tx_to tx)) →
  ∃ tb' locs, runs (save_ledger ledger) tb (Ok tt) tb' ∧
    runs (load_address_transaction_locations a) tb' (Ok locs) tb' ∧
    NoDup locs ∧ (∀ loc, loc ∈ locs ↔ history_entry ledger a loc) ∧
    StronglySorted (λ l l', key_leb (al_block_height l, al_tx_index l, al_sent l)
      (al_block_height l', al_tx_index l', al_sent l') = true) locs.
Proof.
  intros Hwf Ha Hfits. destruct (saved_history_list ledger Hwf Hfits tb a Ha) as (locs & Heq & Hin & Hnd).
  set (key l := (al_block_height l, al_tx_index l, al_sent l)).
  exists (ledger_tables ledger tb), (sort_by_key key locs). split_and!.
  - apply runs_save_ledger. intros block. apply (sw_txs _ Hwf).
  - apply (denotes_Ok _ _ _ _ (denotes_history_at _)). unfold history_at. rewrite Heq.
    rewrite <-list_fmap_compose. change (snd ∘ history_record a) with (enc (A := AddressTransactionLocation)).
    by rewrite decode_list_enc.
  - unfold sort_by_key. by rewrite sort_by_perm.
  - intros loc. unfold sort_by_key. by rewrite elem_of_sort_by.
  - apply (sort_by_StronglySorted (λ x y, key_leb (key x) (key y))).
Qed.

(** Opening checks the version record: a database of this version is
    accepted as it is; a new, empty one gets the record; a database of another
    version, or one with data and no version record, is refused unchanged. *)
Theorem storage_version_gate tb :
  (kv_get (tb Meta) STORAGE_VERSION_KEY = Some (enc STORAGE_VERSION) →
    runs ensure_storage_version tb (Ok tt) tb) ∧
  (∀ v, v ≠ STORAGE_VERSION → kv_get (tb Meta) STORAGE_VERSION_KEY = Some (enc v) →
    runs ensure_storage_version tb (Err (UnsupportedStorageVersion STORAGE_VERSION v)) tb) ∧
  (kv_get (tb Meta) STORAGE_VERSION_KEY = None → (∀ db, db ≠ Meta → kv_iter (tb db) = []) →
    runs ensure_storage_version tb (Ok tt)
      (put_tb Meta STORAGE_VERSION_KEY (enc STORAGE_VERSION) tb)) ∧
  (∀ db, db ≠ Meta → kv_iter (tb db) ≠ [] → kv_get (tb Meta) STORAGE_VERSION_KEY = None →
    runs ensure_storage_version tb (Err MissingStorageVersion) tb).
Proof.
  split_and!.
  - intros Hv. eapply runs_bind; [apply runs_ro; by eapply runs_read_value, decode_enc|apply runs_ret].
  - intros v Hne Hv. eapply runs_bind; [apply runs_ro; by eapply runs_read_value, decode_enc|].
    cbn iota. rewrite bool_decide_eq_false_2 by done. apply runs_throw.
  - intros Hv Hempty. eapply runs_bind; [by apply runs_ro, runs_read_value_None|]. cbn iota.
    eapply runs_bind; [apply runs_ro, runs_all_empty|]. rewrite bool_decide_eq_true_2; cycle 1.
    { apply Forall_forall. intros db Hdb%elem_of_data_tables. by apply Hempty. }
    eapply runs_bind; [apply runs_rw, runs_put_value|apply runs_call].
  - intros db Hdb Hne Hv. eapply runs_bind; [by apply runs_ro, runs_read_value_None|]. cbn iota.
    eapply runs_bind; [apply runs_ro, runs_all_empty|]. rewrite bool_decide_eq_false_2; cycle 1.
    { rewrite Forall_forall. intros Hall. by apply Hne, Hall, elem_of_data_tables. }
    apply runs_throw.
Qed.

(** [Storage::open] adds nothing to the check: the directory and the tables
    exist afterwards, and the environment has room for all of them. *)
Lemma open_checks_version tb r tb' : runs ensure_storage_version tb r tb' → runs (Storage.open (Ok tt)) tb r tb'.
Proof.
  intros Hv. eapply runs_bind; [apply runs_lift|]. eapply runs_bind; [apply runs_call|].
  eapply runs_bind; [|exact Hv]. do 8 (eapply runs_bind; [apply runs_call|]). apply runs_ret.
Qed.

Lemma tables_have_room : NoDup (table_name <$> data_tables ++ [Meta]) ∧
  Z.of_nat (length (data_tables ++ [Meta])) ≤ MAX_DBS.
Proof. split; [by_eval|done]. Qed.

End claims.

(** ** Witnesses on the demo protocol *)

Import Demo StorageDemo.

Lemma ledger1_blocks : chain_blocks (chain ledger1) = [demo_genesis; pay_block].
Proof. by vm_compute. Qed.

Lemma ledger1_accounts :
  map_Forall (λ a x, account_address x = a ∧ 0 ≤ a < 256 ^ Z.of_nat ADDRESS_SIZE) (accounts ledger1).
Proof. by_eval. Qed.

Lemma ledger1_stored_wf : stored_wf ledger1.
Proof.
  split; rewrite ?ledger1_blocks; try done.
  - by intros [|[|i]] block; cbn; intros; simplify_eq.
  - by intros block [= <-].
  - by intros [|[|i]] block next; cbn; intros; simplify_eq.
  - intros block. rewrite !elem_of_cons, elem_of_nil.
    intros [->|[->|[]]]; unfold fits; split; by vm_compute.
  - intros block. rewrite !elem_of_cons, elem_of_nil. intros [->|[->|[]]]; by vm_compute.
  - apply ledger1_accounts.
  - change (chain ledger1) with [demo_genesis; pay_block].
    econstructor; [reflexivity|]. econstructor; [reflexivity|]. constructor.
Qed.

Lemma save_load_round_trip_witness :
  ∃ tb', runs (save_ledger ledger1) fresh_tables (Ok tt) tb' ∧ runs load_ledger tb' (Ok ledger1) tb'.
Proof. apply (save_load_round_trip ledger1 fresh_tables); [apply ledger1_stored_wf|reflexivity]. Defined.

(** The tables of the saved ledger. *)
Definition saved1 : Database_ → Table := ledger_tables ledger1 fresh_tables.

Lemma integrity_check_exact_witness :
  runs validate_chain_integrity saved1 (Ok tt) saved1 ↔
  ∃ blocks, length blocks = 2%nat ∧
    (∀ i block, blocks !! i = Some block →
      runs (load_block_by_height (Z.of_nat i)) saved1 (Ok (Some block)) saved1) ∧
    block_hash <$> last blocks = Some (blk_hash pay_block) ∧
    (∀ block, blocks !! 0%nat = Some block → previous_hash block = zero_hash) ∧
    (∀ i block next, blocks !! i = Some block → blocks !! S i = Some next →
      previous_hash next = block_hash block).
Proof.
  apply (integrity_check_exact saved1 1 (blk_hash pay_block)).
  apply (denotes_Ok _ _ _ _ denotes_tip_at).
  apply (saved_tip_at ledger1 ledger1_stored_wf fresh_tables pay_block). reflexivity.
Defined.

Lemma ledger1_transactions block i tx :
  block ∈ chain_blocks (chain ledger1) → block_transactions block !! i = Some tx →
  block = pay_block ∧ (i = 0%nat ∧ tx = tx0 ∨ i = 1%nat ∧ tx = txb).
Proof.
  rewrite ledger1_blocks, !elem_of_cons, elem_of_nil.
  intros [->|[->|[]]]; [done|]. destruct i as [|[|i]]; cbn; intros; simplify_eq; auto.
Qed.

Lemma saved_transaction_found_witness :
  ∃ tb', runs (save_ledger ledger1) fresh_tables (Ok tt) tb' ∧
    runs (load_transaction (tx_hash txb)) tb'
      (Ok (Some (mkLocation 1 (blk_hash pay_block) 1, txb))) tb'.
Proof.
  destruct (saved_transaction_found ledger1 fresh_tables) as (tb' & Hs & Hl & _).
  - apply ledger1_stored_wf.
  - intros block block' i i' tx tx' Hb Hb' Ht Ht' Hk.
    destruct (ledger1_transactions _ _ _ Hb Ht) as [-> [[-> ->]|[-> ->]]],
      (ledger1_transactions _ _ _ Hb' Ht') as [-> [[-> ->]|[-> ->]]]; done.
  - exists tb'. split; [done|]. apply (Hl pay_block 1%nat txb); [by rewrite ledger1_blocks; set_solver|done].
Defined.

Lemma address_history_exact_witness :
  ∃ tb' locs, runs (save_ledger ledger1) fresh_tables (Ok tt) tb' ∧
    runs (load_address_transaction_locations bob) tb' (Ok locs) tb' ∧
    NoDup locs ∧ (∀ loc, loc ∈ locs ↔ history_entry ledger1 bob loc) ∧
    StronglySorted (λ l l', key_leb (al_block_height l, al_tx_index l, al_sent l)
      (al_block_height l', al_tx_index l', al_sent l') = true) locs.
Proof.
  apply (address_history_exact ledger1 fresh_tables bob); [apply ledger1_stored_wf|done|].
  intros block tx Hb [i Hi]%list_elem_of_lookup.
  destruct (ledger1_transactions _ _ _ Hb Hi) as [_ [[_ ->]|[_ ->]]]; done.
Defined.

Lemma storage_version_gate_witness :
  runs ensure_storage_version fresh_tables (Ok tt) fresh_tables ∧
  runs ensure_storage_version (λ _, kv_empty) (Ok tt) fresh_tables.
Proof.
  split; [apply (storage_version_gate fresh_tables); reflexivity|].
  apply (storage_version_gate (λ _, kv_empty)); [reflexivity|].
  intros. apply bt_iter_empty.
Defined.

End StorageProps.
