(* ===== verification/Node.v ===== *)
(** * Node: the block-processing state machine ([src/runtime/node/node.rs])

    [Node] is the struct of the source with one more field, the number of
    times the system clock was read: the clock is an oracle ([Clock]) that
    answers the n-th reading.  Methods are state-passing programs; a method
    that returns early with [?] keeps the assignments made before. *)

From S2P Require Import Prelude Collections Core Mempool Miner Cache Bytes Storage.

(** The answers of [SystemTime::now], in seconds since the epoch. *)
Class Clock := { wall : nat → Timestamp }.

Module Node.
Import Storage.

(** ** Data *)

Definition MAX_ORPHAN_BLOCKS : Z := 1024.
Definition MAX_ORPHAN_HEIGHT_DISTANCE : Z := 512.
Definition ORPHAN_BLOCK_TTL_SECS : Z := 10 * 60.
Definition MISSING_PARENT_RETRY_SECS : Z := 5.

Inductive NodeError :=
  | EConsensus (error : ConsensusError)
  | EGenesis (code : Z)
  | EForkChoice (error : ForkChoiceError)
  | ELedger (error : LedgerError)
  | EMempool (error : Mempool.MempoolError)
  | EStorage (error : StorageError)
  | MiningExhausted
  | MissingGenesisState
  | CheckpointMismatch
  | ReorgRequired.

#[local] Existing Instance Mempool.MempoolError_eq_dec.
#[export] Instance NodeError_eq_dec : EqDecision NodeError.
Proof. solve_decision. Defined.

Record PendingBalance := mkPending { incoming : Amount; outgoing : Amount }.
Definition PendingBalance_default : PendingBalance := mkPending 0 0.

Record BalanceSummary := mkSummary {
  confirmed : Amount;
  available : Amount;
  summary_pending : PendingBalance;
}.

Record AccountView := mkView {
  view_balance : Amount;
  view_unspendable : Amount;
  view_nonce : Nonce;
}.

#[export] Instance PendingBalance_eq_dec : EqDecision PendingBalance.
Proof. solve_decision. Defined.

Section node.
Context `{Paqus, Kv, Lmdb, Clock, !Codecs}.

Record OrphanBlock := mkOrphan {
  orphan_block : Block;
  received_at : Timestamp;
}.

Record Node := mkNode {
  ledger : Ledger;
  mempool : Mempool.Mempool;
  storage : Storage.Store;
  consensus : Consensus;
  cache : Cache.CoreCache;
  fork_choice : ForkChoice;
  genesis_accounts : gmap Address Account;
  orphan_blocks : gmap BlockHash OrphanBlock;
  orphan_children_by_parent : gmap BlockHash (list BlockHash);
  missing_parent_requests : list BlockHash;
  missing_parent_request_set : gset BlockHash;
  missing_parent_retry_at : gmap BlockHash Timestamp;
  clock_reads : nat;
}.

(** Assignment to a field. *)
Definition set_ledger (v : Ledger) (n : Node) : Node :=
  mkNode v (mempool n) (storage n) (consensus n) (cache n) (fork_choice n) (genesis_accounts n)
    (orphan_blocks n) (orphan_children_by_parent n) (missing_parent_requests n)
    (missing_parent_request_set n) (missing_parent_retry_at n) (clock_reads n).
Definition set_mempool (v : Mempool.Mempool) (n : Node) : Node :=
  mkNode (ledger n) v (storage n) (consensus n) (cache n) (fork_choice n) (genesis_accounts n)
    (orphan_blocks n) (orphan_children_by_parent n) (missing_parent_requests n)
    (missing_parent_request_set n) (missing_parent_retry_at n) (clock_reads n).
Definition set_storage (v : Storage.Store) (n : Node) : Node :=
  mkNode (ledger n) (mempool n) v (consensus n) (cache n) (fork_choice n) (genesis_accounts n)
    (orphan_blocks n) (orphan_children_by_parent n) (missing_parent_requests n)
    (missing_parent_request_set n) (missing_parent_retry_at n) (clock_reads n).
Definition set_cache (v : Cache.CoreCache) (n : Node) : Node :=
  mkNode (ledger n) (mempool n) (storage n) (consensus n) v (fork_choice n) (genesis_accounts n)
    (orphan_blocks n) (orphan_children_by_parent n) (missing_parent_requests n)
    (missing_parent_request_set n) (missing_parent_retry_at n) (clock_reads n).
Definition set_fork_choice (v : ForkChoice) (n : Node) : Node :=
  mkNode (ledger n) (mempool n) (storage n) (consensus n) (cache n) v (genesis_accounts n)
    (orphan_blocks n) (orphan_children_by_parent n) (missing_parent_requests n)
    (missing_parent_request_set n) (missing_parent_retry_at n) (clock_reads n).
Definition set_orphan_blocks (v : gmap BlockHash OrphanBlock) (n : Node) : Node :=
  mkNode (ledger n) (mempool n) (storage n) (consensus n) (cache n) (fork_choice n)
    (genesis_accounts n) v (orphan_children_by_parent n) (missing_parent_requests n)
    (missing_parent_request_set n) (missing_parent_retry_at n) (clock_reads n).
Definition set_orphan_children_by_parent (v : gmap BlockHash (list BlockHash)) (n : Node) : Node :=
  mkNode (ledger n) (mempool n) (storage n) (consensus n) (cache n) (fork_choice n)
    (genesis_accounts n) (orphan_blocks n) v (missing_parent_requests n)
    (missing_parent_request_set n) (missing_parent_retry_at n) (clock_reads n).
Definition set_missing_parent_requests (v : list BlockHash) (n : Node) : Node :=
  mkNode (ledger n) (mempool n) (storage n) (consensus n) (cache n) (fork_choice n)
    (genesis_accounts n) (orphan_blocks n) (orphan_children_by_parent n) v
    (missing_parent_request_set n) (missing_parent_retry_at n) (clock_reads n).
Definition set_missing_parent_request_set (v : gset BlockHash) (n : Node) : Node :=
  mkNode (ledger n) (mempool n) (storage n) (consensus n) (cache n) (fork_choice n)
    (genesis_accounts n) (orphan_blocks n) (orphan_children_by_parent n)
    (missing_parent_requests n) v (missing_parent_retry_at n) (clock_reads n).
Definition set_missing_parent_retry_at (v : gmap BlockHash Timestamp) (n : Node) : Node :=
  mkNode (ledger n) (mempool n) (storage n) (consensus n) (cache n) (fork_choice n)
    (genesis_accounts n) (orphan_blocks n) (orphan_children_by_parent n)
    (missing_parent_requests n) (missing_parent_request_set n) v (clock_reads n).
Definition set_clock_reads (v : nat) (n : Node) : Node :=
  mkNode (ledger n) (mempool n) (storage n) (consensus n) (cache n) (fork_choice n)
    (genesis_accounts n) (orphan_blocks n) (orphan_children_by_parent n)
    (missing_parent_requests n) (missing_parent_request_set n) (missing_parent_retry_at n) v.

(** ** Effects *)

Local Abbreviation N := (SE Node NodeError).

Definition current_unix_timestamp : N Timestamp := λ n,
  (Ok (wall (clock_reads n)), set_clock_reads (S (clock_reads n)) n).

(** Methods of the fields, with the [From] conversions of their errors. *)
Definition on_storage {A} (m : SE Store StorageError A) : N A := zoom storage set_storage EStorage m.
Definition on_ledger {A} (m : SE Ledger LedgerError A) : N A := zoom ledger set_ledger ELedger m.
Definition on_mempool {A} (m : SE Mempool.Mempool Mempool.MempoolError A) : N A :=
  zoom mempool set_mempool EMempool m.
Definition on_fork_choice {A} (m : SE ForkChoice ForkChoiceError A) : N A :=
  zoom fork_choice set_fork_choice EForkChoice m.

(** ** Construction *)

(** The [expect] on the chain of the ledger: [None] is the panic. *)
Fixpoint index_chain (blocks : list Block) (f : ForkChoice) : option ForkChoice :=
  match blocks with
  | [] => Some f
  | block :: blocks' =>
      match fc_insert_block block f with
      | (Ok _, f') => index_chain blocks' f'
      | (Err _, _) => None
      end
  end.

Definition with_genesis_accounts (l : Ledger) (st : Store) (c : Consensus)
    (genesis : gmap Address Account) (clock : nat) : option Node :=
  f ← index_chain (chain_blocks (chain l)) fc_new;
  Some (mkNode l Mempool.new st c (Cache.from_ledger l) f genesis ∅ ∅ [] ∅ ∅ clock).

Definition genesis_accounts_of (l : Ledger) : gmap Address Account :=
  if bool_decide (tip_height l = Some 0) then accounts l else ∅.

Definition new (l : Ledger) (st : Store) (c : Consensus) (clock : nat) : option Node :=
  with_genesis_accounts l st c (genesis_accounts_of l) clock.

(** ** Missing parents *)

Definition queue_missing_parent_request_at (hash : BlockHash) (retry_at : Timestamp) (n : Node) :
    Node :=
  if fc_contains (fork_choice n) hash then n
  else
    let retry := match missing_parent_retry_at n !! hash with
                 | Some existing => Z.min existing retry_at
                 | None => retry_at
                 end in
    let n1 := set_missing_parent_retry_at (<[hash := retry]> (missing_parent_retry_at n)) n in
    if bool_decide (hash ∈ missing_parent_request_set n1) then n1
    else set_missing_parent_requests (missing_parent_requests n1 ++ [hash])
           (set_missing_parent_request_set ({[hash]} ∪ missing_parent_request_set n1) n1).

Definition queue_missing_parent_request (hash : BlockHash) : N () :=
  n ← get_state;
  if fc_contains (fork_choice n) hash then mret tt
  else
    now ← current_unix_timestamp;
    modify (queue_missing_parent_request_at hash now).

(** The loop over the queue: the requests that are due, in order, and those
    that are put back. *)
Fixpoint drain_loop (now : Timestamp) (queue : list BlockHash) (n : Node) :
    list BlockHash * list BlockHash * Node :=
  match queue with
  | [] => ([], [], n)
  | hash :: queue' =>
      let retry_at := default 0 (missing_parent_retry_at n !! hash) in
      if bool_decide (retry_at ≤ now) then
        let n1 := set_missing_parent_retry_at (delete hash (missing_parent_retry_at n))
          (set_missing_parent_request_set (missing_parent_request_set n ∖ {[hash]}) n) in
        let '(ready, pending, n2) := drain_loop now queue' n1 in (hash :: ready, pending, n2)
      else
        let '(ready, pending, n2) := drain_loop now queue' n in (ready, hash :: pending, n2)
  end.

Definition drain_missing_parent_requests_at (now : Timestamp) (n : Node) : list BlockHash * Node :=
  let '(ready, pending, n1) := drain_loop now (missing_parent_requests n) n in
  (ready, set_missing_parent_requests pending n1).

Definition drain_missing_parent_requests : N (list BlockHash) :=
  now ← current_unix_timestamp;
  infallible (drain_missing_parent_requests_at now).

Definition retry_missing_parent_request (hash : BlockHash) : N () :=
  now ← current_unix_timestamp;
  modify (queue_missing_parent_request_at hash (sat_add u64_max now MISSING_PARENT_RETRY_SECS)).

Definition has_pending_sync_work (n : Node) : bool :=
  negb (bool_decide (orphan_blocks n = ∅)) || negb (bool_decide (missing_parent_requests n = [])) ||
  negb (bool_decide (missing_parent_retry_at n = ∅)).

(** ** Orphans *)

Definition orphan_is_too_far_ahead (n : Node) (block : Block) : bool :=
  let tip := default 0 (tip_height (ledger n)) in
  bool_decide (sat_add u64_max tip MAX_ORPHAN_HEIGHT_DISTANCE < block_height block).

Definition remove_orphan_index (hash : BlockHash) (n : Node) : Node :=
  let m := filter (λ child, child ≠ hash) <$> orphan_children_by_parent n in
  let empty_parents := (filter (λ kv : BlockHash * list BlockHash, kv.2 = []) (bt_iter m)).*1 in
  set_orphan_children_by_parent (foldl (λ m parent, delete parent m) m empty_parents) n.

Definition remove_orphan (hash : BlockHash) (n : Node) : Node :=
  let n1 := remove_orphan_index hash n in
  set_orphan_blocks (delete hash (orphan_blocks n1)) n1.

Definition orphan_expired (now : Timestamp) (n : Node) (orphan : OrphanBlock) : bool :=
  bool_decide (ORPHAN_BLOCK_TTL_SECS < sat_sub now (received_at orphan)) ||
  orphan_is_too_far_ahead n (orphan_block orphan).

Definition prune_expired_orphans (now : Timestamp) (n : Node) : Node :=
  let expired := (filter (λ kv : BlockHash * OrphanBlock, orphan_expired now n kv.2 = true)
    (bt_iter (orphan_blocks n))).*1 in
  foldl (λ n hash, remove_orphan hash n) n expired.

Definition evict_orphan (n : Node) : Node :=
  if bool_decide (MAX_ORPHAN_BLOCKS ≤ Z.of_nat (size (orphan_blocks n))) then
    match bt_keys (orphan_blocks n) with
    | evicted :: _ => remove_orphan evicted n
    | [] => n
    end
  else n.

Definition cache_orphan_block (block : Block) : N () :=
  now ← current_unix_timestamp;
  modify (prune_expired_orphans now) ;;
  if bool_decide (block_height block = 0) then mret tt
  else
    n ← get_state;
    if orphan_is_too_far_ahead n block then mret tt
    else
      let hash := block_hash block in
      if fc_contains (fork_choice n) hash || bool_decide (is_Some (orphan_blocks n !! hash))
      then mret tt
      else
        modify evict_orphan ;;
        let parent := previous_hash block in
        queue_missing_parent_request parent ;;
        modify (λ n, set_orphan_children_by_parent
          (<[parent := default [] (orphan_children_by_parent n !! parent) ++ [hash]]>
            (orphan_children_by_parent n)) n) ;;
        modify (λ n, set_orphan_blocks (<[hash := mkOrphan block now]> (orphan_blocks n)) n).

(** ** Branches *)

Fixpoint apply_branch (blocks : list Block) (l : Ledger) : result NodeError Ledger :=
  match blocks with
  | [] => Ok l
  | block :: blocks' =>
      match ledger_apply_block block l with
      | (Ok _, l') => apply_branch blocks' l'
      | (Err e, _) => Err (ELedger e)
      end
  end.

Definition ledger_for_branch_tip (n : Node) (tip : BlockHash) : result NodeError Ledger :=
  let genesis_hash := default tip (last (fc_ancestor_hashes (fork_choice n) tip)) in
  genesis ← ok_or (fc_get (fork_choice n) genesis_hash) ReorgRequired;
  match chain_insert_block (fn_block genesis) chain_new with
  | (Err e, _) => Err (ELedger e)
  | (Ok _, c) =>
      branch ← ok_or (fc_branch_from_ancestor (fork_choice n) genesis_hash tip) ReorgRequired;
      apply_branch branch (mkLedger (genesis_accounts n) c)
  end.

Definition common_ancestor (n : Node) (old_tip : option BlockHash) (new_tip : BlockHash) :
    option BlockHash :=
  old ← old_tip;
  let old_ancestors := fc_ancestor_hashes (fork_choice n) old in
  find (λ hash, bool_decide (hash ∈ old_ancestors)) (fc_ancestor_hashes (fork_choice n) new_tip).

(** ** Difficulty *)

Definition next_difficulty_after_branch_tip (n : Node) (hash : BlockHash) : result NodeError Z :=
  tip ← ok_or (fc_get (fork_choice n) hash) (EForkChoice MissingParent);
  if bool_decide (fn_height tip < DIFFICULTY_ADJUSTMENT_INTERVAL)
  then Ok (consensus_difficulty (consensus n))
  else
    let first_height := fn_height tip - DIFFICULTY_ADJUSTMENT_INTERVAL in
    first_hash ← ok_or
      (find (λ h, match fc_get (fork_choice n) h with
                  | Some node => bool_decide (fn_height node = first_height)
                  | None => false
                  end) (fc_ancestor_hashes (fork_choice n) hash)) ReorgRequired;
    first ← ok_or (fc_get (fork_choice n) first_hash) ReorgRequired;
    let block_count := sat_sub (fn_height tip) (fn_height first) in
    map_err EConsensus (retarget_difficulty (consensus n) (block_difficulty (fn_block tip))
      (block_timestamp (fn_block first)) (block_timestamp (fn_block tip)) block_count).

Definition next_difficulty_after_tip (tip : Height) : N Z :=
  n ← get_state;
  w ← on_storage (difficulty_window tip DIFFICULTY_ADJUSTMENT_INTERVAL);
  match w with
  | None => mret (consensus_difficulty (consensus n))
  | Some (first, last, block_count, current) =>
      lift (map_err EConsensus (retarget_difficulty (consensus n) current first last block_count))
  end.

Definition next_difficulty : N Z :=
  n ← get_state;
  match tip_height (ledger n) with
  | None => mret (consensus_difficulty (consensus n))
  | Some tip => next_difficulty_after_tip tip
  end.

(** ** Validation *)

Definition extends_active_tip (n : Node) (block : Block) : bool :=
  match tip_hash (ledger n) with
  | Some tip => bool_decide (previous_hash block = tip)
  | None => bool_decide (block_height block = 0)
  end.

Definition validate_canonical_state_root (l : Ledger) (block : Block) : result NodeError () :=
  expected ← map_err ELedger (state_root_after_block l block);
  if bool_decide (block_state_root block ≠ expected) then Err (ELedger LedgerInvalidStateRoot)
  else if negb (block_is_genesis block) && bool_decide (block_state_root block = zero_hash)
  then Err (ELedger LedgerInvalidStateRoot)
  else Ok tt.

(** [ledger.apply_block] on a copy. *)
Definition try_apply (l : Ledger) (block : Block) : result NodeError () :=
  map_err ELedger (ledger_apply_block block l).1.

Definition validate_block_state_for_known_parent (n : Node) (block : Block) : result NodeError () :=
  if extends_active_tip n block then
    _ ← validate_canonical_state_root (ledger n) block;
    try_apply (ledger n) block
  else if bool_decide (genesis_accounts n = ∅) then Err MissingGenesisState
  else
    l ← ledger_for_branch_tip n (previous_hash block);
    _ ← validate_canonical_state_root l block;
    try_apply l block.

Definition validate_at (now : Timestamp) (n : Node) (block : Block) : result NodeError () :=
  if bool_decide (block_height block = 0)
  then map_err EConsensus (validate_genesis_block_at (consensus n) block now)
  else
    parent ← ok_or (fc_get (fork_choice n) (previous_hash block)) (EForkChoice MissingParent);
    _ ← (if bool_decide (consensus_difficulty (consensus n) ≠ 0) then
           expected ← next_difficulty_after_branch_tip n (fn_hash parent);
           if bool_decide (block_difficulty block ≠ expected)
           then Err (EConsensus UnexpectedDifficulty) else Ok tt
         else Ok tt);
    _ ← map_err EConsensus
          (validate_next_block_with_tip_at (consensus n) block (fn_block parent) now);
    if validate_checkpoint (block_height block) (block_hash block)
    then Ok tt else Err CheckpointMismatch.

Definition validate_block_for_known_parent (block : Block) : N () :=
  now ← current_unix_timestamp;
  n ← get_state;
  lift (validate_at now n block).

(** ** Applying blocks *)

(** [let _ = self.mempool.insert_validated(&self.ledger, transaction);] *)
Definition reinsert (tx : SignedTransaction) : N () :=
  now ← current_unix_timestamp;
  clock ← current_unix_timestamp;
  n ← get_state;
  _ ← attempt (on_mempool (Mempool.insert_validated_at clock (ledger n) tx now));
  mret tt.

Definition reorg_to_best_tip : N () :=
  n ← get_state;
  if bool_decide (genesis_accounts n = ∅) then throw MissingGenesisState
  else
    let old_blocks := chain_blocks (chain (ledger n)) in
    let old_tip_hash := tip_hash (ledger n) in
    best ← lift (ok_or (fc_best_tip (fork_choice n)) ReorgRequired);
    let best_tip := fn_hash best in
    ancestor ← lift (ok_or (common_ancestor n old_tip_hash best_tip) ReorgRequired);
    winning_branch ← lift (ok_or (fc_branch_from_ancestor (fork_choice n) ancestor best_tip)
      ReorgRequired);
    l ← lift (ledger_for_branch_tip n best_tip);
    modify (set_ledger l) ;;
    modify (set_cache (Cache.from_ledger l)) ;;
    on_storage (save_ledger l) ;;
    let winning_hashes := fc_ancestor_hashes (fork_choice n) best_tip in
    for_each (λ old_block,
      if bool_decide (block_hash old_block ∈ winning_hashes) then mret tt
      else for_each reinsert (block_transactions old_block)) old_blocks.

(** The accounts a block touched, copied from the ledger to the cache. *)
Definition cache_account (l : Ledger) (a : Address) (c : Cache.CoreCache) : Cache.CoreCache :=
  match ledger_account l a with
  | Some account => Cache.insert_account account c
  | None => c
  end.

Definition cache_block_accounts (l : Ledger) (block : Block) (c : Cache.CoreCache) :
    Cache.CoreCache :=
  cache_account l (miner_address block)
    (foldl (λ c tx, cache_account l (tx_to tx) (cache_account l (tx_from tx) c)) c
      (block_transactions block)).

Definition apply_known_parent_block (block : Block) : N () :=
  validate_block_for_known_parent block ;;
  n ← get_state;
  lift (validate_block_state_for_known_parent n block) ;;
  hash ← on_fork_choice (fc_insert_block block);
  n1 ← get_state;
  let best_tip_hash := fn_hash <$> fc_best_tip (fork_choice n1) in
  if bool_decide (best_tip_hash ≠ Some hash) then on_storage (save_side_block block)
  else if negb (extends_active_tip n1 block) then reorg_to_best_tip
  else
    on_ledger (ledger_apply_block block) ;;
    modify (λ n, set_mempool (Mempool.remove_confirmed block (mempool n)) n) ;;
    modify (λ n, set_cache (Cache.insert_block block (cache n)) n) ;;
    modify (λ n, set_cache (cache_block_accounts (ledger n) block (cache n)) n) ;;
    n2 ← get_state;
    on_storage (save_ledger (ledger n2)).

(** The children of one parent that was just applied; [parents] is the stack
    of the outer loop, its top first. *)
Fixpoint process_children (children parents : list BlockHash) : N (list BlockHash) :=
  match children with
  | [] => mret parents
  | child_hash :: children' =>
      n ← get_state;
      match orphan_blocks n !! child_hash with
      | None => process_children children' parents
      | Some orphan =>
          let child := orphan_block orphan in
          modify (λ n, set_orphan_blocks (delete child_hash (orphan_blocks n)) n) ;;
          r ← attempt (apply_known_parent_block child);
          match r with
          | Ok _ => process_children children' (child_hash :: parents)
          | Err (EForkChoice MissingParent) =>
              cache_orphan_block child ;; process_children children' parents
          | Err _ => process_children children' parents
          end
      end
  end.

(** The loop over the stack, [true] when it ended by itself. *)
Fixpoint process_loop (fuel : nat) (parents : list BlockHash) : N bool :=
  match parents, fuel with
  | [], _ => mret true
  | _ :: _, O => mret false
  | parent :: parents', S fuel' =>
      n ← get_state;
      match orphan_children_by_parent n !! parent with
      | None => process_loop fuel' parents'
      | Some children =>
          modify (λ n, set_orphan_children_by_parent
            (delete parent (orphan_children_by_parent n)) n) ;;
          parents1 ← process_children children parents';
          process_loop fuel' parents1
      end
  end.

(** Every pass takes a parent from the stack, and a parent is pushed only for
    an orphan that was removed: one pass per orphan and one for the first
    parent are enough. *)
Definition process_fuel (n : Node) : nat := S (size (orphan_blocks n)).

Definition process_orphans_for_parent (parent_hash : BlockHash) : N () :=
  now ← current_unix_timestamp;
  modify (prune_expired_orphans now) ;;
  n ← get_state;
  _ ← process_loop (process_fuel n) [parent_hash];
  mret tt.

Definition apply_block (block : Block) : N () :=
  now ← current_unix_timestamp;
  modify (prune_expired_orphans now) ;;
  r ← attempt (apply_known_parent_block block);
  match r with
  | Ok _ => process_orphans_for_parent (block_hash block)
  | Err (EForkChoice MissingParent) => cache_orphan_block block
  | Err (EForkChoice ForkDuplicateBlock) => mret tt
  | Err (ELedger LedgerDuplicateBlock) => mret tt
  | Err error => throw error
  end.

Definition submit_transaction (tx : SignedTransaction) : N TransactionHash :=
  now ← current_unix_timestamp;
  clock ← current_unix_timestamp;
  n ← get_state;
  on_mempool (Mempool.insert_validated_at clock (ledger n) tx now).

Definition mine_block (miner : Address) (timestamp max_attempts limit : Z) :
    N Miner.MiningResult :=
  modify (λ n, set_mempool (Mempool.prune_expired timestamp (mempool n)).2 n) ;;
  difficulty ← next_difficulty;
  n ← get_state;
  mined ← lift (map_err EConsensus (Miner.mine_candidate_block (mempool n) (ledger n) (consensus n)
    miner timestamp (Miner.mkMiningConfig difficulty max_attempts limit)));
  result ← lift (ok_or mined MiningExhausted);
  apply_block (Miner.mined_block result) ;;
  mret result.

(** ** Start-up *)

(** One pass over the blocks not yet indexed: whether it made progress, and
    the blocks whose parent is still unknown. *)
Fixpoint index_pass (blocks : list Block) : N (bool * list Block) :=
  match blocks with
  | [] => mret (false, [])
  | block :: blocks' =>
      n ← get_state;
      if fc_contains (fork_choice n) (block_hash block) then
        p ← index_pass blocks'; mret (true, p.2)
      else
        r ← attempt (on_fork_choice (fc_insert_block block));
        match r with
        | Ok _ => p ← index_pass blocks'; mret (true, p.2)
        | Err (EForkChoice MissingParent) => p ← index_pass blocks'; mret (p.1, block :: p.2)
        | Err error => throw error
        end
  end.

(** Passes until one makes no progress; a pass with progress drops a block, so
    [length blocks + 1] passes are enough. *)
Fixpoint index_loop (fuel : nat) (blocks : list Block) : N bool :=
  match fuel with
  | O => mret false
  | S fuel' =>
      p ← index_pass blocks;
      if p.1 : bool then index_loop fuel' p.2 else mret true
  end.

Definition index_stored_blocks : N () :=
  stored ← on_storage load_blocks_by_hash;
  let blocks := sort_by_key block_height stored in
  _ ← index_loop (S (length blocks)) blocks;
  mret tt.

Definition flush_to_storage : N () :=
  n ← get_state; on_storage (save_ledger (ledger n)).

(** [init_or_load] on the opened storage; a panic of the assertion on the
    genesis hash, or of the fork-choice index, is [None]. *)
Definition load_or_create : SE Store NodeError (option Ledger) :=
  tip ← zoom id (λ s _, s) EStorage load_tip;
  match tip with
  | Some _ => l ← zoom id (λ s _, s) EStorage load_ledger; mret (Some l)
  | None =>
      let genesis := genesis_block in
      if bool_decide (block_hash genesis ≠ GENESIS_HASH) then mret None
      else
        match ledger_apply_block genesis ledger_new with
        | (Err e, _) => throw (ELedger e)
        | (Ok _, l) =>
            zoom id (λ s _, s) EStorage (save_ledger l) ;;
            zoom id (λ s _, s) EStorage (save_genesis_accounts (accounts l)) ;;
            mret (Some l)
        end
  end.

Definition init_or_load (c : Consensus) (clock : nat) : Store → result NodeError (option Node) := λ st,
  match (zoom id (λ s _, s) EStorage ensure_storage_version ;; load_or_create) st with
  | (Err e, _) => Err e
  | (Ok None, _) => Ok None
  | (Ok (Some l), st1) =>
      match load_genesis_accounts st1 with
      | (Err e, _) => Err (EStorage e)
      | (Ok stored, st2) =>
          match with_genesis_accounts l st2 c (default (genesis_accounts_of l) stored) clock with
          | None => Ok None
          | Some n =>
              match index_stored_blocks n with
              | (Err e, _) => Err e
              | (Ok _, n') => Ok (Some n')
              end
          end
      end
  end.

(** ** Views *)

Definition node_tip_height (n : Node) : option Height := tip_height (ledger n).
Definition node_tip_hash (n : Node) : option BlockHash := tip_hash (ledger n).
Definition balance (n : Node) (a : Address) : option Amount := ledger_balance (ledger n) a.
Definition confirmed_balance (n : Node) (a : Address) : option Amount :=
  ledger_confirmed_balance (ledger n) a.

Definition available_balance_with_depth (n : Node) (a : Address) (finality_depth : Z) :
    option Amount :=
  tip ← tip_height (ledger n);
  (λ account, available_balance_at account tip) <$> ledger_account (ledger n) a.

Definition available_balance (confirmation_depth : Z) (n : Node) (a : Address) : option Amount :=
  available_balance_with_depth n a confirmation_depth.

Definition add_pending (a : Address) (p : PendingBalance) (tx : SignedTransaction) : PendingBalance :=
  let p1 := if bool_decide (tx_to tx = a)
            then mkPending (sat_add u32_max (incoming p) (tx_amount tx)) (outgoing p) else p in
  if bool_decide (tx_from tx = a) then
    mkPending (incoming p1)
      (sat_add u32_max (outgoing p1) (sat_add u32_max (tx_amount tx) (tx_fee tx)))
  else p1.

Definition pending_balance (n : Node) (a : Address) : PendingBalance :=
  foldl (add_pending a) PendingBalance_default (Mempool.pending (mempool n)).

Definition balance_summary (confirmation_depth : Z) (n : Node) (a : Address) :
    option BalanceSummary :=
  c ← confirmed_balance n a;
  v ← available_balance confirmation_depth n a;
  Some (mkSummary c v (pending_balance n a)).

Definition account_view (n : Node) (a : Address) : option AccountView :=
  account ← ledger_account (ledger n) a;
  tip ← tip_height (ledger n);
  Some (mkView (available_balance_at account tip) (unspendable_balance_at account tip)
    (account_nonce account)).

End node.

Abbreviation N := (SE Node NodeError).

End Node.
