(* ===== verification/NodeFacts.v ===== *)
(** * NodeFacts: frames, orphans and request queues of the node

    Which fields each method leaves alone, the invariant of the orphan pool
    and of the queue of missing parents, and the measure of the loop over
    orphans. *)

From S2P Require Import Prelude Collections Core Mempool Miner Cache Bytes Storage StorageFacts Node.

Module NodeFacts.
Import Storage StorageFacts Node.

Section facts.
Context `{Paqus, Kv, Lmdb, Clock, !Codecs}.
Implicit Types n : Node.

(** ** Frames *)

(** The states agree on a part of the node. *)
Definition same {B} (f : Node → B) n n' : Prop := f n = f n'.

#[export] Instance same_preorder {B} (f : Node → B) : PreOrder (same f).
Proof. unfold same. split; [by intros n|intros n1 n2 n3; congruence]. Qed.

Lemma keeps_zoom {S T E F A} (R : S → S → Prop) (view : S → T) (update : T → S → S) (conv : E → F)
    (m : SE T E A) :
  (∀ t s, R s (update t s)) → keeps R (zoom view update conv m).
Proof. intros Hu s. unfold zoom. destruct (m (view s)) as [r t]. apply Hu. Qed.

(** A part of the node that does not depend on the fields block processing
    assigns, nor on the clock. *)
Class Passive {B} (f : Node → B) : Prop := {
  passive_ledger v n : same f n (set_ledger v n);
  passive_mempool v n : same f n (set_mempool v n);
  passive_storage v n : same f n (set_storage v n);
  passive_cache v n : same f n (set_cache v n);
  passive_clock v n : same f n (set_clock_reads v n);
}.

(** Straight-line code keeps a relation if its steps do. *)
Ltac frame :=
  repeat first
    [ assumption
    | solve [eauto with paqus typeclass_instances]
    | apply keeps_bind; [apply _| |intros ?]
    | apply keeps_modify; intros ?
    | case_match ].

Section passive.
Context {B : Type} (f : Node → B) `{!Passive f}.

Lemma keeps_clock : keeps (same f) (current_unix_timestamp : N _).
Proof. intros n. apply passive_clock. Qed.
Lemma keeps_on_storage {A} (m : SE Store StorageError A) : keeps (same f) (on_storage m).
Proof. apply keeps_zoom, passive_storage. Qed.
Lemma keeps_on_ledger {A} (m : SE Ledger LedgerError A) : keeps (same f) (on_ledger m).
Proof. apply keeps_zoom, passive_ledger. Qed.
Lemma keeps_on_mempool {A} (m : SE Mempool.Mempool Mempool.MempoolError A) :
  keeps (same f) (on_mempool m).
Proof. apply keeps_zoom, passive_mempool. Qed.

#[local] Hint Resolve keeps_clock keeps_on_storage keeps_on_ledger keeps_on_mempool
  passive_ledger passive_mempool passive_cache : paqus.

Lemma keeps_reinsert tx : keeps (same f) (reinsert tx).
Proof. unfold reinsert. frame. Qed.

Lemma keeps_reorg : keeps (same f) reorg_to_best_tip.
Proof.
  unfold reorg_to_best_tip. frame.
  apply keeps_for_each; [apply _|]. intros b _. case_match; [apply keeps_ret, _|].
  apply keeps_for_each; [apply _|]. intros; apply keeps_reinsert.
Qed.

(** The rest of [apply_known_parent_block] once the block is indexed. *)
Lemma keeps_apply_known_parent_block block :
  (∀ v n, same f n (set_fork_choice v n)) → keeps (same f) (apply_known_parent_block block).
Proof.
  intros Hf. unfold apply_known_parent_block, validate_block_for_known_parent, on_fork_choice.
  pose proof keeps_reorg. frame. by apply keeps_zoom.
Qed.

End passive.

(** The part of the state only the orphan code assigns. *)
Definition orphans_of n :=
  (orphan_blocks n, orphan_children_by_parent n, missing_parent_requests n,
   missing_parent_request_set n, missing_parent_retry_at n).
Abbreviation same_orphans := (same orphans_of).

#[export] Instance orphans_passive : Passive orphans_of.
Proof. by split. Qed.
#[export] Instance fork_choice_passive : Passive fork_choice.
Proof. by split. Qed.

(** The part of the state the orphan code leaves alone. *)
Definition core_of n := (ledger n, mempool n, storage n, consensus n, cache n, fork_choice n,
  genesis_accounts n).
Abbreviation same_core := (same core_of).

(** ** Removing orphans *)

Lemma remove_orphan_blocks hash n :
  orphan_blocks (remove_orphan hash n) = delete hash (orphan_blocks n).
Proof. done. Qed.

Lemma delete_all_lookup {A} (ks : list Z) (m : gmap Z A) k v :
  foldl (λ m k, delete k m) m ks !! k = Some v ↔ k ∉ ks ∧ m !! k = Some v.
Proof.
  revert m. induction ks as [|k' ks IH]; intros m; simpl; [set_solver|].
  rewrite IH, lookup_delete_Some. set_solver.
Qed.

(** The index without one child: lists that become empty disappear. *)
Lemma remove_orphan_index_lookup hash n parent cs :
  orphan_children_by_parent (remove_orphan hash n) !! parent = Some cs ↔
  cs ≠ [] ∧ ∃ cs0, orphan_children_by_parent n !! parent = Some cs0 ∧
    cs = filter (λ child, child ≠ hash) cs0.
Proof.
  unfold remove_orphan, remove_orphan_index. simpl. rewrite delete_all_lookup.
  rewrite lookup_fmap. split.
  - intros [Hno (cs0 & Hcs0 & ->)%fmap_Some]. split; [|by eauto].
    intros Hnil. apply Hno. apply list_elem_of_fmap. exists (parent, []). split; [done|].
    apply list_elem_of_filter. split; [done|]. apply elem_of_bt_iter.
    by rewrite lookup_fmap, Hcs0, <-Hnil.
  - intros (Hne & cs0 & Hcs0 & ->). rewrite Hcs0. split; [|done].
    intros ([p l] & -> & [Hnil Hin%elem_of_bt_iter]%list_elem_of_filter)%list_elem_of_fmap.
    simpl in *. rewrite lookup_fmap, Hcs0 in Hin. by simplify_eq/=.
Qed.

Lemma prune_orphans_subseteq now n :
  orphan_blocks (prune_expired_orphans now n) ⊆ orphan_blocks n.
Proof.
  unfold prune_expired_orphans. generalize (filter
    (λ kv : Z * OrphanBlock, orphan_expired now n kv.2 = true) (bt_iter (orphan_blocks n))).*1.
  intros l. revert n. induction l as [|h l IH]; intros n; simpl; [done|].
  etrans; [apply IH|]. rewrite remove_orphan_blocks. apply delete_subseteq.
Qed.

Lemma size_subseteq {A} (m m' : gmap Z A) : m ⊆ m' → (size m ≤ size m')%nat.
Proof. intros Hm. rewrite <-!size_dom. by apply subseteq_size, subseteq_dom. Qed.

Lemma evict_subseteq n : orphan_blocks (evict_orphan n) ⊆ orphan_blocks n.
Proof.
  unfold evict_orphan. case_bool_decide; [|done]. destruct (bt_keys _); [done|].
  rewrite remove_orphan_blocks. apply delete_subseteq.
Qed.

(** A full pool has an entry to evict. *)
Lemma evict_size n :
  Z.of_nat (size (orphan_blocks n)) ≤ MAX_ORPHAN_BLOCKS →
  Z.of_nat (size (orphan_blocks (evict_orphan n))) < MAX_ORPHAN_BLOCKS.
Proof.
  unfold evict_orphan, MAX_ORPHAN_BLOCKS. intros Hsz. case_bool_decide; [|lia].
  destruct (bt_keys (orphan_blocks n)) as [|k ks] eqn:E.
  - assert (size (orphan_blocks n) = 0%nat) as Hz; [|lia].
    rewrite <-length_bt_iter. unfold bt_keys in E. apply (f_equal length) in E.
    rewrite length_fmap in E. done.
  - rewrite remove_orphan_blocks.
    assert (is_Some (orphan_blocks n !! k)) as Hk by (apply elem_of_bt_keys; rewrite E; set_solver).
    pose proof (map_size_delete_Some k _ Hk). lia.
Qed.

(** The core is untouched. *)
Lemma prune_orphans_core now n : same_core n (prune_expired_orphans now n).
Proof.
  unfold prune_expired_orphans. generalize (filter
    (λ kv : Z * OrphanBlock, orphan_expired now n kv.2 = true) (bt_iter (orphan_blocks n))).*1.
  intros l. revert n. induction l as [|h l IH]; intros n; simpl; [done|].
  transitivity (remove_orphan h n); [done|apply IH].
Qed.

(** ** The orphan pool *)

(** [waiting] are children taken from the index that are not processed yet. *)
Record orphans_wf (waiting : list BlockHash) n : Prop := {
  ow_bound : Z.of_nat (size (orphan_blocks n)) ≤ MAX_ORPHAN_BLOCKS;
  ow_hash h o : orphan_blocks n !! h = Some o → block_hash (orphan_block o) = h;
  ow_indexed h o : orphan_blocks n !! h = Some o → h ∈ waiting ∨
    ∃ cs, orphan_children_by_parent n !! previous_hash (orphan_block o) = Some cs ∧ h ∈ cs;
  ow_children p cs : orphan_children_by_parent n !! p = Some cs → cs ≠ [] ∧ NoDup cs ∧
    ∀ h, h ∈ cs → h ∉ waiting ∧
      ∃ o, orphan_blocks n !! h = Some o ∧ previous_hash (orphan_block o) = p;
  ow_queue : NoDup (missing_parent_requests n);
  ow_set h : h ∈ missing_parent_request_set n ↔ h ∈ missing_parent_requests n;
  ow_retry h : is_Some (missing_parent_retry_at n !! h) ↔ h ∈ missing_parent_requests n;
}.

Lemma orphans_wf_same waiting n n' : same_orphans n n' → orphans_wf waiting n → orphans_wf waiting n'.
Proof.
  intros Heq. unfold same, orphans_of in Heq. injection Heq as E1 E2 E3 E4 E5.
  intros [Hb Hh Hi Hc Hq Hs Hr]. split; by rewrite <-?E1, <-?E2, <-?E3, <-?E4, <-?E5.
Qed.

Lemma remove_orphan_wf waiting hash n :
  orphans_wf waiting n → orphans_wf waiting (remove_orphan hash n).
Proof.
  intros [Hb Hh Hi Hc Hq Hs Hr]. split; try done.
  - rewrite remove_orphan_blocks. pose proof (size_subseteq _ _ (delete_subseteq (orphan_blocks n) hash)).
    lia.
  - intros h o. rewrite remove_orphan_blocks. intros [_ Ho]%lookup_delete_Some. by apply Hh.
  - intros h o. rewrite remove_orphan_blocks. intros [Hne Ho]%lookup_delete_Some.
    destruct (Hi _ _ Ho) as [?|(cs & Hcs & Hin)]; [by left|right].
    exists (filter (λ c, c ≠ hash) cs). rewrite remove_orphan_index_lookup.
    assert (h ∈ filter (λ c, c ≠ hash) cs) as Hin' by (apply list_elem_of_filter; auto).
    split_and!; [intros Hn; rewrite Hn in Hin'; set_solver|eauto|done].
  - intros p cs (Hne & cs0 & Hcs0 & ->)%remove_orphan_index_lookup.
    destruct (Hc _ _ Hcs0) as (_ & Hnd & Hch). split_and!; [done|by apply NoDup_filter|].
    intros h [Hneq Hin]%list_elem_of_filter. destruct (Hch _ Hin) as (Hw & o & Ho & Hp).
    split; [done|]. exists o. rewrite remove_orphan_blocks. by rewrite lookup_delete_ne.
Qed.

Lemma prune_orphans_wf waiting now n :
  orphans_wf waiting n → orphans_wf waiting (prune_expired_orphans now n).
Proof.
  unfold prune_expired_orphans. generalize (filter
    (λ kv : Z * OrphanBlock, orphan_expired now n kv.2 = true) (bt_iter (orphan_blocks n))).*1.
  intros l. revert n. induction l as [|h l IH]; intros n Hn; simpl; [done|].
  by apply IH, remove_orphan_wf.
Qed.

Lemma evict_wf waiting n : orphans_wf waiting n → orphans_wf waiting (evict_orphan n).
Proof.
  intros Hn. unfold evict_orphan. case_bool_decide; [|done].
  destruct (bt_keys _); [done|]. by apply remove_orphan_wf.
Qed.

(** ** The request queue *)

Lemma queue_wf waiting hash at_ n :
  orphans_wf waiting n → orphans_wf waiting (queue_missing_parent_request_at hash at_ n).
Proof.
  intros [Hb Hh Hi Hc Hq Hs Hr]. unfold queue_missing_parent_request_at.
  case_match; [done|]. cbn zeta.
  match goal with |- context [<[hash := ?v]> _] => generalize v; intros retry end.
  cbn [missing_parent_request_set set_missing_parent_retry_at].
  case_bool_decide as Hin.
  - split; [exact Hb|exact Hh|exact Hi|exact Hc|exact Hq|exact Hs|].
    intros h. cbn. rewrite lookup_insert_is_Some', Hr.
    split; [intros [<-|?]; [by apply Hs|done]|by right].
  - split; [exact Hb|exact Hh|exact Hi|exact Hc| | |]; cbn.
    + apply NoDup_app. split_and!; [done| |apply NoDup_singleton].
      intros h Hh' ->%list_elem_of_singleton. by apply Hin, Hs.
    + intros h. rewrite elem_of_app, list_elem_of_singleton, elem_of_union, elem_of_singleton, Hs.
      tauto.
    + intros h. rewrite elem_of_app, list_elem_of_singleton, lookup_insert_is_Some', Hr.
      split; (intros [?|?]; [|auto]); auto.
Qed.

Lemma queue_same_blocks hash at_ n :
  orphan_blocks (queue_missing_parent_request_at hash at_ n) = orphan_blocks n ∧
  orphan_children_by_parent (queue_missing_parent_request_at hash at_ n)
    = orphan_children_by_parent n.
Proof. unfold queue_missing_parent_request_at. repeat case_match; done. Qed.

(** The state after asking for a parent: the clock was read, or not. *)
Lemma queue_request_run hash n :
  queue_missing_parent_request hash n = (Ok tt, n) ∨
  ∃ now n', same_orphans n n' ∧ queue_missing_parent_request hash n =
    (Ok tt, queue_missing_parent_request_at hash now n').
Proof.
  unfold queue_missing_parent_request. rewrite SE_bind_get. case_match; [by left|right].
  by exists (wall (clock_reads n)), (set_clock_reads (S (clock_reads n)) n).
Qed.

(** ** Rejected blocks *)

Lemma set_fork_choice_same n : set_fork_choice (fork_choice n) n = n.
Proof. by destruct n. Qed.

Lemma on_storage_Err {A} (m : SE Store StorageError A) n e n' :
  on_storage m n = (Err e, n') → ∃ s, e = EStorage s.
Proof. unfold on_storage, zoom. destruct (m (storage n)) as [[]]; naive_solver. Qed.

(** A block that extends the tip was tried on a copy of the ledger, so that
    applying it to the ledger itself succeeds. *)
Lemma validated_block_applies n block :
  validate_block_state_for_known_parent n block = Ok tt → extends_active_tip n block = true →
  ∃ l, ledger_apply_block block (ledger n) = (Ok tt, l).
Proof.
  unfold validate_block_state_for_known_parent. intros Hv Hext. rewrite Hext in Hv.
  apply result_bind_Ok in Hv as ([] & _ & Hv). unfold try_apply in Hv. apply map_err_Ok in Hv.
  destruct (ledger_apply_block block (ledger n)) as [[[]|] l]; simplify_eq/=. eauto.
Qed.

(** ** Caching an orphan *)

Definition add_orphan (block : Block) (now : Timestamp) n : Node :=
  let parent := previous_hash block in
  let n1 := set_orphan_children_by_parent
    (<[parent := default [] (orphan_children_by_parent n !! parent) ++ [block_hash block]]>
      (orphan_children_by_parent n)) n in
  set_orphan_blocks (<[block_hash block := mkOrphan block now]> (orphan_blocks n1)) n1.

Lemma add_orphan_wf waiting block now n :
  orphans_wf waiting n → Z.of_nat (size (orphan_blocks n)) < MAX_ORPHAN_BLOCKS →
  orphan_blocks n !! block_hash block = None → block_hash block ∉ waiting →
  orphans_wf waiting (add_orphan block now n).
Proof.
  intros [Hb Hh Hi Hc Hq Hs Hr] Hsz Hnew Hnw.
  assert (∀ p cs, orphan_children_by_parent n !! p = Some cs → block_hash block ∉ cs) as Hout.
  { intros p cs Hcs Hin. destruct (Hc _ _ Hcs) as (_ & _ & Hch).
    destruct (Hch _ Hin) as (_ & o & Ho & _). by rewrite Hnew in Ho. }
  split; [| | | |exact Hq|exact Hs|exact Hr].
  - cbn. rewrite map_size_insert_None by done. lia.
  - cbn. intros h o [[<- <-]|[_ Ho]]%lookup_insert_Some; [done|by apply Hh].
  - cbn. intros h o [[<- <-]|[Hne Ho]]%lookup_insert_Some.
    + right. eexists. rewrite lookup_insert_eq. split; [done|]. set_solver.
    + destruct (Hi _ _ Ho) as [?|(cs & Hcs & Hin)]; [by left|right].
      destruct (decide (previous_hash block = previous_hash (orphan_block o))) as [Heq|Hneq].
      * rewrite <-Heq in *. rewrite lookup_insert_eq, Hcs. eexists. split; [done|]. simpl. set_solver.
      * rewrite lookup_insert_ne by done. eauto.
  - cbn. intros p cs [[<- <-]|[Hne Hcs]]%lookup_insert_Some.
    + split_and!; [by destruct (default [] _)| |].
      * destruct (orphan_children_by_parent n !! previous_hash block) as [cs0|] eqn:E; simpl;
          [|apply NoDup_singleton].
        destruct (Hc _ _ E) as (_ & Hnd & _). apply NoDup_app. split_and!; [done| |apply NoDup_singleton].
        intros h Hh' ->%list_elem_of_singleton. by apply (Hout _ _ E).
      * intros h [Hh'| ->%list_elem_of_singleton]%elem_of_app.
        -- destruct (orphan_children_by_parent n !! previous_hash block) as [cs0|] eqn:E;
             simpl in Hh'; [|by apply elem_of_nil in Hh'].
           destruct (Hc _ _ E) as (_ & _ & Hch). destruct (Hch _ Hh') as (Hw & o & Ho & Hp).
           split; [done|]. exists o. rewrite lookup_insert_ne; [done|].
           intros <-. by rewrite Hnew in Ho.
        -- split; [done|]. exists (mkOrphan block now). by rewrite lookup_insert_eq.
    + destruct (Hc _ _ Hcs) as (Hn & Hnd & Hch). split_and!; [done|done|].
      intros h Hh'. destruct (Hch _ Hh') as (Hw & o & Ho & Hp). split; [done|].
      exists o. rewrite lookup_insert_ne; [done|]. intros <-. by rewrite Hnew in Ho.
Qed.

Lemma add_orphan_size block now n :
  (size (orphan_blocks (add_orphan block now n)) ≤ S (size (orphan_blocks n)))%nat.
Proof.
  cbn. destruct (orphan_blocks n !! block_hash block) eqn:E.
  - rewrite map_size_insert_Some by eauto. lia.
  - rewrite map_size_insert_None by done. lia.
Qed.

Lemma cache_orphan_block_run block n : ∃ n',
  cache_orphan_block block n = (Ok tt, n') ∧
  (size (orphan_blocks n') ≤ S (size (orphan_blocks n)))%nat ∧
  (∀ waiting, orphans_wf waiting n → block_hash block ∉ waiting → orphans_wf waiting n').
Proof.
  set (now := wall (clock_reads n)).
  set (n1 := prune_expired_orphans now (set_clock_reads (S (clock_reads n)) n)).
  assert (size (orphan_blocks n1) ≤ size (orphan_blocks n))%nat as Hs1.
  { apply (size_subseteq _ (orphan_blocks (set_clock_reads (S (clock_reads n)) n))),
      prune_orphans_subseteq. }
  assert (∀ w, orphans_wf w n → orphans_wf w n1) as Hw1.
  { intros w Hw. apply prune_orphans_wf. by apply (orphans_wf_same w n). }
  assert ((size (orphan_blocks n1) ≤ S (size (orphan_blocks n)))%nat ∧
    (∀ w, orphans_wf w n → block_hash block ∉ w → orphans_wf w n1)) as Hstop
    by (split; [lia|eauto]).
  unfold cache_orphan_block. rewrite SE_bind_unfold. cbn [current_unix_timestamp]. rewrite SE_bind_modify.
  fold now. fold n1. case_bool_decide; [by exists n1|]. rewrite SE_bind_get.
  destruct (orphan_is_too_far_ahead n1 block); [by exists n1|]. cbn zeta.
  destruct (fc_contains (fork_choice n1) (block_hash block)); [by exists n1|].
  case_bool_decide as Hnew; [by exists n1|].
  cbn [orb]. rewrite SE_bind_modify. set (n2 := evict_orphan n1).
  assert (∃ n3, queue_missing_parent_request (previous_hash block) n2 = (Ok tt, n3) ∧
    orphan_blocks n3 = orphan_blocks n2 ∧ ∀ w, orphans_wf w n2 → orphans_wf w n3) as (n3 & Hq & Hb3 & Hw3).
  { destruct (queue_request_run (previous_hash block) n2) as [->|(t & n' & Hsame & ->)];
      [by exists n2|]. eexists. split; [done|]. split.
    - rewrite (proj1 (queue_same_blocks _ _ _)). by injection Hsame.
    - intros w Hw. apply queue_wf. by apply (orphans_wf_same w n2). }
  rewrite SE_bind_unfold, Hq. rewrite SE_bind_modify. eexists. split; [done|]. split.
  - etrans; [apply (add_orphan_size block now n3)|]. rewrite Hb3.
    pose proof (size_subseteq _ _ (evict_subseteq n1)). unfold n2. lia.
  - intros w Hw Hnw. apply (add_orphan_wf w block now n3); [by apply Hw3, evict_wf, Hw1| | |done].
    + rewrite Hb3. apply evict_size, (ow_bound w), Hw1, Hw.
    + rewrite Hb3. destruct (orphan_blocks n2 !! block_hash block) eqn:E; [|done].
      destruct Hnew. eexists. eapply lookup_weaken; [exact E|apply evict_subseteq].
Qed.

(** ** Processing orphans *)

Lemma waiting_absent hash waiting n :
  orphan_blocks n !! hash = None → orphans_wf (hash :: waiting) n → orphans_wf waiting n.
Proof.
  intros Hno [Hb Hh Hi Hc Hq Hs Hr]. split; try done.
  - intros h o Ho. destruct (Hi _ _ Ho) as [[->|?]%elem_of_cons|?]; [|by left|by right].
    by rewrite Hno in Ho.
  - intros p cs Hcs. destruct (Hc _ _ Hcs) as (Hne & Hnd & Hch). split_and!; [done|done|].
    intros h Hin. destruct (Hch _ Hin) as [Hw Ho]. split; [set_solver|done].
Qed.

Lemma waiting_taken hash waiting n :
  orphans_wf (hash :: waiting) n →
  orphans_wf waiting (set_orphan_blocks (delete hash (orphan_blocks n)) n).
Proof.
  intros [Hb Hh Hi Hc Hq Hs Hr]. split; [| | | |exact Hq|exact Hs|exact Hr]; cbn.
  - pose proof (size_subseteq _ _ (delete_subseteq (orphan_blocks n) hash)). lia.
  - intros h o [_ Ho]%lookup_delete_Some. by apply Hh.
  - intros h o [Hne Ho]%lookup_delete_Some.
    destruct (Hi _ _ Ho) as [[->|?]%elem_of_cons|?]; [done|by left|by right].
  - intros p cs Hcs. destruct (Hc _ _ Hcs) as (Hne & Hnd & Hch). split_and!; [done|done|].
    intros h Hin. destruct (Hch _ Hin) as (Hw & o & Ho & Hp). split; [set_solver|].
    exists o. rewrite lookup_delete_ne by set_solver. done.
Qed.

(** A child that could not be applied is cached again or dropped. *)
Lemma rejected_child_run {A} (e : NodeError) child (k : N A) n : ∃ n',
  (match e with
   | EForkChoice MissingParent => cache_orphan_block child ;; k
   | _ => k
   end) n = k n' ∧
  (size (orphan_blocks n') ≤ S (size (orphan_blocks n)))%nat ∧
  (∀ waiting, orphans_wf waiting n → block_hash child ∉ waiting → orphans_wf waiting n').
Proof.
  destruct (cache_orphan_block_run child n) as (n' & E & Hs & Hw).
  assert (∃ n', k n = k n' ∧ (size (orphan_blocks n') ≤ S (size (orphan_blocks n)))%nat ∧
    (∀ waiting, orphans_wf waiting n → block_hash child ∉ waiting → orphans_wf waiting n')) as Hskip
    by (exists n; auto).
  destruct e as [| |[]| | | | | | |]; try exact Hskip.
  exists n'. split_and!; [by rewrite SE_bind_unfold, E|done..].
Qed.

Lemma process_children_run children : ∀ parents n, ∃ parents' n',
  process_children children parents n = (Ok parents', n') ∧
  (length parents' + size (orphan_blocks n') ≤ length parents + size (orphan_blocks n))%nat ∧
  (NoDup children → orphans_wf children n → orphans_wf [] n').
Proof.
  induction children as [|h children IH]; intros parents n; cbn [process_children].
  { exists parents, n. done. }
  rewrite SE_bind_get. destruct (orphan_blocks n !! h) as [o|] eqn:Ho; cycle 1.
  { destruct (IH parents n) as (parents' & n' & E & Hle & Hwf). exists parents', n'.
    split_and!; [done|done|]. intros [_ Hnd]%NoDup_cons Hn. by eapply Hwf, waiting_absent. }
  rewrite SE_bind_modify, SE_bind_attempt.
  set (n1 := set_orphan_blocks (delete h (orphan_blocks n)) n).
  pose proof (keeps_apply_known_parent_block orphans_of (orphan_block o) (λ _ _, eq_refl) n1) as Hsame.
  destruct (apply_known_parent_block (orphan_block o) n1) as [r n2]. cbn [fst snd] in *.
  assert (S (size (orphan_blocks n2)) = size (orphan_blocks n))%nat as Hsz.
  { injection Hsame as <- _ _ _ _. cbn. rewrite map_size_delete_Some by eauto.
    assert (size (orphan_blocks n) ≠ 0%nat); [|lia].
    intros E%map_size_empty_inv. by rewrite E, lookup_empty in Ho. }
  assert (orphans_wf (h :: children) n → orphans_wf children n2) as Hwf2.
  { intros Hn. eapply orphans_wf_same; [exact Hsame|]. by apply waiting_taken. }
  destruct r as [[]|e].
  - destruct (IH (h :: parents) n2) as (parents' & n' & E & Hle & Hwf). exists parents', n'.
    split_and!; [done|simpl in *; lia|]. intros [_ Hnd]%NoDup_cons Hn. auto.
  - destruct (rejected_child_run e (orphan_block o) (process_children children parents) n2)
      as (n3 & E3 & Hs3 & Hw3). rewrite E3.
    destruct (IH parents n3) as (parents' & n' & E & Hle & Hwf). exists parents', n'.
    split_and!; [done|lia|]. intros [Hnin Hnd]%NoDup_cons Hn. apply Hwf; [done|].
    apply Hw3; [auto|]. by rewrite (ow_hash _ _ Hn _ _ Ho).
Qed.

Lemma take_children_wf parent children n :
  orphans_wf [] n → orphan_children_by_parent n !! parent = Some children →
  orphans_wf children
    (set_orphan_children_by_parent (delete parent (orphan_children_by_parent n)) n).
Proof.
  intros [Hb Hh Hi Hc Hq Hs Hr] Hch. split; [exact Hb|exact Hh| | |exact Hq|exact Hs|exact Hr]; cbn.
  - intros h o Ho. destruct (Hi _ _ Ho) as [?|(cs & Hcs & Hin)]; [set_solver|].
    destruct (decide (parent = previous_hash (orphan_block o))) as [->|Hne].
    + left. congruence.
    + right. exists cs. by rewrite lookup_delete_ne.
  - intros p cs [Hne Hcs]%lookup_delete_Some. destruct (Hc _ _ Hcs) as (Hn & Hnd & Hc').
    split_and!; [done|done|]. intros h Hin. destruct (Hc' _ Hin) as (_ & o & Ho & Hp).
    split; [|eauto]. intros Hin'. destruct (Hc _ _ Hch) as (_ & _ & Hc2).
    destruct (Hc2 _ Hin') as (_ & o' & Ho' & Hp'). congruence.
Qed.

Lemma process_loop_run fuel : ∀ parents n,
  (length parents + size (orphan_blocks n) ≤ fuel)%nat → ∃ n',
  process_loop fuel parents n = (Ok true, n') ∧ (orphans_wf [] n → orphans_wf [] n').
Proof.
  induction fuel as [|fuel IH]; intros [|parent parents] n Hle; simpl in Hle;
    [by exists n|lia|by exists n|].
  cbn [process_loop]. rewrite SE_bind_get.
  destruct (orphan_children_by_parent n !! parent) as [children|] eqn:Hch; [|apply IH; lia].
  rewrite SE_bind_modify.
  set (n1 := set_orphan_children_by_parent (delete parent (orphan_children_by_parent n)) n).
  destruct (process_children_run children parents n1) as (parents' & n2 & E & Hle2 & Hwf2).
  rewrite SE_bind_unfold, E.
  destruct (IH parents' n2) as (n' & E' & Hwf'); [change (orphan_blocks n1) with (orphan_blocks n) in Hle2; lia|].
  exists n'. split; [done|]. intros Hn. apply Hwf', Hwf2; [by apply (ow_children _ _ Hn _ _ Hch)|].
  by apply take_children_wf.
Qed.

Lemma cache_orphan_core block : keeps same_core (cache_orphan_block block).
Proof.
  unfold cache_orphan_block. apply keeps_bind; [apply _|by intros n|intros now].
  apply keeps_bind; [apply _|apply keeps_modify, prune_orphans_core|intros _].
  case_match; [apply keeps_ret, _|].
  apply keeps_bind; [apply _|apply keeps_get, _|intros n].
  case_match; [apply keeps_ret, _|]. case_match; [apply keeps_ret, _|].
  apply keeps_bind; [apply _|apply keeps_modify|intros _].
  { intros m. unfold evict_orphan. repeat case_match; done. }
  apply keeps_bind; [apply _| |intros _].
  { intros m. destruct (queue_request_run (previous_hash block) m) as [->|(t & m' & _ & E)]; [done|].
    unfold queue_missing_parent_request in *. rewrite SE_bind_get. case_match; [done|].
    rewrite SE_bind_unfold. cbn [current_unix_timestamp].
    cbn. unfold queue_missing_parent_request_at. repeat case_match; done. }
  apply keeps_bind; [apply _|by apply keeps_modify|intros _]. by apply keeps_modify.
Qed.

Lemma drain_loop_core now queue : ∀ n, same_core n (drain_loop now queue n).2.
Proof.
  induction queue as [|h queue IH]; intros n; cbn [drain_loop]; [done|]. case_bool_decide.
  - match goal with |- context [drain_loop now queue ?m] => pose proof (IH m) as Hm end.
    destruct (drain_loop now queue _) as [[ready pending] n2]. exact Hm.
  - pose proof (IH n) as Hm. destruct (drain_loop now queue n) as [[ready pending] n2]. exact Hm.
Qed.

(** Requests for missing parents change none of the data of the chain. *)
Lemma drain_core n : same_core n (drain_missing_parent_requests n).2.
Proof.
  unfold drain_missing_parent_requests. rewrite SE_bind_unfold.
  cbn [current_unix_timestamp]. unfold infallible, drain_missing_parent_requests_at.
  pose proof (drain_loop_core (wall (clock_reads n))
    (missing_parent_requests (set_clock_reads (S (clock_reads n)) n))
    (set_clock_reads (S (clock_reads n)) n)) as Hd.
  destruct (drain_loop _ _ _) as [[ready pending] m]. exact Hd.
Qed.

Lemma retry_core hash n : same_core n (retry_missing_parent_request hash n).2.
Proof.
  unfold retry_missing_parent_request. rewrite SE_bind_unfold. cbn [current_unix_timestamp]. cbn.
  unfold queue_missing_parent_request_at. repeat case_match; done.
Qed.

(** ** Block processing keeps a relation

    A relation that ignores the orphan code and the clock is kept by
    [apply_block] if applying one block keeps it. *)

Section processing.
Context (R : Node → Node → Prop) `{!PreOrder R}.
Context (Hcore : ∀ n n', same_core n n' → R n n').
Context (Hknown : ∀ block, keeps R (apply_known_parent_block block)).

Lemma core_keeps {A} (m : N A) : keeps same_core m → keeps R m.
Proof. intros Hm n. apply Hcore, Hm. Qed.

Lemma process_children_keeps children : ∀ parents, keeps R (process_children children parents).
Proof.
  induction children as [|h children IH]; intros parents; cbn [process_children]; [apply keeps_ret, _|].
  apply keeps_bind; [apply _|apply keeps_get, _|intros n]. case_match; [|apply IH].
  apply keeps_bind; [apply _|by apply core_keeps, keeps_modify|intros _].
  apply keeps_bind; [apply _|apply keeps_attempt, Hknown|intros r].
  assert (∀ block, keeps R (cache_orphan_block block ;; process_children children parents)) as Hcache.
  { intros block. apply keeps_bind; [apply _|apply core_keeps, cache_orphan_core|intros _; apply IH]. }
  repeat case_match; solve [apply IH|apply Hcache].
Qed.

Lemma process_loop_keeps fuel : ∀ parents, keeps R (process_loop fuel parents).
Proof.
  induction fuel as [|fuel IH]; intros [|parent parents]; cbn [process_loop]; try apply keeps_ret, _.
  apply keeps_bind; [apply _|apply keeps_get, _|intros n]. case_match; [|apply IH].
  apply keeps_bind; [apply _|by apply core_keeps, keeps_modify|intros _].
  apply keeps_bind; [apply _|apply process_children_keeps|intros parents1]. apply IH.
Qed.

Lemma apply_block_keeps block : keeps R (apply_block block).
Proof.
  assert (keeps R (current_unix_timestamp : N _)) as Hnow by (by apply core_keeps; intros n).
  assert (∀ t, keeps R (modify (prune_expired_orphans t) : N ())) as Hprune
    by (intros t; apply core_keeps, keeps_modify, prune_orphans_core).
  unfold apply_block. apply keeps_bind; [apply _|apply Hnow|intros now].
  apply keeps_bind; [apply _|apply Hprune|intros _].
  apply keeps_bind; [apply _|apply keeps_attempt, Hknown|intros r]. destruct r as [[]|e].
  - unfold process_orphans_for_parent. apply keeps_bind; [apply _|apply Hnow|intros now'].
    apply keeps_bind; [apply _|apply Hprune|intros _].
    apply keeps_bind; [apply _|apply keeps_get, _|intros n].
    apply keeps_bind; [apply _|apply process_loop_keeps|intros _]. apply keeps_ret, _.
  - repeat case_match; first [apply core_keeps, cache_orphan_core|apply keeps_ret, _|apply keeps_throw, _].
Qed.

(** The difficulty of the next block is read from the database. *)
Lemma next_difficulty_keeps :
  (∀ A (m : SE Store StorageError A), keeps same_tables m → keeps R (on_storage m)) →
  keeps R next_difficulty.
Proof.
  intros Hread. unfold next_difficulty. apply keeps_bind; [apply _|apply keeps_get, _|intros n].
  case_match; [|apply keeps_ret, _]. unfold next_difficulty_after_tip.
  apply keeps_bind; [apply _|apply keeps_get, _|intros n'].
  apply keeps_bind; [apply _|apply Hread, keeps_difficulty_window|intros w].
  repeat case_match; first [apply keeps_ret, _|apply keeps_lift, _].
Qed.

End processing.

End facts.

Abbreviation same_orphans := (same orphans_of).
Abbreviation same_core := (same core_of).

End NodeFacts.
