(* ===== verification/NodeProps.v ===== *)
(** * NodeProps: what the node guarantees about blocks, orphans and requests *)

From S2P Require Import Prelude Collections Core Demo Mempool Miner Cache Bytes Storage StorageFacts.
From S2P Require Import StorageDemo Node NodeFacts.

Module NodeProps.
Import Storage Node NodeFacts.

(** What the node relies on of [ForkChoice]: an insertion that succeeds
    returns the hash of the block, which is then known, and forgets no block;
    one that fails changes nothing. *)
Class ForkChoiceLaws `{Paqus} : Prop := {
  fc_insert_Ok b f h f' : fc_insert_block b f = (Ok h, f') →
    h = block_hash b ∧ fc_contains f' h = true ∧ ∀ x, fc_contains f x = true → fc_contains f' x = true;
  fc_insert_Err b f e f' : fc_insert_block b f = (Err e, f') → f' = f;
}.

Section steps.
Context `{Paqus, Kv, Lmdb, Clock, !Codecs}.
Implicit Types n : Node.

(** The public methods that change a running node. *)
Inductive node_step : Node → Node → Prop :=
  | step_apply block n : node_step n (apply_block block n).2
  | step_submit tx n : node_step n (submit_transaction tx n).2
  | step_mine miner timestamp max_attempts limit n :
      node_step n (mine_block miner timestamp max_attempts limit n).2
  | step_drain n : node_step n (drain_missing_parent_requests n).2
  | step_retry hash n : node_step n (retry_missing_parent_request hash n).2
  | step_flush n : node_step n (flush_to_storage n).2.

Lemma preserves_same (m : N ()) : keeps same_orphans m → preserves (orphans_wf []) m.
Proof. intros Hm n Hn. eapply orphans_wf_same; [apply Hm|done]. Qed.

Lemma tick_wf waiting k n : orphans_wf waiting n → orphans_wf waiting (set_clock_reads k n).
Proof. by apply (orphans_wf_same waiting n). Qed.

Lemma process_orphans_wf hash : preserves (orphans_wf []) (process_orphans_for_parent hash).
Proof.
  intros n Hn. unfold process_orphans_for_parent. rewrite SE_bind_unfold.
  cbn [current_unix_timestamp]. rewrite SE_bind_modify, SE_bind_get.
  set (n1 := prune_expired_orphans _ _).
  destruct (process_loop_run (process_fuel n1) [hash] n1) as (n' & E & Hwf); [simpl; unfold process_fuel; lia|].
  rewrite SE_bind_unfold, E. apply Hwf, prune_orphans_wf. by apply tick_wf.
Qed.

Lemma apply_block_wf block : preserves (orphans_wf []) (apply_block block).
Proof.
  intros n Hn. unfold apply_block. rewrite SE_bind_unfold.
  cbn [current_unix_timestamp]. rewrite SE_bind_modify, SE_bind_attempt.
  set (n1 := prune_expired_orphans _ _).
  assert (orphans_wf [] n1) as Hn1 by (apply prune_orphans_wf; by apply tick_wf).
  pose proof (keeps_apply_known_parent_block orphans_of block (λ _ _, eq_refl) n1) as Hsame.
  destruct (apply_known_parent_block block n1) as [r n2]. cbn [fst snd] in *.
  assert (orphans_wf [] n2) as Hn2 by (eapply orphans_wf_same; [exact Hsame|done]).
  destruct r as [[]|e]; [by apply process_orphans_wf|].
  destruct (cache_orphan_block_run block n2) as (n3 & E3 & _ & Hw3).
  destruct e as [| |[]|[]| | | | | |]; try exact Hn2.
  rewrite E3. apply Hw3; [done|set_solver].
Qed.

Lemma mine_block_wf miner timestamp max_attempts limit :
  preserves (orphans_wf []) (mine_block miner timestamp max_attempts limit).
Proof.
  unfold mine_block. apply keeps_bind; [apply _| |intros _].
  { apply keeps_modify. intros n Hn. by apply (orphans_wf_same [] n). }
  apply keeps_bind; [apply _| |intros difficulty].
  { intros n. unfold next_difficulty, next_difficulty_after_tip. rewrite SE_bind_get.
    destruct (tip_height (ledger n)) as [tip|]; [|done]. rewrite SE_bind_get.
    apply (orphans_wf_same [] n), keeps_bind; [apply _|apply (keeps_on_storage orphans_of)|].
    intros [[[[]]]|]; [apply keeps_lift|apply keeps_ret]; apply _. }
  apply keeps_bind; [apply _|apply keeps_get, _|intros n].
  apply keeps_bind; [apply _|apply keeps_lift, _|intros mined].
  apply keeps_bind; [apply _|apply keeps_lift, _|intros result].
  apply keeps_bind; [apply _|apply apply_block_wf|intros _]. apply keeps_ret, _.
Qed.

(** *** Draining the request queue *)

(** Due now, reading an absent time as 0. *)
Definition due (now : Timestamp) n (h : BlockHash) : Prop :=
  default 0 (missing_parent_retry_at n !! h) ≤ now.

#[export] Instance due_dec now n h : Decision (due now n h) := Z_le_dec _ _.

Lemma drain_loop_run now queue : ∀ n, NoDup queue → ∃ n',
  drain_loop now queue n = (filter (due now n) queue, filter (λ h, ¬ due now n h) queue, n') ∧
  orphan_blocks n' = orphan_blocks n ∧ orphan_children_by_parent n' = orphan_children_by_parent n ∧
  (∀ h, h ∈ missing_parent_request_set n' ↔
    h ∈ missing_parent_request_set n ∧ ¬ (h ∈ queue ∧ due now n h)) ∧
  (∀ h t, missing_parent_retry_at n' !! h = Some t ↔
    missing_parent_retry_at n !! h = Some t ∧ ¬ (h ∈ queue ∧ due now n h)).
Proof.
  induction queue as [|q queue IH]; intros n Hnd; cbn [drain_loop].
  { exists n. split_and!; [done..| |]; set_solver. }
  apply NoDup_cons in Hnd as [Hq Hnd]. rewrite !filter_cons.
  case_bool_decide as Hdue; fold (due now n q) in Hdue.
  - rewrite (decide_True (P := due now n q)), (decide_False (P := ¬ due now n q)) by auto.
    match goal with |- context [drain_loop now queue ?m] => set (n1 := m) end.
    assert (∀ h, h ∈ queue → due now n1 h ↔ due now n h) as Hext.
    { intros h Hh. unfold due. subst n1. cbn. rewrite lookup_delete_ne by set_solver. done. }
    destruct (IH n1 Hnd) as (n' & -> & Hb & Hc & Hs & Hr). exists n'. split_and!; [|done|done| |].
    + rewrite (list_filter_iff_on (due now n1) (due now n)) by done.
      by rewrite (list_filter_iff_on (λ h, ¬ due now n1 h) (λ h, ¬ due now n h))
        by (intros h Hh; by rewrite Hext).
    + intros h. rewrite Hs. subst n1. cbn. rewrite elem_of_difference, elem_of_singleton, elem_of_cons.
      destruct (decide (h ∈ queue)); [rewrite <-Hext by done|]; naive_solver.
    + intros h t. rewrite Hr. subst n1. cbn. rewrite lookup_delete_Some, elem_of_cons.
      destruct (decide (h ∈ queue)); [rewrite <-Hext by done|]; naive_solver.
  - rewrite (decide_False (P := due now n q)), (decide_True (P := ¬ due now n q)) by auto.
    destruct (IH n Hnd) as (n' & -> & Hb & Hc & Hs & Hr). exists n'. split_and!; [done..| |].
    + intros h. rewrite Hs, elem_of_cons. naive_solver.
    + intros h t. rewrite Hr, elem_of_cons. naive_solver.
Qed.

Lemma drain_at_wf now n : orphans_wf [] n → orphans_wf [] (drain_missing_parent_requests_at now n).2.
Proof.
  intros Hn. pose proof Hn as [Hb Hh Hi Hc Hq Hs Hr]. unfold drain_missing_parent_requests_at.
  destruct (drain_loop_run now _ n Hq) as (n' & -> & Eb & Ec & Es & Er).
  split; cbn; rewrite ?Eb, ?Ec; try done.
  - by apply NoDup_filter.
  - intros h. rewrite Es, Hs, list_elem_of_filter. destruct (decide (due now n h)); naive_solver.
  - intros h. rewrite list_elem_of_filter, <-Hr. split.
    + intros [t [Ht Hno]%Er]. split; [intros Hd; apply Hno; split; [apply Hr|]; eauto|eauto].
    + intros [Hnd [t Ht]]. exists t. apply Er. split; [done|]. by intros [_ ?].
Qed.

Lemma node_step_wf n n' : node_step n n' → orphans_wf [] n → orphans_wf [] n'.
Proof.
  destruct 1 as [block n|tx n|miner timestamp ma limit n|n|hash n|n]; intros Hn.
  - by apply apply_block_wf.
  - eapply orphans_wf_same; [|exact Hn].
    unfold submit_transaction. do 3 (apply keeps_bind; [apply _| |intros ?];
      [first [apply (keeps_clock orphans_of)|apply keeps_get, _]|]).
    apply (keeps_on_mempool orphans_of).
  - by apply mine_block_wf.
  - unfold drain_missing_parent_requests. rewrite SE_bind_unfold. cbn [current_unix_timestamp].
    unfold infallible. pose proof (drain_at_wf (wall (clock_reads n)) _ (tick_wf [] (S (clock_reads n)) n Hn)) as Hd.
    by destruct (drain_missing_parent_requests_at _ _).
  - unfold retry_missing_parent_request. rewrite SE_bind_unfold. cbn [current_unix_timestamp].
    apply queue_wf. by apply tick_wf.
  - unfold flush_to_storage. rewrite SE_bind_get. eapply orphans_wf_same; [|exact Hn].
    apply (keeps_on_storage orphans_of).
Qed.

Lemma process_orphans_total hash n : ∃ n', process_orphans_for_parent hash n = (Ok tt, n').
Proof.
  unfold process_orphans_for_parent. rewrite SE_bind_unfold. cbn [current_unix_timestamp].
  rewrite SE_bind_modify, SE_bind_get. set (n1 := prune_expired_orphans _ _).
  destruct (process_loop_run (process_fuel n1) [hash] n1) as (n' & E & _);
    [simpl; unfold process_fuel; lia|]. rewrite SE_bind_unfold, E. by exists n'.
Qed.

(** *** Rejected blocks *)

(** The block has passed every test of the header, the proof of work, the
    difficulty and the checkpoints, at an instant of the clock, and its state was
    tried on the ledger of its parent. *)
Definition admissible n (block : Block) : Prop :=
  (∃ k, validate_at (wall k) n block = Ok tt) ∧ validate_block_state_for_known_parent n block = Ok tt.

(** What a block that is rejected with the error [e] leaves behind. *)
Inductive rejected n (block : Block) (e : NodeError) n' : Prop :=
  | rejected_unchanged : same_core n n' → rejected n block e n'
  | rejected_side_unsaved s f :
      e = EStorage s → admissible n block →
      fc_insert_block block (fork_choice n) = (Ok (block_hash block), f) →
      fn_hash <$> fc_best_tip f ≠ Some (block_hash block) →
      same_core (set_fork_choice f n) (set_storage (storage n) n') → rejected n block e n'
  | rejected_tip_unsaved s :
      e = EStorage s → admissible n block → extends_active_tip n block = true →
      fc_insert_block block (fork_choice n) = (Ok (block_hash block), fork_choice n') →
      ledger_apply_block block (ledger n) = (Ok tt, ledger n') → rejected n block e n'
  | rejected_branch_unsaved s best :
      e = EStorage s → admissible n block → extends_active_tip n block = false →
      fc_insert_block block (fork_choice n) = (Ok (block_hash block), fork_choice n') →
      fc_best_tip (fork_choice n') = Some best → fn_hash best = block_hash block →
      ledger_for_branch_tip (set_fork_choice (fork_choice n') n) (fn_hash best) = Ok (ledger n') →
      rejected n block e n'
  | rejected_switch f :
      admissible n block → extends_active_tip n block = false →
      fc_insert_block block (fork_choice n) = (Ok (block_hash block), f) →
      fn_hash <$> fc_best_tip f = Some (block_hash block) →
      same_core (set_fork_choice f n) n' → rejected n block e n'.

(** The tests and the switch read the core of the node only. *)
Lemma rejected_core n n1 block e n' : same_core n n1 → rejected n1 block e n' → rejected n block e n'.
Proof.
  destruct n, n1. intros [=]. subst. intros [Hn|s f He Ha Hf Hb Hn|s He Ha Hx Hf Hl|s best He Ha Hx Hf Hb Hh Hl|f Ha Hx Hf Hb Hn].
  - by apply rejected_unchanged.
  - by eapply rejected_side_unsaved.
  - by eapply rejected_tip_unsaved.
  - by eapply rejected_branch_unsaved.
  - by eapply rejected_switch.
Qed.

Lemma for_each_total {A} (f : A → N ()) l :
  (∀ x n, ∃ n', f x n = (Ok tt, n')) → ∀ n, ∃ n', for_each f l n = (Ok tt, n').
Proof.
  intros Hf. induction l as [|x l IH]; intros n; cbn [for_each]; [by exists n|].
  rewrite SE_bind_unfold. destruct (Hf x n) as [n1 ->]. apply IH.
Qed.

Lemma reinsert_total tx n : ∃ n', reinsert tx n = (Ok tt, n').
Proof.
  cbv [reinsert mbind SE_bind current_unix_timestamp get_state attempt].
  destruct (on_mempool _ _) as [r n']. by exists n'.
Qed.

(** A switch of branch that fails has changed nothing, or the ledger of the best
    branch could not be saved. *)
Lemma reorg_Err n e n' : reorg_to_best_tip n = (Err e, n') →
  n' = n ∨ ∃ s best, e = EStorage s ∧ fc_best_tip (fork_choice n) = Some best ∧
    ledger_for_branch_tip n (fn_hash best) = Ok (ledger n') ∧ fork_choice n' = fork_choice n.
Proof.
  intros Hr. pose proof (keeps_reorg fork_choice n) as Hk. rewrite Hr in Hk. cbn in Hk.
  revert Hr. unfold reorg_to_best_tip. rewrite SE_bind_get. case_bool_decide; [by intros [= _ <-]; left|].
  cbn zeta. rewrite SE_bind_lift.
  destruct (fc_best_tip (fork_choice n)) as [best|]; cbn [ok_or]; [|by intros [= _ <-]; left].
  rewrite SE_bind_lift. destruct (common_ancestor n _ _) as [ancestor|]; cbn [ok_or]; [|by intros [= _ <-]; left].
  rewrite SE_bind_lift. destruct (fc_branch_from_ancestor _ _ _) as [branch|]; cbn [ok_or];
    [|by intros [= _ <-]; left].
  rewrite SE_bind_lift. destruct (ledger_for_branch_tip n (fn_hash best)) as [l|] eqn:El;
    [|by intros [= _ <-]; left].
  rewrite !SE_bind_modify, SE_bind_unfold. set (n1 := set_cache _ (set_ledger l n)).
  pose proof (keeps_zoom (same ledger) storage set_storage EStorage (save_ledger l) (λ _ _, eq_refl) n1) as Hl.
  destruct (on_storage (save_ledger l) n1) as [[[]|e1] n2] eqn:E.
  - match goal with |- for_each ?f ?bs n2 = _ → _ => destruct (for_each_total f bs) with n2 as [n3 ->]; [|done] end.
    intros b n3. case_bool_decide; [by exists n3|]. apply for_each_total, reinsert_total.
  - intros [= -> ->]. right. pose proof (on_storage_Err _ _ _ _ E) as [s ->].
    exists s, best. split_and!; [done|done| |done]. unfold on_storage in E. rewrite E in Hl.
    rewrite El. exact (f_equal Ok Hl).
Qed.

Lemma apply_known_Err `{!ForkChoiceLaws} block n e n' :
  apply_known_parent_block block n = (Err e, n') → rejected n block e n'.
Proof.
  unfold apply_known_parent_block, validate_block_for_known_parent. rewrite SE_bind_unfold.
  rewrite SE_bind_unfold. cbn [current_unix_timestamp]. rewrite SE_bind_get.
  set (n1 := set_clock_reads _ n). unfold lift at 1. intros Hr. apply (rejected_core n n1); [done|].
  revert Hr. destruct (validate_at _ n1 block) as [[]|] eqn:Hat; [|by intros [= <- <-]; apply rejected_unchanged].
  rewrite SE_bind_get, SE_bind_lift.
  destruct (validate_block_state_for_known_parent n1 block) as [[]|] eqn:Hv;
    [|by intros [= <- <-]; apply rejected_unchanged].
  assert (admissible n1 block) as Hadm by (split; [by eexists|done]).
  rewrite SE_bind_unfold. unfold on_fork_choice at 1. unfold zoom at 1.
  destruct (fc_insert_block block (fork_choice n1)) as [[hash|e1] f] eqn:Ef; cycle 1.
  { apply fc_insert_Err in Ef as ->. rewrite set_fork_choice_same. cbn. by intros [= <- <-]; apply rejected_unchanged. }
  pose proof (fc_insert_Ok _ _ _ _ Ef) as (-> & _ & _). cbn [map_err]. rewrite SE_bind_get. cbn zeta.
  set (n2 := set_fork_choice f n1). intros Hr. case_bool_decide as Hbest.
  { pose proof (on_storage_Err _ _ _ _ Hr) as [s ->].
    eapply rejected_side_unsaved; [done..|]. unfold on_storage, zoom in Hr.
    destruct (save_side_block block _) as [r st]. by injection Hr as _ <-. }
  destruct (extends_active_tip n2 block) eqn:Hext; cbn [negb] in Hr; cycle 1.
  { apply reorg_Err in Hr as [->|(s & best & -> & Hb & Hl & Hf)]; [by eapply rejected_switch|].
    change (fork_choice n2) with f in Hb, Hf, Hbest. rewrite Hb in Hbest. injection Hbest as Hbest.
    eapply rejected_branch_unsaved; rewrite ?Hf; done. }
  destruct (validated_block_applies n1 block Hv Hext) as [l Hl].
  rewrite SE_bind_unfold in Hr. unfold on_ledger, zoom in Hr.
  change (ledger n2) with (ledger n1) in Hr. rewrite Hl in Hr. cbn [map_err] in Hr.
  rewrite !SE_bind_modify, SE_bind_get in Hr. pose proof (on_storage_Err _ _ _ _ Hr) as [s ->].
  unfold on_storage, zoom in Hr. destruct (save_ledger _ _) as [r st]. injection Hr as _ <-.
  by eapply rejected_tip_unsaved.
Qed.

Lemma new_node_wf l st c genesis clock n :
  with_genesis_accounts l st c genesis clock = Some n → orphans_wf [] n.
Proof.
  unfold with_genesis_accounts. intros (f & _ & [= <-])%bind_Some.
  split; cbn; try (intros ? ? Hx; by rewrite lookup_empty in Hx).
  - rewrite map_size_empty. unfold MAX_ORPHAN_BLOCKS. lia.
  - constructor.
  - set_solver.
  - intros h. rewrite lookup_empty, elem_of_nil. split; [by intros [? ?]|done].
Qed.

(** ** Claims *)

(** C9: whatever blocks arrive in whatever order, a running node holds at most
    1024 orphans, each filed once under its parent and under its own hash; the
    index lists no block that is not held; and the queue of missing parents
    has no repetitions and agrees with the request set and the retry times. *)
Theorem orphan_pool_invariant l st c genesis clock n n' :
  with_genesis_accounts l st c genesis clock = Some n → rtc node_step n n' → orphans_wf [] n'.
Proof.
  intros Hnew%new_node_wf Hsteps.
  induction Hsteps as [|n1 n2 n3 Hstep _ IH]; [done|]. by eapply IH, node_step_wf.
Qed.

(** C23: the loop that applies the orphans of a new block ends: one pass per
    orphan and one for the block itself empty its stack, whatever the blocks
    do. *)
Theorem orphan_loop_terminates n parent :
  ∃ n', process_loop (process_fuel n) [parent] n = (Ok true, n').
Proof.
  destruct (process_loop_run (process_fuel n) [parent] n) as (n' & E & _); [|by exists n'].
  simpl. unfold process_fuel. lia.
Qed.


(** Draining the requests for missing parents returns exactly the queued
    hashes whose retry time has come, in the order they were queued; the others
    stay queued, and a second drain at the same time returns nothing. *)
Theorem drain_exact now n :
  orphans_wf [] n →
  let '(ready, n') := drain_missing_parent_requests_at now n in
  ready = filter (due now n) (missing_parent_requests n) ∧
  missing_parent_requests n' = filter (λ h, ¬ due now n h) (missing_parent_requests n) ∧
  (∀ h, h ∈ ready → h ∉ missing_parent_request_set n' ∧ missing_parent_retry_at n' !! h = None) ∧
  (drain_missing_parent_requests_at now n').1 = [] ∧ orphans_wf [] n'.
Proof.
  intros Hn. pose proof (drain_at_wf now n Hn) as Hn'. unfold drain_missing_parent_requests_at in *.
  destruct (drain_loop_run now _ n (ow_queue _ _ Hn)) as (m & E & Eb & Ec & Es & Er).
  rewrite E in *. cbn [fst snd] in *. split_and!; [done|done| | |done].
  - intros h [Hd Hin]%list_elem_of_filter. split; [|].
    + cbn. rewrite Es. naive_solver.
    + cbn. destruct (missing_parent_retry_at m !! h) eqn:Ht; [|done]. apply Er in Ht. naive_solver.
  - cbn. set (n1 := set_missing_parent_requests _ m) in *.
    destruct (drain_loop_run now _ n1 (ow_queue _ _ Hn')) as (m' & E' & _).
    change (missing_parent_requests n1) with
      (filter (λ h, ¬ due now n h) (missing_parent_requests n)) in E'.
    rewrite E'. cbn. apply filter_none, Forall_forall. intros h [Hnd Hin]%list_elem_of_filter.
    unfold due. subst n1. cbn.
    apply (ow_retry _ _ Hn) in Hin as [t Ht]. unfold due in Hnd. rewrite Ht in Hnd.
    assert (missing_parent_retry_at m !! h = Some t) as ->; [|done].
    apply Er. split; [done|]. intros [_ Hd]. unfold due in Hd. by rewrite Ht in Hd.
Qed.

(** The pending balance of an address sums the amounts of the pending
    transactions to it, and the amounts and fees of those from it, each capped
    at the largest 32-bit amount. *)
Theorem pending_balance_sums n a :
  Forall (λ tx, 0 ≤ tx_amount tx ∧ 0 ≤ tx_fee tx) (Mempool.pending (mempool n)) →
  let pending := Mempool.pending (mempool n) in
  pending_balance n a = mkPending
    (Z.min u32_max (sumZ (tx_amount <$> filter (λ tx, tx_to tx = a) pending)))
    (Z.min u32_max (sumZ ((λ tx, tx_amount tx + tx_fee tx) <$> filter (λ tx, tx_from tx = a) pending))).
Proof.
  cbn zeta. unfold pending_balance. generalize (Mempool.pending (mempool n)). intros l Hl.
  induction l as [|tx l IH] using rev_ind; [done|].
  apply Forall_app in Hl as [Hl Htx]. apply Forall_cons in Htx as [Htx _]. cbn in Htx.
  rewrite foldl_snoc, IH by done.
  rewrite !filter_app, !filter_cons, !filter_nil. unfold add_pending.
  assert (0 ≤ sumZ (tx_amount <$> filter (λ tx, tx_to tx = a) l)) as H1'.
  { apply sumZ_nonneg, Forall_fmap, Forall_forall. intros x [_ Hx]%list_elem_of_filter.
    rewrite Forall_forall in Hl. apply Hl in Hx. cbn. lia. }
  assert (0 ≤ sumZ ((λ tx, tx_amount tx + tx_fee tx) <$> filter (λ tx, tx_from tx = a) l)) as H2'.
  { apply sumZ_nonneg, Forall_fmap, Forall_forall. intros x [_ Hx]%list_elem_of_filter.
    rewrite Forall_forall in Hl. apply Hl in Hx. cbn. lia. }
  assert (0 ≤ u32_max) by done. repeat case_bool_decide; repeat case_decide; try done;
    rewrite ?fmap_app, ?sumZ_app; cbn; unfold sat_add; f_equal; lia.
Qed.

End steps.

End NodeProps.
