(* ===== verification/NodeIndex.v ===== *)
(** * NodeIndex: indexing the stored blocks at start-up

    [index_stored_blocks] passes over the stored blocks until a pass makes no
    progress.  It ends, and what it leaves out has no known parent. *)

From S2P Require Import Prelude Collections Core Demo Mempool Miner Cache Bytes Storage StorageFacts.
From S2P Require Import StorageReads StorageDemo Node NodeFacts NodeProps.

Module NodeIndex.
Import Storage Node NodeFacts NodeProps.

Section index.
Context `{Paqus, Kv, Lmdb, Clock, !Codecs, !ForkChoiceLaws}.
Implicit Types n : Node.

(** The block is indexed, or its parent is unknown. *)
Definition known n (block : Block) : Prop := fc_contains (fork_choice n) (block_hash block) = true.
Definition parentless n (block : Block) : Prop :=
  (fc_insert_block block (fork_choice n)).1 = Err MissingParent.

(** A block of the list stopped the indexing: a fork choice that holds at least
    the blocks indexed before, but not this one, refused it although its parent
    is known. *)
Definition refused (blocks : list Block) n (e : NodeError) : Prop :=
  ∃ block f g e', block ∈ blocks ∧
    (∀ x, fc_contains (fork_choice n) x = true → fc_contains f x = true) ∧
    fc_contains f (block_hash block) = false ∧
    fc_insert_block block f = (Err e', g) ∧ e' ≠ MissingParent ∧ e = EForkChoice e'.

Lemma refused_later blocks blocks' n n' e : blocks ⊆ blocks' →
  (∀ x, fc_contains (fork_choice n') x = true → fc_contains (fork_choice n) x = true) →
  refused blocks n e → refused blocks' n' e.
Proof.
  intros Hsub Hmono (block & f & g & e' & Hb & Hf & Hr). exists block, f, g, e'. split; [by apply Hsub|].
  split; [eauto|done].
Qed.

Lemma refused_fork blocks n e : refused blocks n e → ∃ e', e = EForkChoice e' ∧ e' ≠ MissingParent.
Proof. intros (block & f & g & e' & _ & _ & _ & _ & Hne & He). by exists e'. Qed.

(** The outcome of one pass. *)
Record pass_spec (blocks : list Block) n (progressed : bool) (rest : list Block) n' : Prop := {
  pass_sublist : rest `sublist_of` blocks;
  pass_progress : progressed = true → (length rest < length blocks)%nat;
  pass_stuck : progressed = false →
    rest = blocks ∧ n' = n ∧ Forall (parentless n) blocks;
  pass_kept x : fc_contains (fork_choice n) x = true → fc_contains (fork_choice n') x = true;
  pass_known block : block ∈ blocks → block ∈ rest ∨ known n' block;
}.

Lemma pass_drop block blocks n n1 progressed rest n' :
  known n1 block → (∀ x, fc_contains (fork_choice n) x = true → fc_contains (fork_choice n1) x = true) →
  pass_spec blocks n1 progressed rest n' → pass_spec (block :: blocks) n true rest n'.
Proof.
  intros Hk Hmono [Hsub Hprog Hstuck Hkept Hknown]. split.
  - by apply sublist_cons.
  - intros _. apply sublist_length in Hsub. simpl. lia.
  - done.
  - eauto.
  - intros x [->|Hx]%elem_of_cons; [right; by apply Hkept|eauto].
Qed.

Lemma index_pass_run blocks : ∀ n,
  match index_pass blocks n with
  | (Ok (progressed, rest), n') => pass_spec blocks n progressed rest n'
  | (Err e, _) => refused blocks n e
  end.
Proof.
  induction blocks as [|block blocks IH]; intros n; cbn [index_pass].
  { split; [constructor|done| |auto|set_solver]. intros _. split_and!; [done|done|constructor]. }
  rewrite SE_bind_get. destruct (fc_contains (fork_choice n) (block_hash block)) eqn:Hc.
  { rewrite SE_bind_unfold. specialize (IH n). destruct (index_pass blocks n) as [[[p rest]|] n'].
    2: { eapply refused_later; [| |exact IH]; [set_solver|done]. }
    by eapply pass_drop. }
  rewrite SE_bind_attempt. unfold on_fork_choice, zoom.
  destruct (fc_insert_block block (fork_choice n)) as [[h|e] f] eqn:Ef; cbn [fst snd map_err].
  - apply fc_insert_Ok in Ef as (-> & Hin & Hmono). set (n1 := set_fork_choice f n).
    rewrite SE_bind_unfold. specialize (IH n1). destruct (index_pass blocks n1) as [[[p rest]|] n'].
    2: { eapply refused_later; [| |exact IH]; [set_solver|exact Hmono]. }
    by apply (pass_drop block blocks n n1 p).
  - assert (parentless n block ↔ e = MissingParent) as Hpl
      by (unfold parentless; rewrite Ef; cbn; naive_solver).
    pose proof Ef as Er. apply fc_insert_Err in Ef as ->. rewrite set_fork_choice_same.
    destruct (decide (e = MissingParent)) as [->|Hne]; cycle 1.
    { assert (refused (block :: blocks) n (EForkChoice e)) as Hr.
      { exists block, (fork_choice n), (fork_choice n), e. split_and!; [by left|done..]. }
      by destruct e. }
    rewrite SE_bind_unfold. specialize (IH n).
    destruct (index_pass blocks n) as [[[p rest]|] n'].
    2: { eapply refused_later; [| |exact IH]; [set_solver|done]. }
    destruct IH as [Hsub Hprog Hstuck Hkept Hknown]. split.
    + by apply sublist_skip.
    + intros Hp. apply Hprog in Hp. simpl. lia.
    + intros Hp. destruct (Hstuck Hp) as (E1 & E2 & Hall). cbn. split_and!; [by rewrite E1|done|].
      constructor; [by apply Hpl|done].
    + done.
    + intros x [->|Hx]%elem_of_cons; [left; set_solver|]. destruct (Hknown x Hx); [left; set_solver|by right].
Qed.

Lemma index_loop_run fuel : ∀ blocks n, (length blocks < fuel)%nat →
  match index_loop fuel blocks n with
  | (Ok finished, n') => finished = true ∧
      (∀ x, fc_contains (fork_choice n) x = true → fc_contains (fork_choice n') x = true) ∧
      Forall (λ block, known n' block ∨ parentless n' block) blocks
  | (Err e, _) => refused blocks n e
  end.
Proof.
  induction fuel as [|fuel IH]; intros blocks n Hlen; [lia|]. cbn [index_loop].
  rewrite SE_bind_unfold. pose proof (index_pass_run blocks n) as Hp.
  destruct (index_pass blocks n) as [[[[] rest]|] n1]; [| |done]; cbn [fst snd].
  - destruct Hp as [Hsub Hprog _ Hkept Hknown]. specialize (Hprog eq_refl).
    pose proof (IH rest n1) as Hrec. destruct (index_loop fuel rest n1) as [[fin|] n2].
    2: { eapply refused_later; [| |apply Hrec; lia]; [by apply sublist_subseteq|done]. }
    destruct Hrec as (-> & Hkept2 & Hall); [lia|].
    split_and!; [done|eauto|]. apply Forall_forall. intros block Hb.
    destruct (Hknown _ Hb) as [Hr|Hk]; [|left; by apply Hkept2].
    rewrite Forall_forall in Hall. by apply Hall.
  - destruct Hp as [_ _ Hstuck _ _]. destruct (Hstuck eq_refl) as (-> & -> & Hall).
    split_and!; [done|done|]. eapply Forall_impl; [exact Hall|]. auto.
Qed.

(** C27: indexing the stored blocks at start-up ends, and when it succeeds
    every stored block is in the fork choice or has a parent that is not; it
    fails only when the fork choice refuses a block for another reason. *)
Theorem stored_blocks_indexed n blocks n1 :
  on_storage load_blocks_by_hash n = (Ok blocks, n1) →
  match index_stored_blocks n with
  | (Ok _, n') => (index_loop (S (length blocks)) (sort_by_key block_height blocks) n1).1 = Ok true ∧
      (∀ x, fc_contains (fork_choice n) x = true → fc_contains (fork_choice n') x = true) ∧
      ∀ block, block ∈ blocks → known n' block ∨ parentless n' block
  | (Err e, _) => ∃ e', e = EForkChoice e' ∧ e' ≠ MissingParent
  end.
Proof.
  intros Hl. pose proof (keeps_on_storage fork_choice load_blocks_by_hash n) as Hf. rewrite Hl in Hf.
  cbn in Hf. unfold index_stored_blocks. rewrite SE_bind_unfold, Hl. cbn zeta.
  assert (length (sort_by_key block_height blocks) = length blocks) as Hlen by apply length_sort_by.
  pose proof (index_loop_run (S (length blocks)) (sort_by_key block_height blocks) n1) as Hrun.
  rewrite Hlen, SE_bind_unfold. destruct (index_loop _ _ n1) as [[fin|e] n'].
  2: { eapply refused_fork, Hrun. lia. }
  destruct Hrun as (-> & Hkept & Hall); [lia|]. cbn. split_and!; [done|by rewrite Hf|].
  intros block Hb. rewrite Forall_forall in Hall. apply Hall. unfold sort_by_key.
  by apply elem_of_sort_by.
Qed.

End index.

End NodeIndex.
