(* ===== verification/NodeSync.v ===== *)
(** * NodeSync: the database follows the ledger

    Without engine failures the tables on disk always are the image of the
    ledger in memory (side blocks apart), so that a node stopped at any point
    between two calls loads the ledger it had.  The start-up index of stored
    blocks is at the end. *)

From S2P Require Import Prelude Collections Core Demo Mempool Miner Cache Bytes Storage StorageFacts.
From S2P Require Import StorageLedger StorageReads StorageSaved StorageDemo StorageProps.
From S2P Require Import Node NodeFacts NodeProps.

Module NodeSync.
Import Storage StorageFacts StorageLedger StorageReads StorageSaved StorageProps Node NodeFacts NodeProps.

(** What the node relies on of [Ledger] and [Chain]: inserting a block adds at
    most that block to the chain, and an accepted block has a number of
    transactions that fits 32 bits. *)
Class LedgerLaws `{Paqus} : Prop := {
  apply_block_blocks b l l' : ledger_apply_block b l = (Ok tt, l') →
    Z.of_nat (length (block_transactions b)) ≤ u32_max ∧
    ∀ x, x ∈ chain_blocks (chain l') → x = b ∨ x ∈ chain_blocks (chain l);
  chain_insert_blocks b c c' : chain_insert_block b c = (Ok tt, c') →
    Z.of_nat (length (block_transactions b)) ≤ u32_max ∧
    ∀ x, x ∈ chain_blocks c' → x = b ∨ x ∈ chain_blocks c;
  chain_new_blocks : chain_blocks chain_new = [];
}.

(** ** Loading depends on four tables only *)

Section loading.
Context `{Paqus, Kv, Lmdb, !NoFaults, !Codecs}.
Implicit Types tb : Database_ → Table.

Definition agree tb tb' : Prop := ∀ db, db ∉ [BlocksByHash; GenesisAccounts] → tb db = tb' db.

Context tb tb' (Hagree : agree tb tb').

Lemma block_at_agree h : block_at tb h = block_at tb' h.
Proof. unfold block_at. by rewrite (Hagree BlocksByHeight) by set_solver. Qed.

Lemma tip_at_agree : tip_at tb = tip_at tb'.
Proof. unfold tip_at. by rewrite (Hagree Meta) by set_solver. Qed.

Lemma heights_check_agree hs : ∀ e, heights_check tb e hs = heights_check tb' e hs.
Proof.
  induction hs as [|h hs IH]; intros e; [done|]. cbn [heights_check].
  assert (height_check tb e h = height_check tb' e h) as ->
    by (unfold height_check; by rewrite !block_at_agree).
  destruct (height_check tb' e h); cbn; [apply IH|done].
Qed.

Lemma integrity_check_agree : integrity_check tb = integrity_check tb'.
Proof.
  unfold integrity_check. rewrite tip_at_agree. destruct (tip_at tb') as [[[height hash]|]|]; try done.
  cbn. rewrite block_at_agree. destruct (block_at tb' height) as [[b|]|]; try done. cbn.
  case_match; [done|]. apply heights_check_agree.
Qed.

Lemma chain_read_agree hs : ∀ c, chain_read tb hs c = chain_read tb' hs c.
Proof.
  induction hs as [|h hs IH]; intros c; [done|]. cbn [chain_read]. rewrite block_at_agree.
  destruct (block_at tb' h) as [[b|]|]; try done. cbn.
  destruct (chain_insert_block b c) as [[]]; [apply IH|done].
Qed.

End loading.

Section sync.
Context `{Paqus, Kv, Lmdb, Clock, !Codecs, !CodecLaws, !KvLaws, !NoFaults, !LedgerLaws}.
Implicit Types n : Node.

Definition small (l : Ledger) : Prop := ∀ b, b ∈ chain_blocks (chain l) →
  Z.of_nat (length (block_transactions b)) ≤ u32_max.

Record in_sync (l : Ledger) (tb : Database_ → Table) : Prop := {
  sync_small : small l;
  sync_version : kv_get (tb Meta) STORAGE_VERSION_KEY = Some (enc STORAGE_VERSION);
  sync_tables : ∃ tb0, agree tb (ledger_tables l tb0);
}.

Definition synced n : Prop := in_sync (ledger n) (tables (storage n)).

(** *** Saving *)

Lemma on_storage_run {A} (m : St A) n r tb' :
  runs m (tables (storage n)) r tb' →
  ∃ k, on_storage m n = (map_err EStorage r, set_storage (mkStore tb' k) n).
Proof.
  intros Hm. destruct (Hm (calls (storage n))) as [k Hk]. exists k. unfold on_storage, zoom.
  replace (storage n) with (mkStore (tables (storage n)) (calls (storage n))) at 1
    by (by destruct (storage n)). by rewrite Hk.
Qed.

Lemma saved_in_sync l tb :
  small l → kv_get (tb Meta) STORAGE_VERSION_KEY = Some (enc STORAGE_VERSION) →
  in_sync l (ledger_tables l tb).
Proof. intros Hs Hv. split; [done|by rewrite saved_version|]. by exists tb. Qed.

Lemma save_ledger_syncs n :
  small (ledger n) →
  kv_get (tables (storage n) Meta) STORAGE_VERSION_KEY = Some (enc STORAGE_VERSION) →
  ∃ n', on_storage (save_ledger (ledger n)) n = (Ok tt, n') ∧ synced n'.
Proof.
  intros Hs Hv. destruct (on_storage_run (save_ledger (ledger n)) n _ _
    (runs_save_ledger _ _ Hs)) as [k Hk]. eexists. split; [exact Hk|]. by apply saved_in_sync.
Qed.

Lemma save_side_block_syncs block : preserves synced (on_storage (save_side_block block)).
Proof.
  intros n [Hs Hv [tb0 Hag]].
  assert (runs (save_side_block block) (tables (storage n)) (Ok tt)
    (put_tb BlocksByHash (hash_key (block_hash block)) (enc block) (tables (storage n)))) as Hr.
  { eapply runs_bind; [apply runs_encode|]. apply runs_rw, runs_put. }
  destruct (on_storage_run _ n _ _ Hr) as [k ->]. split; [done|done|].
  exists tb0. intros db Hdb. cbn. rewrite put_tb_ne by set_solver. by apply Hag.
Qed.

(** *** Steps that leave ledger and tables alone *)

Definition sync_part n := (ledger n, tables (storage n)).

Lemma keeps_synced {A} (m : N A) : keeps (same sync_part) m → preserves synced m.
Proof.
  intros Hm n. specialize (Hm n). unfold same, sync_part in Hm. injection Hm as E1 E2.
  unfold synced. by rewrite <-E1, <-E2.
Qed.

Lemma core_synced n n' : same_core n n' → synced n → synced n'.
Proof. unfold synced. intros Hc. by injection Hc as -> _ -> _ _ _ _. Qed.

Lemma clock_synced : preserves synced (current_unix_timestamp : N _).
Proof. by apply keeps_synced. Qed.
Lemma on_mempool_synced {A} (m : SE Mempool.Mempool Mempool.MempoolError A) :
  preserves synced (on_mempool m).
Proof. by apply keeps_synced, keeps_zoom. Qed.
Lemma on_fork_choice_synced {A} (m : SE ForkChoice ForkChoiceError A) :
  preserves synced (on_fork_choice m).
Proof. by apply keeps_synced, keeps_zoom. Qed.

Lemma reinsert_synced tx : preserves synced (reinsert tx).
Proof.
  unfold reinsert. apply keeps_bind; [apply _|apply clock_synced|intros now].
  apply keeps_bind; [apply _|apply clock_synced|intros clock].
  apply keeps_bind; [apply _|apply keeps_get, _|intros n].
  apply keeps_bind; [apply _|apply keeps_attempt, on_mempool_synced|intros _]. apply keeps_ret, _.
Qed.

(** *** Branches are small *)

Lemma apply_branch_small blocks : ∀ l l', small l → apply_branch blocks l = Ok l' → small l'.
Proof.
  induction blocks as [|b blocks IH]; intros l l' Hl; cbn [apply_branch]; [by intros [= <-]|].
  destruct (ledger_apply_block b l) as [[[]|] l1] eqn:E; [|done].
  apply apply_block_blocks in E as [Hb Hx]. apply IH.
  intros x [->|Hin]%Hx; [done|by apply Hl].
Qed.

Lemma branch_ledger_small n tip l : ledger_for_branch_tip n tip = Ok l → small l.
Proof.
  unfold ledger_for_branch_tip. intros (g & _ & Hl)%result_bind_Ok.
  destruct (chain_insert_block (fn_block g) chain_new) as [[[]|] c] eqn:E; [|done].
  apply result_bind_Ok in Hl as (branch & _ & Hb). eapply apply_branch_small; [|exact Hb].
  apply chain_insert_blocks in E as [Hg Hx]. intros x [->|Hin]%Hx; [done|].
  rewrite chain_new_blocks in Hin. set_solver.
Qed.

(** *** Block processing *)

Lemma reorg_synced : preserves synced reorg_to_best_tip.
Proof.
  intros n Hn. unfold reorg_to_best_tip. rewrite SE_bind_get. case_bool_decide; [done|]. cbn zeta.
  rewrite SE_bind_lift. destruct (fc_best_tip (fork_choice n)) as [best|]; [|done]. cbn [ok_or].
  rewrite SE_bind_lift. destruct (common_ancestor n _ _) as [ancestor|]; [|done]. cbn [ok_or].
  rewrite SE_bind_lift. destruct (fc_branch_from_ancestor _ _ _) as [branch|]; [|done]. cbn [ok_or].
  rewrite SE_bind_lift. destruct (ledger_for_branch_tip n (fn_hash best)) as [l|] eqn:El; [|done].
  rewrite !SE_bind_modify, SE_bind_unfold.
  set (n1 := set_cache _ (set_ledger l n)).
  destruct (save_ledger_syncs n1) as (n2 & E2 & Hn2).
  { by apply (branch_ledger_small n (fn_hash best)). }
  { apply (sync_version _ _ Hn). }
  change (ledger n1) with l in E2. rewrite E2. revert Hn2.
  apply (keeps_for_each (λ s s', synced s → synced s')). intros b _.
  case_bool_decide; [apply keeps_ret, _|]. apply keeps_for_each; [apply _|].
  intros tx _. apply reinsert_synced.
Qed.

Lemma extend_synced block n l :
  synced n → ledger_apply_block block (ledger n) = (Ok tt, l) →
  synced ((on_ledger (ledger_apply_block block) ;;
    modify (λ n, set_mempool (Mempool.remove_confirmed block (mempool n)) n) ;;
    modify (λ n, set_cache (Cache.insert_block block (cache n)) n) ;;
    modify (λ n, set_cache (cache_block_accounts (ledger n) block (cache n)) n) ;;
    n2 ← get_state; on_storage (save_ledger (ledger n2))) n).2.
Proof.
  intros Hn El. rewrite SE_bind_unfold. unfold on_ledger, zoom. rewrite El. cbn [map_err].
  rewrite !SE_bind_modify, SE_bind_get.
  match goal with |- context [on_storage (save_ledger (ledger ?m)) _] => set (n1 := m) end.
  destruct (save_ledger_syncs n1) as (n2 & E2 & Hn2).
  - apply apply_block_blocks in El as [Hb Hx]. intros x [->|Hin]%Hx; [done|].
    by apply (sync_small _ _ Hn).
  - apply (sync_version _ _ Hn).
  - by rewrite E2.
Qed.

Lemma apply_known_synced block : preserves synced (apply_known_parent_block block).
Proof.
  intros n Hn. unfold apply_known_parent_block, validate_block_for_known_parent.
  rewrite SE_bind_unfold. rewrite SE_bind_unfold. cbn [current_unix_timestamp]. rewrite SE_bind_get.
  set (n1 := set_clock_reads _ n). unfold lift at 1.
  destruct (validate_at _ n1 block) as [[]|]; [|done]. rewrite SE_bind_get, SE_bind_lift.
  destruct (validate_block_state_for_known_parent n1 block) as [[]|] eqn:Hv; [|done].
  rewrite SE_bind_unfold. pose proof (on_fork_choice_synced (fc_insert_block block) n1 Hn) as Hn2.
  assert (ledger (on_fork_choice (fc_insert_block block) n1).2 = ledger n1) as Hl2.
  { unfold on_fork_choice, zoom. by destruct (fc_insert_block block (fork_choice n1)). }
  destruct (on_fork_choice (fc_insert_block block) n1) as [[hash|] n2]; [|done]. cbn [snd] in *.
  rewrite SE_bind_get. cbn zeta. case_bool_decide; [by apply save_side_block_syncs|].
  destruct (extends_active_tip n2 block) eqn:Hext; cbn [negb]; [|by apply reorg_synced].
  destruct (validated_block_applies n1 block Hv) as [l El].
  { rewrite <-Hext. unfold extends_active_tip. by rewrite Hl2. }
  eapply extend_synced; [done|]. by rewrite Hl2.
Qed.

Lemma apply_block_synced block : preserves synced (apply_block block).
Proof. apply apply_block_keeps; [apply _|apply core_synced|apply apply_known_synced]. Qed.

Lemma read_synced {A} (m : St A) : keeps same_tables m → preserves synced (on_storage m).
Proof.
  intros Hm. apply keeps_synced. intros n. unfold on_storage, zoom, same, sync_part. specialize (Hm (storage n)).
  destruct (m (storage n)) as [r st]. cbn in *. by rewrite Hm.
Qed.

Lemma mine_block_synced miner timestamp max_attempts limit :
  preserves synced (mine_block miner timestamp max_attempts limit).
Proof.
  unfold mine_block. apply keeps_bind; [apply _|by apply keeps_modify|intros _].
  apply keeps_bind; [apply _| |intros difficulty].
  { apply next_difficulty_keeps; [apply _|]. intros A m Hm. by apply read_synced. }
  apply keeps_bind; [apply _|apply keeps_get, _|intros n].
  apply keeps_bind; [apply _|apply keeps_lift, _|intros mined].
  apply keeps_bind; [apply _|apply keeps_lift, _|intros result].
  apply keeps_bind; [apply _|apply apply_block_synced|intros _]. apply keeps_ret, _.
Qed.

Lemma node_step_synced n n' : node_step n n' → synced n → synced n'.
Proof.
  destruct 1 as [block n|tx n|miner timestamp ma limit n|n|hash n|n]; intros Hn.
  - by apply apply_block_synced.
  - revert Hn. unfold submit_transaction. apply (keeps_bind (λ s s', synced s → synced s'));
      [apply clock_synced|intros now].
    apply keeps_bind; [apply _|apply clock_synced|intros clock].
    apply keeps_bind; [apply _|apply keeps_get, _|intros m]. apply on_mempool_synced.
  - by apply mine_block_synced.
  - by eapply core_synced, Hn; apply drain_core.
  - by eapply core_synced, Hn; apply retry_core.
  - unfold flush_to_storage. rewrite SE_bind_get.
    destruct (save_ledger_syncs n) as (n' & E & Hn'); [apply Hn..|]. by rewrite E.
Qed.

(** A database in step with a well-formed ledger loads back as that ledger. *)
Lemma in_sync_loads l tb : in_sync l tb → stored_wf l → runs load_ledger tb (Ok l) tb.
Proof.
  intros [_ Hv [tb0 Hag]] Hwf.
  destruct (last_block l Hwf) as (block & Hb & _).
  assert (runs load_storage_version tb (Ok (Some STORAGE_VERSION)) tb) as Hver.
  { apply runs_ro. by eapply runs_read_value, decode_enc. }
  eapply runs_bind; [eapply runs_bind; [exact Hver|apply runs_ret]|].
  eapply runs_bind.
  { apply (denotes_Ok _ _ _ _ denotes_integrity_check).
    rewrite (integrity_check_agree _ _ Hag). apply (saved_integrity _ Hwf). }
  eapply runs_bind.
  { apply runs_ro. eapply runs_bind; [apply runs_cursor|].
    rewrite (sw_new _ Hwf). apply (denotes_Ok _ _ _ _ (denotes_accounts_read _ _)).
    rewrite (Hag Accounts) by set_solver. by apply saved_accounts_read. }
  eapply runs_bind.
  { apply (denotes_Ok _ _ _ _ denotes_tip_at). rewrite (tip_at_agree _ _ Hag).
    by apply saved_tip_at. }
  cbn iota. eapply runs_bind.
  { apply (denotes_Ok _ _ _ _ (denotes_chain_read _ _)). rewrite (chain_read_agree _ _ Hag).
    by apply saved_chain_read. }
  destruct l. apply runs_ret.
Qed.

Lemma synced_loads n : synced n → stored_wf (ledger n) →
  runs load_ledger (tables (storage n)) (Ok (ledger n)) (tables (storage n)).
Proof. apply in_sync_loads. Qed.

(** ** Claims *)

(** C1: without engine failures the database always holds the node's ledger:
    from a node whose database is in step with its ledger, after any sequence
    of blocks, transactions, mined blocks and requests, loading the database
    gives back exactly the ledger the node has in memory. *)
Theorem restart_recovers_ledger n n' :
  synced n → rtc node_step n n' → stored_wf (ledger n') →
  runs load_ledger (tables (storage n')) (Ok (ledger n')) (tables (storage n')).
Proof.
  intros Hn Hsteps Hwf. apply synced_loads; [|done]. clear Hwf.
  induction Hsteps as [|n1 n2 n3 Hstep _ IH]; [done|]. by eapply IH, node_step_synced.
Qed.

End sync.

(** ** The outcome of a block that is applied *)

Section outcome.
Context `{Paqus, Kv, Lmdb, Clock, !Codecs, !ForkChoiceLaws}.
Implicit Types n : Node.

Lemma on_storage_moves {A} (m : St A) g n a n' :
  moves m g → on_storage m n = (Ok a, n') →
  ∃ k, n' = set_storage (mkStore (g (tables (storage n))) k) n.
Proof.
  unfold on_storage, zoom. intros Hm. destruct (m (storage n)) as [[b|] st] eqn:E; [|done].
  intros [= _ <-]. apply Hm in E. exists (calls st). rewrite <-E. by destruct st.
Qed.

Lemma moves_save_ledger l : moves (save_ledger l) (ledger_tables l).
Proof.
  intros st a st' E. pose proof (save_ledger_cases l st) as Hs. by rewrite E in Hs.
Qed.

(** Everything but the pool and the clock. *)
Definition non_pool n := (ledger n, storage n, cache n, fork_choice n, genesis_accounts n).

Lemma reinsert_non_pool tx : keeps (same non_pool) (reinsert tx).
Proof.
  unfold reinsert. apply keeps_bind; [apply _|by intros n|intros now].
  apply keeps_bind; [apply _|by intros n|intros clock].
  apply keeps_bind; [apply _|apply keeps_get, _|intros n].
  apply keeps_bind; [apply _|by apply keeps_attempt, keeps_zoom|intros _]. apply keeps_ret, _.
Qed.

(** The loop over the abandoned blocks. *)
Definition reinsert_blocks (winning : list BlockHash) (blocks : list Block) : N () :=
  for_each (λ b, if bool_decide (block_hash b ∈ winning) then mret tt
    else for_each reinsert (block_transactions b)) blocks.

Lemma reinsert_blocks_non_pool winning blocks : keeps (same non_pool) (reinsert_blocks winning blocks).
Proof.
  apply keeps_for_each; [apply _|]. intros b _. case_bool_decide; [apply keeps_ret, _|].
  apply keeps_for_each; [apply _|]. intros; apply reinsert_non_pool.
Qed.

(** A switch of branch that succeeds: the ledger of the best branch is built,
    cached and saved, then the abandoned transactions are offered again. *)
Lemma reorg_Ok n n' :
  reorg_to_best_tip n = (Ok tt, n') → ∃ best l k winning,
    fc_best_tip (fork_choice n) = Some best ∧ ledger_for_branch_tip n (fn_hash best) = Ok l ∧
    reinsert_blocks winning (chain_blocks (chain (ledger n)))
      (set_storage (mkStore (ledger_tables l (tables (storage n))) k)
        (set_cache (Cache.from_ledger l) (set_ledger l n))) = (Ok tt, n').
Proof.
  unfold reorg_to_best_tip. rewrite SE_bind_get. case_bool_decide; [done|]. cbn zeta.
  rewrite SE_bind_lift. destruct (fc_best_tip (fork_choice n)) as [best|]; [|done]. cbn [ok_or].
  rewrite SE_bind_lift. destruct (common_ancestor n _ _) as [ancestor|]; [|done]. cbn [ok_or].
  rewrite SE_bind_lift. destruct (fc_branch_from_ancestor _ _ _) as [branch|]; [|done]. cbn [ok_or].
  rewrite SE_bind_lift. destruct (ledger_for_branch_tip n (fn_hash best)) as [l|] eqn:El; [|done].
  rewrite !SE_bind_modify, SE_bind_unfold. set (n1 := set_cache _ (set_ledger l n)).
  destruct (on_storage (save_ledger l) n1) as [[[]|] n2] eqn:E; [|done].
  destruct (on_storage_moves _ _ _ _ _ (moves_save_ledger l) E) as [k ->]. intros Hr.
  exists best, l, k, (fc_ancestor_hashes (fork_choice n) (fn_hash best)). done.
Qed.

(** C10: a block that is applied to a known parent is indexed by the fork
    choice under its hash, and then exactly one of three things happened: it
    is not the best tip, and only its record was added to the database; it
    extends the active tip, and the ledger applied it, the pool dropped its
    transactions, the cache took its accounts and the database is the image
    of the new ledger; or the node switched to its branch, and ledger, cache
    and database are those of the branch. *)
Theorem accepted_block_outcome block n n' :
  apply_known_parent_block block n = (Ok tt, n') →
  fc_insert_block block (fork_choice n) = (Ok (block_hash block), fork_choice n') ∧
  let best := fn_hash <$> fc_best_tip (fork_choice n') in
  (best ≠ Some (block_hash block) ∧ ledger n' = ledger n ∧ mempool n' = mempool n ∧
    cache n' = cache n ∧ tables (storage n') =
      put_tb BlocksByHash (hash_key (block_hash block)) (enc block) (tables (storage n))) ∨
  (best = Some (block_hash block) ∧ extends_active_tip n block = true ∧
    ledger_apply_block block (ledger n) = (Ok tt, ledger n') ∧
    mempool n' = Mempool.remove_confirmed block (mempool n) ∧
    cache n' = cache_block_accounts (ledger n') block (Cache.insert_block block (cache n)) ∧
    tables (storage n') = ledger_tables (ledger n') (tables (storage n))) ∨
  (best = Some (block_hash block) ∧ extends_active_tip n block = false ∧
    ledger_for_branch_tip (set_fork_choice (fork_choice n') n) (block_hash block) = Ok (ledger n') ∧
    cache n' = Cache.from_ledger (ledger n') ∧
    tables (storage n') = ledger_tables (ledger n') (tables (storage n))).
Proof.
  unfold apply_known_parent_block, validate_block_for_known_parent. rewrite SE_bind_unfold.
  rewrite SE_bind_unfold. cbn [current_unix_timestamp]. rewrite SE_bind_get.
  set (n1 := set_clock_reads _ n). unfold lift at 1.
  destruct (validate_at _ n1 block) as [[]|]; [|done]. rewrite SE_bind_get, SE_bind_lift.
  destruct (validate_block_state_for_known_parent n1 block) as [[]|]; [|done].
  rewrite SE_bind_unfold. unfold on_fork_choice at 1. unfold zoom at 1.
  change (fork_choice n1) with (fork_choice n).
  destruct (fc_insert_block block (fork_choice n)) as [[hash|] f] eqn:Ef; [|done].
  pose proof (fc_insert_Ok _ _ _ _ Ef) as (-> & _ & _). cbn [map_err]. rewrite SE_bind_get. cbn zeta.
  set (n2 := set_fork_choice f n1). intros Hr. case_bool_decide as Hbest.
  { destruct (on_storage_moves _ _ _ _ _ (moves_save_side_block block) Hr) as [k ->]. cbn.
    split; [done|]. left. done. }
  destruct (extends_active_tip n2 block) eqn:Hext; cbn [negb] in Hr.
  - rewrite SE_bind_unfold in Hr. unfold on_ledger, zoom in Hr. change (ledger n2) with (ledger n) in Hr.
    destruct (ledger_apply_block block (ledger n)) as [[[]|] l] eqn:El; [|done]. cbn [map_err] in Hr.
    rewrite !SE_bind_modify, SE_bind_get in Hr.
    destruct (on_storage_moves _ _ _ _ _ (moves_save_ledger _) Hr) as [k ->]. cbn.
    split; [done|]. right. left. done.
  - destruct (reorg_Ok _ _ Hr) as (best & l & k & winning & Hb & Hl & Hre).
    pose proof (reinsert_blocks_non_pool winning (chain_blocks (chain (ledger n2)))
      (set_storage (mkStore (ledger_tables l (tables (storage n2))) k)
        (set_cache (Cache.from_ledger l) (set_ledger l n2)))) as Hsame.
    rewrite Hre in Hsame. unfold same, non_pool in Hsame. injection Hsame as E1 E2 E3 E4 _.
    cbn in E1, E2, E3, E4. rewrite <-E1, <-E2, <-E3, <-E4. split; [done|]. right. right.
    change (fork_choice n2) with f in Hbest, Hb. rewrite Hb in Hbest |- *. cbn in Hbest |- *.
    split_and!; [done|done| |done|done]. injection Hbest as <-. exact Hl.
Qed.

(** Switching branches never takes a transaction out of the pool: when
    the abandoned blocks carry no transactions the pool is unchanged, although
    the new active chain may contain pending transactions. *)
Theorem reorg_leaves_pool n n' :
  reorg_to_best_tip n = (Ok tt, n') →
  Forall (λ b, block_transactions b = []) (chain_blocks (chain (ledger n))) →
  mempool n' = mempool n.
Proof.
  intros (best & l & k & winning & _ & _ & Hre)%reorg_Ok Hempty. revert Hre.
  generalize (chain_blocks (chain (ledger n))), Hempty. clear Hempty.
  match goal with |- ∀ l, _ → reinsert_blocks _ _ ?m = _ → _ =>
    assert (mempool m = mempool n) as <- by done; generalize m end.
  intros m blocks Hall. induction Hall as [|b blocks Hb Hall IH]; [by intros [= <-]|].
  unfold reinsert_blocks. cbn [for_each]. rewrite Hb, SE_bind_unfold.
  case_bool_decide; exact IH.
Qed.

End outcome.

End NodeSync.
