(* ===== verification/NodeShared.v ===== *)
(** * NodeShared: what the threads of the service do to the shared node

    The node is shared by the service loop, the threads of inbound connections
    and the RPC handlers.  [shared_step] lists what happens to it inside a
    critical section, and [node_good] is the invariant all of them keep: the
    orphan pool is consistent, the pool of transactions is within its limits,
    the database holds the ledger, and its other records can be read. *)

From S2P Require Import Prelude Collections Core Demo Mempool MempoolFacts Miner Cache Bytes Storage StorageFacts.
From S2P Require Import StorageLedger StorageReads StorageSaved StorageDemo StorageProps.
From S2P Require Import Node NodeFacts NodeProps NodeSync.

Module NodeShared.
Import Storage StorageFacts StorageLedger StorageSaved Node NodeFacts NodeProps NodeSync MempoolFacts.

Section shared.
Context `{Paqus, Kv, Lmdb, Clock, !Codecs}.
Implicit Types n : Node.

(** The node up to its counters of clock readings and engine calls. *)
Definition at_rest n : Node := set_clock_reads 0 (set_storage (mkStore (tables (storage n)) 0) n).
Definition alike n n' : Prop := at_rest n = at_rest n'.

#[export] Instance alike_equivalence : Equivalence alike.
Proof. split; unfold alike; [done|by intros ??|by intros ??? -> ->]. Qed.

(** One step inside a critical section: a method of the node, the pruning of
    the pool before mining, or reading. *)
Inductive shared_step : Node → Node → Prop :=
  | shared_method n n' : node_step n n' → shared_step n n'
  | shared_prune timestamp n :
      shared_step n (set_mempool (Mempool.prune_expired timestamp (mempool n)).2 n)
  | shared_read n n' : alike n n' → shared_step n n'.

(** Code of a critical section is made of such steps. *)
Definition made_of_steps {A E} (m : SE Node E A) : Prop := keeps (rtc shared_step) m.

(** ** The pool of transactions *)

(** A relation that holds when pool and tables stand, across operations of the
    pool and across the two ways to write the database, holds across every step. *)
Section stepwise.
Context (R : Node → Node → Prop) `{!PreOrder R}.
Context (Rsame : ∀ n n', mempool n = mempool n' → tables (storage n) = tables (storage n') → R n n').
Context (Rpool : ∀ n mp, pool_step (mempool n) mp → R n (set_mempool mp n)).
Context (Rledger : ∀ l, keeps R (on_storage (save_ledger l))).
Context (Rside : ∀ block, keeps R (on_storage (save_side_block block))).

Definition pool_part n := (mempool n, tables (storage n)).

Lemma part_keeps {E A} (m : SE Node E A) : keeps (same pool_part) m → keeps R m.
Proof. intros Hm n. specialize (Hm n). unfold same, pool_part in Hm. injection Hm as E1 E2. by apply Rsame. Qed.

Lemma core_steps n n' : same_core n n' → R n n'.
Proof. intros Hc. injection Hc as _ E1 E2 _ _ _ _. apply Rsame; [done|by rewrite E2]. Qed.

Lemma insert_keeps clock l tx now : keeps R (on_mempool (Mempool.insert_validated_at clock l tx now)).
Proof.
  intros n. unfold on_mempool, zoom.
  pose proof (step_insert_validated clock l tx now (mempool n)) as Hs.
  destruct (Mempool.insert_validated_at clock l tx now (mempool n)) as [r mp]. by apply Rpool.
Qed.

Lemma now_keeps : keeps R (current_unix_timestamp : N _).
Proof. by apply part_keeps; intros n. Qed.

Lemma reinsert_keeps tx : keeps R (reinsert tx).
Proof.
  unfold reinsert. do 2 (apply keeps_bind; [apply _|apply now_keeps|intros ?]).
  apply keeps_bind; [apply _|apply keeps_get, _|intros n].
  apply keeps_bind; [apply _|apply keeps_attempt, insert_keeps|intros _]. apply keeps_ret, _.
Qed.

Lemma read_keeps A (m : SE Store StorageError A) : keeps same_tables m → keeps R (on_storage m).
Proof.
  intros Hm. apply part_keeps. intros n. specialize (Hm (storage n)). unfold on_storage, zoom.
  destruct (m (storage n)) as [r st]. unfold same, same_tables, pool_part in *. cbn in *. by rewrite Hm.
Qed.

Ltac steps := repeat first
  [ apply keeps_ret, _ | apply keeps_throw, _ | apply keeps_get, _ | apply keeps_lift, _
  | apply now_keeps | apply Rledger | apply Rside
  | by apply part_keeps, keeps_zoom | by apply part_keeps, keeps_modify
  | apply keeps_bind; [apply _| |intros ?] | case_match ].

Lemma reorg_keeps : keeps R reorg_to_best_tip.
Proof.
  unfold reorg_to_best_tip. steps.
  apply keeps_for_each; [apply _|]. intros b _. case_match; [apply keeps_ret, _|].
  apply keeps_for_each; [apply _|]. intros tx _. apply reinsert_keeps.
Qed.

Lemma apply_known_keeps block : keeps R (apply_known_parent_block block).
Proof.
  unfold apply_known_parent_block, validate_block_for_known_parent.
  apply keeps_bind; [apply _|steps|intros _]. apply keeps_bind; [apply _|apply keeps_get, _|intros n].
  apply keeps_bind; [apply _|apply keeps_lift, _|intros _].
  apply keeps_bind; [apply _|by apply part_keeps, keeps_zoom|intros hash].
  apply keeps_bind; [apply _|apply keeps_get, _|intros n1]. cbn zeta.
  case_match; [apply Rside|]. case_match; [apply reorg_keeps|]. steps.
  apply keeps_modify. intros m. apply Rpool. constructor.
Qed.

Lemma node_step_keeps n n' : node_step n n' → R n n'.
Proof.
  assert (∀ block, keeps R (apply_block block)) as Hblock.
  { intros block. apply apply_block_keeps; [apply _|apply core_steps|apply apply_known_keeps]. }
  destruct 1 as [block n|tx n|miner timestamp ma limit n|n|hash n|n].
  - apply Hblock.
  - unfold submit_transaction. do 2 (apply (keeps_bind R); [apply now_keeps|intros ?]).
    apply (keeps_bind R); [apply keeps_get, _|intros m]. apply insert_keeps.
  - unfold mine_block. apply (keeps_bind R); [|intros _].
    { apply keeps_modify. intros m. apply Rpool. constructor. }
    apply (keeps_bind R); [|intros difficulty].
    { apply next_difficulty_keeps; [apply _|apply read_keeps]. }
    apply (keeps_bind R); [apply keeps_get, _|intros m].
    do 2 (apply (keeps_bind R); [apply keeps_lift, _|intros ?]).
    apply (keeps_bind R); [apply Hblock|intros _]. apply keeps_ret, _.
  - apply core_steps, drain_core.
  - apply core_steps, retry_core.
  - unfold flush_to_storage. apply (keeps_bind R); [apply keeps_get, _|intros m]. apply Rledger.
Qed.

Lemma shared_step_keeps n n' : shared_step n n' → R n n'.
Proof.
  destruct 1 as [n n' Hs|t n|n n' Ha]; [by apply node_step_keeps|apply Rpool; constructor|].
  apply Rsame; [exact (f_equal mempool Ha)|exact (f_equal (λ n, tables (storage n)) Ha)].
Qed.

End stepwise.

(** The node changes its pool by operations of the pool only. *)
Definition pool_moves n n' : Prop := rtc pool_step (mempool n) (mempool n').

#[export] Instance pool_moves_preorder : PreOrder pool_moves.
Proof. split; unfold pool_moves; [intros n; apply rtc_refl|intros n1 n2 n3 ??; by etrans]. Qed.

Lemma same_pool_moves n n' : mempool n = mempool n' → pool_moves n n'.
Proof. intros E. unfold pool_moves. by rewrite E. Qed.

Lemma storage_moves {A} (m : SE Store StorageError A) : keeps pool_moves (on_storage m).
Proof. intros n. apply same_pool_moves. unfold on_storage, zoom. by destruct (m _). Qed.

Lemma shared_step_moves n n' : shared_step n n' → pool_moves n n'.
Proof.
  apply shared_step_keeps; [apply _|by intros; apply same_pool_moves|by intros; apply rtc_once|..];
    intros; apply storage_moves.
Qed.

Lemma pool_moves_bounded `{!TxLaws} n n' : pool_moves n n' → pool_bounded (mempool n) → pool_bounded (mempool n').
Proof.
  unfold pool_moves. generalize (mempool n), (mempool n'). intros mp mp'.
  induction 1 as [|mp mp1 mp' Hs _ IH]; [done|]. intros Hb. apply IH. exact (pool_step_bounded _ _ Hs Hb).
Qed.

(** ** Orphans *)

Lemma shared_step_wf n n' : shared_step n n' → orphans_wf [] n → orphans_wf [] n'.
Proof.
  destruct 1 as [n n' Hs|t n|n n' Ha]; [by apply node_step_wf|by apply (orphans_wf_same [] n)|].
  apply orphans_wf_same. exact (f_equal orphans_of Ha).
Qed.

(** ** The database *)

Section in_step.
Context `{!CodecLaws, !KvLaws, !NoFaults, !LedgerLaws, !TxLaws}.

Lemma shared_step_synced n n' : shared_step n n' → synced n → synced n'.
Proof.
  destruct 1 as [n n' Hs|t n|n n' Ha]; [by apply node_step_synced|done|].
  unfold synced. pose proof (f_equal ledger Ha) as El.
  pose proof (f_equal (λ n, tables (storage n)) Ha) as Et. cbn in El, Et. by rewrite El, Et.
Qed.

(** What is stored stays readable. *)
Definition stays_readable n n' : Prop :=
  readable (tables (storage n)) → readable (tables (storage n')).

#[export] Instance stays_readable_preorder : PreOrder stays_readable.
Proof. split; unfold stays_readable; [by intros n|intros n1 n2 n3; eauto]. Qed.

Lemma shared_step_readable n n' : shared_step n n' → stays_readable n n'.
Proof.
  apply shared_step_keeps; unfold stays_readable; [apply _|by intros ? ? _ ->|done|..].
  - intros l m Hm. unfold on_storage, zoom. pose proof (save_ledger_cases l (storage m)) as Hs.
    destruct (save_ledger l (storage m)) as [[?|e] st]; cbn; [rewrite Hs; by apply saved_readable|].
    destruct Hs as [->| ->]; [done|by apply saved_readable].
  - intros block m Hm. unfold on_storage, zoom. pose proof (save_side_block_cases block (storage m)) as Hs.
    destruct (save_side_block block (storage m)) as [r st]; cbn in *.
    destruct Hs as [->| ->]; [done|by apply put_block_readable].
Qed.

(** A node in order. *)
Record node_good n : Prop := {
  good_orphans : orphans_wf [] n;
  good_pool : pool_bounded (mempool n);
  good_database : synced n;
  good_records : readable (tables (storage n));
}.

Lemma shared_step_good n n' : shared_step n n' → node_good n → node_good n'.
Proof.
  intros Hs [Ho Hp Hd Hr]. split; [by eapply shared_step_wf| |by eapply shared_step_synced|].
  - eapply pool_moves_bounded; [by apply shared_step_moves|done].
  - by eapply shared_step_readable.
Qed.

End in_step.
End shared.
End NodeShared.
