(* ===== verification/NodeStart.v ===== *)
(** * NodeStart: opening a node on a database

    [init_or_load] on a new database creates the node of the genesis block; on
    the database a node has left it gives back the node's ledger.  In both
    cases the node that starts is in order. *)

From S2P Require Import Prelude Collections Core Demo Mempool MempoolFacts Cache Bytes Storage StorageFacts StorageLedger.
From S2P Require Import StorageReads StorageSaved StorageProps StorageDemo Node NodeFacts NodeProps NodeIndex NodeSync NodeShared.

Open Scope Z_scope.

Module NodeStart.
Import Storage StorageFacts StorageLedger StorageReads StorageSaved StorageProps Node NodeFacts NodeProps NodeIndex.
Import NodeSync NodeShared MempoolFacts.

(** ** Indexing changes the fork choice only *)

Section indexing.
Context `{Paqus, Kv, Lmdb, Clock, !Codecs}.
Implicit Types n : Node.

(** Everything but the fork choice and the engine's calls. *)
Definition indexed_part n :=
  (ledger n, mempool n, tables (storage n), consensus n, cache n, genesis_accounts n, orphans_of n).
Abbreviation same_part := (same indexed_part).

Lemma index_pass_part blocks : keeps same_part (index_pass blocks).
Proof.
  induction blocks as [|block blocks IH]; cbn [index_pass]; [apply keeps_ret, _|].
  apply keeps_bind; [apply _|apply keeps_get, _|intros n].
  case_match; [apply keeps_bind; [apply _|exact IH|intros; apply keeps_ret, _]|].
  apply keeps_bind; [apply _| |intros r].
  - apply keeps_attempt, keeps_zoom. done.
  - repeat case_match; try apply keeps_throw, _; apply keeps_bind; try apply _; try exact IH; intros; apply keeps_ret, _.
Qed.

Lemma index_loop_part fuel : ∀ blocks, keeps same_part (index_loop fuel blocks).
Proof.
  induction fuel as [|fuel IH]; intros blocks; cbn [index_loop]; [apply keeps_ret, _|].
  apply keeps_bind; [apply _|apply index_pass_part|intros [[] rest]]; [apply IH|apply keeps_ret, _].
Qed.

Lemma map_decode_tables bs : keeps same_tables (map_decode bs : SE Store StorageError (list Block)).
Proof.
  induction bs as [|b bs IH]; cbn [map_decode]; [apply keeps_ret, _|].
  apply keeps_bind; [apply _|apply keeps_lift, _|intros x].
  apply keeps_bind; [apply _|exact IH|intros; apply keeps_ret, _].
Qed.

Lemma load_blocks_tables : keeps same_tables load_blocks_by_hash.
Proof.
  apply keeps_bind; [apply _|apply keeps_call|intros _].
  apply keeps_bind; [apply _| |intros; apply map_decode_tables].
  apply keeps_bind; [apply _|apply keeps_call|intros; apply keeps_gets, _].
Qed.

Lemma index_stored_part : keeps same_part index_stored_blocks.
Proof.
  apply keeps_bind; [apply _| |intros stored].
  - intros n. pose proof (load_blocks_tables (storage n)) as Ht. unfold on_storage, zoom.
    destruct (load_blocks_by_hash (storage n)) as [r st]. unfold same, same_tables, indexed_part in *. cbn in *. by rewrite Ht.
  - apply keeps_bind; [apply _|apply index_loop_part|intros; apply keeps_ret, _].
Qed.

End indexing.

(** ** From the ledger to the node *)

Section start.
Context `{Paqus, Kv, Lmdb, Clock, !Codecs, !CodecLaws, !KvLaws, !NoFaults, !LedgerLaws, !ForkChoiceLaws, !TxLaws}.
Implicit Types n : Node.

Lemma part_good n n' : same indexed_part n n' → node_good n → node_good n'.
Proof.
  intros Hs [Ho Hp Hd Hr]. unfold same, indexed_part in Hs. injection Hs as El Em Et _ _ _ E1 E2 E3 E4 E5.
  split.
  - apply (orphans_wf_same [] n); [|done]. unfold same, orphans_of. congruence.
  - by rewrite <-Em.
  - unfold synced in *. by rewrite <-El, <-Et.
  - by rewrite <-Et.
Qed.

Lemma default_config_fits : config_wf Mempool.default_config.
Proof. split; by_eval. Qed.

Lemma created_good l st c genesis clock n :
  with_genesis_accounts l st c genesis clock = Some n → in_sync l (tables st) → readable (tables st) →
  node_good n ∧ ledger n = l ∧ tables (storage n) = tables st.
Proof.
  intros Hw Hd Hr. pose proof (new_node_wf _ _ _ _ _ _ Hw) as Ho. unfold with_genesis_accounts in Hw.
  apply bind_Some in Hw as (f & _ & [= <-]). split; [|done].
  split; [exact Ho|apply with_config_exact, default_config_fits|exact Hd|exact Hr].
Qed.

(** A block is stored that is not the ledger's, and a fork choice that holds the
    chain of the ledger refuses it with the error [e] although it knows its
    parent. *)
Definition stray_block (l : Ledger) (tb : Database_ → Table) (e : NodeError) : Prop :=
  ∃ block f g e', kv_get (tb BlocksByHash) (hash_key (block_hash block)) = Some (enc block) ∧
    (∀ b, b ∈ chain_blocks (chain l) → fc_contains f (block_hash b) = true) ∧
    fc_contains f (block_hash block) = false ∧
    fc_insert_block block f = (Err e', g) ∧ e' ≠ MissingParent ∧ e = EForkChoice e'.

(** What starting on the tables [tb], which hold the ledger [l], comes to: the
    node of that ledger, in order, on the same tables; or the panic of the
    fork choice that refuses the chain; or the error of a stray block. *)
Definition starts (l : Ledger) (tb : Database_ → Table) (r : result NodeError (option Node)) : Prop :=
  match r with
  | Ok (Some n) => ledger n = l ∧ tables (storage n) = tb ∧ node_good n
  | Ok None => index_chain (chain_blocks (chain l)) fc_new = None
  | Err e => stray_block l tb e
  end.

Lemma index_chain_contains blocks : ∀ f f', index_chain blocks f = Some f' →
  (∀ x, fc_contains f x = true → fc_contains f' x = true) ∧
  ∀ b, b ∈ blocks → fc_contains f' (block_hash b) = true.
Proof.
  induction blocks as [|block blocks IH]; intros f f'; cbn [index_chain]; [intros [= ->]; set_solver|].
  destruct (fc_insert_block block f) as [[h|] f1] eqn:Ef; [|done].
  apply fc_insert_Ok in Ef as (-> & Hin & Hmono). intros [Hmono' Hall]%IH.
  split; [eauto|]. intros b [->|Hb]%elem_of_cons; eauto.
Qed.

(** *** The records that are read *)

Lemma runs_genesis tb : readable tb → ∃ o, runs load_genesis_accounts tb (Ok o) tb.
Proof.
  intros [Hg _]. pose proof (denotes_ro _ _ (denotes_read_value (A := gmap Address Account) GenesisAccounts ACCOUNTS_KEY) tb) as Hr.
  unfold value_at in Hr. destruct (kv_get (tb GenesisAccounts) ACCOUNTS_KEY) as [v|]; [|exists None; exact Hr].
  destruct (Hg v eq_refl) as [accts ->]. rewrite decode_enc in Hr. exists (Some accts). exact Hr.
Qed.

Lemma decode_entries (entries : list (bytes * bytes)) :
  (∀ k v, (k, v) ∈ entries → ∃ block : Block, k = hash_key (block_hash block) ∧ v = enc block) →
  ∃ blocks : list Block, decode_list entries.*2 = Ok blocks ∧
    ∀ block, block ∈ blocks → (hash_key (block_hash block), enc block) ∈ entries.
Proof.
  induction entries as [|[k v] entries IH]; intros Hall; [by exists []; split; [|set_solver]|].
  destruct (Hall k v) as (block & -> & ->); [by left|].
  destruct IH as (blocks & Hd & Hb); [intros k v Hin; apply Hall; by right|].
  exists (block :: blocks). cbn [fmap list_fmap decode_list snd]. rewrite decode_enc, Hd. split; [done|].
  intros b [->|Hin]%elem_of_cons; [by left|right; auto].
Qed.

Lemma runs_blocks tb : readable tb → ∃ blocks, runs load_blocks_by_hash tb (Ok blocks) tb ∧
  ∀ block, block ∈ blocks → kv_get (tb BlocksByHash) (hash_key (block_hash block)) = Some (enc block).
Proof.
  intros [_ Hb]. destruct (decode_entries (kv_iter (tb BlocksByHash))) as (blocks & Hd & Hin).
  { intros k v Hkv. by apply Hb, kv_iter_get. }
  exists blocks. split; [|intros block Hbl; by apply kv_iter_get, Hin].
  apply runs_ro. eapply runs_bind; [apply runs_cursor|]. rewrite <-Hd. apply denotes_decode_list.
Qed.

(** The steps after the ledger is there. *)
Lemma starts_from l c clock st st1 :
  (zoom id (λ s _, s) EStorage ensure_storage_version ;; load_or_create) st = (Ok (Some l), st1) →
  in_sync l (tables st1) → readable (tables st1) → starts l (tables st1) (init_or_load c clock st).
Proof.
  intros Hl Hd Hread. unfold init_or_load. rewrite Hl. destruct st1 as [tb j]. cbn [tables] in *.
  destruct (runs_genesis tb Hread) as [o Ho]. destruct (Ho j) as [j2 ->].
  destruct (with_genesis_accounts l (mkStore tb j2) c _ clock) as [n|] eqn:Hw.
  2: { cbn. unfold with_genesis_accounts in Hw. by destruct (index_chain _ _). }
  pose proof (index_stored_part n) as Hp. pose proof (created_good _ _ _ _ _ _ Hw Hd Hread) as (Hg & El & Et).
  assert (∀ b, b ∈ chain_blocks (chain l) → fc_contains (fork_choice n) (block_hash b) = true) as Hchain.
  { unfold with_genesis_accounts in Hw. apply bind_Some in Hw as (f & Hf & [= <-]).
    by apply index_chain_contains in Hf as [_ Hf]. }
  destruct (runs_blocks tb Hread) as (blocks & Hb & Hin). destruct (Hb j2) as [j3 Eb].
  assert (on_storage load_blocks_by_hash n = (Ok blocks, set_storage (mkStore tb j3) n)) as En.
  { unfold on_storage, zoom. assert (storage n = mkStore tb j2) as ->; [|by rewrite Eb].
    unfold with_genesis_accounts in Hw. apply bind_Some in Hw as (f & _ & [= <-]). done. }
  unfold index_stored_blocks in *. rewrite SE_bind_unfold, En in *. cbn zeta in *. rewrite SE_bind_unfold in *.
  pose proof (index_loop_run _ (sort_by_key block_height blocks) (set_storage (mkStore tb j3) n)
    (Nat.lt_succ_diag_r _)) as Hrun.
  destruct (index_loop _ _ _) as [[fin|e] n2] eqn:Ei in Hp, Hrun |- *.
  - cbn [mret SE_ret snd] in *. split_and!.
    + by rewrite <-El; apply (f_equal (λ p, p.1.1.1.1.1.1)) in Hp.
    + transitivity (tables (storage n)); [by apply (f_equal (λ p, p.1.1.1.1.2)) in Hp|exact Et].
    + by eapply part_good.
  - destruct Hrun as (block & f & g & e' & Hbl & Hmono & Hrest). exists block, f, g, e'. cbn [starts].
    unfold sort_by_key in Hbl. rewrite elem_of_sort_by in Hbl. split_and!; [by apply Hin| |apply Hrest..].
    intros b Hbc. by apply Hmono, Hchain.
Qed.

(** ** The two ways to start *)

Lemma zoom_runs {A} (m : SE Store StorageError A) tb r tb' j : runs m tb r tb' →
  ∃ j', zoom id (λ s _, s) EStorage m (mkStore tb j) = (map_err EStorage r, mkStore tb' j').
Proof. intros Hm. destruct (Hm j) as [j' Hj]. exists j'. unfold zoom, id. by rewrite Hj. Qed.

Lemma zoom_bind {A B} (m : SE Store StorageError A) (f : A → SE Store NodeError B) tb a tb' j :
  runs m tb (Ok a) tb' → ∃ j', (zoom id (λ s _, s) EStorage m ≫= f) (mkStore tb j) = f a (mkStore tb' j').
Proof. intros Hm. destruct (zoom_runs m tb _ _ j Hm) as [j' E]. exists j'. by rewrite SE_bind_unfold, E. Qed.

Lemma runs_version tb : kv_get (tb Meta) STORAGE_VERSION_KEY = Some (enc STORAGE_VERSION) →
  runs ensure_storage_version tb (Ok tt) tb.
Proof. intros Hv. eapply runs_bind; [apply runs_ro; by eapply runs_read_value, decode_enc|apply runs_ret]. Qed.

(** Starting on the database that a node has left gives back that node's
    ledger, and a node in order. *)
Lemma restarts l tb c clock j : in_sync l tb → readable tb → stored_wf l →
  starts l tb (init_or_load c clock (mkStore tb j)).
Proof.
  intros Hd Hr Hwf. pose proof Hd as [_ Hv [tb0 Hag]].
  destruct (last_block l Hwf) as (block & Hb & _).
  assert (runs load_tip tb (Ok (Some (block_height block, block_hash block))) tb) as Htip.
  { apply (denotes_Ok _ _ _ _ denotes_tip_at). rewrite (tip_at_agree _ _ Hag). by apply saved_tip_at. }
  pose proof (in_sync_loads l tb Hd Hwf) as Hl.
  destruct (zoom_bind ensure_storage_version (λ _, load_or_create) tb tt tb j (runs_version _ Hv)) as [j1 E1].
  assert (∃ j2, load_or_create (mkStore tb j1) = (Ok (Some l), mkStore tb j2)) as [j2 E2].
  { unfold load_or_create. match goal with |- context [zoom _ _ _ _ ≫= ?k] =>
      destruct (zoom_bind load_tip k tb _ tb j1 Htip) as [j2 ->] end.
    match goal with |- context [zoom _ _ _ _ ≫= ?k] => destruct (zoom_bind load_ledger k tb _ tb j2 Hl) as [j3 ->] end.
    by exists j3. }
  apply (starts_from l c clock (mkStore tb j) (mkStore tb j2)); [by rewrite E1|done..].
Qed.

(** The tables of a new environment. *)
Definition no_tables : Database_ → Table := λ _, kv_empty.

Lemma iter_no_tables : kv_iter (kv_empty : Table) = [].
Proof.
  destruct (kv_iter kv_empty) as [|[k v] l] eqn:E; [done|]. exfalso.
  assert (kv_get kv_empty k = Some v) as Hk by (apply kv_iter_get; rewrite E; left).
  by rewrite kv_get_empty in Hk.
Qed.

Lemma runs_first_version : runs ensure_storage_version no_tables (Ok tt)
  (put_tb Meta STORAGE_VERSION_KEY (enc STORAGE_VERSION) no_tables).
Proof.
  apply (storage_version_gate no_tables); [apply kv_get_empty|]. intros db _. apply iter_no_tables.
Qed.

Lemma runs_save_genesis accts tb :
  runs (save_genesis_accounts accts) tb (Ok tt) (put_tb GenesisAccounts ACCOUNTS_KEY (enc accts) tb).
Proof. apply runs_rw, runs_put_value. Qed.

(** Nothing is stray when only blocks of the ledger are stored. *)
Lemma no_stray l tb e : (∀ k v, kv_get (tb BlocksByHash) k = Some v → ledger_record l BlocksByHash k v) →
  ¬ stray_block l tb e.
Proof.
  intros Hall (block & f & g & e' & Hk & Hf & Hc & _).
  apply Hall, record_hash_inv in Hk as (b & Hb & _ & Ev).
  assert (b = block) as ->.
  { apply (f_equal (λ v, decode (A := Block) v)) in Ev. rewrite !decode_enc in Ev. congruence. }
  apply Hf in Hb. congruence.
Qed.

(** Starting on a new database saves the ledger of the genesis block and
    starts its node: the database never makes it fail. *)
Lemma starts_first l c clock j :
  block_hash genesis_block = GENESIS_HASH → ledger_apply_block genesis_block ledger_new = (Ok tt, l) → stored_wf l →
  ∃ tb, in_sync l tb ∧ readable tb ∧ starts l tb (init_or_load c clock (mkStore no_tables j)) ∧
    ∃ o, init_or_load c clock (mkStore no_tables j) = Ok o.
Proof.
  intros Hg Hl Hwf. set (tb1 := put_tb Meta STORAGE_VERSION_KEY (enc STORAGE_VERSION) no_tables).
  assert (small l) as Hs by exact (sw_txs _ Hwf).
  assert (kv_get (tb1 Meta) STORAGE_VERSION_KEY = Some (enc STORAGE_VERSION)) as Hv.
  { unfold tb1. by rewrite put_tb_eq, kv_get_put, decide_True. }
  assert (runs load_tip tb1 (Ok None) tb1) as Htip.
  { apply (denotes_Ok _ _ _ _ denotes_tip_at). unfold tip_at, tb1.
    rewrite put_tb_eq, kv_get_put, decide_False by discriminate. unfold no_tables. by rewrite kv_get_empty. }
  set (tb2 := ledger_tables l tb1). set (tb3 := put_tb GenesisAccounts ACCOUNTS_KEY (enc (accounts l)) tb2).
  assert (in_sync l tb3) as Hd.
  { split; [done|unfold tb3, tb2; by rewrite put_tb_ne, saved_version|].
    exists tb1. intros db Hdb. unfold tb3. rewrite put_tb_ne by set_solver. done. }
  assert (readable tb3) as Hr by apply put_genesis_readable, saved_readable, put_meta_readable, empty_readable.
  exists tb3. split; [done|]. split; [done|].
  destruct (zoom_bind ensure_storage_version (λ _, load_or_create) no_tables tt tb1 j runs_first_version) as [j1 E1].
  assert (∃ j2, load_or_create (mkStore tb1 j1) = (Ok (Some l), mkStore tb3 j2)) as [j2 E2].
  { unfold load_or_create. match goal with |- context [zoom _ _ _ load_tip ≫= ?k] =>
      destruct (zoom_bind load_tip k tb1 _ tb1 j1 Htip) as [j2 ->] end. cbn zeta.
    rewrite bool_decide_eq_false_2 by naive_solver. rewrite Hl.
    match goal with |- context [zoom _ _ _ (save_ledger l) ≫= ?k] =>
      destruct (zoom_bind (save_ledger l) k tb1 _ tb2 j2 (runs_save_ledger _ _ Hs)) as [j3 ->] end.
    match goal with |- context [zoom _ _ _ (save_genesis_accounts _) ≫= ?k] =>
      destruct (zoom_bind (save_genesis_accounts (accounts l)) k tb2 _ tb3 j3 (runs_save_genesis _ _)) as [j4 ->] end.
    by exists j4. }
  assert (starts l tb3 (init_or_load c clock (mkStore no_tables j))) as Hstarts.
  { apply (starts_from l c clock (mkStore no_tables j) (mkStore tb3 j2)); [by rewrite E1|done..]. }
  split; [done|]. destruct (init_or_load _ _ _) as [o|e]; [by eexists|]. exfalso. revert Hstarts. apply no_stray.
  intros k v. unfold tb3. rewrite put_tb_ne by done. intros [Hk|Hk]%saved_get_cases; [done| |set_solver].
  unfold tb1, no_tables in Hk. rewrite put_tb_ne in Hk by done. by rewrite kv_get_empty in Hk.
Qed.

(** C3: while the engine works, a node starts from nothing, and from what a node
    left.  On a new database, with a well-formed genesis, it is the node of the genesis block and
    there is no error; on the database of a node in order whose ledger is well
    formed it is a node with that ledger on the same tables.  Either way the node
    that starts is in order.  The alternatives are the panic of a fork choice
    that refuses the chain of the ledger itself, and, on a database a node left,
    one kind of error: a stored block outside the ledger that a fork choice
    holding the ledger's chain refuses although it knows its parent.  The
    database itself is never the reason. *)
Theorem node_starts c clock j :
  (∀ l, block_hash genesis_block = GENESIS_HASH → ledger_apply_block genesis_block ledger_new = (Ok tt, l) →
    stored_wf l → ∃ tb, in_sync l tb ∧ starts l tb (init_or_load c clock (mkStore no_tables j)) ∧
      ∃ o, init_or_load c clock (mkStore no_tables j) = Ok o) ∧
  (∀ n, node_good n → stored_wf (ledger n) →
    starts (ledger n) (tables (storage n)) (init_or_load c clock (mkStore (tables (storage n)) j))).
Proof.
  split.
  - intros l Hg Hl Hwf. destruct (starts_first l c clock j Hg Hl Hwf) as (tb & Hd & _ & Hs). by exists tb.
  - intros n Hn Hwf. by apply restarts; [apply good_database|apply good_records|].
Qed.

End start.
End NodeStart.
