(* ===== verification/NodeDemo.v ===== *)
(** * NodeDemo: a running node on the demo protocol

    The laws of the node's theorems hold for the demo protocol, and the
    theorems are applied to a node that takes blocks, orphans and a switch of
    branch. *)

From S2P Require Import Prelude Collections Core Demo Mempool Miner Cache Bytes Storage StorageFacts.
From S2P Require Import StorageLedger StorageReads StorageSaved StorageDemo StorageProps.
From S2P Require Import Node NodeFacts NodeProps NodeSync NodeIndex.

Module NodeDemo.
Import Demo Storage StorageFacts StorageLedger StorageReads StorageSaved StorageDemo.
Import Node NodeFacts NodeProps NodeSync NodeIndex.

#[export] Instance demo_clock : Clock := {| wall _ := 7000 |}.

(** ** The laws hold *)

Lemma fork_get_app f b h :
  fork_get (f ++ [b]) h =
  match fork_get f h with
  | Some n => Some n
  | None => if bool_decide (blk_hash b = h) then Some (node_of b) else None
  end.
Proof.
  unfold fork_get. induction f as [|x f IH]; cbn [app find fmap option_fmap option_map].
  - by destruct (bool_decide (blk_hash b = h)).
  - by destruct (bool_decide (blk_hash x = h)).
Qed.

#[export] Instance demo_fork_choice_laws : ForkChoiceLaws.
Proof.
  split; intros b f h f'; cbn; unfold fork_insert; repeat case_match; intros; simplify_eq; [|done..].
  split_and!; [done| |].
  - apply bool_decide_eq_true. rewrite fork_get_app. destruct (fork_get f (blk_hash b)); [done|].
    by rewrite bool_decide_eq_true_2.
  - intros x Hx%bool_decide_eq_true. apply bool_decide_eq_true. rewrite fork_get_app.
    by destruct (fork_get f x); [|destruct Hx].
Qed.

Lemma chain_extends_small c b : chain_extends c b = true → Z.of_nat (length (b_txs b)) ≤ u32_max.
Proof.
  unfold chain_extends. intros [Hb%bool_decide_eq_true _]%andb_true_iff. unfold u32_max. lia.
Qed.

#[export] Instance demo_ledger_laws : LedgerLaws.
Proof.
  split; [| |done].
  - intros b l l'. cbn. unfold ledger_apply. case_match; [|done].
    case_match eqn:E; [|done].
    intros [= <-]. split; [by eapply chain_extends_small|]. cbn. set_solver.
  - intros b c c'. cbn. unfold chain_insert. destruct (chain_extends c b) eqn:E; [|done].
    intros [= <-]. split; [by eapply chain_extends_small|]. set_solver.
Qed.

(** ** Blocks: one on the active chain, two on a branch *)

Definition with_root (l : @Ledger (@paqus_types demo)) (b : @Block (@paqus_types demo)) :
    @Block (@paqus_types demo) :=
  match state_root_after_block l b with Ok r => set_state_root r b | Err _ => b end.

Definition block_a : @Block (@paqus_types demo) :=
  with_root ledger0 (mkBlk 1 (blk_hash demo_genesis) 9 0 6000 1 None [] 0).
Definition block_b1 : @Block (@paqus_types demo) :=
  with_root ledger0 (mkBlk 1 (blk_hash demo_genesis) 8 0 6000 2 None [tx0] 0).
Definition ledger_b1 : @Ledger (@paqus_types demo) := (ledger_apply_block block_b1 ledger0).2.
Definition block_b2 : @Block (@paqus_types demo) :=
  with_root ledger_b1 (mkBlk 2 (block_hash block_b1) 8 0 6500 3 None [] 0).
(** A block with a wrong state root. *)
Definition block_bad : @Block (@paqus_types demo) :=
  mkBlk 1 (blk_hash demo_genesis) 9 0 6000 4 None [tx0] 12345.

Definition store0 : Store := mkStore (ledger_tables ledger0 fresh_tables) 0.
Definition idle : Node :=
  mkNode ledger0 Mempool.new store0 0 (Cache.from_ledger ledger0) fc_new ∅ ∅ ∅ [] ∅ ∅ 0.
Definition node0 : Node :=
  default idle (with_genesis_accounts ledger0 store0 0 genesis_accts 0).

(** The node after the active block, with a pending payment. *)
Definition node1 : Node := (submit_transaction tx0 (apply_block block_a node0).2).2.
(** The node after the first block of the branch, which it keeps aside. *)
Definition node2 : Node := (apply_block block_b1 node1).2.
(** The node after the branch has overtaken the active chain. *)
Definition node3 : Node := (apply_block block_b2 node2).2.

Lemma node0_created : with_genesis_accounts ledger0 store0 0 genesis_accts 0 = Some node0.
Proof. reflexivity. Qed.

Example demo_run :
  tip_hash (ledger node1) = Some (block_hash block_a) ∧
  tip_hash (ledger node2) = Some (block_hash block_a) ∧
  tip_hash (ledger node3) = Some (block_hash block_b2).
Proof. by_eval. Qed.

(** ** Witnesses *)

(** The second block of the branch arrives first. *)
Definition node_orphan : Node := (apply_block block_b2 node0).2.

Lemma node_orphan_wf : orphans_wf [] node_orphan.
Proof. apply (node_step_wf node0); [constructor|exact (new_node_wf _ _ _ _ _ _ node0_created)]. Qed.

Lemma orphan_pool_invariant_witness :
  size (orphan_blocks node_orphan) = 1%nat ∧
  orphans_wf [] (apply_block block_b1 node_orphan).2.
Proof.
  split; [by_eval|].
  apply (orphan_pool_invariant ledger0 store0 0 genesis_accts 0 node0); [apply node0_created|].
  eapply rtc_l; [apply (step_apply block_b2)|]. apply rtc_once, (step_apply block_b1).
Defined.


Lemma drain_exact_witness :
  (drain_missing_parent_requests_at 7000 node_orphan).1 = [block_hash block_b1] ∧
  let '(ready, n') := drain_missing_parent_requests_at 7000 node_orphan in
  ready = filter (due 7000 node_orphan) (missing_parent_requests node_orphan) ∧
  missing_parent_requests n' =
    filter (λ h, ¬ due 7000 node_orphan h) (missing_parent_requests node_orphan) ∧
  (∀ h, h ∈ ready → h ∉ missing_parent_request_set n' ∧ missing_parent_retry_at n' !! h = None) ∧
  (drain_missing_parent_requests_at 7000 n').1 = [] ∧ orphans_wf [] n'.
Proof. split; [by_eval|]. apply (drain_exact 7000 node_orphan), node_orphan_wf. Defined.

Lemma pending_balance_sums_witness :
  pending_balance node1 alice = mkPending 0 12 ∧
  pending_balance node1 alice = mkPending
    (Z.min u32_max (sumZ (tx_amount <$> filter (λ tx, tx_to tx = alice)
      (Mempool.pending (mempool node1)))))
    (Z.min u32_max (sumZ ((λ tx, tx_amount tx + tx_fee tx) <$>
      filter (λ tx, tx_from tx = alice) (Mempool.pending (mempool node1))))).
Proof. split; [by_eval|]. apply (pending_balance_sums node1 alice). by_eval. Defined.

Lemma node0_synced : synced node0.
Proof.
  split.
  - intros b. change (chain_blocks (chain (ledger node0))) with [demo_genesis].
    rewrite list_elem_of_singleton. by intros ->.
  - exact (eq_trans (saved_version ledger0 fresh_tables) eq_refl).
  - by exists fresh_tables.
Qed.

Lemma node3_blocks : chain_blocks (chain (ledger node3)) = [demo_genesis; block_b1; block_b2].
Proof. by vm_compute. Qed.

Lemma node3_accounts :
  map_Forall (λ a x, account_address x = a ∧ 0 ≤ a < 256 ^ Z.of_nat ADDRESS_SIZE)
    (accounts (ledger node3)).
Proof. by_eval. Qed.

Lemma node3_stored_wf : stored_wf (ledger node3).
Proof.
  split; rewrite ?node3_blocks.
  - discriminate.
  - by intros [|[|[|i]]] block; cbn [lookup list_lookup]; intros Hb; simplify_eq; vm_compute.
  - by vm_compute.
  - intros block Hb. cbn in Hb. injection Hb as <-. by vm_compute.
  - intros [|[|i]] block next Hb Hn; cbn [lookup list_lookup] in Hb, Hn; simplify_eq; by vm_compute.
  - intros block. rewrite !elem_of_cons, elem_of_nil.
    intros [->|[->|[->|[]]]]; unfold fits; split; by vm_compute.
  - intros block. rewrite !elem_of_cons, elem_of_nil. intros [->|[->|[->|[]]]]; by vm_compute.
  - apply node3_accounts.
  - by vm_compute.
  - by vm_compute.
  - replace (chain (ledger node3)) with [demo_genesis; block_b1; block_b2] by (by vm_compute).
    do 3 (econstructor; [by vm_compute|]). constructor.
  - reflexivity.
Qed.

Lemma restart_recovers_ledger_witness :
  runs load_ledger (tables (storage node3)) (Ok (ledger node3)) (tables (storage node3)).
Proof.
  apply (restart_recovers_ledger node0); [apply node0_synced| |apply node3_stored_wf].
  unfold node3, node2, node1. eapply rtc_l; [apply (step_apply block_a)|]. eapply rtc_l; [apply (step_submit tx0)|].
  eapply rtc_l; [apply (step_apply block_b1)|]. apply rtc_once, (step_apply block_b2).
Defined.

(** A database with the branch aside, opened by a node that knows genesis. *)
Definition node_start : Node := set_storage (storage node3) node0.

Definition start_blocks : list (@Block (@paqus_types demo)) :=
  match (on_storage load_blocks_by_hash node_start).1 with Ok l => l | Err _ => [] end.

Lemma stored_blocks_indexed_witness :
  length start_blocks = 4%nat ∧
  match index_stored_blocks node_start with
  | (Ok _, n') =>
      (index_loop (S (length start_blocks)) (sort_by_key block_height start_blocks)
        (on_storage load_blocks_by_hash node_start).2).1 = Ok true ∧
      (∀ x, fc_contains (fork_choice node_start) x = true → fc_contains (fork_choice n') x = true) ∧
      ∀ block, block ∈ start_blocks → known n' block ∨ parentless n' block
  | (Err e, _) => ∃ e', e = EForkChoice e' ∧ e' ≠ MissingParent
  end.
Proof.
  split; [by_eval|].
  apply (stored_blocks_indexed node_start start_blocks (on_storage load_blocks_by_hash node_start).2).
  apply run_eq. by_eval.
Defined.

Lemma accepted_block_outcome_witness :
  fc_insert_block block_a (fork_choice node0) =
    (Ok (block_hash block_a), fork_choice (apply_known_parent_block block_a node0).2).
Proof.
  refine (proj1 (accepted_block_outcome block_a node0 (apply_known_parent_block block_a node0).2 _)).
  apply run_eq. by_eval.
Defined.

(** The fork choice has learnt the branch; the payment of its first block is
    pending, and is still pending after the switch. *)
Definition node_fork : Node :=
  set_fork_choice (fc_insert_block block_b2 (fork_choice node2)).2 node2.

Lemma reorg_leaves_pool_witness :
  mempool (reorg_to_best_tip node_fork).2 = mempool node_fork ∧
  Mempool.pending (mempool (reorg_to_best_tip node_fork).2) = [tx0] ∧
  tx0 ∈ block_transactions block_b1 ∧
  ledger_block (ledger (reorg_to_best_tip node_fork).2) 1 = Some block_b1.
Proof.
  split; [|split_and!; by_eval].
  apply (reorg_leaves_pool node_fork); [apply run_eq; by_eval|by_eval].
Defined.

End NodeDemo.
