(* ===== verification/Network.v ===== *)
(** * Network: messages, framing and the message handler
    ([src/runtime/network])

    [Module Network] translates [message.rs], [transport.rs], [peer.rs] and
    [handler.rs].  The chain parameters and the Borsh codec of an envelope are
    parameters; the traits [Read] and [Write] are classes, with byte buffers as
    instances. *)

From S2P Require Import Prelude Collections Core Demo Mempool Bytes Storage StorageDemo Cache Node.
From S2P Require Import NodeFacts NodeProps NodeDemo.

Open Scope string_scope.
Open Scope list_scope.
Open Scope Z_scope.

Module Network.
Import Node.

(** ** Parameters *)

(** [paqus::params::CURRENT_CHAIN_PARAMS] *)
Class ChainParams := {
  cp_protocol_version : Z;
  cp_chain_id : Z;
  cp_chain_name : string;
  cp_protocol_stage : string;
  cp_network_magic : bytes;
}.

(** [std::io::Write] and [std::io::Read]; errors are codes of [io::Error]. *)
Class Write (W : Type) := { write_all : bytes → SE W Z () }.
Class Read (R : Type) := { read_exact : nat → SE R Z bytes }.

(** [Vec<u8>] collects what is written; [Cursor<Vec<u8>>] fails with
    [UnexpectedEof] when too few bytes are left. *)
Definition UNEXPECTED_EOF : Z := 1.
#[export] Instance buffer_write : Write bytes := {| write_all b buf := (Ok tt, buf ++ b) |}.
#[export] Instance buffer_read : Read bytes := {|
  read_exact n buf :=
    if bool_decide (n ≤ length buf)%nat then (Ok (take n buf), drop n buf)
    else (Err UNEXPECTED_EOF, [])
|}.

(** ** Messages *)

Record PeerInfo := mkPeerInfo { address : string }.

Record TipInfo := mkTipInfo { ti_height : Height; ti_hash : BlockHash }.

Record VersionInfo := mkVersionInfo {
  protocol_version : Z;
  chain_id : Z;
  chain_name : string;
  protocol_stage : string;
  network_magic : bytes;
  vi_tip : option TipInfo;
}.

Inductive RejectReason :=
  | ProtocolVersionMismatch
  | ChainMismatch
  | NetworkMismatch
  | InvalidMessage.

#[export] Instance PeerInfo_eq_dec : EqDecision PeerInfo.
Proof. solve_decision. Defined.
#[export] Instance TipInfo_eq_dec : EqDecision TipInfo.
Proof. solve_decision. Defined.
#[export] Instance VersionInfo_eq_dec : EqDecision VersionInfo.
Proof. solve_decision. Defined.
#[export] Instance RejectReason_eq_dec : EqDecision RejectReason.
Proof. solve_decision. Defined.

Inductive NetworkError :=
  | MessageTooLarge
  | NodeErr (error : NodeError)
  | Io (error : Z)
  | Serialization (error : Z).

Section messages.
Context `{Paqus}.

Inductive NetworkMessage :=
  | Version (version : VersionInfo)
  | VerAck (version : VersionInfo)
  | Reject (reason : RejectReason) (message : string)
  | Ping (nonce : Z)
  | Pong (nonce : Z)
  | GetTip
  | Tip (tip : TipInfo)
  | GetBlockByHeight (height : Height)
  | GetBlockByHash (hash : BlockHash)
  | BlockMessage (block : Block)
  | TransactionMessage (transaction : SignedTransaction)
  | GetPeers
  | Peers (peers : list PeerInfo).

#[export] Instance NetworkMessage_eq_dec : EqDecision NetworkMessage.
Proof. solve_decision. Defined.

Record NetworkEnvelope := mkEnvelope {
  magic : bytes;
  message : NetworkMessage;
}.

Context `{!ChainParams}.

Definition local (tip : option TipInfo) : VersionInfo :=
  mkVersionInfo cp_protocol_version cp_chain_id cp_chain_name cp_protocol_stage cp_network_magic tip.

Definition validate_compatibility (v : VersionInfo) : result RejectReason () :=
  if bool_decide (network_magic v ≠ cp_network_magic) then Err NetworkMismatch
  else if bool_decide (chain_id v ≠ cp_chain_id) || bool_decide (chain_name v ≠ cp_chain_name) ||
          bool_decide (protocol_stage v ≠ cp_protocol_stage)
  then Err ChainMismatch
  else if bool_decide (protocol_version v ≠ cp_protocol_version) then Err ProtocolVersionMismatch
  else Ok tt.

Definition new_envelope (m : NetworkMessage) : NetworkEnvelope := mkEnvelope cp_network_magic m.
Definition to_envelope (m : NetworkMessage) : NetworkEnvelope := new_envelope m.

Context `{!Borsh NetworkEnvelope}.

Definition to_bytes (e : NetworkEnvelope) : result NetworkError bytes :=
  b ← map_err Serialization (encode e);
  if bool_decide (MAX_NETWORK_MESSAGE_SIZE < Z.of_nat (length b)) then Err MessageTooLarge else Ok b.

Definition from_bytes (b : bytes) : result NetworkError NetworkEnvelope :=
  if bool_decide (MAX_NETWORK_MESSAGE_SIZE < Z.of_nat (length b)) then Err MessageTooLarge
  else
    e ← map_err Serialization (decode b);
    if bool_decide (magic e ≠ cp_network_magic) then Err (Serialization Storage.INVALID_DATA)
    else Ok e.

(** ** Framing *)

Definition MESSAGE_LENGTH_SIZE : nat := 4.

(** [map_err(NetworkError::Io)] on an operation of the stream. *)
Definition io {S A} (m : SE S Z A) : SE S NetworkError A := zoom id (λ s _, s) Io m.

Definition write_message {W} `{!Write W} (e : NetworkEnvelope) : SE W NetworkError () :=
  b ← lift (to_bytes e);
  if bool_decide (u32_max < Z.of_nat (length b)) then throw MessageTooLarge
  else
    io (write_all (be_bytes MESSAGE_LENGTH_SIZE (Z.of_nat (length b)))) ;;
    io (write_all b).

Definition read_message {R} `{!Read R} : SE R NetworkError NetworkEnvelope :=
  length_bytes ← io (read_exact MESSAGE_LENGTH_SIZE);
  let len := be_value length_bytes in
  if bool_decide (MAX_NETWORK_MESSAGE_SIZE < len) then throw MessageTooLarge
  else
    b ← io (read_exact (Z.to_nat len));
    lift (from_bytes b).

(** [Peer::send], [Peer::send_envelope] and [Peer::recv] over the stream of the peer. *)
Record Peer (S : Type) := mkPeer { stream : S; info : PeerInfo }.
Arguments mkPeer {S} _ _.
Arguments stream {S} _.
Arguments info {S} _.

Definition on_stream {S A} (m : SE S NetworkError A) : SE (Peer S) NetworkError A :=
  zoom stream (λ s p, mkPeer s (info p)) id m.

Definition send {S} `{!Write S} (m : NetworkMessage) : SE (Peer S) NetworkError () :=
  on_stream (write_message (to_envelope m)).
Definition send_envelope {S} `{!Write S} (e : NetworkEnvelope) : SE (Peer S) NetworkError () :=
  on_stream (write_message e).
Definition recv {S} `{!Read S} : SE (Peer S) NetworkError NetworkEnvelope := on_stream read_message.

(** ** The handler *)

Context `{Kv, Lmdb, Clock, !Storage.Codecs}.

Definition tip_info (n : Node) : option TipInfo :=
  match node_tip_height n, node_tip_hash n with
  | Some height, Some hash => Some (mkTipInfo height hash)
  | _, _ => None
  end.

Definition local_version (n : Node) : VersionInfo := local (tip_info n).

Definition on_node {A} (m : SE Node NodeError A) : SE Node NetworkError A :=
  zoom id (λ n _, n) NodeErr m.

Definition handle_message (m : NetworkMessage) : SE Node NetworkError (option NetworkMessage) :=
  match m with
  | Version version =>
      n ← get_state;
      match validate_compatibility version with
      | Ok _ => mret (Some (VerAck (local_version n)))
      | Err reason => mret (Some (Reject reason "incompatible peer version"))
      end
  | VerAck _ => mret None
  | Reject _ _ => mret None
  | Ping nonce => mret (Some (Pong nonce))
  | Pong _ => mret None
  | GetTip => n ← get_state; mret (Tip <$> tip_info n)
  | Tip _ => mret None
  | GetBlockByHeight height => n ← get_state; mret (BlockMessage <$> ledger_block (ledger n) height)
  | GetBlockByHash hash =>
      n ← get_state; mret (BlockMessage <$> Cache.block_by_hash (cache n) hash)
  | BlockMessage block => on_node (apply_block block) ;; mret None
  | TransactionMessage transaction => on_node (submit_transaction transaction) ;; mret None
  | GetPeers => mret (Some (Peers []))
  | Peers _ => mret None
  end.

End messages.
End Network.

Module NetworkProps.
Import Storage Node NodeFacts NodeProps Network.

Section props.
Context `{Paqus, !ChainParams, !Borsh NetworkEnvelope}.

Lemma to_bytes_Ok e b :
  to_bytes e = Ok b ↔ encode e = Ok b ∧ Z.of_nat (length b) ≤ MAX_NETWORK_MESSAGE_SIZE.
Proof.
  unfold to_bytes. rewrite result_bind_Ok. split.
  - intros (b' & Hb%map_err_Ok & Hc). case_bool_decide; simplify_eq. split; [done|lia].
  - intros [He Hl]. exists b. rewrite He. cbn. rewrite bool_decide_eq_false_2 by lia. done.
Qed.

(** Reading exactly the first part of a buffer. *)
Lemma read_exact_app l r n : length l = n → io (read_exact n) (l ++ r) = (Ok l, r).
Proof.
  intros <-. unfold io, zoom. cbn [read_exact buffer_read]. unfold id.
  rewrite bool_decide_eq_true_2 by (rewrite length_app; lia).
  by rewrite take_app_length, drop_app_length.
Qed.

(** The frame of an envelope that fits the limit. *)
Definition frame_of (b : bytes) : bytes := be_bytes MESSAGE_LENGTH_SIZE (Z.of_nat (length b)) ++ b.

Lemma write_message_run e b before :
  encode e = Ok b → Z.of_nat (length b) ≤ MAX_NETWORK_MESSAGE_SIZE →
  write_message e before = (Ok tt, before ++ frame_of b).
Proof.
  intros Hb Hlen. unfold write_message. rewrite SE_bind_lift. unfold MAX_NETWORK_MESSAGE_SIZE in Hlen.
  rewrite (proj2 (to_bytes_Ok e b)) by (unfold MAX_NETWORK_MESSAGE_SIZE; split; [done|lia]).
  rewrite bool_decide_eq_false_2 by (unfold u32_max; lia).
  rewrite SE_bind_unfold. cbn. by rewrite <-app_assoc.
Qed.

Lemma read_message_run `{!BorshLaws NetworkEnvelope} e b after :
  magic e = cp_network_magic → encode e = Ok b → Z.of_nat (length b) ≤ MAX_NETWORK_MESSAGE_SIZE →
  read_message (frame_of b ++ after) = (Ok e, after).
Proof.
  intros Hmagic Hb Hlen. unfold MAX_NETWORK_MESSAGE_SIZE in Hlen. unfold frame_of, read_message.
  rewrite SE_bind_unfold, <-app_assoc, read_exact_app by apply length_be_bytes.
  rewrite be_value_bytes_small by (unfold MESSAGE_LENGTH_SIZE; cbn; lia).
  cbn zeta. rewrite bool_decide_eq_false_2 by (unfold MAX_NETWORK_MESSAGE_SIZE; lia).
  rewrite SE_bind_unfold, read_exact_app by (by rewrite Nat2Z.id). unfold lift, from_bytes.
  rewrite bool_decide_eq_false_2 by (unfold MAX_NETWORK_MESSAGE_SIZE; lia).
  rewrite (decode_encode _ _ Hb). cbn. by rewrite bool_decide_eq_false_2 by naive_solver.
Qed.

(** C35: what one node writes another reads: an envelope of this network that
    fits the size limit, written after any bytes and followed by any bytes, is
    read back as it was, and the reader stops at its end; one that does not
    fit is refused and nothing is written. *)
Theorem frame_round_trip `{!BorshLaws NetworkEnvelope} e before after :
  magic e = cp_network_magic →
  match write_message e before with
  | (Ok _, out) => ∃ frame, out = before ++ frame ∧
      read_message (frame ++ after) = (Ok e, after)
  | (Err err, out) => err = MessageTooLarge ∧ out = before ∧
      ∃ b, encode e = Ok b ∧ MAX_NETWORK_MESSAGE_SIZE < Z.of_nat (length b)
  end.
Proof.
  intros Hmagic. destruct (encode_total e) as [b Hb].
  destruct (Z_le_gt_dec (Z.of_nat (length b)) MAX_NETWORK_MESSAGE_SIZE) as [Hlen|Hlen].
  - rewrite (write_message_run e b) by done. exists (frame_of b). split; [done|]. by apply read_message_run.
  - unfold write_message. rewrite SE_bind_lift. unfold to_bytes. rewrite Hb. cbn.
    rewrite bool_decide_eq_true_2 by lia. split_and!; [done|done|]. exists b. split; [done|lia].
Qed.

(** A frame that announces more bytes than the limit is refused after its
    four length bytes, without reading or allocating the body. *)
Theorem oversized_frame_refused len rest :
  MAX_NETWORK_MESSAGE_SIZE < len ≤ u32_max →
  read_message (be_bytes MESSAGE_LENGTH_SIZE len ++ rest) = (Err MessageTooLarge, rest).
Proof.
  intros Hlen. unfold MAX_NETWORK_MESSAGE_SIZE, u32_max in Hlen. unfold read_message. rewrite SE_bind_unfold.
  rewrite read_exact_app by apply length_be_bytes.
  rewrite be_value_bytes_small by (unfold MESSAGE_LENGTH_SIZE; cbn; lia). cbn zeta.
  by rewrite bool_decide_eq_true_2 by (unfold MAX_NETWORK_MESSAGE_SIZE; lia).
Qed.

Context `{Kv, Lmdb, Clock, !Storage.Codecs}.

(** Nodes of the same chain complete a handshake: the receiver answers
    with its own version and tip, which the sender accepts; a peer of another
    network, chain or protocol version is rejected with the first difference,
    and the node is unchanged in each case. *)
Theorem handshake_outcome (v : VersionInfo) (n : Node) :
  handle_message (Version v) n =
    (Ok (Some (match validate_compatibility v with
               | Ok _ => VerAck (local_version n)
               | Err reason => Reject reason "incompatible peer version"
               end)), n) ∧
  validate_compatibility (local_version n) = Ok tt ∧
  (validate_compatibility v = Ok tt ↔ v = local (vi_tip v)) ∧
  (validate_compatibility v = Err NetworkMismatch ↔ network_magic v ≠ cp_network_magic).
Proof.
  split_and!.
  - cbn. rewrite SE_bind_get. by destruct (validate_compatibility v).
  - unfold validate_compatibility, local_version, local. cbn.
    by rewrite !bool_decide_eq_false_2 by naive_solver.
  - unfold validate_compatibility, local. destruct v as [pv ci cn ps nm tip]. cbn.
    repeat case_bool_decide; cbn; naive_solver.
  - unfold validate_compatibility. destruct v as [pv ci cn ps nm tip]. cbn.
    repeat case_bool_decide; cbn; naive_solver.
Qed.

(** A message that asks or informs, without a block or a transaction. *)
Definition is_query (m : NetworkMessage) : bool :=
  match m with BlockMessage _ | TransactionMessage _ => false | _ => true end.

(** Only blocks and transactions change the node; every other message is
    answered without an error from the node as it is.  Messages of any kind
    keep the orphan pool and the request queue well formed. *)
Theorem messages_preserve_node m n :
  (is_query m = true → ∃ reply, handle_message m n = (Ok reply, n)) ∧
  (orphans_wf [] n → orphans_wf [] (handle_message m n).2).
Proof.
  split.
  - destruct m; try done; intros _; cbn; rewrite ?SE_bind_get; eauto.
    destruct (validate_compatibility _); eauto.
  - intros Hn. destruct m; cbn; rewrite ?SE_bind_get; try done.
    + by destruct (validate_compatibility _).
    + rewrite SE_bind_unfold. unfold on_node, zoom, id. pose proof (apply_block_wf block n Hn) as Hw.
      by destruct (apply_block block n) as [[[]|] n'].
    + rewrite SE_bind_unfold. unfold on_node, zoom, id.
      pose proof (node_step_wf _ _ (step_submit transaction n) Hn) as Hw.
      by destruct (submit_transaction transaction n) as [[]].
Qed.

End props.

(** ** Witnesses on the demo protocol *)

Import Demo StorageDemo NodeDemo.

#[export] Instance demo_chain_params : ChainParams := {|
  cp_protocol_version := 1; cp_chain_id := 7; cp_chain_name := "paqus";
  cp_protocol_stage := "devnet"; cp_network_magic := [80; 65; 81; 83];
|}.

(** A codec of messages: a tag, integers, strings, a block and a transaction. *)
Definition Payload : Type := Z * list Z * list string * option Blk * option Tx.

Definition version_ints (v : VersionInfo) : list Z :=
  protocol_version v :: chain_id v ::
  match vi_tip v with Some t => [1; ti_height t; ti_hash t] | None => [0; 0; 0] end ++
  network_magic v.

Definition to_payload (m : NetworkMessage) : Payload :=
  match m with
  | Version v => (0, version_ints v, [chain_name v; protocol_stage v], None, None)
  | VerAck v => (1, version_ints v, [chain_name v; protocol_stage v], None, None)
  | Reject ProtocolVersionMismatch s => (2, [0], [s], None, None)
  | Reject ChainMismatch s => (2, [1], [s], None, None)
  | Reject NetworkMismatch s => (2, [2], [s], None, None)
  | Reject InvalidMessage s => (2, [3], [s], None, None)
  | Ping x => (3, [x], [], None, None)
  | Pong x => (4, [x], [], None, None)
  | GetTip => (5, [], [], None, None)
  | Tip t => (6, [ti_height t; ti_hash t], [], None, None)
  | GetBlockByHeight h => (7, [h], [], None, None)
  | GetBlockByHash h => (8, [h], [], None, None)
  | BlockMessage b => (9, [], [], Some (b : Blk), None)
  | TransactionMessage t => (10, [], [], None, Some (t : Tx))
  | GetPeers => (11, [], [], None, None)
  | Peers l => (12, [], address <$> l, None, None)
  end.

Definition of_version (ints : list Z) (strs : list string) : VersionInfo :=
  match ints, strs with
  | pv :: ci :: t :: h :: s :: m, [name; stage] =>
      mkVersionInfo pv ci name stage m (if bool_decide (t = 1) then Some (mkTipInfo h s) else None)
  | _, _ => mkVersionInfo 0 0 EmptyString EmptyString [] None
  end.

Definition of_payload (p : Payload) : NetworkMessage :=
  match p with
  | (0, ints, strs, _, _) => Version (of_version ints strs)
  | (1, ints, strs, _, _) => VerAck (of_version ints strs)
  | (2, [0], [s], _, _) => Reject ProtocolVersionMismatch s
  | (2, [1], [s], _, _) => Reject ChainMismatch s
  | (2, [2], [s], _, _) => Reject NetworkMismatch s
  | (2, _, [s], _, _) => Reject InvalidMessage s
  | (3, [x], _, _, _) => Ping x
  | (4, [x], _, _, _) => Pong x
  | (6, [h; s], _, _, _) => Tip (mkTipInfo h s)
  | (7, [h], _, _, _) => GetBlockByHeight h
  | (8, [h], _, _, _) => GetBlockByHash h
  | (9, _, _, Some b, _) => BlockMessage (b : @Block (@paqus_types demo))
  | (10, _, _, _, Some t) => TransactionMessage (t : @SignedTransaction (@paqus_types demo))
  | (11, _, _, _, _) => GetPeers
  | (12, _, strs, _, _) => Peers (mkPeerInfo <$> strs)
  | _ => GetTip
  end.

Lemma of_to_payload m : of_payload (to_payload m) = m.
Proof.
  assert (∀ v, of_version (version_ints v) [chain_name v; protocol_stage v] = v) as Hv
    by (by intros [? ? ? ? ? [[]|]]).
  assert (∀ l : list PeerInfo, mkPeerInfo <$> (address <$> l) = l) as Hp.
  { intros l. induction l as [|[a] l IH]; csimpl; [done|]. by f_equal. }
  destruct m as [v|v|[] s| | | |[]| | | | | |l]; try done;
    cbn [to_payload of_payload]; by rewrite ?Hv, ?Hp.
Qed.

#[export] Instance demo_message_countable : Countable (@NetworkMessage demo) :=
  inj_countable' to_payload of_payload of_to_payload.

#[export] Instance demo_envelope_eq_dec : EqDecision (@NetworkEnvelope demo).
Proof. solve_decision. Defined.
#[export] Instance demo_envelope_countable : Countable (@NetworkEnvelope demo) := inj_countable'
  (λ e, (magic e, message e)) (λ '(a, b), mkEnvelope a b)
  (λ e, match e with mkEnvelope _ _ => eq_refl end).

#[export] Instance demo_envelope_borsh : Borsh (@NetworkEnvelope demo) := countable_borsh.
#[export] Instance demo_envelope_laws : BorshLaws (@NetworkEnvelope demo) := countable_borsh_laws.

Lemma frame_round_trip_witness :
  match write_message (new_envelope (Ping 7)) [1; 2; 3] with
  | (Ok _, out) => ∃ frame, out = [1; 2; 3] ++ frame ∧
      read_message (frame ++ [9]) = (Ok (new_envelope (Ping 7)), [9])
  | (Err err, out) => err = MessageTooLarge ∧ out = [1; 2; 3] ∧
      ∃ b, encode (new_envelope (Ping 7)) = Ok b ∧ MAX_NETWORK_MESSAGE_SIZE < Z.of_nat (length b)
  end.
Proof. apply (frame_round_trip (new_envelope (Ping 7)) [1; 2; 3] [9]). reflexivity. Defined.

Lemma oversized_frame_refused_witness :
  read_message (be_bytes MESSAGE_LENGTH_SIZE 8388609 ++ [1; 2]) = (Err MessageTooLarge, [1; 2]).
Proof. apply (oversized_frame_refused 8388609 [1; 2]). by_eval. Defined.

Lemma messages_preserve_node_witness :
  (∃ reply, handle_message GetTip node_orphan = (Ok reply, node_orphan)) ∧
  orphans_wf [] (handle_message (BlockMessage block_b1) node_orphan).2.
Proof.
  split.
  - by apply (proj1 (messages_preserve_node GetTip node_orphan)).
  - apply (proj2 (messages_preserve_node (BlockMessage block_b1) node_orphan)), node_orphan_wf.
Defined.

End NetworkProps.
