(* ===== verification/Stream.v ===== *)
(** * Stream: requests on a connection ([request_on_stream] of [src/network.rs])

    A TCP stream is the bytes received and not yet read, and the bytes
    written. *)

From S2P Require Import Prelude Collections Core Demo Mempool Bytes Storage StorageDemo Node NodeDemo Network.

Open Scope string_scope.
Open Scope list_scope.
Open Scope Z_scope.

Module Stream.
Import Network.

Record TcpStream := mkStream { inbox : bytes; outbox : bytes }.

#[export] Instance stream_write : Write TcpStream := {|
  write_all b := zoom outbox (λ o s, mkStream (inbox s) o) id (write_all b);
|}.
#[export] Instance stream_read : Read TcpStream := {|
  read_exact n := zoom inbox (λ i s, mkStream i (outbox s)) id (read_exact n);
|}.

Inductive RequestError :=
  | SendFailed (error : NetworkError)
  | ReadFailed (error : NetworkError).

Definition request_on_stream `{Paqus, !ChainParams, !Borsh NetworkEnvelope} (m : NetworkMessage) :
    SE TcpStream RequestError NetworkMessage :=
  zoom id (λ s _, s) SendFailed (write_message (to_envelope m)) ;;
  envelope ← zoom id (λ s _, s) ReadFailed read_message;
  mret (message envelope).

End Stream.

Module StreamProps.
Import Storage Network NetworkProps Stream.

Section props.
Context `{Paqus, !ChainParams, !Borsh NetworkEnvelope, !BorshLaws NetworkEnvelope}.

(** Reading and writing a message touch one direction of the stream. *)
Lemma read_stream s :
  read_message s = ((read_message (inbox s)).1, mkStream (read_message (inbox s)).2 (outbox s)).
Proof.
  unfold read_message. rewrite !SE_bind_unfold. unfold io, zoom, id. cbn [read_exact stream_read].
  unfold zoom, id. destruct (read_exact MESSAGE_LENGTH_SIZE (inbox s)) as [[b|] i]; cbn [map_err]; [|done].
  case_bool_decide; [done|]. rewrite !SE_bind_unfold. cbn [read_exact stream_read]. unfold zoom, id. cbn [inbox].
  by destruct (read_exact _ i) as [[b'|] i'].
Qed.

Lemma write_stream e b s : encode e = Ok b → Z.of_nat (length b) ≤ MAX_NETWORK_MESSAGE_SIZE →
  write_message e s = (Ok tt, mkStream (inbox s) (outbox s ++ frame_of b)).
Proof.
  intros Hb Hlen. pose proof (write_message_run e b (outbox s) Hb Hlen) as Hw. revert Hw.
  unfold write_message. rewrite !SE_bind_lift. destruct (to_bytes e) as [b'|]; [|done].
  case_bool_decide; [done|]. rewrite !SE_bind_unfold. cbn. by intros [= ->].
Qed.

(** The frame a message is sent in. *)
Definition framed (m : NetworkMessage) (f : bytes) : Prop :=
  ∃ b, encode (to_envelope m) = Ok b ∧ Z.of_nat (length b) ≤ MAX_NETWORK_MESSAGE_SIZE ∧ f = frame_of b.

Lemma request_takes_next m f answer g rest out :
  framed m f → framed answer g →
  request_on_stream m (mkStream (g ++ rest) out) = (Ok answer, mkStream rest (out ++ f)).
Proof.
  intros (b & Hb & Hl & ->) (b' & Hb' & Hl' & ->). unfold request_on_stream. rewrite SE_bind_unfold.
  unfold zoom, id. rewrite (write_stream _ b) by done. cbn [map_err inbox outbox]. rewrite SE_bind_unfold.
  rewrite read_stream. cbn [inbox outbox].
  by rewrite (read_message_run (to_envelope answer) b') by done.
Qed.

(** The answer to a request is whatever message comes next on the stream.
    A message the peer pushed before, such as a broadcast block, is taken for
    the answer; the real answer stays in the stream and is taken for the answer
    to the next request, and so on until the connection is dropped. *)
Theorem pushed_message_shifts_answers m1 f1 m2 f2 pushed g answer1 g1 rest out :
  framed m1 f1 → framed m2 f2 → framed pushed g → framed answer1 g1 →
  ∃ s, request_on_stream m1 (mkStream (g ++ g1 ++ rest) out) = (Ok pushed, s) ∧
    request_on_stream m2 s = (Ok answer1, mkStream rest (out ++ f1 ++ f2)).
Proof.
  intros H1 H2 Hp Ha. eexists. split; [by apply request_takes_next|].
  rewrite (request_takes_next m2 f2 answer1 g1) by done. by rewrite app_assoc.
Qed.

End props.

(** ** Witness: a pushed block answers the handshake *)

Import Demo StorageDemo NodeDemo.

Lemma demo_framed (m : @NetworkMessage demo) : ∃ f, framed m f.
Proof. eexists. eexists. split; [reflexivity|]. split; [|reflexivity]. by vm_compute. Qed.

Lemma pushed_message_shifts_answers_witness :
  ∃ f1 f2 g g1,
  ∃ s, request_on_stream (Ping 1) (mkStream (g ++ g1 ++ []) []) = (Ok (BlockMessage block_a), s) ∧
    request_on_stream GetTip s = (Ok (Pong 1), mkStream [] ([] ++ f1 ++ f2)).
Proof.
  destruct (demo_framed (Ping 1)) as [f1 H1], (demo_framed GetTip) as [f2 H2].
  destruct (demo_framed (BlockMessage block_a)) as [g Hg], (demo_framed (Pong 1)) as [g1 Hg1].
  exists f1, f2, g, g1.
  by apply (pushed_message_shifts_answers (Ping 1) f1 GetTip f2 (BlockMessage block_a) g (Pong 1) g1 [] []).
Defined.

End StreamProps.
