(* ===== verification/P2p.v ===== *)
(** * P2p: peer back-off and block synchronisation ([src/p2p.rs])

    A peer connection is an oracle that answers the n-th request ([Wire]); the
    node is shared, so that other threads may have run before each time its
    lock is taken, and the lock may be poisoned.  The session keeps the
    messages sent, in order. *)

From S2P Require Import Prelude Collections Core Demo Mempool Bytes Storage StorageDemo Cache Node.
From S2P Require Import NodeFacts NodeProps NodeDemo Network.

Open Scope string_scope.
Open Scope list_scope.
Open Scope Z_scope.

Module P2p.
Import Node Network.

(** ** Peer states *)

(** Instants and durations in seconds; socket addresses are abstract. *)
Abbreviation SocketAddr := Z (only parsing).
Abbreviation Instant := Z (only parsing).

Definition DEFAULT_SYNC_INTERVAL : Z := 5.
Definition PERSISTENT_PEER_TIMEOUT : Z := 30.
Definition PEER_RETRY_BASE : Z := 2.
Definition PEER_RETRY_MAX : Z := 60.
Definition MAX_BLOCKS_PER_SYNC : Z := 64.

Record PeerState := mkPeerState {
  ps_addr : SocketAddr;
  failures : Z;
  next_attempt : Instant;
  last_tip : option Height;
}.

Definition new (now : Instant) (addr : SocketAddr) : PeerState := mkPeerState addr 0 now None.

Definition mark_ok (now : Instant) (tip : option Height) (p : PeerState) : PeerState :=
  mkPeerState (ps_addr p) 0 (now + DEFAULT_SYNC_INTERVAL) tip.

Definition retry_secs (failures : Z) : Z :=
  let shift := Z.min (sat_sub failures 1) 5 in
  Z.min (sat_mul u64_max PEER_RETRY_BASE (Z.shiftl 1 shift)) PEER_RETRY_MAX.

Definition mark_failed (now : Instant) (p : PeerState) : PeerState :=
  let failures' := sat_add u32_max (failures p) 1 in
  mkPeerState (ps_addr p) failures' (now + retry_secs failures') (last_tip p).

(** The [retain] with a set of the peers already seen. *)
Fixpoint retain_unseen (seen : gset SocketAddr) (peers : list SocketAddr) : list SocketAddr :=
  match peers with
  | [] => []
  | p :: peers' =>
      if bool_decide (p ∈ seen) then retain_unseen seen peers'
      else p :: retain_unseen ({[p]} ∪ seen) peers'
  end.

Definition dedupe_peers (peers : list SocketAddr) : list SocketAddr := retain_unseen ∅ peers.

Inductive PeerPoll :=
  | Idle (remote_tip : Height)
  | Synced (remote_tip : Height).

#[export] Instance PeerPoll_eq_dec : EqDecision PeerPoll.
Proof. solve_decision. Defined.

(** The error messages, by their text. *)
Inductive SyncError :=
  | LockPoisoned
  | Transport (message : string)
  | IncompatibleVersion (reason : RejectReason)
  | HandshakeRejected (reason : RejectReason) (message : string)
  | UnexpectedHandshake
  | UnexpectedTip
  | UnexpectedPeers
  | NoBlockAtHeight (height : Height)
  | NoBlockWithHash (hash : BlockHash)
  | ApplyFailed (error : NodeError)
  | FlushFailed (error : NodeError).

#[export] Instance SyncError_eq_dec : EqDecision SyncError.
Proof. solve_decision. Defined.

(** ** Sessions *)

Section sync.
Context `{Paqus, !ChainParams, Kv, Lmdb, Clock, !Storage.Codecs}.

(** The other side of the connection and the other threads of the node. *)
Class Wire := {
  reply : nat → NetworkMessage → result string NetworkMessage;
  sent : nat → NetworkMessage → result string ();
  others : nat → Node → Node;
  poisoned : nat → bool;
}.

Record Session := mkSession {
  shared_node : Node;
  exchanges : nat;
  locks : nat;
  log : list NetworkMessage;
}.

Context `{!Wire}.
Local Abbreviation P := (SE Session SyncError).

(** [PeerConnection::request] and [PeerConnection::send]. *)
Definition request (m : NetworkMessage) : P NetworkMessage := λ s,
  (map_err Transport (reply (exchanges s) m),
   mkSession (shared_node s) (S (exchanges s)) (locks s) (log s ++ [m])).

Definition send_message (m : NetworkMessage) : P () := λ s,
  (map_err Transport (sent (exchanges s) m),
   mkSession (shared_node s) (S (exchanges s)) (locks s) (log s ++ [m])).

(** [node.lock()], then the methods of one critical section. *)
Definition locked_or {E A} (poison : E) (m : SE Node E A) : SE Session E A := λ s,
  let n := others (locks s) (shared_node s) in
  if poisoned (locks s) then (Err poison, mkSession n (exchanges s) (S (locks s)) (log s))
  else let '(r, n') := m n in (r, mkSession n' (exchanges s) (S (locks s)) (log s)).

Definition locked {A} (m : SE Node SyncError A) : P A := locked_or LockPoisoned m.

Definition call {A} (conv : NodeError → SyncError) (m : SE Node NodeError A) : SE Node SyncError A :=
  zoom id (λ n _, n) conv m.

(** ** Requests *)

Definition request_peers_connection : P (list PeerInfo) :=
  r ← request GetPeers;
  match r with
  | Peers peers => mret peers
  | _ => throw UnexpectedPeers
  end.

Definition handshake_peer (public_addrs : list string) : P () :=
  tip ← locked (gets tip_info);
  r ← request (Version (local tip));
  match r with
  | VerAck remote =>
      lift (map_err IncompatibleVersion (validate_compatibility remote)) ;;
      if bool_decide (public_addrs ≠ []) then send_message (Peers (mkPeerInfo <$> public_addrs))
      else mret tt
  | Reject reason message => throw (HandshakeRejected reason message)
  | _ => throw UnexpectedHandshake
  end.

Definition request_tip : P Height :=
  r ← request GetTip;
  match r with
  | Tip tip => mret (ti_height tip)
  | _ => throw UnexpectedTip
  end.

(** [apply_block] and [flush_to_storage] in one critical section. *)
Definition apply_and_flush (block : Block) : P () :=
  locked (call ApplyFailed (apply_block block) ;; call FlushFailed flush_to_storage).

Definition request_block (height : Height) : P () :=
  r ← request (GetBlockByHeight height);
  match r with
  | BlockMessage block => apply_and_flush block
  | _ => throw (NoBlockAtHeight height)
  end.

Definition request_block_by_hash (hash : BlockHash) : P () :=
  r ← request (GetBlockByHash hash);
  match r with
  | BlockMessage block => apply_and_flush block
  | _ => throw (NoBlockWithHash hash)
  end.

Fixpoint request_hashes (hashes : list BlockHash) (requested : bool) : P bool :=
  match hashes with
  | [] => mret requested
  | hash :: hashes' =>
      r ← attempt (request_block_by_hash hash);
      match r with
      | Ok _ => request_hashes hashes' true
      | Err error =>
          locked (call ApplyFailed (retry_missing_parent_request hash)) ;; throw error
      end
  end.

Definition request_missing_parent_blocks : P bool :=
  hashes ← locked (call ApplyFailed drain_missing_parent_requests);
  request_hashes hashes false.

Definition poll_peer_connection (public_addrs : list string) : P PeerPoll :=
  handshake_peer public_addrs ;;
  tip ← request_tip;
  local_height ← locked (gets (λ n, default 0 (node_tip_height n)));
  if bool_decide (tip ≤ local_height) then
    requested ← request_missing_parent_blocks;
    mret (if requested : bool then Synced tip else Idle tip)
  else
    let target := Z.min tip (sat_add u64_max local_height MAX_BLOCKS_PER_SYNC) in
    let first := sat_add u64_max local_height 1 in
    for_each request_block (seqZ first (target - first + 1)) ;;
    request_missing_parent_blocks ;;
    mret (Synced tip).

End sync.
End P2p.

Module P2pProps.
Import Node NodeFacts NodeProps Network P2p.

(** ** Back-off *)

(** After k failures in a row the next attempt is min(2^k, 60) seconds
    away, between 2 and 60 seconds and never shorter than after fewer
    failures; a success resets the count. *)
Theorem backoff_bounds now p :
  0 ≤ failures p < u32_max →
  next_attempt (mark_failed now p) = now + Z.min (2 ^ (failures p + 1)) PEER_RETRY_MAX ∧
  now + PEER_RETRY_BASE ≤ next_attempt (mark_failed now p) ≤ now + PEER_RETRY_MAX ∧
  next_attempt (mark_failed now p) ≤ next_attempt (mark_failed now (mark_failed now p)) ∧
  failures (mark_ok now (last_tip p) p) = 0.
Proof.
  intros Hf. assert (∀ k, 1 ≤ k → retry_secs k = Z.min (2 ^ k) PEER_RETRY_MAX) as Hr.
  { intros k Hk. unfold retry_secs, sat_sub, sat_mul, PEER_RETRY_BASE, PEER_RETRY_MAX.
    rewrite Z.max_r, Z.shiftl_mul_pow2, Z.mul_1_l by lia.
    destruct (Z_le_gt_dec k 5) as [Hs|Hs].
    - assert (k = 1 ∨ k = 2 ∨ k = 3 ∨ k = 4 ∨ k = 5) as [->|[->|[->|[->| ->]]]] by lia; done.
    - rewrite (Z.min_r (k - 1) 5) by lia.
      assert (2 ^ 6 ≤ 2 ^ k) by (apply Z.pow_le_mono_r; lia).
      change (2 * 2 ^ 5) with 64. unfold u64_max. lia. }
  unfold mark_failed, sat_add. cbn. rewrite (Z.min_l (failures p + 1)) by lia.
  rewrite !Hr by lia.
  assert (2 ^ 1 ≤ 2 ^ (failures p + 1)) by (apply Z.pow_le_mono_r; lia).
  assert (2 ^ (failures p + 1) ≤ 2 ^ Z.min (failures p + 1 + 1) u32_max)
    by (apply Z.pow_le_mono_r; lia).
  unfold PEER_RETRY_BASE, PEER_RETRY_MAX. split_and!; lia.
Qed.

Lemma retain_unseen_spec peers : ∀ seen,
  NoDup (retain_unseen seen peers) ∧ retain_unseen seen peers `sublist_of` peers ∧
  ∀ p, p ∈ retain_unseen seen peers ↔ p ∈ peers ∧ p ∉ seen.
Proof.
  induction peers as [|q peers IH]; intros seen; cbn [retain_unseen].
  { split_and!; [constructor|done|set_solver]. }
  case_bool_decide as Hq.
  - destruct (IH seen) as (Hnd & Hsub & Hin). split_and!; [done|by apply sublist_cons|].
    intros p. rewrite Hin. set_solver.
  - destruct (IH ({[q]} ∪ seen)) as (Hnd & Hsub & Hin). split_and!.
    + constructor; [rewrite Hin; set_solver|done].
    + by apply sublist_skip.
    + intros p. rewrite elem_of_cons, Hin. destruct (decide (p = q)); set_solver.
Qed.

(** ** Synchronisation *)

Section sync.
Context `{Paqus, !ChainParams, Kv, Lmdb, Clock, !Storage.Codecs, !Wire}.
Abbreviation P := (SE Session SyncError).

(** An invariant of the node that its methods keep and other threads respect. *)
Context (I : Node → Prop).
Context (Hstep : ∀ n n', node_step n n' → I n → I n').
Context (Hothers : ∀ k n, I n → I (others k n)).

Definition keeps_node {A} (m : P A) : Prop :=
  preserves (λ s, I (shared_node s)) m.

Lemma locked_keeps {A} (m : SE Node SyncError A) :
  (∀ n, I n → I (m n).2) → keeps_node (locked m).
Proof.
  intros Hm s Hs. unfold locked, locked_or. destruct (poisoned (locks s)); [by apply Hothers|].
  specialize (Hm _ (Hothers (locks s) _ Hs)). by destruct (m _).
Qed.

Lemma request_keeps m : keeps_node (request m).
Proof. by intros s. Qed.

Lemma call_snd {A} conv (m : SE Node NodeError A) n : (call conv m n).2 = (m n).2.
Proof. unfold call, zoom, id. by destruct (m n). Qed.

Lemma apply_and_flush_keeps block : keeps_node (apply_and_flush block).
Proof.
  apply locked_keeps. intros n Hn. rewrite SE_bind_unfold. unfold call, zoom, id.
  pose proof (Hstep _ _ (step_apply block n) Hn) as H1'.
  destruct (apply_block block n) as [[[]|] n1]; [|done]. cbn [map_err snd] in *.
  pose proof (Hstep _ _ (step_flush n1) H1') as H2'. by destruct (flush_to_storage n1).
Qed.

Lemma request_block_keeps h : keeps_node (request_block h).
Proof.
  apply keeps_bind; [apply _|apply request_keeps|]. intros r.
  destruct r; try apply keeps_throw, _. apply apply_and_flush_keeps.
Qed.

Lemma request_block_by_hash_keeps h : keeps_node (request_block_by_hash h).
Proof.
  apply keeps_bind; [apply _|apply request_keeps|]. intros r.
  destruct r; try apply keeps_throw, _. apply apply_and_flush_keeps.
Qed.

Lemma request_hashes_keeps hashes : ∀ requested, keeps_node (request_hashes hashes requested).
Proof.
  induction hashes as [|h hashes IH]; intros requested; cbn [request_hashes]; [apply keeps_ret, _|].
  apply keeps_bind; [apply _|apply keeps_attempt, request_block_by_hash_keeps|].
  intros [[]|e]; [apply IH|]. apply keeps_bind; [apply _| |intros _; apply keeps_throw, _].
  apply locked_keeps. intros n Hn. rewrite call_snd. by apply (Hstep n), Hn; constructor.
Qed.

Lemma missing_parents_keeps : keeps_node request_missing_parent_blocks.
Proof.
  apply keeps_bind; [apply _| |intros hashes; apply request_hashes_keeps].
  apply locked_keeps. intros n Hn. rewrite call_snd. by apply (Hstep n), Hn; constructor.
Qed.

Lemma poll_keeps public_addrs : keeps_node (poll_peer_connection public_addrs).
Proof.
  apply keeps_bind; [apply _| |intros _].
  { apply keeps_bind; [apply _|by apply locked_keeps|intros tip].
    apply keeps_bind; [apply _|apply request_keeps|intros r].
    destruct r; try apply keeps_throw, _. apply keeps_bind; [apply _|apply keeps_lift, _|intros _].
    case_match; [apply request_keeps|apply keeps_ret, _]. }
  apply keeps_bind; [apply _| |intros tip].
  { apply keeps_bind; [apply _|apply request_keeps|intros r].
    destruct r; try apply keeps_throw, _. apply keeps_ret, _. }
  apply keeps_bind; [apply _|by apply locked_keeps|intros local_height]. case_match.
  - apply keeps_bind; [apply _|apply missing_parents_keeps|intros b]. apply keeps_ret, _.
  - apply keeps_bind; [apply _| |intros _].
    { apply keeps_for_each; [apply _|]. intros h _. apply request_block_keeps. }
    apply keeps_bind; [apply _|apply missing_parents_keeps|intros b]. apply keeps_ret, _.
Qed.

(** Polling a peer keeps every invariant of the node that its own methods
    keep and that other threads respect between two critical sections,
    whatever the peer answers and wherever the poll fails. *)
Theorem poll_keeps_invariants public_addrs s :
  I (shared_node s) → I (shared_node (poll_peer_connection public_addrs s).2).
Proof. apply poll_keeps. Qed.

End sync.

(** ** Which blocks are requested *)

Definition heights_of `{Paqus} (l : list NetworkMessage) : list Height :=
  omap (λ m, match m with GetBlockByHeight h => Some h | _ => None end) l.

Section window.
Context `{Paqus, !ChainParams, Kv, Lmdb, Clock, !Storage.Codecs, !Wire}.
Abbreviation P := (SE Session SyncError).

Definition same_heights (s s' : Session) : Prop := heights_of (log s) = heights_of (log s').

#[export] Instance same_heights_preorder : PreOrder same_heights.
Proof. unfold same_heights. split; [by intros s|intros s1 s2 s3; congruence]. Qed.

Lemma heights_of_app l k : heights_of (l ++ k) = heights_of l ++ heights_of k.
Proof. apply omap_app. Qed.

Lemma request_heights m : heights_of [m] = [] → keeps same_heights (request m).
Proof. intros Hm s. unfold same_heights. cbn [request snd log]. by rewrite heights_of_app, Hm, app_nil_r. Qed.

Lemma send_heights m : heights_of [m] = [] → keeps same_heights (send_message m).
Proof. intros Hm s. unfold same_heights. cbn [send_message snd log]. by rewrite heights_of_app, Hm, app_nil_r. Qed.

Lemma locked_heights {A} (m : SE Node SyncError A) : keeps same_heights (locked m).
Proof. intros s. unfold locked, locked_or. destruct (poisoned (locks s)); [done|]. by destruct (m _). Qed.

Lemma request_hashes_heights hashes : ∀ b, keeps same_heights (request_hashes hashes b).
Proof.
  induction hashes as [|h hashes IH]; intros b; cbn [request_hashes]; [apply keeps_ret, _|].
  apply keeps_bind; [apply _|apply keeps_attempt|].
  { apply keeps_bind; [apply _|by apply request_heights|]. intros r.
    destruct r; try apply keeps_throw, _. apply locked_heights. }
  intros [[]|e]; [apply IH|].
  apply keeps_bind; [apply _|apply locked_heights|intros _; apply keeps_throw, _].
Qed.

Lemma missing_parents_heights : keeps same_heights request_missing_parent_blocks.
Proof.
  apply keeps_bind; [apply _|apply locked_heights|intros hashes; apply request_hashes_heights].
Qed.

Lemma handshake_heights public_addrs : keeps same_heights (handshake_peer public_addrs).
Proof.
  apply keeps_bind; [apply _|apply locked_heights|intros tip].
  apply keeps_bind; [apply _|by apply request_heights|intros r].
  destruct r; try apply keeps_throw, _. apply keeps_bind; [apply _|apply keeps_lift, _|intros _].
  case_match; [by apply send_heights|apply keeps_ret, _].
Qed.

(** The loop over heights asks for them in order, up to the first failure. *)
Lemma request_blocks_heights hs : ∀ s, ∃ asked, asked `prefix_of` hs ∧
  heights_of (log (for_each request_block hs s).2) = heights_of (log s) ++ asked.
Proof.
  induction hs as [|h hs IH]; intros s; cbn [for_each].
  { exists []. split; [done|]. cbn. by rewrite app_nil_r. }
  rewrite SE_bind_unfold.
  assert (heights_of (log (request_block h s).2) = heights_of (log s) ++ [h]) as Hh.
  { unfold request_block. rewrite SE_bind_unfold. cbn [request].
    set (s1 := mkSession _ _ _ _).
    assert (heights_of (log s1) = heights_of (log s) ++ [h]) as Hs1 by apply heights_of_app.
    destruct (reply (exchanges s) (GetBlockByHeight h)) as [r|]; cbn [map_err]; [|done].
    destruct r; try done. rewrite <-Hs1. symmetry. apply (locked_heights _ s1). }
  destruct (request_block h s) as [[[]|e] s1]; cbn [snd] in *.
  - destruct (IH s1) as (asked & Hp & ->). exists (h :: asked). split; [by apply prefix_cons|].
    by rewrite Hh, <-app_assoc.
  - exists [h]. split; [apply prefix_cons, prefix_nil|done].
Qed.

Lemma seqZ_prefix a k k' : k ≤ k' → seqZ a k `prefix_of` seqZ a k'.
Proof.
  intros Hk. destruct (Z_le_gt_dec 0 k); [|rewrite seqZ_nil by lia; apply prefix_nil].
  replace k' with (k + (k' - k)) by lia. rewrite (seqZ_app a k (k' - k)) by lia. by eexists.
Qed.

(** C34: one poll asks a peer for at most 64 blocks by height, for consecutive
    heights in increasing order, whatever the peer answers; when it reports
    that there was nothing to do it has asked for none. *)
Theorem sync_window public_addrs s :
  log s = [] →
  (∃ first, heights_of (log (poll_peer_connection public_addrs s).2)
    `prefix_of` seqZ first MAX_BLOCKS_PER_SYNC) ∧
  (∀ tip s', poll_peer_connection public_addrs s = (Ok (Idle tip), s') → heights_of (log s') = []).
Proof.
  intros Hlog. assert (heights_of (log s) = []) as H0' by (by rewrite Hlog).
  assert (∀ s', same_heights s s' → ∃ first, heights_of (log s') `prefix_of` seqZ first MAX_BLOCKS_PER_SYNC)
    as Hnone by (intros s' Hs; exists 0; rewrite <-Hs, H0'; apply prefix_nil).
  unfold poll_peer_connection. rewrite !SE_bind_unfold.
  pose proof (handshake_heights public_addrs s) as Hh.
  destruct (handshake_peer public_addrs s) as [[[]|] s1]; cbn [snd] in Hh; [|split; [by apply Hnone|done]].
  rewrite SE_bind_unfold. assert (keeps same_heights request_tip) as Ht.
  { apply keeps_bind; [apply _|by apply request_heights|intros r].
    destruct r; try apply keeps_throw, _. apply keeps_ret, _. }
  specialize (Ht s1). destruct (request_tip s1) as [[tip|] s2]; cbn [snd] in Ht;
    [|split; [apply Hnone; by transitivity s1|done]].
  rewrite SE_bind_unfold. pose proof (locked_heights (gets (λ n, default 0 (node_tip_height n))) s2) as Hl.
  destruct (locked _ s2) as [[local_height|] s3]; cbn [snd] in Hl;
    [|split; [apply Hnone; transitivity s1; [done|by transitivity s2]|done]].
  assert (same_heights s s3) as H3' by (transitivity s1; [done|by transitivity s2]).
  case_bool_decide.
  - rewrite SE_bind_unfold. pose proof (missing_parents_heights s3) as Hm.
    destruct (request_missing_parent_blocks s3) as [[b|] s4]; cbn [snd] in Hm; split;
      try (apply Hnone; by transitivity s3); [|done].
    intros t s'. destruct b; intros [= _ <-]. unfold same_heights in *. congruence.
  - cbn zeta. set (target := Z.min tip _). set (first := sat_add u64_max local_height 1).
    split; [|].
    + destruct (request_blocks_heights (seqZ first (target - first + 1)) s3) as (asked & Hp & Ha).
      unfold same_heights in H3'. rewrite <-H3', H0' in Ha. cbn in Ha.
      assert (asked `prefix_of` seqZ first MAX_BLOCKS_PER_SYNC) as Hpre.
      { etrans; [exact Hp|]. apply seqZ_prefix. unfold target, first, sat_add, MAX_BLOCKS_PER_SYNC. lia. }
      exists first. rewrite SE_bind_unfold.
      destruct (for_each request_block _ s3) as [[[]|] s4]; cbn [snd] in *; [|by rewrite Ha].
      rewrite SE_bind_unfold. pose proof (missing_parents_heights s4) as Hm.
      unfold same_heights in Hm. rewrite Ha in Hm.
      destruct (request_missing_parent_blocks s4) as [[b|] s5]; cbn [snd] in Hm; rewrite Hm in Hpre; exact Hpre.
    + intros t s'. rewrite SE_bind_unfold.
      destruct (for_each request_block _ s3) as [[[]|] s4]; [|done]. rewrite SE_bind_unfold.
      by destruct (request_missing_parent_blocks s4) as [[]].
Qed.

(** Without interference a critical section runs on the node of the session. *)
Lemma locked_run {A} conv (m : SE Node NodeError A) s :
  (∀ k n, others k n = n) → (∀ k, poisoned k = false) →
  locked (call conv m) s =
  (map_err conv (m (shared_node s)).1,
   mkSession (m (shared_node s)).2 (exchanges s) (S (locks s)) (log s)).
Proof.
  intros Hid Hpo. unfold locked, locked_or, call, zoom, id. rewrite Hid, Hpo. by destruct (m (shared_node s)).
Qed.

Lemma retry_run h n : retry_missing_parent_request h n =
  (Ok tt, queue_missing_parent_request_at h
    (sat_add u64_max (wall (clock_reads n)) MISSING_PARENT_RETRY_SECS)
    (set_clock_reads (S (clock_reads n)) n)).
Proof. reflexivity. Qed.

(** When the request for a missing parent fails, only that parent is put
    back: the other parents that were due at the same time were taken out of
    the queue with it and are not asked for again until another of their
    orphans arrives. *)
Theorem failed_parent_request_drops_rest s h rest e :
  orphans_wf [] (shared_node s) →
  (∀ k n, others k n = n) → (∀ k, poisoned k = false) →
  filter (due (wall (clock_reads (shared_node s))) (shared_node s))
    (missing_parent_requests (shared_node s)) = h :: rest →
  reply (exchanges s) (GetBlockByHash h) = Err e →
  ∃ s', request_missing_parent_blocks s = (Err (Transport e), s') ∧
    ∀ h', h' ∈ rest → h' ∉ missing_parent_requests (shared_node s').
Proof.
  intros Hwf Hid Hpo Hready Hreply. set (n := shared_node s) in *. set (now := wall (clock_reads n)) in *.
  set (n1 := set_clock_reads (S (clock_reads n)) n).
  destruct (drain_loop_run now (missing_parent_requests n1) n1) as (n2 & E & _); [apply (ow_queue _ _ Hwf)|].
  set (pending := filter (λ x, ¬ due now n1 x) (missing_parent_requests n1)) in *.
  assert (drain_missing_parent_requests n = (Ok (h :: rest), set_missing_parent_requests pending n2)) as Hdrain.
  { unfold drain_missing_parent_requests. rewrite SE_bind_unfold. cbn [current_unix_timestamp].
    unfold infallible, drain_missing_parent_requests_at. fold n1 now. rewrite E. by rewrite <-Hready. }
  unfold request_missing_parent_blocks. rewrite SE_bind_unfold, (locked_run _ _ _ Hid Hpo).
  fold n. rewrite Hdrain. cbn [map_err fst snd]. set (s1 := mkSession _ _ _ _). cbn [request_hashes].
  rewrite SE_bind_attempt. unfold request_block_by_hash. rewrite SE_bind_unfold. unfold request.
  change (exchanges s1) with (exchanges s). rewrite Hreply. cbn [map_err fst snd].
  set (s2 := mkSession _ _ _ _). rewrite SE_bind_unfold, (locked_run _ _ _ Hid Hpo).
  rewrite retry_run. cbn [map_err fst snd]. eexists. split; [reflexivity|].
  intros h' Hin. cbn [shared_node].
  assert (h' ∈ missing_parent_requests n ∧ due now n h' ∧ h' ≠ h) as (Hq & Hd & Hne).
  { assert (NoDup (h :: rest)) as [Hnin _]%NoDup_cons
      by (rewrite <-Hready; apply NoDup_filter, (ow_queue _ _ Hwf)).
    assert (h' ∈ h :: rest) as Hf by set_solver. rewrite <-Hready in Hf.
    apply list_elem_of_filter in Hf as [? ?]. split_and!; [done|done|]. by intros ->. }
  unfold queue_missing_parent_request_at.
  assert (h' ∉ pending) as Hout by (intros [Hnd _]%list_elem_of_filter; by apply Hnd).
  repeat case_match; cbn; try exact Hout; rewrite elem_of_app, list_elem_of_singleton; naive_solver.
Qed.

End window.

End P2pProps.
