(* ===== verification/P2pDemo.v ===== *)
(** * P2pDemo: a poll on the demo protocol

    A peer one block ahead, and a peer that stops answering, for the theorems
    of [P2p]. *)

From S2P Require Import Prelude Collections Core Demo Mempool Bytes Storage StorageDemo Cache Node.
From S2P Require Import NodeFacts NodeProps NodeDemo Network P2p.

Open Scope string_scope.
Open Scope list_scope.
Open Scope Z_scope.

Module P2pDemo.
Import Demo Storage StorageDemo Node NodeFacts NodeProps NodeDemo Network NetworkProps P2p P2pProps.

(** ** A peer one block ahead *)

Definition remote_tip : TipInfo := mkTipInfo 1 (block_hash block_a).

Definition peer_reply (m : @NetworkMessage demo) : result string (@NetworkMessage demo) :=
  match m with
  | Version _ => Ok (VerAck (local (Some remote_tip)))
  | GetTip => Ok (Tip remote_tip)
  | GetBlockByHeight 1 => Ok (BlockMessage block_a)
  | _ => Err "timed out"
  end.

#[local] Instance live_peer : Wire :=
  {| reply _ := peer_reply; sent _ _ := Ok tt; others _ n := n; poisoned _ := false |}.

Definition session (n : Node) : Session := mkSession n 0 0 [].

Example poll_result :
  (poll_peer_connection [] (session node0)).1 = Ok (Synced 1) ∧
  heights_of (log (poll_peer_connection [] (session node0)).2) = [1] ∧
  tip_hash (ledger (shared_node (poll_peer_connection [] (session node0)).2)) =
    Some (block_hash block_a).
Proof. by_eval. Qed.

Lemma backoff_bounds_witness :
  next_attempt (mark_failed 100 (mkPeerState 1 2 90 None)) = 108 ∧
  next_attempt (mark_failed 100 (mkPeerState 1 2 90 None)) = 100 + Z.min (2 ^ (2 + 1)) PEER_RETRY_MAX.
Proof.
  split; [by_eval|]. apply (backoff_bounds 100 (mkPeerState 1 2 90 None)). by_eval.
Defined.

Lemma poll_keeps_invariants_witness :
  orphans_wf [] (shared_node (poll_peer_connection [] (session node_orphan)).2).
Proof.
  apply (poll_keeps_invariants (orphans_wf [])).
  - intros n n' Hstep Hn. exact (node_step_wf n n' Hstep Hn).
  - intros k n Hn. exact Hn.
  - exact node_orphan_wf.
Defined.

Lemma sync_window_witness :
  ∃ first, heights_of (log (poll_peer_connection [] (session node0)).2)
    `prefix_of` seqZ first MAX_BLOCKS_PER_SYNC.
Proof. apply (sync_window [] (session node0)). reflexivity. Defined.

(** ** Two parents missing, and a peer that does not answer *)

Definition block_c2 : @Block (@paqus_types demo) := mkBlk 2 555 8 0 6500 5 None [] 0.
Definition node_two : Node := (apply_block block_c2 node_orphan).2.

Lemma node_two_wf : orphans_wf [] node_two.
Proof. apply (node_step_wf node_orphan); [constructor|exact node_orphan_wf]. Qed.

Lemma failed_parent_request_drops_rest_witness :
  missing_parent_requests node_two = [block_hash block_b1; 555] ∧
  ∃ s', request_missing_parent_blocks (session node_two) = (Err (Transport "timed out"), s') ∧
    ∀ h', h' ∈ [555] → h' ∉ missing_parent_requests (shared_node s').
Proof.
  split; [by_eval|].
  apply (failed_parent_request_drops_rest (session node_two) (block_hash block_b1) [555] "timed out").
  - exact node_two_wf.
  - reflexivity.
  - reflexivity.
  - by_eval.
  - reflexivity.
Defined.

End P2pDemo.
