(* ===== verification/Gossip.v ===== *)
(** * Gossip: duplicate suppression and broadcasts ([src/gossip.rs])

    The tables of peers and connections are behind locks shared with other
    threads: each time a lock is taken the other threads may have run, and the
    lock may be poisoned.  Connecting and sending are oracles; the log keeps
    the messages that were sent.  [NodeService::broadcast] of [src/main.rs] is
    a second copy of the same loop and is modelled next to the first. *)

From S2P Require Import Prelude Collections Core Demo Network P2p.

Open Scope string_scope.
Open Scope list_scope.
Open Scope Z_scope.

Module Gossip.
Import Network P2p.

(** ** Duplicate suppression *)

Section dedupe.
Context {T : Type} `{Countable T}.

(** The loop [while seen.len() > capacity]; [None] when the fuel runs out. *)
Fixpoint evict_loop (fuel : nat) (capacity : nat) (seen : gset T) (order : list T) :
    option (gset T * list T) :=
  if bool_decide (capacity < size seen)%nat then
    match fuel with
    | O => None
    | S fuel' =>
        match order with
        | evicted :: order' => evict_loop fuel' capacity (seen ∖ {[evicted]}) order'
        | [] => evict_loop fuel' capacity seen []
        end
    end
  else Some (seen, order).

(** One more round than there are elements is enough
    ([GossipProps.dedupe_window]). *)
Definition mark_seen (capacity : nat) (seen : gset T) (order : list T) (value : T) :
    option (bool * gset T * list T) :=
  if bool_decide (value ∈ seen) then Some (false, seen, order)
  else if bool_decide (capacity = 0%nat) then Some (true, seen, order)
  else
    let seen' := {[value]} ∪ seen in
    let order' := order ++ [value] in
    '(seen'', order'') ← evict_loop (S (length order')) capacity seen' order';
    Some (true, seen'', order'').

End dedupe.

Record GossipDedupe := mkDedupe {
  capacity : nat;
  blocks : gset BlockHash;
  block_order : list BlockHash;
  transactions : gset TransactionHash;
  transaction_order : list TransactionHash;
}.

Definition new (capacity : nat) : GossipDedupe := mkDedupe capacity ∅ [] ∅ [].

Definition mark_block_seen (hash : BlockHash) (d : GossipDedupe) : option (bool * GossipDedupe) :=
  '(fresh, seen, order) ← mark_seen (capacity d) (blocks d) (block_order d) hash;
  Some (fresh, mkDedupe (capacity d) seen order (transactions d) (transaction_order d)).

Definition mark_transaction_seen (hash : TransactionHash) (d : GossipDedupe) :
    option (bool * GossipDedupe) :=
  '(fresh, seen, order) ← mark_seen (capacity d) (transactions d) (transaction_order d) hash;
  Some (fresh, mkDedupe (capacity d) (blocks d) (block_order d) seen order).

(** ** Broadcasts *)

Record BroadcastReport := mkReport { attempted : Z; sent : Z; failed : Z }.

Definition default_report : BroadcastReport := mkReport 0 0 0.
Definition one_sent (r : BroadcastReport) : BroadcastReport :=
  mkReport (attempted r) (sent r + 1) (failed r).
Definition one_failed (r : BroadcastReport) : BroadcastReport :=
  mkReport (attempted r) (sent r) (failed r + 1).
Definition one_more (r : BroadcastReport) : BroadcastReport :=
  mkReport (attempted r + 1) (sent r) (failed r).

(** A connection is its address and its stream. *)
Record PeerConnection := mkConnection { pc_addr : SocketAddr; pc_stream : nat }.

(** The tables behind [peers], [peer_connections] and [inbound_connections]. *)
Record Tables := mkTables {
  peers : gmap SocketAddr PeerState;
  peer_connections : gmap SocketAddr PeerConnection;
  inbound_connections : gmap SocketAddr PeerConnection;
}.

Definition set_peer_connections (c : gmap SocketAddr PeerConnection) (t : Tables) : Tables :=
  mkTables (peers t) c (inbound_connections t).
Definition set_inbound_connections (c : gmap SocketAddr PeerConnection) (t : Tables) : Tables :=
  mkTables (peers t) (peer_connections t) c.

Section broadcast.
Context `{Paqus}.

(** Connections, sends, the order of a hash map's keys, and other threads;
    the number counts the events of the run. *)
Class PeerWorld := {
  connect : nat → SocketAddr → result string nat;
  transmit : nat → PeerConnection → NetworkMessage → result string ();
  key_order : nat → list SocketAddr → list SocketAddr;
  meanwhile : nat → Tables → Tables;
  lock_poisoned : nat → bool;
}.

Record World := mkWorld {
  tables : Tables;
  events : nat;
  delivered : list (SocketAddr * NetworkMessage);
}.

Definition set_tables (t : Tables) (w : World) : World := mkWorld t (events w) (delivered w).

Context `{!PeerWorld}.

(** [lock()]: other threads have run; [false] when the lock is poisoned.  The
    guard is held until the next call of [lock]. *)
Definition lock (w : World) : bool * World :=
  (negb (lock_poisoned (events w)),
   mkWorld (meanwhile (events w) (tables w)) (S (events w)) (delivered w)).

(** [map.keys().copied().collect()] *)
Definition keys {V} (m : gmap SocketAddr V) (w : World) : list SocketAddr :=
  key_order (events w) (map_to_list m).*1.

(** [PeerConnection::connect] and [connections.insert]. *)
Definition open_connection (peer : SocketAddr) : SE World string () := λ w,
  let w' := mkWorld (tables w) (S (events w)) (delivered w) in
  match connect (events w) peer with
  | Ok stream =>
      (Ok tt, set_tables (set_peer_connections
        (<[peer := mkConnection peer stream]> (peer_connections (tables w'))) (tables w')) w')
  | Err error => (Err error, w')
  end.

(** [connections.get_mut(&peer).ok_or_else(..).and_then(|c| c.send(message))];
    the error text is only printed. *)
Definition send_on (c : option PeerConnection) (peer : SocketAddr) (m : NetworkMessage) :
    SE World string () := λ w,
  match c with
  | None => (Err "missing peer connection", w)
  | Some c =>
      match transmit (events w) c m with
      | Ok _ => (Ok tt, mkWorld (tables w) (S (events w)) (delivered w ++ [(peer, m)]))
      | Err error => (Err error, mkWorld (tables w) (S (events w)) (delivered w))
      end
  end.

Definition send_outbound (peer : SocketAddr) (m : NetworkMessage) : SE World string () :=
  c ← gets (λ w, peer_connections (tables w) !! peer);
  send_on c peer m.

Definition send_inbound (peer : SocketAddr) (m : NetworkMessage) : SE World string () :=
  c ← gets (λ w, inbound_connections (tables w) !! peer);
  send_on c peer m.

(** [if let Ok(mut connections) = peer_connections.lock() { connections.remove(&peer); }] *)
Definition drop_outbound (peer : SocketAddr) (w : World) : World :=
  let '(ok, w') := lock w in
  if ok : bool then
    set_tables (set_peer_connections (delete peer (peer_connections (tables w'))) (tables w')) w'
  else w'.

Definition drop_inbound (peer : SocketAddr) (w : World) : World :=
  let '(ok, w') := lock w in
  if ok : bool then
    set_tables (set_inbound_connections (delete peer (inbound_connections (tables w'))) (tables w')) w'
  else w'.

(** [if !connections.contains_key(&peer) { connect }] *)
Definition ensure_connection (peer : SocketAddr) : SE World string () :=
  c ← gets (λ w, peer_connections (tables w) !! peer);
  match c with
  | None => open_connection peer
  | Some _ => mret tt
  end.

(** One round of the first loop. *)
Definition visit_peer (m : NetworkMessage) (acc : BroadcastReport * World) (peer : SocketAddr) :
    BroadcastReport * World :=
  let '(report, w) := acc in
  let '(ok, w) := lock w in
  if ok : bool then
    match (ensure_connection peer ;; send_outbound peer m) w with
    | (Ok _, w) => (one_sent report, w)
    | (Err _, w) => (one_failed report, drop_outbound peer w)
    end
  else (one_failed report, w).

(** One round of the second loop. *)
Definition visit_inbound (known_peers : list SocketAddr) (m : NetworkMessage)
    (acc : BroadcastReport * World) (peer : SocketAddr) : BroadcastReport * World :=
  let '(report, w) := acc in
  if bool_decide (peer ∈ known_peers) then (report, w)
  else
    let report := one_more report in
    let '(ok, w) := lock w in
    if ok : bool then
      match send_inbound peer m w with
      | (Ok _, w) => (one_sent report, w)
      | (Err _, w) => (one_failed report, drop_inbound peer w)
      end
    else (one_failed report, w).

(** The second loop, over the inbound connections at that time. *)
Definition broadcast_inbound (known_peers : list SocketAddr) (m : NetworkMessage)
    (acc : BroadcastReport * World) : BroadcastReport * World :=
  let '(report, w) := acc in
  let '(ok, w) := lock w in
  let inbound_peers := if ok : bool then keys (inbound_connections (tables w)) w else [] in
  foldl (visit_inbound known_peers m) (report, w) inbound_peers.

Definition broadcast_to_peers (m : NetworkMessage) (w : World) : BroadcastReport * World :=
  let '(ok, w) := lock w in
  if ok : bool then
    let peers := keys (peers (tables w)) w in
    broadcast_inbound peers m
      (foldl (visit_peer m) (mkReport (Z.of_nat (length peers)) 0 0, w) peers)
  else (default_report, w).

(** [NodeService::broadcast]: a failed connection is counted at once, without
    taking the lock again. *)
Definition service_visit_peer (m : NetworkMessage) (acc : BroadcastReport * World)
    (peer : SocketAddr) : BroadcastReport * World :=
  let '(report, w) := acc in
  let '(ok, w) := lock w in
  if ok : bool then
    match ensure_connection peer w with
    | (Err _, w) => (one_failed report, w)
    | (Ok _, w) =>
        match send_outbound peer m w with
        | (Ok _, w) => (one_sent report, w)
        | (Err _, w) => (one_failed report, drop_outbound peer w)
        end
    end
  else (one_failed report, w).

Definition broadcast (m : NetworkMessage) (w : World) : BroadcastReport * World :=
  let '(ok, w) := lock w in
  if ok : bool then
    let peers := keys (peers (tables w)) w in
    broadcast_inbound peers m
      (foldl (service_visit_peer m) (mkReport (Z.of_nat (length peers)) 0 0, w) peers)
  else (default_report, w).

End broadcast.
End Gossip.
