(* ===== verification/GossipProps.v ===== *)
(** * GossipProps: the duplicate filter and the broadcast counters *)

From S2P Require Import Prelude Collections Core Demo Network P2p Gossip.

Open Scope string_scope.
Open Scope list_scope.
Open Scope Z_scope.

Module GossipProps.
Import Network P2p Gossip.

(** ** The duplicate filter is a window over the last new values *)

Section window.
Context {T : Type} `{Countable T}.

(** The specification: a queue of at most [c] distinct values. *)
Definition window (c : nat) (seen : gset T) (order : list T) : Prop :=
  NoDup order ∧ seen = list_to_set order ∧ (length order ≤ c)%nat.

Definition remember (c : nat) (order : list T) (v : T) : list T :=
  if bool_decide (v ∈ order) then order else drop (S (length order) - c) (order ++ [v]).

Lemma evict_loop_drop fuel c : ∀ order : list T,
  NoDup order → (length order ≤ fuel)%nat →
  evict_loop fuel c (list_to_set order : gset T) order =
  Some (list_to_set (drop (length order - c) order), drop (length order - c) order).
Proof.
  induction fuel as [|fuel IH]; intros order Hnd Hlen;
    (cbn [evict_loop]; rewrite size_list_to_set by done; case_bool_decide as Hc).
  - lia.
  - by replace (length order - c)%nat with 0%nat by lia.
  - destruct order as [|v order]; cbn [length] in *; [lia|].
    apply NoDup_cons in Hnd as [Hv Hnd].
    replace (list_to_set (v :: order) ∖ {[v]}) with (list_to_set order : gset T)
      by (apply leibniz_equiv; intros x; set_solver).
    rewrite IH by (done || lia). by replace (S (length order) - c)%nat with (S (length order - c)) by lia.
  - by replace (length order - c)%nat with 0%nat by lia.
Qed.

(** Marking a value terminates, tells whether the value was in the window, and
    moves the window as the specification says. *)
Lemma mark_seen_spec c seen order v : window c seen order →
  ∃ seen', mark_seen c seen order v = Some (bool_decide (v ∉ order), seen', remember c order v) ∧
    window c seen' (remember c order v).
Proof.
  intros (Hnd & -> & Hlen). unfold mark_seen, remember. rewrite (bool_decide_ext _ _ (elem_of_list_to_set _ _)).
  case_bool_decide as Hv.
  { eexists. rewrite bool_decide_eq_false_2 by auto. by split. }
  rewrite (bool_decide_eq_true_2 (v ∉ order)) by done.
  assert (NoDup (order ++ [v])) as Hnd'.
  { apply NoDup_app. split_and!; [done| |apply NoDup_singleton]. set_solver. }
  case_bool_decide as Hc.
  { subst c. destruct order; [|cbn in Hlen; lia]. eexists. split; [done|]. by repeat split. }
  replace ({[v]} ∪ list_to_set order) with (list_to_set (order ++ [v]) : gset T)
    by (apply leibniz_equiv; intros x; set_solver).
  rewrite evict_loop_drop by (done || lia). cbn. rewrite length_app, Nat.add_1_r.
  eexists. split; [done|]. split_and!; [|done|].
  - eapply sublist_NoDup; [done|apply sublist_drop].
  - rewrite length_drop, length_app. cbn. lia.
Qed.

End window.

(** The filters a node can hold. *)
Inductive dedupe_step : GossipDedupe → GossipDedupe → Prop :=
  | step_block hash fresh d d' : mark_block_seen hash d = Some (fresh, d') → dedupe_step d d'
  | step_transaction hash fresh d d' :
      mark_transaction_seen hash d = Some (fresh, d') → dedupe_step d d'.

Definition dedupe_wf (d : GossipDedupe) : Prop :=
  window (capacity d) (blocks d) (block_order d) ∧
  window (capacity d) (transactions d) (transaction_order d).

Lemma dedupe_step_wf d d' : dedupe_step d d' → dedupe_wf d → dedupe_wf d'.
Proof.
  intros [hash fresh ? ? Hm|hash fresh ? ? Hm] [Hb Ht]; unfold mark_block_seen, mark_transaction_seen in Hm.
  - destruct (mark_seen_spec _ _ _ hash Hb) as (seen' & E & Hw). rewrite E in Hm. cbn in Hm. by simplify_eq.
  - destruct (mark_seen_spec _ _ _ hash Ht) as (seen' & E & Hw). rewrite E in Hm. cbn in Hm. by simplify_eq.
Qed.

(** C36: after any sequence of marks a further one terminates and answers
    whether the hash is new: not among the last [capacity] distinct block
    hashes marked as new.  The filter never holds more than [capacity] hashes,
    forgets the oldest first, and marking a block leaves the transactions
    alone. *)
Theorem dedupe_window c d hash :
  rtc dedupe_step (new c) d →
  ∃ d', mark_block_seen hash d = Some (bool_decide (hash ∉ block_order d), d') ∧
    block_order d' = remember (capacity d) (block_order d) hash ∧
    blocks d' = list_to_set (block_order d') ∧
    (size (blocks d') ≤ capacity d)%nat ∧
    transaction_order d' = transaction_order d ∧ transactions d' = transactions d.
Proof.
  intros Hd. assert (dedupe_wf d) as [Hb Ht].
  { revert Hd. apply rtc_ind_r; [|intros; by eapply dedupe_step_wf].
    repeat split; try apply NoDup_nil_2; cbn; lia. }
  destruct (mark_seen_spec _ _ _ hash Hb) as (seen' & E & Hw). unfold mark_block_seen. rewrite E. cbn.
  destruct Hw as (Hnd & -> & Hlen). eexists. split; [done|]. cbn. split_and!; [done..| |done|done].
  by rewrite size_list_to_set.
Qed.

(** ** Counting a broadcast *)

Section broadcast.
Context `{Paqus, !PeerWorld}.

Ltac counts := cbn [fst snd attempted sent failed one_sent one_failed one_more].

(** A round of either loop: counts stay in step, and what it delivers is at
    most one copy of the message, to the peer of the round. *)
Definition balanced_step (m : NetworkMessage) (peer : SocketAddr)
    (a b : BroadcastReport * World) : Prop :=
  (sent b.1 = sent a.1 ∧ delivered b.2 = delivered a.2 ∨
   sent b.1 = sent a.1 + 1 ∧ delivered b.2 = delivered a.2 ++ [(peer, m)]).

Lemma lock_delivered w : delivered (lock w).2 = delivered w.
Proof. done. Qed.

Lemma drop_outbound_delivered peer w : delivered (drop_outbound peer w) = delivered w.
Proof. unfold drop_outbound, lock. by destruct (lock_poisoned _). Qed.

Lemma drop_inbound_delivered peer w : delivered (drop_inbound peer w) = delivered w.
Proof. unfold drop_inbound, lock. by destruct (lock_poisoned _). Qed.

Lemma ensure_connection_delivered peer w : delivered (ensure_connection peer w).2 = delivered w.
Proof.
  unfold ensure_connection. rewrite SE_bind_gets. case_match; [done|].
  unfold open_connection. by destruct (connect _ _).
Qed.

Lemma send_on_delivered c peer m w :
  match send_on c peer m w with
  | (Ok _, w') => delivered w' = delivered w ++ [(peer, m)]
  | (Err _, w') => delivered w' = delivered w
  end.
Proof. unfold send_on. destruct c as [c|]; [|done]. by destruct (transmit _ _ _). Qed.

Definition failures_match (a b : BroadcastReport * World) : Prop :=
  attempted a.1 - sent a.1 - failed a.1 = attempted b.1 - sent b.1 - failed b.1.

(** A round over a known peer accounts for one of the peers counted before. *)
Definition visited (m : NetworkMessage) (peer : SocketAddr) (a b : BroadcastReport * World) : Prop :=
  attempted b.1 = attempted a.1 ∧ sent b.1 + failed b.1 = sent a.1 + failed a.1 + 1 ∧
  balanced_step m peer a b.

Lemma visit_peer_step m acc peer : visited m peer acc (visit_peer m acc peer).
Proof.
  destruct acc as [r w]. unfold visit_peer, visited, balanced_step.
  pose proof (lock_delivered w) as Hl. destruct (lock w) as [[] w1]; cbn [snd] in Hl; [|counts; split_and!; auto; lia].
  rewrite SE_bind_unfold. pose proof (ensure_connection_delivered peer w1) as He.
  destruct (ensure_connection peer w1) as [[[]|e] w2]; cbn [snd] in He.
  - unfold send_outbound. rewrite SE_bind_gets.
    pose proof (send_on_delivered (peer_connections (tables w2) !! peer) peer m w2) as Hs.
    destruct (send_on _ _ _ _) as [[[]|e] w3]; counts; rewrite ?drop_outbound_delivered, Hs, He, Hl;
      split_and!; auto; lia.
  - counts. rewrite drop_outbound_delivered, He, Hl. split_and!; auto; lia.
Qed.

Lemma service_visit_peer_step m acc peer : visited m peer acc (service_visit_peer m acc peer).
Proof.
  destruct acc as [r w]. unfold service_visit_peer, visited, balanced_step.
  pose proof (lock_delivered w) as Hl. destruct (lock w) as [[] w1]; cbn [snd] in Hl; [|counts; split_and!; auto; lia].
  pose proof (ensure_connection_delivered peer w1) as He.
  destruct (ensure_connection peer w1) as [[[]|e] w2]; cbn [snd] in He;
    [|counts; rewrite He, Hl; split_and!; auto; lia].
  unfold send_outbound. rewrite SE_bind_gets.
  pose proof (send_on_delivered (peer_connections (tables w2) !! peer) peer m w2) as Hs.
  destruct (send_on _ _ _ _) as [[[]|e] w3]; counts; rewrite ?drop_outbound_delivered, Hs, He, Hl;
    split_and!; auto; lia.
Qed.

Lemma visit_inbound_step known m acc peer :
  (peer ∈ known ∧ visit_inbound known m acc peer = acc) ∨
  (peer ∉ known ∧ failures_match acc (visit_inbound known m acc peer) ∧
   balanced_step m peer acc (visit_inbound known m acc peer)).
Proof.
  destruct acc as [r w]. unfold visit_inbound. case_bool_decide as Hk; [by left|]. right.
  unfold failures_match, balanced_step.
  pose proof (lock_delivered w) as Hl. destruct (lock w) as [[] w1]; cbn [snd] in Hl; [|counts; split_and!; auto; lia].
  unfold send_inbound. rewrite SE_bind_gets.
  pose proof (send_on_delivered (inbound_connections (tables w1) !! peer) peer m w1) as Hs.
  destruct (send_on _ _ _ _) as [[[]|e] w3]; counts; rewrite ?drop_inbound_delivered, Hs, Hl;
    split_and!; auto; lia.
Qed.

(** What a run of rounds delivers: the message, once to each of some of the
    peers, as many as were counted as sent. *)
Definition delivers (m : NetworkMessage) (targets : list SocketAddr)
    (a b : BroadcastReport * World) : Prop :=
  ∃ new, new `sublist_of` targets ∧ delivered b.2 = delivered a.2 ++ ((λ p, (p, m)) <$> new) ∧
    sent b.1 = sent a.1 + Z.of_nat (length new).

Lemma delivers_cons m p targets a b c :
  balanced_step m p a b → delivers m targets b c → delivers m (p :: targets) a c.
Proof.
  intros [[Hs Hd]|[Hs Hd]] (new & Hsub & Hd' & Hs').
  - exists new. split_and!; [by apply sublist_cons| |lia]. by rewrite Hd', Hd.
  - exists (p :: new). split_and!; [by apply sublist_skip| |cbn; lia].
    by rewrite Hd', Hd, <-app_assoc.
Qed.

Lemma delivers_nil m targets a : delivers m targets a a.
Proof. exists []. split_and!; [apply sublist_nil_l|by rewrite app_nil_r|cbn; lia]. Qed.

Lemma visits_deliver m visit targets : (∀ acc peer, visited m peer acc (visit acc peer)) →
  ∀ acc, let b := foldl visit acc targets in
    delivers m targets acc b ∧ attempted b.1 = attempted acc.1 ∧
    sent b.1 + failed b.1 = sent acc.1 + failed acc.1 + Z.of_nat (length targets).
Proof.
  intros Hv. induction targets as [|p targets IH]; intros acc; cbn zeta.
  { split_and!; [apply delivers_nil|done|cbn; lia]. }
  cbn [foldl]. destruct (Hv acc p) as (Ha & Hc & Hb). destruct (IH (visit acc p)) as (Hd & Ha' & Hc').
  split_and!; [by eapply delivers_cons|congruence|]. cbn [length]. rewrite Hc', Hc. lia.
Qed.

Lemma inbound_delivers known m targets : ∀ acc,
  let b := foldl (visit_inbound known m) acc targets in
  delivers m (filter (λ p, p ∉ known) targets) acc b ∧ failures_match acc b.
Proof.
  induction targets as [|p targets IH]; intros acc; cbn zeta; [split; [apply delivers_nil|done]|].
  cbn [foldl]. destruct (IH (visit_inbound known m acc p)) as (Hd & Hc).
  destruct (visit_inbound_step known m acc p) as [(Hk & E)|(Hk & Hf & Hb)].
  - rewrite E in *. rewrite filter_cons_False by auto. by split.
  - rewrite filter_cons_True by done. split; [by eapply delivers_cons|].
    unfold failures_match in *. congruence.
Qed.

(** The two loops together, from the report of the first. *)
Definition accounted (m : NetworkMessage) (w : World) (b : BroadcastReport * World) : Prop :=
  ∃ new, NoDup new ∧ delivered b.2 = delivered w ++ ((λ p, (p, m)) <$> new) ∧
    sent b.1 = Z.of_nat (length new) ∧ attempted b.1 = sent b.1 + failed b.1.

Hypothesis Horder : ∀ k l, key_order k l ≡ₚ l.

Lemma keys_NoDup {V} (t : gmap SocketAddr V) w : NoDup (keys t w).
Proof. unfold keys. rewrite Horder. apply NoDup_fst_map_to_list. Qed.

Lemma loops_accounted m visit w ps : (∀ acc peer, visited m peer acc (visit acc peer)) →
  NoDup ps →
  accounted m w (broadcast_inbound ps m (foldl visit (mkReport (Z.of_nat (length ps)) 0 0, w) ps)).
Proof.
  intros Hv Hnd. destruct (visits_deliver m visit ps Hv (mkReport (Z.of_nat (length ps)) 0 0, w))
    as (Hd & Ha & Hc). set (acc := foldl visit _ ps) in *. cbn [fst snd attempted sent failed] in *.
  unfold broadcast_inbound. destruct acc as [r w1] eqn:Eacc. cbn [fst snd] in *.
  destruct (lock w1) as [ok w2] eqn:El.
  assert (delivered w2 = delivered w1) as Hl by (by rewrite <-(lock_delivered w1), El).
  set (targets := if ok then _ else _). assert (NoDup targets) as Hnt
    by (unfold targets; destruct ok; [apply keys_NoDup|apply NoDup_nil_2]).
  destruct (inbound_delivers ps m targets (r, w2)) as (Hd2 & Hf).
  set (b := foldl (visit_inbound ps m) _ _) in *.
  destruct Hd as (n1 & Hs1 & Hd1 & Hc1), Hd2 as (n2 & Hs2 & Hd2 & Hc2). cbn [fst snd sent] in *.
  exists (n1 ++ n2). split_and!.
  - apply NoDup_app. split_and!.
    + eapply sublist_NoDup; [exact Hnd|exact Hs1].
    + intros p Hp1 Hp2. apply (sublist_subseteq _ _ Hs2) in Hp2. apply (sublist_subseteq _ _ Hs1) in Hp1.
      apply list_elem_of_filter in Hp2 as [? _]. done.
    + eapply sublist_NoDup; [|exact Hs2]. by apply NoDup_filter.
  - by rewrite Hd2, Hl, Hd1, fmap_app, <-app_assoc.
  - rewrite length_app. lia.
  - unfold failures_match in Hf. cbn [fst] in Hf. lia.
Qed.

(** The report of a broadcast adds up: every attempt is either sent or
    failed, the message has reached exactly as many peers as were counted as
    sent, and no peer twice, whatever fails and whatever other threads do to
    the tables between two rounds.  Both copies of the loop have this
    property. *)
Theorem broadcast_accounts m w :
  accounted m w (broadcast_to_peers m w) ∧ accounted m w (broadcast m w).
Proof.
  assert (accounted m w (default_report, (lock w).2)) as H0'.
  { exists []. split_and!; [apply NoDup_nil_2|by rewrite app_nil_r|done|done]. }
  unfold broadcast_to_peers, broadcast. destruct (lock w) as [[] w1] eqn:El; [|by split].
  assert (delivered w1 = delivered w) as Hw by (by rewrite <-(lock_delivered w), El).
  unfold accounted. rewrite <-Hw. split; apply loops_accounted; try apply keys_NoDup;
    [apply visit_peer_step|apply service_visit_peer_step].
Qed.

End broadcast.

(** ** The two copies agree *)

Section copies.
Context `{Paqus, !PeerWorld}.
Hypothesis Hquiet : ∀ k t, meanwhile k t = t.
Hypothesis Hsound : ∀ k, lock_poisoned k = false.
Hypothesis Hsteady : ∀ k, connect k = connect 0 ∧ transmit k = transmit 0 ∧ key_order k = key_order 0.

(** Worlds that differ in the number of events only. *)
Definition same_tables (a b : BroadcastReport * World) : Prop :=
  a.1 = b.1 ∧ tables a.2 = tables b.2 ∧ delivered a.2 = delivered b.2.

Definition world_eq (v w : World) : Prop := tables v = tables w ∧ delivered v = delivered w.

Lemma lock_quiet w : (lock w).1 = true ∧ world_eq (lock w).2 w.
Proof. unfold lock, world_eq. cbn. by rewrite Hsound, Hquiet. Qed.

Lemma send_on_eq c peer m v w : world_eq v w →
  (send_on c peer m v).1 = (send_on c peer m w).1 ∧
  world_eq (send_on c peer m v).2 (send_on c peer m w).2.
Proof.
  intros [Ht Hd]. unfold send_on. destruct c as [c|]; [|done].
  destruct (Hsteady (events v)) as (_ & -> & _), (Hsteady (events w)) as (_ & -> & _).
  destruct (transmit 0 c m); unfold world_eq; cbn; by rewrite ?Ht, ?Hd.
Qed.

Lemma ensure_connection_eq peer v w : world_eq v w →
  (ensure_connection peer v).1 = (ensure_connection peer w).1 ∧
  world_eq (ensure_connection peer v).2 (ensure_connection peer w).2.
Proof.
  intros [Ht Hd]. unfold ensure_connection. rewrite !SE_bind_gets, Ht. case_match; [by repeat split|].
  unfold open_connection. destruct (Hsteady (events v)) as (-> & _), (Hsteady (events w)) as (-> & _).
  destruct (connect 0 peer); unfold world_eq; cbn; by rewrite ?Ht, ?Hd.
Qed.

Lemma drop_outbound_eq peer v w : world_eq v w → world_eq (drop_outbound peer v) (drop_outbound peer w).
Proof.
  intros [Ht Hd]. unfold drop_outbound. destruct (lock_quiet v) as [Hv1 [Hv2 Hv3]], (lock_quiet w) as [Hw1 [Hw2 Hw3]].
  destruct (lock v) as [? v1], (lock w) as [? w1]. cbn [fst snd] in *. subst.
  unfold world_eq. cbn. by rewrite Hv2, Hw2, Hv3, Hw3, Ht, Hd.
Qed.

(** A connection that could not be opened is not in the table. *)
Lemma failed_connection_absent peer w e w' :
  ensure_connection peer w = (Err e, w') → world_eq (drop_outbound peer w') w'.
Proof.
  unfold ensure_connection. rewrite SE_bind_gets. destruct (_ !! peer) eqn:Hp; [done|].
  unfold open_connection. destruct (connect _ peer); [done|]. intros [= <- <-].
  unfold drop_outbound. set (w1 := mkWorld _ _ _). destruct (lock_quiet w1) as [Hv1 [Hv2 Hv3]].
  destruct (lock w1) as [? v1]. cbn [fst snd] in *. subst. unfold world_eq. cbn.
  rewrite Hv2, Hv3. cbn. rewrite delete_id by done. by destruct (tables w).
Qed.

Lemma visits_agree m peer a b :
  same_tables a b → same_tables (visit_peer m a peer) (service_visit_peer m b peer).
Proof.
  destruct a as [r v], b as [r' w]. intros (Hr & Ht & Hd). cbn [fst snd] in *. subst r'.
  unfold visit_peer, service_visit_peer.
  destruct (lock_quiet v) as [Hv1 [Hv2 Hv3]], (lock_quiet w) as [Hw1 [Hw2 Hw3]].
  destruct (lock v) as [? v1], (lock w) as [? w1]. cbn [fst snd] in *. subst.
  assert (world_eq v1 w1) as E1 by (split; congruence).
  rewrite SE_bind_unfold. destruct (ensure_connection_eq peer v1 w1 E1) as [Hres E2].
  destruct (ensure_connection peer v1) as [rv v2] eqn:Ev, (ensure_connection peer w1) as [rw w2].
  cbn [fst snd] in *. subst rw. destruct rv as [[]|e].
  - unfold send_outbound. rewrite !SE_bind_gets. destruct E2 as [E2t E2d]. rewrite E2t.
    destruct (send_on_eq (peer_connections (tables w2) !! peer) peer m v2 w2 (conj E2t E2d)) as [Hres E3].
    destruct (send_on _ _ _ v2) as [rv v3], (send_on _ _ _ w2) as [rw w3]. cbn [fst snd] in *. subst rw.
    destruct rv as [[]|e]; [by split|]. split; [done|by apply drop_outbound_eq].
  - apply failed_connection_absent in Ev as [Ht' Hd']. destruct E2 as [E2t E2d].
    split_and!; [done|exact (eq_trans Ht' E2t)|exact (eq_trans Hd' E2d)].
Qed.

Lemma visits_inbound_agree known m peer a b :
  same_tables a b → same_tables (visit_inbound known m a peer) (visit_inbound known m b peer).
Proof.
  destruct a as [r v], b as [r' w]. intros (Hr & Ht & Hd). cbn [fst snd] in *. subst r'.
  unfold visit_inbound. case_bool_decide; [by split|].
  destruct (lock_quiet v) as [Hv1 [Hv2 Hv3]], (lock_quiet w) as [Hw1 [Hw2 Hw3]].
  destruct (lock v) as [? v1], (lock w) as [? w1]. cbn [fst snd] in *. subst.
  assert (world_eq v1 w1) as E1 by (split; congruence).
  unfold send_inbound. rewrite !SE_bind_gets. destruct E1 as [E1t E1d]. rewrite E1t.
  destruct (send_on_eq (inbound_connections (tables w1) !! peer) peer m v1 w1 (conj E1t E1d)) as [Hres [E3t E3d]].
  destruct (send_on _ _ _ v1) as [rv v3], (send_on _ _ _ w1) as [rw w3]. cbn [fst snd] in *. subst rw.
  destruct rv as [[]|e]; [by split|]. split; [done|]. unfold drop_inbound.
  destruct (lock_quiet v3) as [Hv1' [Hv2' Hv3']], (lock_quiet w3) as [Hw1' [Hw2' Hw3']].
  destruct (lock v3) as [? v4], (lock w3) as [? w4]. cbn [fst snd] in *. subst. cbn.
  by rewrite Hv2', Hw2', Hv3', Hw3', E3t, E3d.
Qed.

Lemma foldl_agree {A B} (R : relation B) (f g : B → A → B) l :
  (∀ a b x, R a b → R (f a x) (g b x)) → ∀ a b, R a b → R (foldl f a l) (foldl g b l).
Proof. intros Hf. induction l as [|x l IH]; intros a b Hab; [done|]. by apply IH, Hf. Qed.

(** The service's own broadcast and the one the RPC server uses are the
    same: while no other thread touches the tables and no lock is poisoned
    they return the same report, deliver the same messages in the same order
    and leave the same connections. *)
Theorem broadcast_copies_agree m w :
  same_tables (broadcast_to_peers m w) (broadcast m w).
Proof.
  unfold broadcast_to_peers, broadcast. destruct (lock w) as [[] w1]; [|done].
  set (ps := keys _ w1). set (acc0 := (mkReport _ _ _, w1)).
  assert (same_tables (foldl (visit_peer m) acc0 ps) (foldl (service_visit_peer m) acc0 ps)) as Hp
    by (apply foldl_agree; [intros; by apply visits_agree|done]).
  destruct (foldl (visit_peer m) acc0 ps) as [r v], (foldl (service_visit_peer m) acc0 ps) as [r' v'].
  destruct Hp as (Hr & Ht & Hd). cbn [fst snd] in *. subst r'. unfold broadcast_inbound.
  destruct (lock_quiet v) as [Hv1 [Hv2 Hv3]], (lock_quiet v') as [Hw1 [Hw2 Hw3]].
  destruct (lock v) as [? v2], (lock v') as [? v2']. cbn [fst snd] in *. subst.
  replace (keys (inbound_connections (tables v2)) v2) with (keys (inbound_connections (tables v2')) v2').
  2: { unfold keys. destruct (Hsteady (events v2)) as (_ & _ & ->), (Hsteady (events v2')) as (_ & _ & ->).
       by rewrite Hv2, Hw2, Ht. }
  apply foldl_agree; [intros; by apply visits_inbound_agree|]. unfold same_tables. cbn.
  split_and!; congruence.
Qed.

End copies.

(** ** Witnesses *)

Import Demo.

(** The filter of the source's test: capacity two, three blocks. *)
Definition dedupe3 : GossipDedupe := mkDedupe 2 {[20; 30]} [20; 30] ∅ [].

Lemma dedupe_window_witness :
  mark_block_seen 10 dedupe3 = Some (true, mkDedupe 2 {[30; 10]} [30; 10] ∅ []) ∧
  ∃ d', mark_block_seen 10 dedupe3 = Some (bool_decide (10 ∉ block_order dedupe3), d') ∧
    block_order d' = remember 2 (block_order dedupe3) 10 ∧
    blocks d' = list_to_set (block_order d') ∧ (size (blocks d') ≤ 2)%nat ∧
    transaction_order d' = transaction_order dedupe3 ∧ transactions d' = transactions dedupe3.
Proof.
  split; [reflexivity|]. apply (dedupe_window 2 dedupe3 10).
  apply (rtc_l _ _ (mkDedupe 2 {[10]} [10] ∅ [])); [by apply (step_block 10 true)|].
  apply (rtc_l _ _ (mkDedupe 2 {[10; 20]} [10; 20] ∅ [])); [by apply (step_block 20 true)|].
  apply rtc_once. by apply (step_block 30 true).
Defined.

(** Peer 1 cannot be reached, peer 2 is connected, peer 4 connected to us;
    peer 2 is also among the inbound connections. *)
#[local] Instance demo_world : PeerWorld := {|
  connect _ peer := if bool_decide (peer = 1) then Err "refused" else Ok 9%nat;
  transmit _ _ _ := Ok tt;
  key_order _ l := l;
  meanwhile _ t := t;
  lock_poisoned _ := false;
|}.

Definition world0 : @World demo := mkWorld
  (mkTables (<[1 := P2p.new 0 1]> {[2 := P2p.new 0 2]}) {[2 := mkConnection 2 5]}
    (<[4 := mkConnection 4 6]> {[2 := mkConnection 2 7]})) 0 [].

Lemma broadcast_accounts_witness :
  (broadcast_to_peers (Ping 3) world0).1 = mkReport 3 2 1 ∧
  accounted (Ping 3) world0 (broadcast_to_peers (Ping 3) world0) ∧
  accounted (Ping 3) world0 (broadcast (Ping 3) world0).
Proof. split; [reflexivity|]. apply (broadcast_accounts (H := demo) (H0 := demo_world)). by intros. Defined.

Lemma broadcast_copies_agree_witness :
  same_tables (broadcast_to_peers (Ping 3) world0) (broadcast (Ping 3) world0).
Proof. by apply (broadcast_copies_agree). Defined.

End GossipProps.
