(* ===== verification/Wallet.v ===== *)
(** * Wallet: keys, signing and payments ([src/runtime/wallet], [src/mempool.rs]
    and the wallet commands of [src/main.rs])

    Signatures, hex, JSON and the HTTP client are parameters.  A run keeps the
    number of HTTP calls made and the bodies posted. *)

From S2P Require Import Prelude Collections Core Demo Bytes.

Open Scope string_scope.
Open Scope list_scope.
Open Scope Z_scope.

Module Wallet.

(** ** Parameters *)

(** [paqus::crypto] and the unsigned transactions of [paqus::transaction]. *)
Class Crypto `{Paqus} := {
  PublicKey : Type;
  Signature : Type;
  Transaction : Type;
  SECRET_KEY_SIZE : nat;
  derive_public_key : bytes → PublicKey;
  address_from_public_key : PublicKey → Address;
  sign : bytes → bytes → Signature;
  generate_keypair : nat → PublicKey * bytes;
  new_at : Address → Address → Amount → Amount → Nonce → Timestamp → Transaction;
  transaction_from : Transaction → Address;
  signing_bytes : Transaction → bytes;
  new_signed : Transaction → PublicKey → Signature → SignedTransaction;
}.

(** The record of a wallet file and the parts of the RPC answers that are read. *)
Record WalletFile := mkWalletFile { wf_address : string; wf_secret_key : string }.
Record MempoolTxRpcResponse := mkMempoolTx { from : string; nonce : Z }.

(** The crates [hex], [serde_json] and [borsh], the file system, the clock and
    the HTTP client: the n-th call is answered by the n-th answer. *)
Class WalletEnv `{Paqus} := {
  address_to_string : Address → string;
  hex_decode : string → option bytes;
  transaction_to_hex : SignedTransaction → result string string;
  read_to_string : string → result string string;
  parse_wallet_file : string → result string WalletFile;
  parse_balance : string → result string (option Z);
  parse_mempool : string → result string (list MempoolTxRpcResponse);
  http_get : nat → string → string → result string string;
  http_post_json : nat → string → string → string → result string string;
  unix_timestamp : result string Timestamp;
}.

Section wallet.
Context `{Paqus, !Crypto, !WalletEnv}.
Abbreviation SecretKey := bytes (only parsing).

(** ** Keys *)

Record Wallet := mkWallet {
  public_key : PublicKey;
  secret_key : SecretKey;
  address : Address;
}.

Inductive WalletError := SenderAddressMismatch.

Definition from_keypair (public_key : PublicKey) (secret_key : SecretKey) : Wallet :=
  mkWallet public_key secret_key (address_from_public_key public_key).

Definition from_secret_key (secret_key : SecretKey) : Wallet :=
  from_keypair (derive_public_key secret_key) secret_key.

(** [seed] is the randomness of the generator. *)
Definition generate (seed : nat) : Wallet :=
  let '(public_key, secret_key) := generate_keypair seed in from_keypair public_key secret_key.

Definition wallet_address (w : Wallet) : string := address_to_string (address w).

Definition sign_transaction (w : Wallet) (transaction : Transaction) :
    result WalletError SignedTransaction :=
  if bool_decide (transaction_from transaction ≠ address w) then Err SenderAddressMismatch
  else
    let signature := sign (secret_key w) (signing_bytes transaction) in
    Ok (new_signed transaction (public_key w) signature).

(** ** Wallet files *)

Definition parse_address_hex (value : string) : result string Address :=
  b ← ok_or (hex_decode value) "invalid address hex";
  if bool_decide (length b = ADDRESS_SIZE) then Ok (be_value b)
  else Err "address has invalid length".

Definition parse_address (value : option string) : result string Address :=
  match value with
  | None => Err "missing address hex"
  | Some value => parse_address_hex value
  end.

Definition parse_secret_key (value : option string) : result string SecretKey :=
  match value with
  | None => Err "missing secret key hex"
  | Some value =>
      b ← ok_or (hex_decode value) "invalid secret key hex";
      if bool_decide (length b = SECRET_KEY_SIZE) then Ok b else Err "secret key has invalid length"
  end.

Definition load_wallet (path : string) : result string Wallet :=
  contents ← map_err (λ e, "failed to read wallet file " +:+ path +:+ ": " +:+ e) (read_to_string path);
  file ← map_err (λ e, "failed to parse wallet file " +:+ path +:+ ": " +:+ e) (parse_wallet_file contents);
  addr ← parse_address (Some (wf_address file));
  key ← parse_secret_key (Some (wf_secret_key file));
  let wallet := from_secret_key key in
  if bool_decide (address wallet ≠ addr) then Err "wallet address does not match secret key"
  else Ok wallet.

(** ** The next nonce *)

Record Client := mkClient { calls : nat; posts : list (string * string * string) }.

Definition get (rpc_addr path : string) : SE Client string string := λ c,
  (http_get (calls c) rpc_addr path, mkClient (S (calls c)) (posts c)).

Definition post_json (rpc_addr path body : string) : SE Client string string := λ c,
  (http_post_json (calls c) rpc_addr path body,
   mkClient (S (calls c)) (posts c ++ [(rpc_addr, path, body)])).

(** [Vec::dedup] *)
Fixpoint dedup (l : list Z) : list Z :=
  match l with
  | [] => []
  | x :: l' =>
      match l' with
      | y :: _ => if bool_decide (x = y) then dedup l' else x :: dedup l'
      | [] => [x]
      end
  end.

(** The loop over the pending nonces. *)
Fixpoint skip_pending (next_nonce : Z) (pending_nonces : list Z) : Z :=
  match pending_nonces with
  | [] => next_nonce
  | nonce :: pending_nonces' =>
      if bool_decide (nonce = next_nonce) then
        skip_pending (sat_add u64_max next_nonce 1) pending_nonces'
      else if bool_decide (next_nonce < nonce) then next_nonce
      else skip_pending next_nonce pending_nonces'
  end.

Definition pending_nonces (address_hex : string) (txs : list MempoolTxRpcResponse) : list Z :=
  omap (λ t, if bool_decide (from t = address_hex) then Some (nonce t) else None) txs.

Definition resolve_wallet_nonce (address : Address) (rpc_addr : string) : SE Client string Nonce :=
  let address_hex := address_to_string address in
  balance_body ← get rpc_addr ("/balance/" +:+ address_hex);
  balance ← lift (map_err (λ e, "failed to parse balance rpc response: " +:+ e)
    (parse_balance balance_body));
  let next_nonce := default 0 balance in
  mempool_body ← get rpc_addr "/mempool";
  mempool ← lift (map_err (λ e, "failed to parse mempool rpc response: " +:+ e)
    (parse_mempool mempool_body));
  mret (skip_pending next_nonce (dedup (sort_by Z.leb (pending_nonces address_hex mempool)))).

(** ** Payments *)

(** What the command prints: the server's answer, or the signed transaction. *)
Inductive Printed :=
  | Response (response : string)
  | Transfer (tx_hex : string) (signed : SignedTransaction).

(** The JSON object with the field [tx]. *)
Definition quoted (s : string) : string :=
  String (Ascii.ascii_of_nat 34) s +:+ String (Ascii.ascii_of_nat 34) EmptyString.
Definition tx_body (tx_hex : string) : string :=
  "{" +:+ quoted "tx" +:+ ":" +:+ quoted tx_hex +:+ "}".

(** [nonce.unwrap_or(resolve_wallet_nonce(..)?)] evaluates its argument first. *)
Definition submit_wallet_transaction (wallet_path : string) (to : Address) (amount fee : Amount)
    (nonce : option Nonce) (rpc_addr : string) (submit : bool) : SE Client string Printed :=
  wallet ← lift (load_wallet wallet_path);
  resolved ← resolve_wallet_nonce (address wallet) rpc_addr;
  let nonce := default resolved nonce in
  timestamp ← lift unix_timestamp;
  let transaction := new_at (address wallet) to amount fee nonce timestamp in
  signed ← lift (map_err (λ _, "failed to sign transaction: transaction sender does not match wallet address")
    (sign_transaction wallet transaction));
  tx_hex ← lift (transaction_to_hex signed);
  if submit then
    response ← post_json rpc_addr "/tx" (tx_body tx_hex);
    mret (Response response)
  else mret (Transfer tx_hex signed).

Definition submit_wallet_payment (wallet_path : string) (to : Address) (amount fee : Amount)
    (nonce : option Nonce) (rpc_addr : string) : SE Client string Printed :=
  submit_wallet_transaction wallet_path to amount fee nonce rpc_addr true.

End wallet.
End Wallet.
