(* ===== verification/WalletProps.v ===== *)
(** * WalletProps: the next nonce and the payments of a wallet *)

From S2P Require Import Prelude Collections Core Demo Bytes Wallet.

Open Scope string_scope.
Open Scope list_scope.
Open Scope Z_scope.

Module WalletProps.
Import Wallet.

(** ** The next nonce *)

Lemma dedup_sublist l : dedup l `sublist_of` l.
Proof.
  induction l as [|x l IH]; [done|]. cbn [dedup]. destruct l as [|y l]; [done|].
  case_bool_decide; [by apply sublist_cons|by apply sublist_skip].
Qed.

Lemma elem_of_dedup x l : x ∈ dedup l ↔ x ∈ l.
Proof.
  induction l as [|y l IH]; [done|]. cbn [dedup]. destruct l as [|z l]; [done|].
  case_bool_decide; subst; rewrite ?elem_of_cons, IH; set_solver.
Qed.

Lemma StronglySorted_sublist {A} (R : relation A) l k :
  l `sublist_of` k → StronglySorted R k → StronglySorted R l.
Proof.
  induction 1 as [|x l k Hs IH|x l k Hs IH]; [done| |]; intros Hk; apply StronglySorted_inv in Hk as [Hk Hf].
  - constructor; [by apply IH|]. apply list.Forall_forall. intros y Hy.
    rewrite list.Forall_forall in Hf. apply Hf. by eapply sublist_subseteq.
  - by apply IH.
Qed.

(** Over a sorted list, the loop stops at the first gap. *)
Lemma skip_pending_spec l : ∀ n, StronglySorted Z.le l → Forall (λ x, x ≤ u64_max) l → n ≤ u64_max →
  let r := skip_pending n l in
  n ≤ r ≤ u64_max ∧ (∀ k, n ≤ k < r → k ∈ l) ∧ (r ∉ l ∨ r = u64_max).
Proof.
  induction l as [|x l IH]; intros n Hs Hb Hn; cbn [skip_pending]; cbn zeta.
  { split_and!; [lia|done|intros; lia|]. left. apply not_elem_of_nil. }
  apply StronglySorted_inv in Hs as [Hs Hx]. apply Forall_cons in Hb as [Hx' Hb].
  rewrite list.Forall_forall in Hx. case_bool_decide as Heq; [subst x|case_bool_decide as Hlt].
  - destruct (IH (sat_add u64_max n 1) Hs Hb (sat_add_bound _ _ _)) as ((Hr1 & Hr2) & Hr3 & Hr4).
    set (r := skip_pending _ _) in *. unfold sat_add in *. split_and!; [lia|lia| |].
    + intros k Hk. destruct (decide (k = n)) as [->|]; [left|]. right. apply Hr3. lia.
    + destruct (decide (r = n)) as [E|Hne]; [right; lia|]. destruct Hr4 as [Hr4|]; [left|by right].
      rewrite not_elem_of_cons. by split.
  - split_and!; [lia|lia|intros; lia|]. left. rewrite not_elem_of_cons. split; [done|].
    intros Hin%Hx. lia.
  - destruct (IH n Hs Hb Hn) as ((Hr1 & Hr2) & Hr3 & Hr4). split_and!; [lia|lia| |].
    + intros k Hk. right. by apply Hr3.
    + destruct Hr4 as [Hr4|]; [left|by right]. rewrite not_elem_of_cons. split; [lia|done].
Qed.

Lemma sorted_le l : StronglySorted Z.le (dedup (sort_by Z.leb l)).
Proof.
  eapply StronglySorted_sublist; [apply dedup_sublist|].
  pose proof (sort_by_StronglySorted Z.leb (TotalLeb0 := @key_leb_total Z Z_ord) l) as Hs.
  induction Hs as [|x k Hs IH Hf]; constructor; [done|].
  eapply Forall_impl; [exact Hf|]. intros y Hy. by apply Z.leb_le.
Qed.

Section props.
Context `{Paqus, !Crypto, !WalletEnv}.

(** C37: the nonce a wallet uses for its next payment is the first one, from
    the nonce of its account on, that none of its pending transactions uses;
    every smaller one from there on is pending. *)
Theorem next_nonce_is_free addr rpc c balance_body balance mempool_body mempool :
  http_get (calls c) rpc ("/balance/" +:+ address_to_string addr) = Ok balance_body →
  parse_balance balance_body = Ok balance →
  http_get (S (calls c)) rpc "/mempool" = Ok mempool_body →
  parse_mempool mempool_body = Ok mempool →
  default 0 balance ≤ u64_max → Forall (λ t, nonce t ≤ u64_max) mempool →
  ∃ n, resolve_wallet_nonce addr rpc c = (Ok n, mkClient (S (S (calls c))) (posts c)) ∧
    default 0 balance ≤ n ≤ u64_max ∧
    (∀ k, default 0 balance ≤ k < n → k ∈ pending_nonces (address_to_string addr) mempool) ∧
    (n ∉ pending_nonces (address_to_string addr) mempool ∨ n = u64_max).
Proof.
  intros Hb Hpb Hm Hpm Hn Hall. eexists. split.
  { unfold resolve_wallet_nonce, get. rewrite SE_bind_unfold, Hb. rewrite SE_bind_lift, Hpb.
    cbn [map_err]. rewrite SE_bind_unfold. cbn [calls posts]. rewrite Hm, SE_bind_lift, Hpm. reflexivity. }
  set (l := pending_nonces _ mempool).
  assert (Forall (λ x, x ≤ u64_max) (dedup (sort_by Z.leb l))) as Hf.
  { apply list.Forall_forall. intros x. rewrite elem_of_dedup, elem_of_sort_by. unfold l, pending_nonces.
    rewrite list_elem_of_omap. intros (t & Ht & E). case_bool_decide; simplify_eq.
    rewrite list.Forall_forall in Hall. by apply Hall. }
  destruct (skip_pending_spec _ _ (sorted_le l) Hf Hn) as (Hr & Hk & Hfree). split; [done|].
  setoid_rewrite elem_of_dedup in Hk. setoid_rewrite elem_of_sort_by in Hk.
  split; [done|]. by rewrite elem_of_dedup, elem_of_sort_by in Hfree.
Qed.

(** [Transaction::new_at] stores its first argument as the sender. *)
Hypothesis Hfrom : ∀ a to amount fee n t, transaction_from (new_at a to amount fee n t) = a.

(** The transaction a wallet signs for a payment. *)
Definition payment (w : Wallet) (to : Address) (amount fee : Amount) (n : Nonce) (t : Timestamp) :
    SignedTransaction :=
  let tx := new_at (address w) to amount fee n t in
  new_signed tx (derive_public_key (secret_key w)) (sign (secret_key w) (signing_bytes tx)).

Lemma load_wallet_derived path w :
  load_wallet path = Ok w → w = from_secret_key (secret_key w).
Proof.
  unfold load_wallet. intros (c & _ & Hw)%result_bind_Ok. apply result_bind_Ok in Hw as (f & _ & Hw).
  apply result_bind_Ok in Hw as (a & _ & Hw). apply result_bind_Ok in Hw as (k & _ & Hw).
  case_bool_decide; by simplify_eq.
Qed.

(** The course of a payment that succeeds, up to the post or the print. *)
Lemma payment_run path to amount fee n rpc submit c out c' :
  submit_wallet_transaction path to amount fee n rpc submit c = (Ok out, c') →
  ∃ w resolved c1 t tx_hex,
    load_wallet path = Ok w ∧ address w = address_from_public_key (derive_public_key (secret_key w)) ∧
    resolve_wallet_nonce (address w) rpc c = (Ok resolved, c1) ∧ unix_timestamp = Ok t ∧
    transaction_to_hex (payment w to amount fee (default resolved n) t) = Ok tx_hex ∧
    if submit then ∃ response, http_post_json (calls c1) rpc "/tx" (tx_body tx_hex) = Ok response ∧
      out = Response response ∧ c' = mkClient (S (calls c1)) (posts c1 ++ [(rpc, "/tx", tx_body tx_hex)])
    else out = Transfer tx_hex (payment w to amount fee (default resolved n) t) ∧ c' = c1.
Proof.
  unfold submit_wallet_transaction. rewrite SE_bind_lift.
  destruct (load_wallet path) as [w|] eqn:Hw; [|done]. rewrite SE_bind_unfold.
  destruct (resolve_wallet_nonce (address w) rpc c) as [[resolved|] c1] eqn:Hr; [|done]. cbn zeta.
  rewrite SE_bind_lift. destruct unix_timestamp as [t|] eqn:Ht; [|done].
  pose proof (load_wallet_derived _ _ Hw) as Hd. unfold sign_transaction.
  rewrite Hfrom, bool_decide_eq_false_2 by naive_solver. rewrite SE_bind_lift. cbn [map_err].
  assert (public_key w = derive_public_key (secret_key w)) as -> by (by rewrite Hd at 1).
  change (new_signed _ _ _) with (payment w to amount fee (default resolved n) t).
  rewrite SE_bind_lift. destruct (transaction_to_hex _) as [tx_hex|] eqn:Hx; [|done]. intros Hout.
  exists w, resolved, c1, t, tx_hex. split_and!; try done; [by rewrite Hd at 1|].
  destruct submit; [|by injection Hout as <- <-].
  rewrite SE_bind_unfold in Hout. cbn [post_json] in Hout.
  destruct (http_post_json _ _ _ _) as [response|] eqn:E; [|done]. injection Hout as <- <-. by exists response.
Qed.

(** A command whose wallet, nonce, clock and encoding are in order posts the
    payment, and returns what the server answers, whatever it is. *)
Lemma payment_posted path to amount fee n rpc c w resolved c1 t tx_hex response :
  load_wallet path = Ok w → resolve_wallet_nonce (address w) rpc c = (Ok resolved, c1) →
  unix_timestamp = Ok t → transaction_to_hex (payment w to amount fee (default resolved n) t) = Ok tx_hex →
  http_post_json (calls c1) rpc "/tx" (tx_body tx_hex) = Ok response →
  submit_wallet_payment path to amount fee n rpc c =
    (Ok (Response response), mkClient (S (calls c1)) (posts c1 ++ [(rpc, "/tx", tx_body tx_hex)])).
Proof.
  intros Hw Hr Ht Hx Hp. unfold submit_wallet_payment, submit_wallet_transaction.
  rewrite SE_bind_lift, Hw, SE_bind_unfold, Hr. cbn zeta. rewrite SE_bind_lift, Ht.
  pose proof (load_wallet_derived _ _ Hw) as Hd. unfold sign_transaction.
  rewrite Hfrom, bool_decide_eq_false_2 by naive_solver. rewrite SE_bind_lift. cbn [map_err].
  assert (public_key w = derive_public_key (secret_key w)) as -> by (by rewrite Hd at 1).
  change (new_signed _ _ _) with (payment w to amount fee (default resolved n) t).
  rewrite SE_bind_lift, Hx, SE_bind_unfold. cbn [post_json]. by rewrite Hp.
Qed.

(** C38: the payment command sends what the wallet signed and nothing else: a
    run that succeeds has signed, with the key in the file, a transfer whose
    sender is the address of that key and whose nonce is the one given or else
    the next free one; it has posted that transaction, or posted nothing when
    it was asked only to print it. *)
Theorem payment_signed_by_wallet path to amount fee n rpc submit c out c' :
  submit_wallet_transaction path to amount fee n rpc submit c = (Ok out, c') →
  ∃ w resolved c1 t tx_hex,
    load_wallet path = Ok w ∧ address w = address_from_public_key (derive_public_key (secret_key w)) ∧
    resolve_wallet_nonce (address w) rpc c = (Ok resolved, c1) ∧ unix_timestamp = Ok t ∧
    transaction_to_hex (payment w to amount fee (default resolved n) t) = Ok tx_hex ∧
    posts c' = posts c1 ++ (if submit then [(rpc, "/tx", tx_body tx_hex)] else []) ∧
    (submit = false → out = Transfer tx_hex (payment w to amount fee (default resolved n) t)).
Proof.
  intros (w & resolved & c1 & t & tx_hex & ? & ? & ? & ? & ? & Hout)%payment_run.
  exists w, resolved, c1, t, tx_hex. split_and!; try done.
  - destruct submit; [by destruct Hout as (response & _ & _ & ->)|]. destruct Hout as [_ ->]. by rewrite app_nil_r.
  - intros ->. apply Hout.
Qed.

(** A nonce given on the command line does not spare the RPC calls:
    printing a signed transaction with an explicit nonce fails when no node
    answers, although neither answer would be used. *)
Theorem explicit_nonce_needs_rpc path w to amount fee n rpc c e :
  load_wallet path = Ok w →
  http_get (calls c) rpc ("/balance/" +:+ address_to_string (address w)) = Err e →
  (submit_wallet_transaction path to amount fee (Some n) rpc false c).1 = Err e.
Proof.
  intros Hw Hb. unfold submit_wallet_transaction. rewrite SE_bind_lift, Hw, SE_bind_unfold.
  unfold resolve_wallet_nonce, get. rewrite SE_bind_unfold, Hb. reflexivity.
Qed.

End props.

(** ** Witnesses: one key, an account with nonce 3 and two pending payments *)

Import Demo.

#[export] Instance demo_crypto : Crypto := {|
  PublicKey := Z; Signature := Z; Transaction := Tx; SECRET_KEY_SIZE := 1;
  derive_public_key sk := 10 * sumZ sk;
  address_from_public_key pk := pk;
  sign sk msg := sumZ sk + sumZ msg;
  generate_keypair seed := (10 * Z.of_nat seed, [Z.of_nat seed]);
  new_at from to amount fee nonce time := mkTx 0 from to amount fee nonce time;
  transaction_from := d_from;
  signing_bytes tx := [d_to tx; d_amount tx];
  new_signed tx pk sig := mkTx (pk + sig) (d_from tx) (d_to tx) (d_amount tx) (d_fee tx) (d_nonce tx) (d_time tx);
|}.

Definition demo_env (up : bool) : WalletEnv := {|
  address_to_string a := if bool_decide (a = 50) then "a50" else "other";
  hex_decode s :=
    if bool_decide (s = "key") then Some [5]
    else if bool_decide (s = "a50") then Some (repeat 0 19 ++ [50]) else None;
  transaction_to_hex _ := Ok "feed";
  read_to_string _ := Ok "file";
  parse_wallet_file _ := Ok (mkWalletFile "a50" "key");
  parse_balance _ := Ok (Some 3);
  parse_mempool _ := Ok [mkMempoolTx "a50" 4; mkMempoolTx "b" 5; mkMempoolTx "a50" 3];
  http_get _ _ _ := if up then Ok "body" else Err "refused";
  http_post_json _ _ _ _ := Ok "accepted";
  unix_timestamp := Ok 7000;
|}.

#[local] Instance online : WalletEnv := demo_env true.

Lemma next_nonce_is_free_witness :
  (resolve_wallet_nonce 50 "rpc" (mkClient 0 [])).1 = Ok 5 ∧
  ∃ n, resolve_wallet_nonce 50 "rpc" (mkClient 0 []) = (Ok n, mkClient 2 []) ∧
    3 ≤ n ≤ u64_max ∧
    (∀ k, 3 ≤ k < n → k ∈ pending_nonces (address_to_string 50) [mkMempoolTx "a50" 4; mkMempoolTx "b" 5; mkMempoolTx "a50" 3]) ∧
    (n ∉ pending_nonces (address_to_string 50) [mkMempoolTx "a50" 4; mkMempoolTx "b" 5; mkMempoolTx "a50" 3] ∨ n = u64_max).
Proof.
  split; [reflexivity|].
  apply (next_nonce_is_free 50 "rpc" (mkClient 0 []) "body" (Some 3) "body"
    [mkMempoolTx "a50" 4; mkMempoolTx "b" 5; mkMempoolTx "a50" 3]); try reflexivity; by_eval.
Defined.

Definition pay_run := submit_wallet_transaction "wallet.json" 2 10 2 None "rpc" true (mkClient 0 []).

Lemma payment_signed_by_wallet_witness :
  pay_run = (Ok (Response "accepted"), mkClient 3 [("rpc", "/tx", tx_body "feed")]) ∧
  ∃ w resolved c1 t tx_hex,
    load_wallet "wallet.json" = Ok w ∧ address w = address_from_public_key (derive_public_key (secret_key w)) ∧
    resolve_wallet_nonce (address w) "rpc" (mkClient 0 []) = (Ok resolved, c1) ∧ unix_timestamp = Ok t ∧
    transaction_to_hex (payment w 2 10 2 (default resolved None) t) = Ok tx_hex ∧
    posts (mkClient 3 [("rpc", "/tx", tx_body "feed")]) = posts c1 ++ [("rpc", "/tx", tx_body tx_hex)] ∧
    (true = false → Response "accepted" = Transfer tx_hex (payment w 2 10 2 (default resolved None) t)).
Proof.
  split; [reflexivity|].
  refine (payment_signed_by_wallet _ "wallet.json" 2 10 2 None "rpc" true (mkClient 0 [])
    (Response "accepted") (mkClient 3 [("rpc", "/tx", tx_body "feed")]) _); reflexivity.
Defined.

Lemma explicit_nonce_needs_rpc_witness :
  (submit_wallet_transaction (H1 := demo_env false)
    "wallet.json" 2 10 2 (Some 9) "rpc" false (mkClient 0 [])).1 = Err "refused".
Proof.
  by apply (explicit_nonce_needs_rpc (H1 := demo_env false) "wallet.json" (from_secret_key [5])).
Defined.

End WalletProps.
