(* ===== verification/Config.v ===== *)
(** * Config: the configuration of a node ([src/main.rs])

    The defaults, the JSON file and the command line of [paqus node run].
    Durations are in seconds.  Socket addresses are abstract; their parser, the
    JSON parser and the file system are parameters.  Strings are ASCII. *)

From Stdlib Require Import Ascii.
From S2P Require Import Prelude Collections Core Mempool P2p Bytes Wallet.

Open Scope string_scope.
Open Scope list_scope.
Open Scope Z_scope.

Module Config.

Abbreviation SocketAddr := Z (only parsing).

(** ** Text *)

(** [char::is_whitespace] on ASCII. *)
Definition is_space (a : Ascii.ascii) : bool :=
  let n := Ascii.nat_of_ascii a in
  bool_decide (n = 32%nat ∨ (9 ≤ n ≤ 13)%nat).

Fixpoint trim_start (s : string) : string :=
  match s with
  | String a s' => if is_space a then trim_start s' else s
  | EmptyString => EmptyString
  end.

Fixpoint trim_end (s : string) : string :=
  match s with
  | String a s' =>
      match trim_end s' with
      | EmptyString => if is_space a then EmptyString else String a EmptyString
      | t => String a t
      end
  | EmptyString => EmptyString
  end.

Definition trim (s : string) : string := trim_end (trim_start s).

Definition starts_with_dash (s : string) : bool :=
  match s with
  | String a _ => bool_decide (a = "-"%char)
  | EmptyString => false
  end.

(** [str::parse] at an unsigned type with maximum [bound]. *)
Definition digit (a : Ascii.ascii) : option Z :=
  let n := Z.of_nat (Ascii.nat_of_ascii a) in
  if bool_decide (48 ≤ n ≤ 57) then Some (n - 48) else None.

Fixpoint parse_digits (bound acc : Z) (s : string) : result string Z :=
  match s with
  | EmptyString => Ok acc
  | String a s' =>
      d ← ok_or (digit a) "invalid digit found in string";
      if bool_decide (bound < acc * 10 + d) then Err "number too large to fit in target type"
      else parse_digits bound (acc * 10 + d) s'
  end.

Definition parse_uint (bound : Z) (s : string) : result string Z :=
  match s with
  | EmptyString => Err "cannot parse integer from empty string"
  | String a s' =>
      if bool_decide (a = "+"%char) then
        if bool_decide (s' = EmptyString) then Err "invalid digit found in string"
        else parse_digits bound 0 s'
      else parse_digits bound 0 s
  end.

(** ** The configuration *)

Definition DEFAULT_NODE_DB : string := "./data/paqus".
Definition DEFAULT_LISTEN_ADDR : string := "0.0.0.0:5555".
Definition DEFAULT_RPC_ADDR : string := "127.0.0.1:6666".
Definition DEFAULT_CONFIG_FILE : string := "./data/paqus/node.json".
Definition DEFAULT_PEERS_FILE : string := "./data/paqus/peers.json".
Definition DEFAULT_MAX_PEERS : Z := 128.
Definition DEFAULT_SHUTDOWN_FILE : string := "./data/paqus/STOP".
Definition DEFAULT_GATEWAY_HEARTBEAT : Z := 60.
Definition DEFAULT_MINING_INTERVAL `{Paqus} : Z := BLOCK_TIME.

Record RunConfig := mkRunConfig {
  db_path : string;
  listen_addrs : list SocketAddr;
  rpc_addr : SocketAddr;
  peers : list SocketAddr;
  peers_file : option string;
  gateway_url : option string;
  public_addrs : list SocketAddr;
  gateway_heartbeat : Z;
  shutdown_file : string;
  max_peers : Z;
  min_relay_fee : Z;
  market_fee : Z;
  low_fee_expiry : Z;
  mempool_expiry : Z;
  miner_address : Address;
  miner_secret_key : option bytes;
  mine : bool;
  mine_interval : Z;
  mine_attempts : Z;
}.

(** Assignment to a field. *)
Definition set_db_path (v : string) (c : RunConfig) : RunConfig :=
  mkRunConfig v (listen_addrs c) (rpc_addr c) (peers c) (peers_file c) (gateway_url c)
    (public_addrs c) (gateway_heartbeat c) (shutdown_file c) (max_peers c) (min_relay_fee c)
    (market_fee c) (low_fee_expiry c) (mempool_expiry c) (miner_address c) (miner_secret_key c)
    (mine c) (mine_interval c) (mine_attempts c).
Definition set_listen_addrs (v : list SocketAddr) (c : RunConfig) : RunConfig :=
  mkRunConfig (db_path c) v (rpc_addr c) (peers c) (peers_file c) (gateway_url c) (public_addrs c)
    (gateway_heartbeat c) (shutdown_file c) (max_peers c) (min_relay_fee c) (market_fee c)
    (low_fee_expiry c) (mempool_expiry c) (miner_address c) (miner_secret_key c) (mine c)
    (mine_interval c) (mine_attempts c).
Definition set_rpc_addr (v : SocketAddr) (c : RunConfig) : RunConfig :=
  mkRunConfig (db_path c) (listen_addrs c) v (peers c) (peers_file c) (gateway_url c)
    (public_addrs c) (gateway_heartbeat c) (shutdown_file c) (max_peers c) (min_relay_fee c)
    (market_fee c) (low_fee_expiry c) (mempool_expiry c) (miner_address c) (miner_secret_key c)
    (mine c) (mine_interval c) (mine_attempts c).
Definition set_peers (v : list SocketAddr) (c : RunConfig) : RunConfig :=
  mkRunConfig (db_path c) (listen_addrs c) (rpc_addr c) v (peers_file c) (gateway_url c)
    (public_addrs c) (gateway_heartbeat c) (shutdown_file c) (max_peers c) (min_relay_fee c)
    (market_fee c) (low_fee_expiry c) (mempool_expiry c) (miner_address c) (miner_secret_key c)
    (mine c) (mine_interval c) (mine_attempts c).
Definition set_peers_file (v : option string) (c : RunConfig) : RunConfig :=
  mkRunConfig (db_path c) (listen_addrs c) (rpc_addr c) (peers c) v (gateway_url c)
    (public_addrs c) (gateway_heartbeat c) (shutdown_file c) (max_peers c) (min_relay_fee c)
    (market_fee c) (low_fee_expiry c) (mempool_expiry c) (miner_address c) (miner_secret_key c)
    (mine c) (mine_interval c) (mine_attempts c).
Definition set_gateway_url (v : option string) (c : RunConfig) : RunConfig :=
  mkRunConfig (db_path c) (listen_addrs c) (rpc_addr c) (peers c) (peers_file c) v
    (public_addrs c) (gateway_heartbeat c) (shutdown_file c) (max_peers c) (min_relay_fee c)
    (market_fee c) (low_fee_expiry c) (mempool_expiry c) (miner_address c) (miner_secret_key c)
    (mine c) (mine_interval c) (mine_attempts c).
Definition set_public_addrs (v : list SocketAddr) (c : RunConfig) : RunConfig :=
  mkRunConfig (db_path c) (listen_addrs c) (rpc_addr c) (peers c) (peers_file c) (gateway_url c) v
    (gateway_heartbeat c) (shutdown_file c) (max_peers c) (min_relay_fee c) (market_fee c)
    (low_fee_expiry c) (mempool_expiry c) (miner_address c) (miner_secret_key c) (mine c)
    (mine_interval c) (mine_attempts c).
Definition set_gateway_heartbeat (v : Z) (c : RunConfig) : RunConfig :=
  mkRunConfig (db_path c) (listen_addrs c) (rpc_addr c) (peers c) (peers_file c) (gateway_url c)
    (public_addrs c) v (shutdown_file c) (max_peers c) (min_relay_fee c) (market_fee c)
    (low_fee_expiry c) (mempool_expiry c) (miner_address c) (miner_secret_key c) (mine c)
    (mine_interval c) (mine_attempts c).
Definition set_shutdown_file (v : string) (c : RunConfig) : RunConfig :=
  mkRunConfig (db_path c) (listen_addrs c) (rpc_addr c) (peers c) (peers_file c) (gateway_url c)
    (public_addrs c) (gateway_heartbeat c) v (max_peers c) (min_relay_fee c) (market_fee c)
    (low_fee_expiry c) (mempool_expiry c) (miner_address c) (miner_secret_key c) (mine c)
    (mine_interval c) (mine_attempts c).
Definition set_max_peers (v : Z) (c : RunConfig) : RunConfig :=
  mkRunConfig (db_path c) (listen_addrs c) (rpc_addr c) (peers c) (peers_file c) (gateway_url c)
    (public_addrs c) (gateway_heartbeat c) (shutdown_file c) v (min_relay_fee c) (market_fee c)
    (low_fee_expiry c) (mempool_expiry c) (miner_address c) (miner_secret_key c) (mine c)
    (mine_interval c) (mine_attempts c).
Definition set_min_relay_fee (v : Z) (c : RunConfig) : RunConfig :=
  mkRunConfig (db_path c) (listen_addrs c) (rpc_addr c) (peers c) (peers_file c) (gateway_url c)
    (public_addrs c) (gateway_heartbeat c) (shutdown_file c) (max_peers c) v (market_fee c)
    (low_fee_expiry c) (mempool_expiry c) (miner_address c) (miner_secret_key c) (mine c)
    (mine_interval c) (mine_attempts c).
Definition set_market_fee (v : Z) (c : RunConfig) : RunConfig :=
  mkRunConfig (db_path c) (listen_addrs c) (rpc_addr c) (peers c) (peers_file c) (gateway_url c)
    (public_addrs c) (gateway_heartbeat c) (shutdown_file c) (max_peers c) (min_relay_fee c) v
    (low_fee_expiry c) (mempool_expiry c) (miner_address c) (miner_secret_key c) (mine c)
    (mine_interval c) (mine_attempts c).
Definition set_low_fee_expiry (v : Z) (c : RunConfig) : RunConfig :=
  mkRunConfig (db_path c) (listen_addrs c) (rpc_addr c) (peers c) (peers_file c) (gateway_url c)
    (public_addrs c) (gateway_heartbeat c) (shutdown_file c) (max_peers c) (min_relay_fee c)
    (market_fee c) v (mempool_expiry c) (miner_address c) (miner_secret_key c) (mine c)
    (mine_interval c) (mine_attempts c).
Definition set_mempool_expiry (v : Z) (c : RunConfig) : RunConfig :=
  mkRunConfig (db_path c) (listen_addrs c) (rpc_addr c) (peers c) (peers_file c) (gateway_url c)
    (public_addrs c) (gateway_heartbeat c) (shutdown_file c) (max_peers c) (min_relay_fee c)
    (market_fee c) (low_fee_expiry c) v (miner_address c) (miner_secret_key c) (mine c)
    (mine_interval c) (mine_attempts c).
Definition set_miner_address (v : Address) (c : RunConfig) : RunConfig :=
  mkRunConfig (db_path c) (listen_addrs c) (rpc_addr c) (peers c) (peers_file c) (gateway_url c)
    (public_addrs c) (gateway_heartbeat c) (shutdown_file c) (max_peers c) (min_relay_fee c)
    (market_fee c) (low_fee_expiry c) (mempool_expiry c) v (miner_secret_key c) (mine c)
    (mine_interval c) (mine_attempts c).
Definition set_miner_secret_key (v : option bytes) (c : RunConfig) : RunConfig :=
  mkRunConfig (db_path c) (listen_addrs c) (rpc_addr c) (peers c) (peers_file c) (gateway_url c)
    (public_addrs c) (gateway_heartbeat c) (shutdown_file c) (max_peers c) (min_relay_fee c)
    (market_fee c) (low_fee_expiry c) (mempool_expiry c) (miner_address c) v (mine c)
    (mine_interval c) (mine_attempts c).
Definition set_mine (v : bool) (c : RunConfig) : RunConfig :=
  mkRunConfig (db_path c) (listen_addrs c) (rpc_addr c) (peers c) (peers_file c) (gateway_url c)
    (public_addrs c) (gateway_heartbeat c) (shutdown_file c) (max_peers c) (min_relay_fee c)
    (market_fee c) (low_fee_expiry c) (mempool_expiry c) (miner_address c) (miner_secret_key c) v
    (mine_interval c) (mine_attempts c).
Definition set_mine_interval (v : Z) (c : RunConfig) : RunConfig :=
  mkRunConfig (db_path c) (listen_addrs c) (rpc_addr c) (peers c) (peers_file c) (gateway_url c)
    (public_addrs c) (gateway_heartbeat c) (shutdown_file c) (max_peers c) (min_relay_fee c)
    (market_fee c) (low_fee_expiry c) (mempool_expiry c) (miner_address c) (miner_secret_key c)
    (mine c) v (mine_attempts c).
Definition set_mine_attempts (v : Z) (c : RunConfig) : RunConfig :=
  mkRunConfig (db_path c) (listen_addrs c) (rpc_addr c) (peers c) (peers_file c) (gateway_url c)
    (public_addrs c) (gateway_heartbeat c) (shutdown_file c) (max_peers c) (min_relay_fee c)
    (market_fee c) (low_fee_expiry c) (mempool_expiry c) (miner_address c) (miner_secret_key c)
    (mine c) (mine_interval c) v.

Inductive OneOrMany (T : Type) :=
  | One (value : T)
  | Many (values : list T).
Arguments One {T} _.
Arguments Many {T} _.

Definition into_vec {T} (o : OneOrMany T) : list T :=
  match o with One value => [value] | Many values => values end.

Record RunConfigFile := mkRunConfigFile {
  f_db_path : string;
  f_listen_addr : OneOrMany string;
  f_rpc_addr : string;
  f_peers : list string;
  f_peers_file : option string;
  f_gateway_url : option string;
  f_public_addr : option (OneOrMany string);
  f_gateway_heartbeat_secs : Z;
  f_shutdown_file : string;
  f_max_peers : Z;
  f_min_relay_fee : option Z;
  f_market_fee : option Z;
  f_low_fee_expiry_secs : option Z;
  f_mempool_expiry_secs : option Z;
  f_wallet : option string;
  f_miner_address : option string;
  f_miner_secret_key : option string;
  f_mine : bool;
  f_mine_interval_secs : Z;
  f_mine_attempts : Z;
}.

(** Why a file could not be read. *)
Inductive ReadError :=
  | NotFound
  | OtherReadError (message : string).

(** The parser of socket addresses, which accepts the two built-in addresses,
    and the JSON configuration file. *)
Class ConfigEnv := {
  parse_socket_addr : string → result string SocketAddr;
  default_listen : SocketAddr;
  default_rpc : SocketAddr;
  default_listen_parsed : parse_socket_addr DEFAULT_LISTEN_ADDR = Ok default_listen;
  default_rpc_parsed : parse_socket_addr DEFAULT_RPC_ADDR = Ok default_rpc;
  read_config : string → result ReadError string;
  parse_config : string → result string RunConfigFile;
}.

Section config.
Context `{Paqus, !Wallet.Crypto, !Wallet.WalletEnv, !ConfigEnv}.
Abbreviation R := (result string).

Definition default_config : RunConfig :=
  mkRunConfig DEFAULT_NODE_DB [default_listen] default_rpc [] (Some DEFAULT_PEERS_FILE) None []
    DEFAULT_GATEWAY_HEARTBEAT DEFAULT_SHUTDOWN_FILE DEFAULT_MAX_PEERS DEFAULT_MIN_RELAY_FEE
    DEFAULT_MARKET_FEE LOW_FEE_EXPIRY_SECS MEMPOOL_EXPIRY_SECS (be_value (repeat 9 20)) None
    false DEFAULT_MINING_INTERVAL 10000.

Definition dedupe_socket_addrs (addrs : list SocketAddr) : list SocketAddr :=
  P2p.retain_unseen ∅ addrs.

(** [args.windows(2).find_map(..)] *)
Fixpoint config_path_arg (args : list string) : option string :=
  match args with
  | flag :: args' =>
      match args' with
      | value :: _ => if bool_decide (flag = "--config") then Some value else config_path_arg args'
      | [] => None
      end
  | [] => None
  end.

Definition load_run_config_file_if_exists (path : string) : R (option RunConfigFile) :=
  match read_config path with
  | Err NotFound => Ok None
  | Err (OtherReadError error) => Err ("failed to read config " +:+ path +:+ ": " +:+ error)
  | Ok contents =>
      file ← map_err (λ error, "failed to parse config " +:+ path +:+ ": " +:+ error)
        (parse_config contents);
      Ok (Some file)
  end.

Definition apply_wallet_file (path : option string) (c : RunConfig) : R RunConfig :=
  path ← ok_or path "missing value for --wallet";
  wallet ← Wallet.load_wallet path;
  Ok (set_miner_secret_key (Some (Wallet.secret_key wallet))
    (set_miner_address (Wallet.address wallet) c)).

Definition parse_socket (value : option string) (flag : string) : R SocketAddr :=
  value ← ok_or value ("missing value for " +:+ flag);
  map_err (λ error, "invalid socket address for " +:+ flag +:+ ": " +:+ error)
    (parse_socket_addr value).

(** [.into_iter().map(..).collect::<Result<Vec<_>, _>>()?] *)
Fixpoint parse_all (describe : string → string → string) (l : list string) : R (list SocketAddr) :=
  match l with
  | [] => Ok []
  | addr :: l' =>
      a ← map_err (describe addr) (parse_socket_addr addr);
      rest ← parse_all describe l';
      Ok (a :: rest)
  end.

(** ** The configuration file *)

(** The limits and the mining options. *)
Definition apply_file_policy (f : RunConfigFile) (c : RunConfig) : RunConfig :=
  let c := set_gateway_heartbeat (Z.max (f_gateway_heartbeat_secs f) 1) c in
  let c := set_shutdown_file (f_shutdown_file f) c in
  let c := set_max_peers (Z.max (f_max_peers f) 1) c in
  let c := set_min_relay_fee
    (Z.max (default (min_relay_fee c) (f_min_relay_fee f)) MIN_RELAY_FEE_FLOOR) c in
  let c := set_market_fee (default (market_fee c) (f_market_fee f)) c in
  let c := from_option (λ secs, set_low_fee_expiry (Z.max secs 1) c) c (f_low_fee_expiry_secs f) in
  let c := from_option (λ secs, set_mempool_expiry (Z.max secs 1) c) c (f_mempool_expiry_secs f) in
  let c := set_mine (f_mine f) c in
  let c := set_mine_interval (f_mine_interval_secs f) c in
  set_mine_attempts (f_mine_attempts f) c.

(** [if let Some(value) = field { .. }] *)
Definition if_some {A} (o : option A) (update : A → RunConfig → R RunConfig) (c : RunConfig) :
    R RunConfig :=
  match o with Some a => update a c | None => Ok c end.

(** The wallet, then the address and the key, which override it. *)
Definition apply_file_identity (f : RunConfigFile) (c : RunConfig) : R RunConfig :=
  c ← if_some (f_wallet f) (λ path, apply_wallet_file (Some path)) c;
  c ← if_some (f_miner_address f)
    (λ addr c, a ← Wallet.parse_address (Some addr); Ok (set_miner_address a c)) c;
  if_some (f_miner_secret_key f)
    (λ key c, k ← Wallet.parse_secret_key (Some key); Ok (set_miner_secret_key (Some k) c)) c.

Definition apply_run_config_file (f : RunConfigFile) (c : RunConfig) : R RunConfig :=
  let c := set_db_path (f_db_path f) c in
  listen ← parse_all (λ addr e, "invalid listen_addr `" +:+ addr +:+ "` in config: " +:+ e)
    (into_vec (f_listen_addr f));
  let c := set_listen_addrs listen c in
  rpc ← map_err (λ e, "invalid rpc_addr in config: " +:+ e) (parse_socket_addr (f_rpc_addr f));
  let c := set_rpc_addr rpc c in
  ps ← parse_all (λ peer e, "invalid peer `" +:+ peer +:+ "` in config: " +:+ e) (f_peers f);
  let c := set_peers ps c in
  let c := set_peers_file (f_peers_file f) c in
  let c := set_gateway_url (f_gateway_url f) c in
  public ← parse_all (λ addr e, "invalid public_addr `" +:+ addr +:+ "` in config: " +:+ e)
    (from_option into_vec [] (f_public_addr f));
  let c := set_public_addrs public c in
  apply_file_identity f (apply_file_policy f c).

Definition normalize_mempool_policy (c : RunConfig) : RunConfig :=
  let c := set_min_relay_fee (Z.max (min_relay_fee c) MIN_RELAY_FEE_FLOOR) c in
  let c := set_market_fee (Z.max (market_fee c) (min_relay_fee c)) c in
  if bool_decide (mempool_expiry c < low_fee_expiry c) then set_low_fee_expiry (mempool_expiry c) c
  else c.

(** ** The command line *)

Record ParseState := mkParseState {
  config : RunConfig;
  listen_overridden : bool;
  public_overridden : bool;
}.

Definition with_config (f : RunConfig → RunConfig) (p : ParseState) : ParseState :=
  mkParseState (f (config p)) (listen_overridden p) (public_overridden p).

(** [args.get(index).ok_or_else(..)?.parse::<T>().map_err(..)?] *)
Definition number (bound : Z) (flag what : string) (value : option string) : R Z :=
  value ← ok_or value ("missing value for " +:+ flag);
  map_err (λ error, "invalid " +:+ what +:+ ": " +:+ error) (parse_uint bound value).

(** One arm of the [match] on an argument: the new state, and whether the next
    argument was its value. *)
Definition apply_flag (flag : string) (value : option string) (p : ParseState) :
    R (ParseState * bool) :=
  let text f := v ← ok_or value ("missing value for " +:+ flag); Ok (with_config (f v) p, true) in
  if bool_decide (flag = "--config") then
    ok_or value "missing value for --config" ;; Ok (p, true)
  else if bool_decide (flag = "--db" ∨ flag = "--db-path") then
    v ← ok_or value "missing value for --db"; Ok (with_config (set_db_path v) p, true)
  else if bool_decide (flag = "--listen") then
    let base := if listen_overridden p then listen_addrs (config p) else [] in
    a ← parse_socket value "--listen";
    Ok (mkParseState (set_listen_addrs (base ++ [a]) (config p)) true (public_overridden p), true)
  else if bool_decide (flag = "--rpc-listen") then
    a ← parse_socket value "--rpc-listen"; Ok (with_config (set_rpc_addr a) p, true)
  else if bool_decide (flag = "--peer") then
    a ← parse_socket value "--peer";
    Ok (with_config (λ c, set_peers (peers c ++ [a]) c) p, true)
  else if bool_decide (flag = "--peers-file") then text (λ v, set_peers_file (Some v))
  else if bool_decide (flag = "--gateway" ∨ flag = "--gateway-url") then
    v ← ok_or value "missing value for --gateway"; Ok (with_config (set_gateway_url (Some v)) p, true)
  else if bool_decide (flag = "--public-addr") then
    let base := if public_overridden p then public_addrs (config p) else [] in
    a ← parse_socket value "--public-addr";
    Ok (mkParseState (set_public_addrs (base ++ [a]) (config p)) (listen_overridden p) true, true)
  else if bool_decide (flag = "--gateway-heartbeat-secs") then
    secs ← number u64_max flag "gateway heartbeat interval" value;
    Ok (with_config (set_gateway_heartbeat (Z.max secs 1)) p, true)
  else if bool_decide (flag = "--shutdown-file") then text set_shutdown_file
  else if bool_decide (flag = "--max-peers") then
    n ← number usize_max flag "max peers" value; Ok (with_config (set_max_peers (Z.max n 1)) p, true)
  else if bool_decide (flag = "--min-relay-fee") then
    n ← number u32_max flag "min relay fee" value;
    Ok (with_config (set_min_relay_fee (Z.max n MIN_RELAY_FEE_FLOOR)) p, true)
  else if bool_decide (flag = "--market-fee") then
    n ← number u32_max flag "market fee" value; Ok (with_config (set_market_fee n) p, true)
  else if bool_decide (flag = "--low-fee-expiry-secs") then
    secs ← number u64_max flag "low fee expiry" value;
    Ok (with_config (set_low_fee_expiry (Z.max secs 1)) p, true)
  else if bool_decide (flag = "--mempool-expiry-secs") then
    secs ← number u64_max flag "mempool expiry" value;
    Ok (with_config (set_mempool_expiry (Z.max secs 1)) p, true)
  else if bool_decide (flag = "--miner") then
    a ← Wallet.parse_address value; Ok (with_config (set_miner_address a) p, true)
  else if bool_decide (flag = "--wallet") then
    c ← apply_wallet_file value (config p); Ok (with_config (λ _, c) p, true)
  else if bool_decide (flag = "--miner-secret-key") then
    k ← Wallet.parse_secret_key value; Ok (with_config (set_miner_secret_key (Some k)) p, true)
  else if bool_decide (flag = "--premine") then
    Err "premine address is fixed by protocol and cannot be overridden"
  else if bool_decide (flag = "--mine") then Ok (with_config (set_mine true) p, false)
  else if bool_decide (flag = "--mine-interval-secs") then
    secs ← number u64_max flag "mining interval" value;
    Ok (with_config (set_mine_interval secs) p, true)
  else if bool_decide (flag = "--mine-attempts") then
    n ← number u64_max flag "mining attempts" value; Ok (with_config (set_mine_attempts n) p, true)
  else if negb (starts_with_dash flag) && bool_decide (db_path (config p) = DEFAULT_NODE_DB) then
    Ok (with_config (set_db_path flag) p, false)
  else Err ("unknown node run option `" +:+ flag +:+ "`").

(** The loop [while index < args.len()]. *)
Fixpoint parse_loop (args : list string) (p : ParseState) : R ParseState :=
  match args with
  | [] => Ok p
  | flag :: args' =>
      '(p', took_value) ← apply_flag flag (head args') p;
      match took_value : bool, args' with
      | true, _ :: args'' => parse_loop args'' p'
      | true, [] => Ok p'
      | false, _ => parse_loop args' p'
      end
  end.

Definition parse_run_config (args : list string) : R RunConfig :=
  let args := trim <$> args in
  let config_path := default DEFAULT_CONFIG_FILE (config_path_arg args) in
  file_config ← load_run_config_file_if_exists config_path;
  c ← match file_config with
      | Some f => apply_run_config_file f default_config
      | None => Ok default_config
      end;
  p ← parse_loop args (mkParseState c false false);
  let c := set_listen_addrs (dedupe_socket_addrs (listen_addrs (config p))) (config p) in
  let c := set_public_addrs (dedupe_socket_addrs (public_addrs c)) c in
  Ok (normalize_mempool_policy c).

(** [MempoolConfig { .. }] of [run_node]. *)
Definition mempool_config (c : RunConfig) : Mempool.MempoolConfig :=
  Mempool.mkConfig (Mempool.max_transactions Mempool.default_config)
    (Mempool.max_bytes Mempool.default_config) (mempool_expiry c) (low_fee_expiry c)
    (min_relay_fee c) (market_fee c).

End config.
End Config.
