(* ===== verification/ConfigProps.v ===== *)
(** * ConfigProps: every accepted configuration is usable *)

From Stdlib Require Import Ascii.
From S2P Require Import Prelude Collections Core Demo Mempool P2p Bytes Wallet WalletProps Config.

Open Scope string_scope.
Open Scope list_scope.
Open Scope Z_scope.

Module ConfigProps.
Import Config.

Section props.
Context `{Paqus, !Wallet.Crypto, !Wallet.WalletEnv, !ConfigEnv}.

(** What the file and the flags keep true before the policy is normalised. *)
Record usable (c : RunConfig) : Prop := {
  us_low : 1 ≤ low_fee_expiry c;
  us_mempool : 1 ≤ mempool_expiry c;
  us_peers : 1 ≤ max_peers c;
  us_heartbeat : 1 ≤ gateway_heartbeat c;
}.

Lemma default_usable : usable default_config.
Proof. by split. Qed.

(** Read one accepted step of a parser. *)
Ltac accept H :=
  repeat first
    [ apply result_bind_Ok in H; let v := fresh "v" in let E := fresh "E" in destruct H as (v & E & H)
    | progress cbn zeta beta in H ].

Lemma apply_wallet_usable path c c' : apply_wallet_file path c = Ok c' → usable c → usable c'.
Proof. intros Hc [? ? ? ?]. unfold apply_wallet_file in Hc. accept Hc. by simplify_eq. Qed.

Lemma if_some_usable {A} (o : option A) f c c' :
  (∀ a c c', f a c = Ok c' → usable c → usable c') → if_some o f c = Ok c' → usable c → usable c'.
Proof. intros Hf. destruct o; [apply Hf|by intros [= <-]]. Qed.

Lemma apply_file_policy_usable f c : usable c → usable (apply_file_policy f c).
Proof.
  intros [Hl Hm Hp Hh]. unfold apply_file_policy.
  destruct (f_low_fee_expiry_secs f), (f_mempool_expiry_secs f); split; cbn; lia.
Qed.

Lemma apply_file_identity_usable f c c' : apply_file_identity f c = Ok c' → usable c → usable c'.
Proof.
  unfold apply_file_identity. intros (c1 & H1' & Hc)%result_bind_Ok Hu.
  apply result_bind_Ok in Hc as (c2 & H2' & Hc).
  eapply if_some_usable; [|exact Hc|eapply if_some_usable; [|exact H2'|eapply if_some_usable; [|exact H1'|done]]];
    intros a d d' Hd.
  1, 2: intros [? ? ? ?]; accept Hd; by simplify_eq.
  by apply (apply_wallet_usable _ _ _ Hd).
Qed.

Lemma apply_file_usable f c c' : apply_run_config_file f c = Ok c' → usable c → usable c'.
Proof.
  intros Hc [Hl Hm Hp Hh]. unfold apply_run_config_file in Hc. cbn zeta in Hc.
  do 4 (apply result_bind_Ok in Hc; destruct Hc as (? & _ & Hc)).
  eapply apply_file_identity_usable; [exact Hc|]. by apply apply_file_policy_usable; split.
Qed.

Lemma apply_flag_usable flag value p p' took :
  apply_flag flag value p = Ok (p', took) → usable (config p) → usable (config p').
Proof.
  intros Hf Hp. assert (Hp' := Hp). destruct Hp' as [? ? ? ?]. unfold apply_flag in Hf.
  repeat (case_bool_decide; [accept Hf; simplify_eq; try (split; cbn; lia)|]).
  - by eapply apply_wallet_usable.
  - destruct (negb _); cbn in Hf; by simplify_eq.
  - by destruct (negb _).
Qed.

Lemma parse_loop_usable fuel : ∀ args p p', (length args ≤ fuel)%nat →
  parse_loop args p = Ok p' → usable (config p) → usable (config p').
Proof.
  induction fuel as [|fuel IH]; intros [|flag args] p p' Hlen; cbn [parse_loop length] in *;
    try (intros [= <-]; done); [lia|].
  intros ([p1 took] & Hf & Hloop)%result_bind_Ok Hp. apply apply_flag_usable in Hf; [|done].
  destruct took; [destruct args as [|v args]; [by simplify_eq|]|]; eapply IH; try done; cbn in *; lia.
Qed.

(** What is left of an accepted configuration before its last steps. *)
Lemma parsed_usable args c : parse_run_config args = Ok c → ∃ c0, usable c0 ∧
  c = normalize_mempool_policy (set_public_addrs (dedupe_socket_addrs (public_addrs c0))
        (set_listen_addrs (dedupe_socket_addrs (listen_addrs c0)) c0)).
Proof.
  unfold parse_run_config. cbn zeta. intros (file & Hfile & Hc)%result_bind_Ok.
  apply result_bind_Ok in Hc as (c0 & Hc0 & Hc). apply result_bind_Ok in Hc as (p & Hp & [= <-]).
  exists (config p). split; [|done]. eapply parse_loop_usable; [reflexivity|exact Hp|]. cbn [config]. destruct file as [f|].
  - eapply apply_file_usable; [exact Hc0|apply default_usable].
  - injection Hc0 as <-. apply default_usable.
Qed.

(** C39: a configuration that is accepted, from any file and command line, is
    usable: the relay fee is at least the protocol's floor and at most the
    market fee, transactions expire after at least one second and low-fee ones
    not after the others, there is room for a peer, the gateway is called at
    most once a second, and no address is bound or advertised twice. *)
Theorem accepted_config_usable args c :
  parse_run_config args = Ok c →
  MIN_RELAY_FEE_FLOOR ≤ min_relay_fee c ≤ market_fee c ∧
  1 ≤ low_fee_expiry c ≤ mempool_expiry c ∧
  1 ≤ max_peers c ∧ 1 ≤ gateway_heartbeat c ∧
  NoDup (listen_addrs c) ∧ NoDup (public_addrs c).
Proof.
  intros (c0 & [Hl Hm Hx Hh] & ->)%parsed_usable.
  assert (∀ l, NoDup (dedupe_socket_addrs l)) as Hd by (intros l; apply P2pProps.retain_unseen_spec).
  unfold normalize_mempool_policy. case_bool_decide as Hcmp; cbn in *; split_and!; try apply Hd; lia.
Qed.

End props.

(** ** Witness: the command line of the source's own test *)

Import Demo WalletProps.

#[local] Instance test_wallet : Wallet.WalletEnv := demo_env true.

#[local] Program Instance test_env : ConfigEnv := {|
  parse_socket_addr s := if bool_decide (s = EmptyString) then Err "empty" else Ok (Z.of_nat (String.length s));
  default_listen := 12;
  default_rpc := 14;
  read_config _ := Err NotFound;
  parse_config _ := Err "no file";
|}.
Solve All Obligations with reflexivity.

Definition test_args : list string :=
  ["--config"; "/tmp/paqus-node-missing-test-config.json"; "./data/paqus"; " --listen"; "0.0.0.0:5555";
   " --listen"; "[::]:5555"; " --listen"; "0.0.0.0:5555"; " --rpc-listen"; "127.0.0.1:6666"; " --mine";
   " --mine-attempts"; "100000"; "--market-fee"; "0"; "--low-fee-expiry-secs"; "90000"].

Definition test_config : RunConfig :=
  match parse_run_config (H0 := demo_crypto) test_args with Ok c => c | Err _ => default_config end.

Example test_config_values :
  listen_addrs test_config = [12; 9] ∧ mine test_config = true ∧ mine_attempts test_config = 100000 ∧
  market_fee test_config = 1 ∧ low_fee_expiry test_config = 86400.
Proof. by_eval. Qed.

Lemma accepted_config_usable_witness :
  MIN_RELAY_FEE_FLOOR ≤ min_relay_fee test_config ≤ market_fee test_config ∧
  1 ≤ low_fee_expiry test_config ≤ mempool_expiry test_config ∧
  1 ≤ max_peers test_config ∧ 1 ≤ gateway_heartbeat test_config ∧
  NoDup (listen_addrs test_config) ∧ NoDup (public_addrs test_config).
Proof. apply (accepted_config_usable (H0 := demo_crypto) test_args). vm_compute. reflexivity. Defined.

End ConfigProps.
