(* ===== verification/Http.v ===== *)
(** * Http: the HTTP client of the wallet and of the gateway
    ([src/network.rs], [src/gateway.rs])

    A connection is what its reads return, one after the other.  Both files
    hold a copy of the reading loop; the copies differ in the texts of their
    errors and in the check of the status line, and [label] tells them apart.
    Sums of [usize] wrap around, as in a release build. *)

From Stdlib Require Import Ascii.
From S2P Require Import Prelude Collections Core Config.

Open Scope string_scope.
Open Scope list_scope.
Open Scope Z_scope.

Module Http.

(** ** Bytes and text *)

Fixpoint utf8 (s : string) : bytes :=
  match s with
  | EmptyString => []
  | String a s' => Z.of_nat (nat_of_ascii a) :: utf8 s'
  end.

Fixpoint text (l : bytes) : string :=
  match l with
  | [] => EmptyString
  | b :: l' => String (ascii_of_nat (Z.to_nat b)) (text l')
  end.

(** [std::str::from_utf8]: the well-formed sequences of one to four bytes. *)
Definition within (lo hi b : Z) : bool := (lo <=? b) && (b <=? hi).
Definition trailing (b : Z) : bool := within 128 191 b.

Fixpoint valid_utf8 (l : bytes) : bool :=
  match l with
  | [] => true
  | a :: l1 =>
      if within 0 127 a then valid_utf8 l1
      else
        match l1 with
        | b :: l2 =>
            if within 194 223 a then trailing b && valid_utf8 l2
            else
              match l2 with
              | c :: l3 =>
                  if within 224 239 a then
                    within (if a =? 224 then 160 else 128) (if a =? 237 then 159 else 191) b &&
                    trailing c && valid_utf8 l3
                  else
                    match l3 with
                    | d :: l4 =>
                        within 240 244 a &&
                        within (if a =? 240 then 144 else 128) (if a =? 244 then 143 else 191) b &&
                        trailing c && trailing d && valid_utf8 l4
                    | [] => false
                    end
              | [] => false
              end
        | [] => false
        end
  end.

Definition from_utf8 (l : bytes) : result string bytes :=
  if valid_utf8 l then Ok l else Err "invalid utf-8 sequence".

(** [str::lines] *)
Definition strip_cr (line : bytes) : bytes :=
  match last line with
  | Some 13 => take (length line - 1) line
  | _ => line
  end.

Fixpoint lines_from (line rest : bytes) : list bytes :=
  match rest with
  | [] => if bool_decide (line = []) then [] else [line]
  | b :: rest' =>
      if bool_decide (b = 10) then strip_cr line :: lines_from [] rest'
      else lines_from (line ++ [b]) rest'
  end.

Definition lines (l : bytes) : list bytes := lines_from [] l.

(** [split_once] at a byte. *)
Fixpoint split_once (sep : Z) (l : bytes) : option (bytes * bytes) :=
  match l with
  | [] => None
  | b :: l' =>
      if bool_decide (b = sep) then Some ([], l')
      else '(before, after) ← split_once sep l'; Some (b :: before, after)
  end.

Definition to_ascii_lowercase (b : Z) : Z := if within 65 90 b then b + 32 else b.

Definition eq_ignore_ascii_case (l k : bytes) : bool :=
  bool_decide (to_ascii_lowercase <$> l = to_ascii_lowercase <$> k).

(** ** The end of a response *)

Definition CRLF2 : bytes := [13; 10; 13; 10].

(** [response.windows(4).position(|window| window == CRLF2)] *)
Fixpoint header_end (l : bytes) : option nat :=
  if bool_decide (take 4 l = CRLF2) then Some 0%nat
  else
    match l with
    | [] => None
    | _ :: l' => S <$> header_end l'
    end.

Definition content_length (line : bytes) : option Z :=
  '(name, value) ← split_once 58 line;
  if eq_ignore_ascii_case name (utf8 "content-length") then
    match Config.parse_uint usize_max (Config.trim (text value)) with
    | Ok n => Some n
    | Err _ => None
    end
  else None.

(** [headers.lines().find_map(content_length)] *)
Fixpoint find_content_length (l : list bytes) : option Z :=
  match l with
  | [] => None
  | line :: l' => match content_length line with Some n => Some n | None => find_content_length l' end
  end.

Definition response_body_complete (label : string) (response : bytes) : result string bool :=
  match header_end response with
  | None => Ok false
  | Some e =>
      headers ← map_err (λ error, "failed to decode " +:+ label +:+ " response headers: " +:+ error)
        (from_utf8 (take e response));
      match find_content_length (lines headers) with
      | None => Ok false
      | Some n => Ok (bool_decide (wrap usize_max (Z.of_nat e + 4 + n) ≤ Z.of_nat (length response)))
      end
  end.

(** ** Reading *)

(** What [stream.read] returns; the end of the list is the end of the stream. *)
Inductive ReadEvent :=
  | Bytes (received : bytes)
  | TimedOut
  | ReadError (error : string).

Fixpoint read_loop (label waiting : string) (events : list ReadEvent) (response : bytes) :
    result string bytes :=
  match events with
  | [] | Bytes [] :: _ => Ok response
  | Bytes received :: events' =>
      let response := response ++ received in
      complete ← response_body_complete label response;
      if complete : bool then Ok response else read_loop label waiting events' response
  | TimedOut :: _ =>
      complete ← response_body_complete label response;
      if complete : bool then Ok response
      else Err ("failed to read " +:+ label +:+ " response: timed out waiting for " +:+ waiting)
  | ReadError error :: _ => Err ("failed to read " +:+ label +:+ " response: " +:+ error)
  end.

(** [split_once] at the empty line. *)
Definition split_head (l : bytes) : option (bytes * bytes) :=
  e ← header_end l; Some (take e l, drop (e + 4) l).

(** [read_http_response] of [network.rs]: the body, or everything. *)
Definition read_http_response (events : list ReadEvent) : result string bytes :=
  response ← read_loop "rpc" "node response" events [];
  response ← map_err (λ error, "failed to decode rpc response: " +:+ error) (from_utf8 response);
  Ok (match split_head response with Some (_, body) => body | None => response end).

(** [read_http_response] of [gateway.rs]: the body of a success. *)
Definition starts_with (prefix l : bytes) : bool := bool_decide (take (length prefix) l = prefix).

Definition read_gateway_response (events : list ReadEvent) : result string bytes :=
  response ← read_loop "gateway" "response" events [];
  response ← map_err (λ error, "failed to decode gateway response: " +:+ error) (from_utf8 response);
  match split_head response with
  | None => Err ("invalid gateway response: " +:+ text response)
  | Some (head, body) =>
      if negb (starts_with (utf8 "HTTP/1.1 200") head) && negb (starts_with (utf8 "HTTP/1.1 201") head)
      then Err ("gateway returned error: " +:+ text body)
      else Ok body
  end.

(** ** Requests *)

(** [{}] of an unsigned integer; twenty digits are enough for 64 bits. *)
Fixpoint decimal_digits (fuel : nat) (n : Z) : bytes :=
  match fuel with
  | O => []
  | S fuel' =>
      if bool_decide (n < 10) then [48 + n]
      else decimal_digits fuel' (n / 10) ++ [48 + n mod 10]
  end.
Definition decimal (n : Z) : bytes := decimal_digits 20 n.

Definition CRLF : bytes := [13; 10].

Definition get_request (path host : bytes) : bytes :=
  utf8 "GET " ++ path ++ utf8 " HTTP/1.1" ++ CRLF ++
  utf8 "host: " ++ host ++ CRLF ++
  utf8 "connection: close" ++ CRLF2.

Definition post_request (path host body : bytes) : bytes :=
  utf8 "POST " ++ path ++ utf8 " HTTP/1.1" ++ CRLF ++
  utf8 "host: " ++ host ++ CRLF ++
  utf8 "content-type: application/json" ++ CRLF ++
  utf8 "content-length: " ++ decimal (Z.of_nat (length body)) ++ CRLF ++
  utf8 "connection: close" ++ CRLF2 ++ body.

(** The [n]-th exchange: connecting, configuring the stream and writing the
    request give an error, or the reads that follow. *)
Class HttpWorld := {
  exchange : nat → Z → bytes → result string (list ReadEvent);
  socket_to_string : Z → string;
}.

Section client.
Context `{!Config.ConfigEnv, !HttpWorld}.

Definition http_get (call : nat) (addr path : string) : result string bytes :=
  addr ← map_err (λ error, "invalid rpc address: " +:+ error) (Config.parse_socket_addr addr);
  events ← exchange call addr (get_request (utf8 path) (utf8 (socket_to_string addr)));
  read_http_response events.

Definition http_post_json (call : nat) (addr path : string) (body : bytes) : result string bytes :=
  addr ← map_err (λ error, "invalid rpc address: " +:+ error) (Config.parse_socket_addr addr);
  events ← exchange call addr (post_request (utf8 path) (utf8 (socket_to_string addr)) body);
  read_http_response events.

End client.
End Http.
