(* ===== verification/HttpProps.v ===== *)
(** * HttpProps: reading responses, and requests that delimit themselves *)

From Stdlib Require Import Ascii.
From S2P Require Import Prelude Collections Core Config Http.

Open Scope string_scope.
Open Scope list_scope.
Open Scope Z_scope.

Module HttpProps.
Import Http.

(** ** The end of the header *)

Lemma header_end_bound l : ∀ e, header_end l = Some e → (e + 4 ≤ length l)%nat ∧ take 4 (drop e l) = CRLF2.
Proof.
  induction l as [|b l IH]; intros e; cbn [header_end]; [done|]. case_bool_decide as H4.
  - intros [= <-]. split; [|done]. pose proof (f_equal length H4) as Hl. rewrite length_take in Hl. cbn [CRLF2 length] in *. lia.
  - intros Hs. apply fmap_Some in Hs as (e' & He & ->). destruct (IH e' He) as [? ?]. cbn [length Nat.add drop] in *. split; [lia|done].
Qed.

Lemma take_4_app (l k : bytes) : take 4 l = CRLF2 → take 4 (l ++ k) = CRLF2.
Proof.
  intros H4. pose proof (f_equal length H4) as Hl. rewrite length_take in Hl. cbn [CRLF2 length] in Hl.
  rewrite take_app_le by lia. done.
Qed.

(** The first empty line stays the first when more bytes arrive. *)
Lemma header_end_app l k e : header_end l = Some e → header_end (l ++ k) = Some e.
Proof.
  revert e. induction l as [|b l IH]; intros e; [done|].
  cbn [header_end app]. case_bool_decide as H4.
  - intros [= <-]. pose proof (take_4_app _ k H4) as H4'. cbn [app] in H4'. by rewrite bool_decide_eq_true_2.
  - intros Hs. apply fmap_Some in Hs as (e' & He & ->). pose proof (header_end_bound _ _ He) as [Hb _].
    rewrite bool_decide_eq_false_2; [by rewrite (IH _ He)|]. intros Hc. apply H4. rewrite <-Hc.
    cbn [take]. rewrite take_app_le by lia. done.
Qed.

Lemma header_end_take l : ∀ e, header_end l = Some e → header_end (take (e + 4) l) = Some e.
Proof.
  induction l as [|b l IH]; intros e; cbn [header_end]; [done|]. case_bool_decide as H4.
  - intros [= <-]. change (0 + 4)%nat with 4%nat. rewrite H4. done.
  - intros Hs. apply fmap_Some in Hs as (e' & He & ->). change (S e' + 4)%nat with (S (e' + 4)).
    change (take (S (e' + 4)) (b :: l)) with (b :: take (e' + 4) l). cbn [header_end].
    rewrite bool_decide_eq_false_2; [by rewrite (IH _ He)|]. intros Hc. apply H4. rewrite <-Hc.
    change (take 4 (b :: ?k)) with (b :: take 3 k). by rewrite take_take, Nat.min_l by lia.
Qed.

(** Where the head ends does not depend on what follows it. *)
Lemma header_end_body head body body' :
  header_end (head ++ CRLF2 ++ body) = Some (length head) →
  header_end (head ++ CRLF2 ++ body') = Some (length head).
Proof.
  intros He%header_end_take. rewrite (app_assoc head CRLF2 body) in He. rewrite app_assoc.
  apply header_end_app. rewrite take_app_le, take_ge in He by (rewrite length_app; cbn [CRLF2 length]; lia). done.
Qed.

Lemma header_end_skip l k : Forall (λ b, b ≠ 13) l → header_end (l ++ k) = (λ e, length l + e)%nat <$> header_end k.
Proof.
  induction 1 as [|b l Hb Hl IH]; cbn [app length].
  - by destruct (header_end k).
  - cbn [header_end]. rewrite bool_decide_eq_false_2, IH by (unfold CRLF2; cbn [take]; congruence). by destruct (header_end k).
Qed.

Lemma header_end_line b k : b ≠ 13 →
  header_end (CRLF ++ b :: k) = (λ e, 2 + e)%nat <$> header_end (b :: k).
Proof.
  intros Hb. unfold CRLF. cbn [app]. remember (b :: k) as l eqn:El. cbn [header_end].
  rewrite bool_decide_eq_false_2 by (subst l; unfold CRLF2; cbn [take]; congruence).
  rewrite bool_decide_eq_false_2 by (unfold CRLF2; cbn [take]; congruence). by destruct (header_end l).
Qed.

(** ** Responses in pieces *)

(** A response with one empty line after its head, whose head announces the
    length of its body. *)
Record framed (head body : bytes) : Prop := {
  fr_end : header_end (head ++ CRLF2 ++ body) = Some (length head);
  fr_utf8 : valid_utf8 head = true;
  fr_length : find_content_length (lines head) = Some (Z.of_nat (length body));
  fr_fits : Z.of_nat (length (head ++ CRLF2 ++ body)) ≤ usize_max;
}.

Definition whole (head body : bytes) : bytes := head ++ CRLF2 ++ body.

(** Whether a first part of the response is recognised as complete: exactly
    when it is all of it. *)
Lemma complete_prefix label head body p q : framed head body → p ++ q = whole head body →
  response_body_complete label p = Ok (bool_decide (q = [])).
Proof.
  intros [He Hu Hl Hf] Hpq. unfold response_body_complete. destruct (header_end p) as [e|] eqn:Ep.
  - pose proof (header_end_app p q e Ep) as Ew. rewrite Hpq in Ew. unfold whole in Ew. rewrite He in Ew.
    injection Ew as <-. pose proof (header_end_bound _ _ Ep) as [Hb _].
    assert (take (length head) p = head) as ->.
    { rewrite <-(take_app_le p q) by lia. rewrite Hpq. apply take_app_length. }
    unfold from_utf8. rewrite Hu. cbn. rewrite Hl. f_equal. apply bool_decide_ext.
    apply (f_equal length) in Hpq. unfold whole in *. rewrite !length_app in *. cbn [length CRLF2] in *.
    rewrite wrap_small by lia. rewrite <-length_zero_iff_nil. lia.
  - rewrite bool_decide_eq_false_2; [done|]. intros ->. rewrite app_nil_r in Hpq. subst p.
    unfold whole in Ep. congruence.
Qed.

Lemma read_loop_chunks label waiting head body later chunks : framed head body →
  Forall (λ c, c ≠ []) chunks → ∀ acc, chunks ≠ [] → acc ++ concat chunks = whole head body →
  read_loop label waiting ((Bytes <$> chunks) ++ later) acc = Ok (whole head body).
Proof.
  intros Hfr Hne. induction Hne as [|c cs Hc Hcs IH]; intros acc Hn Hall; [done|].
  destruct c as [|b c]; [done|]. cbn [fmap list_fmap app read_loop].
  rewrite (complete_prefix label head body (acc ++ b :: c) (concat cs)) by (done || by rewrite <-app_assoc).
  cbn. case_bool_decide as Hlast.
  - f_equal. rewrite <-Hall. cbn. by rewrite Hlast, app_nil_r.
  - apply IH; [by destruct cs|]. by rewrite <-Hall, <-app_assoc.
Qed.

Lemma split_whole head body : framed head body → split_head (whole head body) = Some (head, body).
Proof.
  intros [He _ _ _]. unfold split_head, whole. rewrite He. cbn.
  rewrite take_app_length. rewrite drop_app_ge by lia.
  by replace (length head + 4 - length head)%nat with 4%nat by lia.
Qed.

(** C33: a response is read the same way however the network cuts it into
    pieces: as soon as the announced number of bytes after the head has
    arrived its body is returned, without waiting for anything that follows. *)
Theorem response_read_any_chunking head body chunks later :
  framed head body → valid_utf8 (whole head body) = true →
  Forall (λ c, c ≠ []) chunks → concat chunks = whole head body →
  read_http_response ((Bytes <$> chunks) ++ later) = Ok body.
Proof.
  intros Hfr Hu Hne Hall. unfold read_http_response.
  rewrite (read_loop_chunks _ _ head body); try done.
  - cbn. unfold from_utf8. rewrite Hu. cbn. by rewrite split_whole.
  - intros ->. cbn in Hall. unfold whole in Hall. by destruct head.
Qed.

(** A connection that ends in the middle of the body. *)
Lemma read_loop_cut label waiting head body q chunks : framed head body → q ≠ [] →
  Forall (λ c, c ≠ []) chunks → ∀ acc, acc ++ concat chunks ++ q = whole head body →
  read_loop label waiting (Bytes <$> chunks) acc = Ok (acc ++ concat chunks).
Proof.
  intros Hfr Hq. induction 1 as [|c cs Hc Hcs IH]; intros acc Hall.
  { cbn. by rewrite app_nil_r. }
  destruct c as [|b c]; [done|]. cbn [fmap list_fmap read_loop concat].
  rewrite (complete_prefix label head body (acc ++ b :: c) (concat cs ++ q)).
  2: done. 2: { rewrite <-Hall. cbn. by rewrite <-!app_assoc. }
  cbn. rewrite bool_decide_eq_false_2 by (by intros [_ ?]%app_nil).
  rewrite IH; [by rewrite <-app_assoc|]. rewrite <-Hall. cbn. by rewrite <-!app_assoc.
Qed.

(** A response that is cut off is not noticed: when the connection closes
    before the announced length, the part of the body that has arrived is
    returned as if it were all of it. *)
Theorem truncated_response_accepted head body part chunks :
  framed head body → valid_utf8 (whole head part) = true →
  Forall (λ c, c ≠ []) chunks → concat chunks = whole head part →
  part `prefix_of` body → part ≠ body →
  read_http_response (Bytes <$> chunks) = Ok part.
Proof.
  intros Hfr Hu Hne Hall [q ->] Hpq. unfold read_http_response.
  rewrite (read_loop_cut _ _ head (part ++ q) q); [|done| |done|].
  2: { intros ->. by rewrite app_nil_r in Hpq. }
  2: { rewrite Hall. unfold whole. cbn. by rewrite <-!app_assoc. }
  rewrite Hall. cbn. unfold from_utf8. rewrite Hu. cbn.
  destruct Hfr as [He _ _ _].
  apply (header_end_body _ _ part) in He. unfold split_head, whole. rewrite He. cbn.
  rewrite drop_app_ge by lia.
  by replace (length head + 4 - length head)%nat with 4%nat by lia.
Qed.

(** ** The two copies of the reader *)

Lemma complete_label l k response b :
  response_body_complete l response = Ok b ↔ response_body_complete k response = Ok b.
Proof.
  unfold response_body_complete. destruct (header_end response); [|done].
  unfold from_utf8. destruct (valid_utf8 _); [done|]. by split.
Qed.

Lemma complete_label_err l k response e :
  response_body_complete l response = Err e → ∃ e', response_body_complete k response = Err e'.
Proof.
  intros He. destruct (response_body_complete k response) as [b|e'] eqn:E; [|eauto].
  apply (complete_label l) in E. congruence.
Qed.

Lemma read_loop_label l wl k wk events : ∀ response r,
  read_loop l wl events response = Ok r → read_loop k wk events response = Ok r.
Proof.
  induction events as [|[[|b c]| |e] events IH]; intros response r; cbn [read_loop]; try done; cbn zeta.
  - destruct (response_body_complete l (response ++ b :: c)) as [x|] eqn:E; [|done].
    apply (complete_label l k) in E. rewrite E. cbn. destruct x; [done|apply IH].
  - destruct (response_body_complete l response) as [x|] eqn:E; [|done].
    apply (complete_label l k) in E. rewrite E. cbn. by destruct x.
Qed.

(** The status lines the gateway client accepts. *)
Definition success (head : bytes) : bool :=
  starts_with (utf8 "HTTP/1.1 200") head || starts_with (utf8 "HTTP/1.1 201") head.

(** The reader of the gateway client is the reader of the wallet with a
    check of the status: it returns a body exactly when the other returns the
    same body of a response with a head that reports success. *)
Theorem gateway_reader_equiv events body :
  read_gateway_response events = Ok body ↔
  read_http_response events = Ok body ∧
  ∃ response head, read_loop "rpc" "node response" events [] = Ok response ∧
    split_head response = Some (head, body) ∧ success head = true.
Proof.
  unfold read_gateway_response, read_http_response, success. split.
  - intros (r & Hr & Hg)%result_bind_Ok. apply result_bind_Ok in Hg as (r' & Hu%map_err_Ok & Hg).
    apply (read_loop_label _ _ "rpc" "node response") in Hr. rewrite Hr. cbn [mbind result_bind].
    rewrite Hu. cbn [map_err mbind result_bind]. unfold from_utf8 in Hu. destruct (valid_utf8 r); [|done].
    injection Hu as <-. destruct (split_head r) as [[head b]|] eqn:Hs; [|done].
    rewrite <-negb_orb in Hg. destruct (_ || _) eqn:Hst; [|done]. injection Hg as <-. split; [done|].
    exists r, head. split_and!; done.
  - intros (Hb & r & head & Hr & Hs & Hst). pose proof Hr as Hr'.
    apply (read_loop_label _ _ "gateway" "response") in Hr'. rewrite Hr'. cbn [mbind result_bind].
    rewrite Hr in Hb. cbn [mbind result_bind] in Hb. apply result_bind_Ok in Hb as (r' & Hu%map_err_Ok & _).
    unfold from_utf8 in *. destruct (valid_utf8 r); [|done]. cbn [map_err mbind result_bind].
    rewrite Hs. by rewrite <-negb_orb, Hst.
Qed.
(** ** Printing and reading numbers *)

Lemma text_app l k : text (l ++ k) = text l +:+ text k.
Proof. induction l as [|b l IH]; [done|]. cbn. by rewrite IH. Qed.

Lemma parse_digits_app bound s t : ∀ acc,
  Config.parse_digits bound acc (s +:+ t) =
  (acc' ← Config.parse_digits bound acc s; Config.parse_digits bound acc' t).
Proof.
  induction s as [|a s IH]; intros acc; [done|]. change (String a s +:+ t) with (String a (s +:+ t)). cbn [Config.parse_digits].
  destruct (Config.digit a); [|done]. cbn [ok_or mbind result_bind]. case_bool_decide; [done|]. apply IH.
Qed.

Lemma digit_ascii d : 0 ≤ d < 10 → Config.digit (ascii_of_nat (Z.to_nat (48 + d))) = Some d.
Proof.
  intros Hd. unfold Config.digit. rewrite nat_ascii_embedding by lia.
  rewrite Z2Nat.id by lia. rewrite bool_decide_eq_true_2 by lia. f_equal. lia.
Qed.

Lemma parse_digits_one bound acc d : 0 ≤ d < 10 → acc * 10 + d ≤ bound →
  Config.parse_digits bound acc (text [48 + d]) = Ok (acc * 10 + d).
Proof.
  intros Hd Hb. cbn [text Config.parse_digits]. rewrite digit_ascii by done. cbn [ok_or mbind result_bind].
  by rewrite bool_decide_eq_false_2 by lia.
Qed.

Lemma parse_decimal_digits bound fuel : ∀ n, 0 ≤ n ≤ bound → n < 10 ^ Z.of_nat fuel →
  (0 < fuel)%nat → Config.parse_digits bound 0 (text (decimal_digits fuel n)) = Ok n.
Proof.
  induction fuel as [|fuel IH]; intros n Hn Hf H0; [lia|]. cbn [decimal_digits]. case_bool_decide as H10.
  - rewrite parse_digits_one by lia. f_equal. 
  - rewrite text_app, parse_digits_app. destruct fuel as [|fuel]; [cbn in Hf; lia|].
    pose proof (Z.div_mod n 10 ltac:(lia)). pose proof (Z.mod_pos_bound n 10 ltac:(lia)).
    rewrite IH; [|nia| |lia].
    + cbn [mbind result_bind]. rewrite parse_digits_one by lia. f_equal. lia.
    + apply Z.div_lt_upper_bound; [lia|]. rewrite Nat2Z.inj_succ, Z.pow_succ_r in Hf by lia. lia.
Qed.

Lemma decimal_digits_ascii fuel : ∀ n, 0 ≤ n → Forall (λ b, 48 ≤ b ≤ 57) (decimal_digits fuel n).
Proof.
  induction fuel as [|fuel IH]; intros n Hn; cbn [decimal_digits]; [constructor|]. case_bool_decide.
  - repeat constructor; lia.
  - apply Forall_app. pose proof (Z.mod_pos_bound n 10 ltac:(lia)).
    split; [apply IH, Z.div_pos; lia|repeat constructor; lia].
Qed.

Lemma decimal_nonempty n : ∃ b l, decimal n = b :: l.
Proof.
  assert (decimal n ≠ []) as Hn.
  { unfold decimal. cbn [decimal_digits]. case_bool_decide; [done|]. by intros [_ ?]%app_eq_nil. }
  destruct (decimal n) as [|b l]; [done|eauto].
Qed.

Lemma parse_decimal n : 0 ≤ n ≤ usize_max → Config.parse_uint usize_max (text (decimal n)) = Ok n.
Proof.
  intros Hn. pose proof (decimal_digits_ascii 20 n ltac:(lia)) as Ha. fold (decimal n) in Ha.
  pose proof (parse_decimal_digits usize_max 20 n Hn) as Hp. fold (decimal n) in Hp.
  destruct (decimal_nonempty n) as (b & l & E). rewrite E in *. inversion Ha as [|?? Hb _]; subst.
  cbn [text Config.parse_uint]. rewrite bool_decide_eq_false_2.
  - apply Hp; [|lia]. destruct Hn as [_ Hn]. eapply Z.le_lt_trans; [exact Hn|]. vm_compute. done.
  - intros Hc. apply (f_equal nat_of_ascii) in Hc. rewrite nat_ascii_embedding in Hc by lia.
    change (nat_of_ascii "+") with 43%nat in Hc. lia.
Qed.

(** ** Requests that delimit themselves *)

Lemma is_space_digit b : 48 ≤ b ≤ 57 → Config.is_space (ascii_of_nat (Z.to_nat b)) = false.
Proof.
  intros Hb. unfold Config.is_space. rewrite nat_ascii_embedding by lia. apply bool_decide_eq_false_2. lia.
Qed.

Lemma trim_end_digits l : Forall (λ b, 48 ≤ b ≤ 57) l → Config.trim_end (text l) = text l.
Proof.
  induction 1 as [|b l Hb Hl IH]; [done|]. cbn [text Config.trim_end]. rewrite IH, is_space_digit by done.
  by destruct l.
Qed.

Lemma trim_decimal n : 0 ≤ n → Config.trim (text (32 :: decimal n)) = text (decimal n).
Proof.
  intros Hn. pose proof (decimal_digits_ascii 20 n Hn) as Ha. fold (decimal n) in Ha.
  assert (Config.trim_start (text (32 :: decimal n)) = text (decimal n)) as Hs.
  { destruct (decimal_nonempty n) as (b & l & E). rewrite E in *. inversion Ha as [|?? Hb _]; subst.
    change (Config.trim_start (text (32 :: b :: l))) with (Config.trim_start (text (b :: l))).
    cbn [text Config.trim_start]. by rewrite is_space_digit. }
  unfold Config.trim. rewrite Hs. by apply trim_end_digits.
Qed.

(** Text without control characters. *)
Definition printable (b : Z) : Prop := 32 ≤ b ≤ 126.

Lemma valid_utf8_ascii l : Forall (λ b, 0 ≤ b ≤ 127) l → valid_utf8 l = true.
Proof.
  induction 1 as [|b l Hb Hl IH]; [done|]. cbn [valid_utf8]. unfold within at 1.
  replace ((0 <=? b) && (b <=? 127)) with true; [done|]. symmetry. apply andb_true_intro. lia.
Qed.

Lemma lines_from_line l rest : Forall printable l → ∀ line,
  lines_from line (l ++ CRLF ++ rest) = (line ++ l) :: lines_from [] rest.
Proof.
  induction 1 as [|b l Hb Hl IH]; intros line.
  - cbn [app lines_from CRLF]. rewrite bool_decide_eq_false_2, bool_decide_eq_true_2 by done.
    f_equal. unfold strip_cr. rewrite last_snoc, length_app, app_nil_r. cbn [length].
    by rewrite Nat.add_sub, take_app_length.
  - cbn [app lines_from]. rewrite bool_decide_eq_false_2 by (unfold printable in Hb; lia).
    rewrite IH. by rewrite <-app_assoc.
Qed.

Lemma lines_from_last l : Forall printable l → ∀ line, line ++ l ≠ [] → lines_from line l = [line ++ l].
Proof.
  induction 1 as [|b l Hb Hl IH]; intros line Hn; cbn [lines_from].
  - rewrite app_nil_r in *. by rewrite bool_decide_eq_false_2.
  - rewrite bool_decide_eq_false_2 by (unfold printable in Hb; lia). rewrite IH by (by destruct line).
    by rewrite <-app_assoc.
Qed.

Definition post_head (path host body : bytes) : bytes :=
  (utf8 "POST " ++ path ++ utf8 " HTTP/1.1") ++ CRLF ++
  (utf8 "host: " ++ host) ++ CRLF ++
  utf8 "content-type: application/json" ++ CRLF ++
  (utf8 "content-length: " ++ decimal (Z.of_nat (length body))) ++ CRLF ++
  utf8 "connection: close".

Lemma post_request_whole path host body : post_request path host body = whole (post_head path host body) body.
Proof. unfold post_request, whole, post_head. by rewrite <-!app_assoc. Qed.

Lemma printable_utf8 s : forallb (λ b, within 32 126 b) (utf8 s) = true → Forall printable (utf8 s).
Proof.
  intros H. apply Forall_forall. intros b Hb. rewrite forallb_forall in H.
  apply list_elem_of_In, H in Hb. unfold within in Hb. unfold printable. lia.
Qed.

Lemma printable_decimal n : 0 ≤ n → Forall printable (decimal n).
Proof. intros Hn. eapply Forall_impl; [by apply decimal_digits_ascii|]. unfold printable. cbn. lia. Qed.

Ltac printable := repeat apply Forall_app_2; first [done|by apply printable_utf8|apply printable_decimal; lia].

Lemma post_head_length path host body : Forall printable path → Forall printable host →
  Z.of_nat (length body) ≤ usize_max →
  find_content_length (lines (post_head path host body)) = Some (Z.of_nat (length body)).
Proof.
  intros Hp Hh Hb. unfold lines, post_head.
  rewrite !lines_from_line by printable. rewrite lines_from_last by (done || printable).
  cbn [app find_content_length].
  assert (content_length (utf8 "POST " ++ path ++ utf8 " HTTP/1.1") = None) as ->.
  { unfold content_length. cbn [utf8 app split_once]. 
    destruct (split_once 58 _) as [[before after]|]; cbn; [|done].
    unfold eq_ignore_ascii_case. by rewrite bool_decide_eq_false_2. }
  change (content_length (utf8 "host: " ++ host)) with (@None Z).
  change (content_length (utf8 "content-type: application/json")) with (@None Z).
  change (content_length (utf8 "content-length: " ++ decimal (Z.of_nat (length body)))) with
    (match Config.parse_uint usize_max (Config.trim (text (32 :: decimal (Z.of_nat (length body))))) with
     | Ok n => Some n | Err _ => None end).
  rewrite trim_decimal, parse_decimal by lia. done.
Qed.

Lemma header_end_head_line l k e : Forall printable l → head k ≠ Some 13 →
  header_end k = Some e → header_end (l ++ CRLF ++ k) = Some (length l + (2 + e))%nat.
Proof.
  intros Hl Hb He. destruct k as [|b k]; [done|]. cbn in Hb.
  rewrite header_end_skip, header_end_line, He; [done|congruence|].
  eapply Forall_impl; [exact Hl|]. unfold printable. lia.
Qed.

Lemma header_end_last_line l body : Forall printable l → header_end (l ++ CRLF2 ++ body) = Some (length l).
Proof.
  intros Hl. rewrite header_end_skip; [change (header_end (CRLF2 ++ body)) with (Some 0%nat); cbn; f_equal; lia|].
  eapply Forall_impl; [exact Hl|]. unfold printable. lia.
Qed.

Lemma post_head_end path host body : Forall printable path → Forall printable host →
  header_end (whole (post_head path host body) body) = Some (length (post_head path host body)).
Proof.
  intros Hp Hh. unfold whole, post_head. rewrite <-(app_assoc (utf8 "POST " ++ _)), <-(app_assoc CRLF).
  rewrite <-(app_assoc (utf8 "host: " ++ _)), <-(app_assoc CRLF), <-!(app_assoc (utf8 "content-type: application/json")).
  rewrite <-!(app_assoc CRLF), <-(app_assoc (utf8 "content-length: " ++ _)), <-!(app_assoc CRLF).
  erewrite (header_end_head_line (utf8 "POST " ++ path ++ utf8 " HTTP/1.1")); [|printable| |].
  3: eapply (header_end_head_line (utf8 "host: " ++ host)); [printable| |].
  4: eapply (header_end_head_line (utf8 "content-type: application/json")); [printable| |].
  5: eapply (header_end_head_line (utf8 "content-length: " ++ decimal _)); [printable| |].
  6: apply (header_end_last_line (utf8 "connection: close")); printable.
  2-5: done.
  f_equal. rewrite !length_app. cbn [CRLF length]. lia.
Qed.

Lemma post_framed path host body : Forall printable path → Forall printable host →
  Z.of_nat (length (post_request path host body)) ≤ usize_max → framed (post_head path host body) body.
Proof.
  intros Hp Hh Hf. rewrite post_request_whole in Hf. split.
  - by apply post_head_end.
  - apply valid_utf8_ascii. unfold post_head.
    repeat apply Forall_app_2; try (by repeat constructor);
      (eapply Forall_impl; [first [done|by apply printable_utf8|apply printable_decimal; lia]|]);
      unfold printable; lia.
  - apply post_head_length; [done..|]. unfold whole in Hf. rewrite !length_app in Hf. lia.
  - exact Hf.
Qed.

(** A posted request says where it ends: a reader that follows the
    announced length takes exactly the whole request for complete, and no
    first part of it, whatever the body holds and as long as neither the path
    nor the host holds a control character. *)
Theorem posted_request_self_delimiting label path host body p q :
  Forall printable path → Forall printable host →
  Z.of_nat (length (post_request path host body)) ≤ usize_max →
  p ++ q = post_request path host body →
  response_body_complete label p = Ok (bool_decide (q = [])).
Proof.
  intros Hp Hh Hf Hpq. apply (complete_prefix _ (post_head path host body) body); [by apply post_framed|]. by rewrite Hpq, post_request_whole.
Qed.

(** ** Witnesses *)

Definition demo_head : bytes := utf8 "HTTP/1.1 200 OK" ++ CRLF ++ utf8 "Content-Length: 2".

Lemma demo_response_framed : framed demo_head (utf8 "{}").
Proof. split; vm_compute; done. Qed.

Lemma response_read_any_chunking_witness :
  read_http_response ((Bytes <$> [take 20 (whole demo_head (utf8 "{}")); drop 20 (whole demo_head (utf8 "{}"))]) ++
    [TimedOut]) = Ok (utf8 "{}").
Proof.
  refine (response_read_any_chunking demo_head (utf8 "{}") _ [TimedOut] demo_response_framed _ _ _).
  - vm_compute. reflexivity.
  - repeat constructor; vm_compute; discriminate.
  - vm_compute. reflexivity.
Defined.

Lemma truncated_response_accepted_witness :
  read_http_response (Bytes <$> [whole demo_head (utf8 "{")]) = Ok (utf8 "{").
Proof.
  refine (truncated_response_accepted demo_head (utf8 "{}") (utf8 "{") _ demo_response_framed _ _ _ _ _).
  - vm_compute. reflexivity.
  - repeat constructor; vm_compute; discriminate.
  - vm_compute. reflexivity.
  - exists (utf8 "}"). reflexivity.
  - vm_compute. discriminate.
Defined.

Lemma posted_request_self_delimiting_witness :
  response_body_complete "rpc" (take 90 (post_request (utf8 "/tx/submit") (utf8 "127.0.0.1:6666") (utf8 "{}"))) =
  Ok false.
Proof.
  refine (posted_request_self_delimiting "rpc" (utf8 "/tx/submit") (utf8 "127.0.0.1:6666") (utf8 "{}") _
    (drop 90 (post_request (utf8 "/tx/submit") (utf8 "127.0.0.1:6666") (utf8 "{}"))) _ _ _ _).
  - apply printable_utf8. reflexivity.
  - apply printable_utf8. reflexivity.
  - vm_compute. discriminate.
  - vm_compute. reflexivity.
Defined.

End HttpProps.
