(* ===== verification/Gateway.v ===== *)
(** * Gateway: the client of the gateway ([src/gateway.rs])

    Registration, heartbeats and the query for peers over the HTTP client of
    [Http].  JSON is a parameter ([GatewayJson]); the parameters of the chain
    are those of [Network]. *)

From Stdlib Require Import Ascii.
From S2P Require Import Prelude Collections Core Network Config Http.

Open Scope string_scope.
Open Scope list_scope.
Open Scope Z_scope.

Module Gateway.
Import Network Http.


Record RegisterRequest := mkRegister {
  rr_peer_id : option string;
  rr_address : string;
  rr_chain_id : Z;
  rr_chain_name : string;
  rr_protocol_stage : string;
  rr_protocol_version : Z;
  rr_network_magic : string;
  rr_best_height : option Z;
  rr_tip_hash : option string;
}.

Record HeartbeatRequest := mkHeartbeat {
  hr_peer_id : option string;
  hr_address : string;
  hr_best_height : option Z;
  hr_tip_hash : option string;
}.

(** [serde_json] on the requests and on the answer, and [hex::encode]. *)
Class GatewayJson := {
  register_to_string : RegisterRequest → result string bytes;
  heartbeat_to_string : HeartbeatRequest → result string bytes;
  peers_from_str : bytes → result string (list string);
  hex_encode : bytes → string;
}.

(** ** The address of the gateway *)

(** [strip_prefix] *)
Fixpoint strip_prefix (prefix s : string) : option string :=
  match prefix, s with
  | EmptyString, _ => Some s
  | String a prefix', String b s' => if Ascii.eqb a b then strip_prefix prefix' s' else None
  | String _ _, EmptyString => None
  end.

Definition is_slash (a : ascii) : bool := Ascii.eqb a "/"%char.

(** [trim_end_matches('/')] *)
Fixpoint trim_end_slashes (s : string) : string :=
  match s with
  | EmptyString => EmptyString
  | String a s' =>
      match trim_end_slashes s' with
      | EmptyString => if is_slash a then EmptyString else String a EmptyString
      | t => String a t
      end
  end.

Fixpoint contains_slash (s : string) : bool :=
  match s with
  | EmptyString => false
  | String a s' => is_slash a || contains_slash s'
  end.

(** [GatewayEndpoint::parse] *)
Definition endpoint_value (url : string) : string :=
  trim_end_slashes
    match strip_prefix "http://" url with
    | Some value => value
    | None => match strip_prefix "https://" url with Some value => value | None => url end
    end.

Section gateway.
Context `{!ChainParams, !Config.ConfigEnv, !HttpWorld, !GatewayJson}.

Definition parse (url : string) : result string Z :=
  let value := endpoint_value url in
  if contains_slash value then Err "gateway url path is not supported; use host:port"
  else map_err (λ error, "invalid gateway address `" +:+ url +:+ "`: " +:+ error)
         (Config.parse_socket_addr value).

Definition network_magic_hex : string := hex_encode cp_network_magic.

(** ** Requests *)

Definition get (call : nat) (gateway_url : string) (path : bytes) : result string bytes :=
  addr ← parse gateway_url;
  events ← exchange call addr (get_request path (utf8 (socket_to_string addr)));
  read_gateway_response events.

Definition post_json {T} (to_string : T → result string bytes) (call : nat)
    (gateway_url path : string) (value : T) : result string bytes :=
  addr ← parse gateway_url;
  body ← map_err (λ error, "failed to encode gateway request: " +:+ error) (to_string value);
  events ← exchange call addr (post_request (utf8 path) (utf8 (socket_to_string addr)) body);
  read_gateway_response events.

Definition register_peer (call : nat) (gateway_url : string) (public_addr : Z) (best_height : option Z)
    (tip_hash : option string) : result string () :=
  let request := mkRegister None (socket_to_string public_addr) cp_chain_id cp_chain_name
    cp_protocol_stage cp_protocol_version network_magic_hex best_height tip_hash in
  post_json register_to_string call gateway_url "/v1/node/register" request ;; Ok tt.

Definition heartbeat_peer (call : nat) (gateway_url : string) (public_addr : Z) (best_height : option Z)
    (tip_hash : option string) : result string () :=
  let request := mkHeartbeat None (socket_to_string public_addr) best_height tip_hash in
  post_json heartbeat_to_string call gateway_url "/v1/node/heartbeat" request ;; Ok tt.

Definition peers_path (limit : Z) (exclude : option Z) : bytes :=
  utf8 "/v1/peers?chain_id=" ++ decimal cp_chain_id ++ utf8 "&chain_name=" ++ utf8 cp_chain_name ++
  utf8 "&protocol_stage=" ++ utf8 cp_protocol_stage ++
  utf8 "&protocol_version=" ++ decimal cp_protocol_version ++
  utf8 "&network_magic=" ++ utf8 network_magic_hex ++ utf8 "&limit=" ++ decimal limit ++
  match exclude with Some addr => utf8 "&exclude=" ++ utf8 (socket_to_string addr) | None => [] end.

Definition request_gateway_peers (call : nat) (gateway_url : string) (limit : Z) (exclude : option Z) :
    result string (list PeerInfo) :=
  body ← get call gateway_url (peers_path limit exclude);
  peers ← map_err (λ error, "failed to parse gateway peers response: " +:+ error +:+ ": " +:+ text body)
    (peers_from_str body);
  Ok (mkPeerInfo <$> (peers : list string)).

End gateway.
End Gateway.

Module GatewayProps.
Import Network Http Gateway.

Fixpoint slashes (k : nat) : string :=
  match k with O => EmptyString | S k' => String "/" (slashes k') end.

Lemma trim_slashes k : trim_end_slashes (slashes k) = EmptyString.
Proof. induction k as [|k IH]; [done|]. cbn. by rewrite IH. Qed.

Lemma trim_keeps v k : contains_slash v = false → trim_end_slashes (v +:+ slashes k) = v.
Proof.
  induction v as [|a v IH]; intros Hv; [apply trim_slashes|].
  apply orb_false_iff in Hv as [Ha Hv]. change (String a v +:+ slashes k) with (String a (v +:+ slashes k)).
  cbn [trim_end_slashes]. rewrite IH by done. destruct v; [by rewrite Ha|done].
Qed.

Lemma strip_absent prefix v : contains_slash prefix = true → contains_slash v = false →
  strip_prefix prefix v = None.
Proof.
  revert v. induction prefix as [|a prefix IH]; intros v Hp Hv; [done|]. destruct v as [|b v]; [done|].
  cbn. apply orb_false_iff in Hv as [Hb Hv]. destruct (Ascii.eqb_spec a b) as [->|]; [|done].
  apply IH; [|done]. cbn in Hp. by rewrite Hb in Hp.
Qed.

(** The address as it is written: plain, or with a scheme and final slashes. *)
Inductive written (v : string) : string → Prop :=
  | written_plain : written v v
  | written_http k : written v ("http://" +:+ (v +:+ slashes k))
  | written_https k : written v ("https://" +:+ (v +:+ slashes k)).

Lemma written_value v url : contains_slash v = false → written v url → endpoint_value url = v.
Proof.
  intros Hv [|k|k]; unfold endpoint_value.
  - rewrite !strip_absent by done. replace v with (v +:+ slashes 0) at 1; [by apply trim_keeps|].
    clear. cbn. induction v as [|a v IH]; [done|]. change (String a v +:+ EmptyString) with (String a (v +:+ EmptyString)).
    by rewrite IH.
  - by apply trim_keeps.
  - by apply trim_keeps.
Qed.

Section props.
Context `{!ChainParams, !Config.ConfigEnv, !HttpWorld, !GatewayJson}.

Lemma written_parse v url addr : contains_slash v = false → written v url →
  parse url = Ok addr ↔ Config.parse_socket_addr v = Ok addr.
Proof. intros Hv Hw. unfold parse. rewrite (written_value v url) by done. rewrite Hv. apply map_err_Ok. Qed.

(** The scheme and final slashes of the gateway's address do not matter:
    every way to write an address reaches the same endpoint with the same
    request, also with [https], which is not encrypted. *)
Theorem gateway_url_forms v url url' call path body :
  contains_slash v = false → written v url → written v url' →
  get call url path = Ok body ↔ get call url' path = Ok body.
Proof.
  intros Hv Hw Hw'. unfold get. rewrite !result_bind_Ok. setoid_rewrite (written_parse v); [|done..]. done.
Qed.

End props.

(** ** Witness *)

#[local] Program Instance test_config : Config.ConfigEnv := {|
  Config.parse_socket_addr s := Ok (Z.of_nat (String.length s));
  Config.default_listen := 12; Config.default_rpc := 14;
  Config.read_config _ := Err Config.NotFound; Config.parse_config _ := Err "no file";
|}.
Solve All Obligations with reflexivity.

#[local] Instance test_http : HttpWorld := {|
  exchange _ _ _ := Ok [Bytes (utf8 "HTTP/1.1 200 OK" ++ CRLF2 ++ utf8 "[]")];
  socket_to_string _ := "127.0.0.1:80";
|}.
#[local] Instance test_json : GatewayJson := {|
  register_to_string _ := Ok []; heartbeat_to_string _ := Ok []; peers_from_str _ := Ok [];
  hex_encode _ := "00";
|}.
#[local] Existing Instance NetworkProps.demo_chain_params.

Lemma gateway_url_forms_witness :
  get 0 "127.0.0.1:80" [47] = Ok (utf8 "[]") ∧
  (get 0 "127.0.0.1:80" [47] = Ok (utf8 "[]") ↔ get 0 "https://127.0.0.1:80/" [47] = Ok (utf8 "[]")).
Proof.
  split; [by vm_compute|]. apply (gateway_url_forms "127.0.0.1:80"); [reflexivity|apply written_plain|].
  exact (written_https "127.0.0.1:80" 1).
Defined.

End GatewayProps.
