(* ===== verification/PeersFile.v ===== *)
(** * PeersFile: the file of known peers ([src/p2p.rs])

    [save_peers_file] writes a JSON object; [load_peers_file] reads such an
    object, or a list with one address per line and comments.  JSON and the
    file system are parameters. *)

From S2P Require Import Prelude Collections Core Config Http.

Open Scope string_scope.
Open Scope list_scope.
Open Scope Z_scope.

Module PeersFile.
Import Config Http.

(** [serde_json] on [PeerCache], [fs::read_to_string], [fs::write] and
    [SocketAddr::to_string]. *)
Class PeersEnv := {
  cache_from_str : bytes → result string (list string);
  cache_to_string_pretty : list string → result string bytes;
  read_peers : string → result Config.ReadError bytes;
  write_peers : string → bytes → result string ();
  peer_to_string : SocketAddr → string;
}.

Section peers_file.
Context `{!ConfigEnv, !PeersEnv}.
Abbreviation R := (result string).

(** [contents.trim_start().starts_with('{')] *)
Fixpoint starts_object (contents : bytes) : bool :=
  match contents with
  | [] => false
  | b :: contents' =>
      if bool_decide (b = 32 ∨ 9 ≤ b ≤ 13) then starts_object contents' else bool_decide (b = 123)
  end.

(** The addresses of the JSON object, up to the first that does not parse. *)
Fixpoint parse_all (path : string) (peers : list string) : R (list SocketAddr) :=
  match peers with
  | [] => Ok []
  | peer :: peers' =>
      a ← map_err (λ error, "invalid peer `" +:+ peer +:+ "` in " +:+ path +:+ ": " +:+ error)
        (parse_socket_addr peer);
      l ← parse_all path peers';
      Ok (a :: l)
  end.

(** [line.split('#').next().unwrap_or_default().trim()] *)
Fixpoint before_hash (line : bytes) : bytes :=
  match line with
  | [] => []
  | b :: line' => if bool_decide (b = 35) then [] else b :: before_hash line'
  end.
Definition entry (line : bytes) : string := trim (text (before_hash line)).

Fixpoint parse_lines (path : string) (index : Z) (lines : list bytes) : R (list SocketAddr) :=
  match lines with
  | [] => Ok []
  | line :: lines' =>
      if bool_decide (entry line = EmptyString) then parse_lines path (index + 1) lines'
      else
        a ← map_err (λ error, "invalid peer in " +:+ path +:+ " line " +:+ text (decimal (index + 1)) +:+ ": " +:+ error)
          (parse_socket_addr (entry line));
        l ← parse_lines path (index + 1) lines';
        Ok (a :: l)
  end.

Definition load_peers_file (path : string) : R (list SocketAddr) :=
  match read_peers path with
  | Err NotFound => Ok []
  | Err (OtherReadError error) => Err ("failed to read peers file " +:+ path +:+ ": " +:+ error)
  | Ok contents =>
      if starts_object contents then
        peers ← map_err (λ error, "failed to parse peer cache " +:+ path +:+ ": " +:+ error)
          (cache_from_str contents);
        parse_all path peers
      else parse_lines path 0 (lines contents)
  end.

(** The text that is written. *)
Definition save_peers_file (path : string) (peers : list SocketAddr) : R bytes :=
  contents ← map_err (λ error, "failed to encode peer cache " +:+ path +:+ ": " +:+ error)
    (cache_to_string_pretty (peer_to_string <$> peers));
  map_err (λ error, "failed to write peers file " +:+ path +:+ ": " +:+ error) (write_peers path contents) ;;
  Ok contents.

End peers_file.
End PeersFile.

Module PeersFileProps.
Import Config Http PeersFile.

Section props.
Context `{!ConfigEnv, !PeersEnv}.

Lemma parse_all_printed path peers :
  Forall (λ a, parse_socket_addr (peer_to_string a) = Ok a) peers →
  parse_all path (peer_to_string <$> peers) = Ok peers.
Proof. induction 1 as [|a peers Ha Hps IH]; [done|]. cbn [fmap list_fmap parse_all]. rewrite Ha. cbn. by rewrite IH. Qed.

(** The peers that were saved are read back in the same order, when the file
    holds what was written, JSON is read back as it is printed and addresses
    parse back. *)
Theorem peers_file_round_trip path peers contents :
  (∀ l c, cache_to_string_pretty l = Ok c → cache_from_str c = Ok l ∧ starts_object c = true) →
  Forall (λ a, parse_socket_addr (peer_to_string a) = Ok a) peers →
  save_peers_file path peers = Ok contents → read_peers path = Ok contents →
  load_peers_file path = Ok peers.
Proof.
  intros Hjson Hps (c & Hc%map_err_Ok & (u & _ & [= ->])%result_bind_Ok)%result_bind_Ok Hread.
  destruct (Hjson _ _ Hc) as [Hf Ho]. unfold load_peers_file. rewrite Hread, Ho, Hf. cbn [map_err mbind result_bind].
  by apply parse_all_printed.
Qed.

Lemma lines_from_lf l rest : Forall (λ b, b ≠ 10) l → ∀ line,
  lines_from line (l ++ 10 :: rest) = strip_cr (line ++ l) :: lines_from [] rest.
Proof.
  induction 1 as [|b l Hb Hl IH]; intros line.
  - cbn [app lines_from]. by rewrite bool_decide_eq_true_2, app_nil_r.
  - cbn [app lines_from]. rewrite bool_decide_eq_false_2 by done. rewrite IH. by rewrite <-app_assoc.
Qed.

(** A line of a hand-written list that is empty, or only a comment, is skipped. *)
Lemma skip_line path index line lines : entry line = EmptyString →
  parse_lines path index (line :: lines) = parse_lines path (index + 1) lines.
Proof. intros He. cbn [parse_lines]. by rewrite bool_decide_eq_true_2. Qed.

End props.
End PeersFileProps.
