(* ===== verification/Service.v ===== *)
(** * Service: the node service ([NodeService] of [src/main.rs])

    The table of peers, synchronisation rounds, the messages of inbound
    connections, the conditions for mining, and one mining attempt.  The node
    and the tables of peers are shared with other threads, as in [P2p] and
    [Gossip].  Each peer has its own connection ([wire]); the clocks, the peers
    file and the gateway are oracles. *)

From S2P Require Import Prelude Collections Core Mempool Miner Cache Bytes Storage Node Network.
From S2P Require Import P2p Gossip Wallet Config.

Open Scope string_scope.
Open Scope list_scope.
Open Scope Z_scope.

Module Service.
Import Config Node Network P2p Gossip.

Definition MAX_PEER_FAILURES : Z := 3.

Inductive NodeActivity :=
  | Starting
  | WaitingForPeers
  | WaitingForTransactions
  | Mining
  | Syncing
  | ServingPeers.

#[export] Instance NodeActivity_eq_dec : EqDecision NodeActivity.
Proof. solve_decision. Defined.

Record MiningStats := mkStats { last_hashrate_hps : Z; last_attempts : Z }.

(** The error messages, by their text. *)
Inductive ServiceError :=
  | NodeLockPoisoned
  | PeerLockPoisoned
  | ConnectionLockPoisoned
  | InboundLockPoisoned
  | ConnectFailed (message : string)
  | MissingConnection (peer : SocketAddr)
  | PollFailed (error : SyncError)
  | ClockBeforeEpoch
  | DifficultyFailed (error : NodeError)
  | PrepareFailed (error : ConsensusError)
  | MiningFailed (error : ConsensusError)
  | ApplyMinedFailed (error : NodeError)
  | FlushMinedFailed (error : NodeError)
  | HandleFailed (error : NetworkError)
  | PeersFileFailed (message : string).

Section service.
Context `{Paqus, !ChainParams, Kv, Lmdb, Clock, !Storage.Codecs, !PeerWorld}.

Class ServiceEnv := {
  wire : SocketAddr → Wire;
  node_others : nat → Node → Node;
  node_poisoned : nat → bool;
  addr_of_string : string → option SocketAddr;
  addr_to_string : SocketAddr → string;
  instant : nat → Instant;
  timestamp_now : nat → option Timestamp;
  elapsed_nanos : nat → Z;
  peers_file_write : nat → result string ();
  MAX_BLOCK_TXS : Z;
}.

Record Service := mkService {
  session : Session;
  world : World;
  cfg : RunConfig;
  requires_peer_sync_before_mining : bool;
  mining_stats : MiningStats;
  peers_saved : list (list SocketAddr);
}.

Definition set_session (x : Session) (s : Service) : Service :=
  mkService x (world s) (cfg s) (requires_peer_sync_before_mining s) (mining_stats s) (peers_saved s).
Definition set_world (x : World) (s : Service) : Service :=
  mkService (session s) x (cfg s) (requires_peer_sync_before_mining s) (mining_stats s) (peers_saved s).
Definition set_mining_stats (x : MiningStats) (s : Service) : Service :=
  mkService (session s) (world s) (cfg s) (requires_peer_sync_before_mining s) x (peers_saved s).
Definition set_peers_saved (x : list (list SocketAddr)) (s : Service) : Service :=
  mkService (session s) (world s) (cfg s) (requires_peer_sync_before_mining s) (mining_stats s) x.

Context `{!ServiceEnv}.
Abbreviation M := (SE Service ServiceError).

(** A method of the node, in a critical section of the node's lock. *)
Definition method {E A} (conv : NodeError → E) (m : SE Node NodeError A) : SE Node E A :=
  zoom id (λ n _, n) conv m.

#[local] Instance own_wire : Wire := {|
  reply _ _ := Err "no connection"; P2p.sent _ _ := Err "no connection";
  others := node_others; poisoned := node_poisoned;
|}.

Definition with_node {A} (m : SE Node ServiceError A) : M A :=
  zoom session set_session id (locked_or NodeLockPoisoned m).

(** [lock()] on one of the tables. *)
Definition with_tables {A} (poison : ServiceError) (m : M A) : M A := λ s,
  let '(ok, w) := lock (world s) in
  if ok : bool then m (set_world w s) else (Err poison, set_world w s).

Definition peer_table (s : Service) : gmap SocketAddr PeerState := peers (tables (world s)).

Definition set_peers (p : gmap SocketAddr PeerState) (t : Tables) : Tables :=
  mkTables p (peer_connections t) (inbound_connections t).

(** [if let Ok(mut peers) = self.peers.lock() { .. }] *)
Definition update_tables (f : nat → Tables → Tables) (s : Service) : Service :=
  let '(ok, w) := lock (world s) in
  if ok : bool then set_world (set_tables (f (events w) (tables w)) w) s else set_world w s.

(** [peers.get_mut(&peer)], then a method of the state. *)
Definition update_peer (peer : SocketAddr) (f : Instant → PeerState → PeerState) (s : Service) : Service :=
  update_tables (λ k t, set_peers (alter (f (instant k)) peer (peers t)) t) s.

(** ** The peers file *)

Definition save_peers_from (peers_file : option string) : M () := λ s,
  match peers_file with
  | None => (Ok tt, s)
  | Some _ =>
      with_tables PeerLockPoisoned (λ s,
        let content := sort_by Z.leb (map_to_list (peer_table s)).*1 in
        match peers_file_write (length (peers_saved s)) with
        | Ok _ => (Ok tt, set_peers_saved (peers_saved s ++ [content]) s)
        | Err e => (Err (PeersFileFailed e), s)
        end) s
  end.

Definition save_peers : M () := s ← get_state; save_peers_from (peers_file (cfg s)).

(** ** Learning peers *)

(** The loop over the addresses a peer sent; [known] is the key set at the start. *)
Fixpoint add_infos (known : gset SocketAddr) (own : list SocketAddr) (max_peers : Z) (k : nat)
    (infos : list PeerInfo) (current : gmap SocketAddr PeerState) (changed : bool) :
    bool * gmap SocketAddr PeerState :=
  match infos with
  | [] => (changed, current)
  | info :: infos' =>
      if bool_decide (max_peers ≤ Z.of_nat (size current)) then (changed, current)
      else
        match addr_of_string (Network.address info) with
        | None => add_infos known own max_peers k infos' current changed
        | Some addr =>
            if bool_decide (addr ∈ own) then add_infos known own max_peers k infos' current changed
            else if bool_decide (addr ∈ known) then add_infos known own max_peers k infos' current changed
            else
              match current !! addr with
              | None => add_infos known own max_peers k infos'
                  (<[addr := P2p.new (instant k) addr]> current) true
              | Some _ => add_infos known own max_peers k infos' current changed
              end
        end
  end.

Definition add_peer_infos_to (infos : list PeerInfo) (own : list SocketAddr) (max_peers : Z)
    (s : Service) : bool * Service :=
  let '(ok, w) := lock (world s) in
  if ok : bool then
    let current := peers (tables w) in
    let '(changed, current') := add_infos (dom current) own max_peers (events w) infos current false in
    (changed, set_world (set_tables (set_peers current' (tables w)) w) s)
  else (false, set_world w s).

Definition add_peer_infos (infos : list PeerInfo) (s : Service) : bool * Service :=
  add_peer_infos_to infos (public_addrs (cfg s) ++ listen_addrs (cfg s)) (max_peers (cfg s)) s.

(** [let _ = self.save_peers();] *)
Definition try_save_peers (s : Service) : Service := (save_peers s).2.

Definition learn_peers (infos : list PeerInfo) (s : Service) : Service :=
  let '(changed, s) := add_peer_infos infos s in
  if changed : bool then try_save_peers s else s.

(** [infos.sort_by(..)] and [infos.dedup_by(..)] on the addresses. *)
Fixpoint dedup_infos (l : list string) : list string :=
  match l with
  | [] => []
  | x :: l' =>
      match l' with
      | y :: _ => if bool_decide (x = y) then dedup_infos l' else x :: dedup_infos l'
      | [] => [x]
      end
  end.

Definition peer_infos_from (own : list SocketAddr) (s : Service) : list PeerInfo * Service :=
  let '(ok, w) := lock (world s) in
  if ok : bool then
    let infos := addr_to_string <$> ((map_to_list (peers (tables w))).*1 ++ own) in
    (mkPeerInfo <$> dedup_infos (sort_by String.leb infos), set_world w s)
  else ([], set_world w s).

(** ** Synchronisation rounds *)

(** The connection table stays locked while the peer is polled. *)
Definition poll_persistent_peer (peer : SocketAddr) : M PeerPoll :=
  with_tables ConnectionLockPoisoned (
    zoom world set_world ConnectFailed (ensure_connection peer) ;;
    s ← get_state;
    match peer_connections (tables (world s)) !! peer with
    | None => throw (MissingConnection peer)
    | Some _ =>
        zoom session set_session PollFailed
          (poll_peer_connection (H5 := wire peer) (addr_to_string <$> public_addrs (cfg s)))
    end).

(** [request_peers_connection(connection).ok()] on the connection of the peer. *)
Definition ask_peers (peer : SocketAddr) (s : Service) : option (list PeerInfo) * Service :=
  let '(ok, w) := lock (world s) in
  let s := set_world w s in
  if ok : bool then
    match peer_connections (tables w) !! peer with
    | None => (None, s)
    | Some _ =>
        match request_peers_connection (H5 := wire peer) (session s) with
        | (Ok infos, x) => (Some infos, set_session x s)
        | (Err _, x) => (None, set_session x s)
        end
    end
  else (None, s).

(** A failed poll counts against the peer; the third one drops it. *)
Definition fail_peer (peer : SocketAddr) (s : Service) : bool * Service :=
  let '(ok, w) := lock (world s) in
  if ok : bool then
    match peers (tables w) !! peer with
    | None => (false, set_world w s)
    | Some state =>
        let state' := mark_failed (instant (events w)) state in
        let marked := <[peer := state']> (peers (tables w)) in
        if bool_decide (MAX_PEER_FAILURES ≤ failures state') then
          (true, set_world (set_tables (set_peers (delete peer marked) (tables w)) w) s)
        else (false, set_world (set_tables (set_peers marked (tables w)) w) s)
    end
  else (false, set_world w s).

Definition drop_connection (peer : SocketAddr) (s : Service) : Service :=
  set_world (drop_outbound peer (world s)) s.

(** One round of the loop over the peers that are due. *)
Definition sync_peer (s : Service) (peer : SocketAddr) : Service :=
  match poll_persistent_peer peer s with
  | (Ok (Idle remote_tip), s) | (Ok (Synced remote_tip), s) =>
      let s := update_peer peer (λ now, mark_ok now (Some remote_tip)) s in
      match ask_peers peer s with
      | (Some infos, s) => learn_peers infos s
      | (None, s) => s
      end
  | (Err _, s) =>
      let '(dropped, s) := fail_peer peer s in
      let s := drop_connection peer s in
      if dropped : bool then try_save_peers s else s
  end.

Definition due_peers (k : nat) (t : gmap SocketAddr PeerState) : list SocketAddr :=
  omap (λ p : SocketAddr * PeerState,
    if bool_decide (next_attempt p.2 ≤ instant k) then Some p.1 else None) (map_to_list t).

Definition sync_peers (s : Service) : Service :=
  let '(ok, w) := lock (world s) in
  let s := set_world w s in
  if ok : bool then foldl sync_peer s (key_order (events w) (due_peers (events w) (peers (tables w))))
  else s.

(** ** Inbound messages *)

(** One message of an inbound connection: the answer to write, if any. *)
Definition handle_inbound (m : NetworkMessage) : M (option NetworkMessage) :=
  match m with
  | GetPeers => λ s,
      let '(infos, s) := peer_infos_from (public_addrs (cfg s)) s in (Ok (Some (Peers infos)), s)
  | Peers infos => modify (learn_peers infos) ;; mret None
  | _ => with_node (zoom id (λ n _, n) HandleFailed (handle_message m))
  end.

(** ** Conditions for mining *)

Definition needs_peer_handshake_before_mining : M bool :=
  s ← get_state;
  if negb (requires_peer_sync_before_mining s) then mret false
  else with_tables PeerLockPoisoned (gets (λ s,
    negb (bool_decide (peer_table s = ∅)) &&
    negb (existsb (λ p : SocketAddr * PeerState, bool_decide (is_Some (last_tip p.2)))
      (map_to_list (peer_table s))))).

Definition peer_ahead_of_local_tip : M bool :=
  local_height ← with_node (gets (λ n, default 0 (node_tip_height n)));
  with_tables PeerLockPoisoned (gets (λ s,
    existsb (λ p : SocketAddr * PeerState,
      match last_tip p.2 with Some height => bool_decide (local_height < height) | None => false end)
      (map_to_list (peer_table s)))).

Definition mining_wait_reason : M (option string) :=
  pending_sync ← with_node (gets has_pending_sync_work);
  if pending_sync : bool then mret (Some "sync_pending")
  else
    handshake ← needs_peer_handshake_before_mining;
    if handshake : bool then mret (Some "handshake_pending")
    else
      ahead ← peer_ahead_of_local_tip;
      if ahead : bool then mret (Some "peer_ahead") else mret None.

(** The activity [log_activity] reports. *)
Definition activity : M NodeActivity :=
  s ← get_state;
  work ← with_node (gets (λ n, (Mempool.len (mempool n), has_pending_sync_work n)));
  peer_count ← with_tables PeerLockPoisoned (gets (λ s, size (peer_table s)));
  if bool_decide (peer_count = 0%nat ∧ is_Some (gateway_url (cfg s))) then mret WaitingForPeers
  else
    syncing ← (if (work.2 : bool) then mret true
               else
                 handshake ← needs_peer_handshake_before_mining;
                 if handshake : bool then mret true else peer_ahead_of_local_tip);
    mret (if syncing : bool then Syncing
          else if mine (cfg s) && bool_decide (work.1 = 0) then WaitingForTransactions
          else if mine (cfg s) then Mining
          else if bool_decide (0 < peer_count)%nat then Syncing
          else ServingPeers).

(** ** One mining attempt *)

Definition update_mining_stats (attempts elapsed : Z) : MiningStats :=
  mkStats (Z.min (attempts * 1000000000 / Z.max elapsed 1) u64_max) attempts.

(** The candidate, prepared under the node's lock. *)
Definition prepare_mining (miner : Address) (attempts : Z) (timestamp : Timestamp) :
    SE Node ServiceError (Block * Consensus * Miner.MiningConfig) :=
  modify (λ n, set_mempool (Mempool.prune_expired timestamp (mempool n)).2 n) ;;
  difficulty ← method DifficultyFailed next_difficulty;
  n ← get_state;
  candidate ← lift (map_err PrepareFailed
    (Miner.prepare_candidate_block (mempool n) (ledger n) miner timestamp MAX_BLOCK_TXS difficulty));
  mret (candidate, consensus n, Miner.mkMiningConfig difficulty attempts MAX_BLOCK_TXS).

(** The mined block, unless the tip has moved. *)
Definition submit_mined (parent_hash : BlockHash) (block : Block) : SE Node ServiceError (option Block) :=
  n ← get_state;
  if bool_decide (node_tip_hash n ≠ Some parent_hash) then mret None
  else
    method ApplyMinedFailed (apply_block block) ;;
    method FlushMinedFailed flush_to_storage ;;
    mret (Some block).

Definition record_attempts (attempts : Z) : M () :=
  modify (λ s, set_mining_stats (update_mining_stats attempts (elapsed_nanos (locks (session s)))) s).

Definition mine_once_unlocked : M (option Block) :=
  s ← get_state;
  timestamp ← lift (ok_or (timestamp_now (locks (session s))) ClockBeforeEpoch);
  p ← with_node (prepare_mining (miner_address (cfg s)) (mine_attempts (cfg s)) timestamp);
  let '(candidate, consensus, mining_config) := p in
  let parent_hash := previous_hash candidate in
  mined ← lift (map_err MiningFailed (Miner.mine_prepared_block candidate consensus mining_config));
  match mined with
  | None =>
      record_attempts (Miner.max_attempts mining_config) ;;
      with_node (gets (λ n, Mempool.is_empty (mempool n))) ;;
      mret None
  | Some result =>
      record_attempts (Miner.attempts result) ;;
      with_node (submit_mined parent_hash (Miner.mined_block result))
  end.

(** ** Start *)

Definition new_service (n : Node) (c : RunConfig) : Service :=
  mkService (mkSession n 0 0 [])
    (mkWorld (mkTables (list_to_map ((λ p, (p, P2p.new (instant 0) p)) <$> Config.peers c)) ∅ ∅) 0 [])
    c (mine c && (negb (bool_decide (Config.peers c = [])) || bool_decide (is_Some (gateway_url c))))
    (mkStats 0 0) [].

(** The list of peers [run_node] starts from. *)
Definition startup_peers (file_peers : list SocketAddr) (c : RunConfig) : RunConfig :=
  let ps := dedupe_peers (Config.peers c ++ file_peers) in
  Config.set_peers (take (Z.to_nat (max_peers c)) ps) c.

End service.
End Service.
