(* ===== verification/ServiceProps.v ===== *)
(** * ServiceProps: the peer table, the conditions for mining, and mining *)

From S2P Require Import Prelude Collections Core Mempool Miner Cache Bytes Storage Node Network.
From S2P Require Import NodeFacts NodeProps P2p Gossip GossipProps Wallet Config Service.

Open Scope string_scope.
Open Scope list_scope.
Open Scope Z_scope.

Module ServiceProps.
Import Config Node NodeFacts NodeProps Network P2p P2pProps Gossip GossipProps Service.

Section table.
Context `{Paqus, !ChainParams, Kv, Lmdb, Clock, !Storage.Codecs, !PeerWorld, !ServiceEnv}.

(** ** Learning peers *)

(** An address a message may add: it parses, and is not one of our own. *)
Definition offered (own : list SocketAddr) (infos : list PeerInfo) (a : SocketAddr) : Prop :=
  a ∉ own ∧ ∃ info, info ∈ infos ∧ addr_of_string (Network.address info) = Some a.

Record learned (own : list SocketAddr) (max : Z) (k : nat) (infos : list PeerInfo)
    (t t' : gmap SocketAddr PeerState) : Prop := {
  le_old : t ⊆ t';
  le_size : Z.of_nat (size t') ≤ Z.max max (Z.of_nat (size t));
  le_new a st : t !! a = None → t' !! a = Some st → st = P2p.new (instant k) a ∧ offered own infos a;
  le_all a : Z.of_nat (size t') < max → offered own infos a → is_Some (t' !! a);
}.

Lemma offered_cons own info infos a : offered own infos a → offered own (info :: infos) a.
Proof. intros (Ho & i & Hi & E). split; [done|]. exists i. split; [by right|done]. Qed.

Lemma learned_skip own max k info infos t t' :
  (∀ a, a ∉ own → addr_of_string (Network.address info) = Some a → is_Some (t !! a)) →
  learned own max k infos t t' → learned own max k (info :: infos) t t'.
Proof.
  intros Hi [Hold Hsize Hnew Hall]. split; [done|done| |].
  - intros a st Ha Ha'. destruct (Hnew a st Ha Ha') as [-> Ho]. split; [done|by apply offered_cons].
  - intros a Hs (Ho & i & [->|Hin]%elem_of_cons & E).
    + destruct (Hi a Ho E) as [st Hst]. exists st. by eapply lookup_weaken.
    + apply Hall; [done|]. by split; [|exists i].
Qed.

Lemma add_infos_spec known own max k infos : ∀ t changed, known ⊆ dom t →
  let r := add_infos known own max k infos t changed in
  learned own max k infos t r.2 ∧ (r.1 = true ↔ changed = true ∨ r.2 ≠ t).
Proof.
  induction infos as [|info infos IH]; intros t changed Hk; cbn [add_infos]; cbn zeta.
  { cbn [fst snd]. split; [|naive_solver]. split; [done|lia|naive_solver|]. intros a _ (_ & i & Hi & _). by apply elem_of_nil in Hi. }
  assert (learned own max k (info :: infos) t t ∨ Z.of_nat (size t) < max) as Hfull.
  { destruct (Z_lt_le_dec (Z.of_nat (size t)) max); [by right|left]. split; [done|lia|naive_solver|lia]. }
  case_bool_decide as Hmax; [split; [destruct Hfull; [done|lia]|naive_solver]|].
  destruct (addr_of_string (Network.address info)) as [addr|] eqn:Ha.
  2: { destruct (IH t changed Hk) as [Hl Hc]. split; [|done]. apply learned_skip; naive_solver. }
  case_bool_decide as Hown.
  { destruct (IH t changed Hk) as [Hl Hc]. split; [|done]. apply learned_skip; naive_solver. }
  case_bool_decide as Hkn.
  { destruct (IH t changed Hk) as [Hl Hc]. split; [|done]. apply learned_skip; [|done].
    intros a _ E. rewrite Ha in E. injection E as <-. apply elem_of_dom. set_solver. }
  destruct (t !! addr) as [st|] eqn:Hl.
  { destruct (IH t changed Hk) as [Hl' Hc]. split; [|done]. apply learned_skip; naive_solver. }
  set (st := P2p.new (instant k) addr).
  destruct (IH (<[addr := st]> t) true) as [[Hold Hsize Hnew Hall] Hc]; [set_solver|].
  assert (t ⊂ <[addr := st]> t) as Hsub by (by apply insert_subset).
  assert ((add_infos known own max k infos (<[addr:=st]> t) true).2 !! addr = Some st) as Hin.
  { eapply lookup_weaken; [|exact Hold]. apply lookup_insert_eq. }
  split; [split|].
  - etrans; [apply Hsub|done].
  - rewrite map_size_insert_None in Hsize by done. lia.
  - intros a st' Hnone Hsome. destruct (decide (a = addr)) as [->|Hne].
    + rewrite Hin in Hsome. injection Hsome as <-. split; [done|]. split; [done|].
      exists info. split; [by left|done].
    + destruct (Hnew a st') as [-> Ho]; [by rewrite lookup_insert_ne|done|]. split; [done|by apply offered_cons].
  - intros a Hs (Ho & i & [->|Hi]%elem_of_cons & E).
    + rewrite Ha in E. injection E as <-. by exists st.
    + apply Hall; [done|]. by split; [|exists i].
  - split; [intros _; right|intros _; apply Hc; by left]. intros E. rewrite E in Hin. congruence.
Qed.

(** The addresses a peer sends extend the table of peers and change
    nothing else: known peers keep their state, each new entry is an address of
    the message, not one of the node's own, in a fresh state; the table does
    not grow beyond its limit, and while it stays below it every address of the
    message is taken.  The answer tells whether the table changed. *)
Theorem learned_peers_exact infos s :
  let own := public_addrs (cfg s) ++ listen_addrs (cfg s) in
  let w := (lock (world s)).2 in
  let '(changed, s') := add_peer_infos infos s in
  if (lock (world s)).1
  then learned own (max_peers (cfg s)) (events w) infos (peers (tables w)) (peer_table s') ∧
       (changed = true ↔ peer_table s' ≠ peers (tables w)) ∧
       peer_connections (tables (world s')) = peer_connections (tables w) ∧
       inbound_connections (tables (world s')) = inbound_connections (tables w) ∧
       session s' = session s
  else changed = false ∧ s' = set_world w s.
Proof.
  cbn zeta. unfold add_peer_infos, add_peer_infos_to. destruct (lock (world s)) as [[] w]; cbn [fst snd]; [|done].
  destruct (add_infos_spec (dom (peers (tables w))) (public_addrs (cfg s) ++ listen_addrs (cfg s))
    (max_peers (cfg s)) (events w) infos (peers (tables w)) false) as [Hl Hc]; [done|].
  destruct (add_infos _ _ _ _ _ _ _) as [changed t']. cbn [fst snd] in *.
  split_and!; try done. naive_solver.
Qed.

End table.

(** ** A synchronisation round keeps the node and the table sound *)

Section sync.
Context `{Paqus, !ChainParams, Kv, Lmdb, Clock, !Storage.Codecs, !PeerWorld, !ServiceEnv}.
Context (I : Node → Prop) (M : Z).
Context (Hstep : ∀ n n', node_step n n' → I n → I n').
Context (Hothers : ∀ peer k n, I n → I (others (Wire := wire peer) k n)).

(** A table within its limit, each entry under its own address and with fewer
    failures than drop a peer. *)
Record table_ok (t : Tables) : Prop := {
  to_size : Z.of_nat (size (peers t)) ≤ M;
  to_entries : map_Forall (λ a st, ps_addr st = a ∧ 0 ≤ failures st < MAX_PEER_FAILURES) (peers t);
}.

Context (Hmeanwhile : ∀ k t, table_ok t → table_ok (meanwhile k t)).

Record service_ok (s : Service) : Prop := {
  so_node : I (shared_node (session s));
  so_table : table_ok (tables (world s));
  so_max : max_peers (cfg s) = M;
}.

Lemma lock_ok w : table_ok (tables w) → table_ok (tables (lock w).2).
Proof. intros Hw. by apply Hmeanwhile. Qed.

Lemma table_ok_peers t t' : peers t' = peers t → table_ok t → table_ok t'.
Proof. intros E [Hs He]. split; by rewrite E. Qed.

Lemma drop_outbound_ok peer w : table_ok (tables w) → table_ok (tables (drop_outbound peer w)).
Proof.
  intros Hw. unfold drop_outbound. pose proof (lock_ok w Hw). destruct (lock w) as [[] w1]; [|done].
  by apply (table_ok_peers (tables w1)).
Qed.

Lemma ensure_connection_ok peer w :
  table_ok (tables w) → table_ok (tables (ensure_connection peer w).2).
Proof.
  intros Hw. unfold ensure_connection. rewrite SE_bind_gets. case_match; [done|].
  unfold open_connection. destruct (connect _ _); [|done]. by apply (table_ok_peers (tables w)).
Qed.

Lemma poll_ok peer s : service_ok s → service_ok (poll_persistent_peer peer s).2.
Proof.
  intros [Hn Ht Hm]. unfold poll_persistent_peer, with_tables.
  pose proof (lock_ok _ Ht) as Hl. destruct (lock (world s)) as [[] w]; cbn [snd] in Hl; [|by split].
  rewrite SE_bind_unfold. unfold zoom at 1. cbn [world set_world].
  pose proof (ensure_connection_ok peer w Hl) as He.
  destruct (ensure_connection peer w) as [[[]|e] w1]; cbn [snd map_err] in *; [|by split].
  rewrite SE_bind_get. cbn [world set_world]. case_match; [|by split].
  unfold zoom. cbn [session set_world cfg].
  pose proof (poll_keeps (H5 := wire peer) I Hstep (Hothers peer)
    (addr_to_string <$> public_addrs (cfg s)) (session s) Hn) as Hp.
  destruct (poll_peer_connection _ _) as [r x]. by split.
Qed.

Lemma update_ok f s : (∀ k t, table_ok t → table_ok (f k t)) → service_ok s → service_ok (update_tables f s).
Proof.
  intros Hf [Hn Ht Hm]. unfold update_tables. pose proof (lock_ok _ Ht) as Hl.
  destruct (lock (world s)) as [[] w]; cbn [snd] in Hl; split; try done. by apply Hf.
Qed.

Lemma mark_ok_ok peer tip s : service_ok s → service_ok (update_peer peer (λ now, mark_ok now tip) s).
Proof.
  apply update_ok. intros k t [Hs He]. split; cbn [peers set_peers]; [by rewrite <-(size_dom (D := gset Z)), dom_alter_L, size_dom|].
  intros a st. rewrite lookup_alter. case_decide; [subst a|apply He].
  destruct (peers t !! peer) as [st0|] eqn:E; [|done]. intros [= <-]. destruct (He _ _ E) as [? _].
  split; [done|]. cbn. unfold MAX_PEER_FAILURES. lia.
Qed.

Lemma ask_ok peer s : service_ok s → service_ok (ask_peers peer s).2.
Proof.
  intros [Hn Ht Hm]. unfold ask_peers. pose proof (lock_ok _ Ht) as Hl.
  destruct (lock (world s)) as [[] w]; cbn [snd] in Hl; [|by split].
  case_match; [|by split]. unfold request_peers_connection. rewrite SE_bind_unfold.
  cbn [request]. destruct (map_err Transport _) as [r|e]; [|by split]. by destruct r.
Qed.

Lemma save_ok s : service_ok s → service_ok (try_save_peers s).
Proof.
  intros [Hn Ht Hm]. unfold try_save_peers, save_peers. rewrite SE_bind_get. unfold save_peers_from.
  case_match; [|by split]. unfold with_tables. pose proof (lock_ok _ Ht) as Hl.
  destruct (lock (world s)) as [[] w]; cbn [snd] in Hl; [|by split]. by destruct (peers_file_write _).
Qed.

Lemma learn_ok infos s : service_ok s → service_ok (learn_peers infos s).
Proof.
  intros [Hn Ht Hm]. unfold learn_peers, add_peer_infos, add_peer_infos_to. pose proof (lock_ok _ Ht) as Hl.
  destruct (lock (world s)) as [[] w]; cbn [snd] in Hl; [|by split].
  destruct (add_infos_spec (dom (peers (tables w))) (public_addrs (cfg s) ++ listen_addrs (cfg s))
    (max_peers (cfg s)) (events w) infos (peers (tables w)) false) as [[Hold Hsize Hnew _] _]; [done|].
  destruct (add_infos _ _ _ _ _ _ _) as [changed t']. cbn [fst snd] in *.
  assert (service_ok (set_world (set_tables (set_peers t' (tables w)) w) s)) as Hok.
  { destruct Hl as [Hs He]. split; try done. split; cbn [fst snd peers set_peers set_tables tables world set_world]; [lia|].
    intros a st Ha. destruct (peers (tables w) !! a) as [st0|] eqn:E.
    - assert (t' !! a = Some st0) by (by eapply lookup_weaken). simplify_eq. by apply He.
    - destruct (Hnew a st E Ha) as [-> _]. done. }
  destruct changed; [by apply save_ok|done].
Qed.

Lemma fail_ok peer s : service_ok s → service_ok (fail_peer peer s).2.
Proof.
  intros [Hn Ht Hm]. unfold fail_peer. pose proof (lock_ok _ Ht) as Hl.
  destruct (lock (world s)) as [[] w]; cbn [snd] in Hl; [|by split].
  destruct (peers (tables w) !! peer) as [st|] eqn:E; [|by split]. destruct Hl as [Hs He].
  case_bool_decide as Hf; split; try done; split; cbn [fst snd peers set_peers set_tables tables world set_world].
  - rewrite delete_insert_eq. rewrite map_size_delete, E. lia.
  - rewrite delete_insert_eq. by apply map_Forall_delete.
  - rewrite map_size_insert_Some by eauto. lia.
  - apply map_Forall_insert_2; [|done]. destruct (He _ _ E) as [Ha Hb]. split; [done|].
    split; [|lia]. cbn. unfold sat_add, u32_max. lia.
Qed.

(** A round of synchronisation, over any peers and whatever they answer,
    keeps the table of peers within its limit and each peer below three
    failures, and keeps every invariant of the node that its own methods keep,
    as long as the other threads do. *)
Theorem sync_round_keeps_invariants s : service_ok s → service_ok (sync_peers s).
Proof.
  intros Hs. unfold sync_peers. destruct Hs as [Hn Ht Hm]. pose proof (lock_ok _ Ht) as Hl.
  destruct (lock (world s)) as [[] w]; cbn [snd] in Hl; [|by split].
  set (l := key_order _ _). assert (service_ok (set_world w s)) as Hs by (by split).
  revert Hs. generalize (set_world w s) as s0. induction l as [|peer l IH]; intros s0 Hs; [done|].
  apply IH. unfold sync_peer. pose proof (poll_ok peer s0 Hs) as Hp.
  assert (∀ tip s1, service_ok s1 → service_ok
    (let s1 := update_peer peer (λ now, mark_ok now tip) s1 in
     match ask_peers peer s1 with (Some infos, s1) => learn_peers infos s1 | (None, s1) => s1 end)) as Hgood.
  { intros tip s1 H1'. cbn zeta. pose proof (ask_ok peer _ (mark_ok_ok peer tip s1 H1')) as Ha.
    destruct (ask_peers peer _) as [[infos|] s2]; [by apply learn_ok|done]. }
  destruct (poll_persistent_peer peer s0) as [[[tip|tip]|e] s1]; cbn [snd] in Hp; try by apply (Hgood (Some tip)).
  pose proof (fail_ok peer s1 Hp) as Hf. destruct (fail_peer peer s1) as [dropped s2]; cbn [snd] in Hf.
  assert (service_ok (drop_connection peer s2)) as Hd
    by (destruct Hf; split; [done|by apply drop_outbound_ok|done]).
  destruct dropped; [by apply save_ok|done].
Qed.

End sync.

(** ** When mining starts *)

Section gate.
Context `{Paqus, !ChainParams, Kv, Lmdb, Clock, !Storage.Codecs, !PeerWorld, !ServiceEnv}.
Hypothesis Hnode : ∀ k n, node_others k n = n.
Hypothesis Hnode_lock : ∀ k, node_poisoned k = false.
Hypothesis Hquiet : ∀ k t, meanwhile k t = t.
Hypothesis Hlock : ∀ k, lock_poisoned k = false.

(** Without interference a critical section that only reads sees the node and
    the tables of the service, and leaves them as they are. *)
Definition same_view (s s' : Service) : Prop :=
  shared_node (session s') = shared_node (session s) ∧ peer_table s' = peer_table s ∧
  requires_peer_sync_before_mining s' = requires_peer_sync_before_mining s.

Lemma with_node_gets {A} (f : Node → A) s :
  ∃ s', with_node (gets f) s = (Ok (f (shared_node (session s))), s') ∧ same_view s s'.
Proof.
  unfold with_node, zoom, locked_or. cbn [others poisoned own_wire].
  rewrite Hnode_lock, Hnode. eexists. split; [done|]. by repeat split.
Qed.

Lemma with_tables_gets {A} poison (f : Service → A) s :
  ∃ s', with_tables poison (gets f) s = (Ok (f s'), s') ∧ same_view s s'.
Proof.
  unfold with_tables, lock. rewrite Hlock. cbn [negb]. eexists. split; [done|].
  unfold same_view, peer_table. cbn. by rewrite Hquiet.
Qed.

(** No peer was asked successfully, or one of them was. *)
Lemma handshake_run s : ∃ s' b, needs_peer_handshake_before_mining s = (Ok b, s') ∧ same_view s s' ∧
  (b = false ↔ (requires_peer_sync_before_mining s = true → peer_table s = ∅ ∨
    ∃ a st, peer_table s !! a = Some st ∧ is_Some (last_tip st))).
Proof.
  unfold needs_peer_handshake_before_mining. rewrite SE_bind_get.
  destruct (requires_peer_sync_before_mining s); cbn [negb].
  2: { exists s, false. split_and!; [done|done|]. naive_solver. }
  destruct (with_tables_gets PeerLockPoisoned (λ s, negb (bool_decide (peer_table s = ∅)) &&
    negb (existsb (λ p : SocketAddr * PeerState, bool_decide (is_Some (last_tip p.2)))
      (map_to_list (peer_table s)))) s) as (s' & E & Hv). rewrite E.
  do 2 eexists. split_and!; [done|done|]. destruct Hv as (_ & -> & _).
  rewrite andb_false_iff, !negb_false_iff, bool_decide_eq_true, existsb_exists. split.
  - intros [|([a st] & Hin & Hs%bool_decide_eq_true)] _; [by left|right].
    exists a, st. split; [|done]. by apply elem_of_map_to_list, list_elem_of_In.
  - intros [|(a & st & Ha & Hs)]; [done|by left|right]. exists (a, st).
    split; [by apply list_elem_of_In, elem_of_map_to_list|by apply bool_decide_eq_true].
Qed.

Lemma ahead_run s : ∃ s' b, peer_ahead_of_local_tip s = (Ok b, s') ∧
  (b = false ↔ ∀ a st h, peer_table s !! a = Some st → last_tip st = Some h →
    h ≤ default 0 (node_tip_height (shared_node (session s)))).
Proof.
  unfold peer_ahead_of_local_tip. rewrite SE_bind_unfold.
  destruct (with_node_gets (λ n, default 0 (node_tip_height n)) s) as (s1 & E1 & Hv1). rewrite E1.
  set (height := default 0 _).
  destruct (with_tables_gets PeerLockPoisoned (λ s, existsb (λ p : SocketAddr * PeerState,
    match last_tip p.2 with Some h => bool_decide (height < h) | None => false end)
    (map_to_list (peer_table s))) s1) as (s' & E & Hv). rewrite E.
  do 2 eexists. split; [done|]. destruct Hv as (_ & -> & _), Hv1 as (_ & -> & _).
  rewrite <-not_true_iff_false, existsb_exists. split.
  - intros Hno a st h Ha Hh. destruct (Z_le_gt_dec h height); [done|]. destruct Hno. exists (a, st).
    split; [by apply list_elem_of_In, elem_of_map_to_list|]. cbn. rewrite Hh. apply bool_decide_eq_true. lia.
  - intros Hall ([a st] & Hin%list_elem_of_In%elem_of_map_to_list & Hlt). cbn in Hlt.
    destruct (last_tip st) as [h|] eqn:Hh; [|done]. apply bool_decide_eq_true in Hlt.
    specialize (Hall a st h Hin Hh). lia.
Qed.

(** Mining starts exactly when the node has no orphan and no missing
    parent to ask for, no peer has reported a tip above the node's own and,
    where peers or a gateway were configured, some peer has completed a
    handshake or there is no peer at all. *)
Theorem mining_gate s :
  (mining_wait_reason s).1 = Ok None ↔
  orphan_blocks (shared_node (session s)) = ∅ ∧
  missing_parent_requests (shared_node (session s)) = [] ∧
  missing_parent_retry_at (shared_node (session s)) = ∅ ∧
  (requires_peer_sync_before_mining s = true → peer_table s = ∅ ∨
    ∃ a st, peer_table s !! a = Some st ∧ is_Some (last_tip st)) ∧
  (∀ a st h, peer_table s !! a = Some st → last_tip st = Some h →
    h ≤ default 0 (node_tip_height (shared_node (session s)))).
Proof.
  unfold mining_wait_reason. rewrite SE_bind_unfold.
  destruct (with_node_gets has_pending_sync_work s) as (s1 & -> & Hn1 & Ht1 & Hr1).
  assert (has_pending_sync_work (shared_node (session s)) = false ↔
    orphan_blocks (shared_node (session s)) = ∅ ∧
    missing_parent_requests (shared_node (session s)) = [] ∧
    missing_parent_retry_at (shared_node (session s)) = ∅) as Hpending.
  { unfold has_pending_sync_work.
    rewrite !orb_false_iff, !negb_false_iff, !bool_decide_eq_true. tauto. }
  destruct (has_pending_sync_work _); [split; [done|naive_solver]|].
  rewrite SE_bind_unfold. destruct (handshake_run s1) as (s2 & b & -> & Hv2 & Hb).
  rewrite Ht1, Hr1 in Hb. destruct b; [split; [done|naive_solver]|]. rewrite SE_bind_unfold.
  destruct Hv2 as (Hn2 & Ht2 & _). destruct (ahead_run s2) as (s3 & b & -> & Ha).
  rewrite Ht2, Hn2, Ht1, Hn1 in Ha. destruct b; cbn; naive_solver.
Qed.

End gate.

(** ** Mining *)

Section mining.
Context `{Paqus, !ChainParams, Kv, Lmdb, Clock, !Storage.Codecs, !PeerWorld, !ServiceEnv}.

Lemma with_node_run {A} (m : SE Node ServiceError A) s r s' : with_node m s = (Ok r, s') →
  m (node_others (locks (session s)) (shared_node (session s))) = (Ok r, shared_node (session s')) ∧
  locks (session s') = S (locks (session s)).
Proof.
  unfold with_node, zoom, locked_or. cbn [others poisoned own_wire].
  destruct (node_poisoned _); [done|]. destruct (m _) as [[x|] n']; [|done]. by intros [= <- <-].
Qed.

(** C15: the service never adds a block that it mined on a stale tip.  A block
    that is returned is the candidate prepared from the node, with a nonce
    whose proof of work meets the difficulty; when it was submitted its parent
    was still the tip, and the node applied and saved it.  When no block is
    returned, because the attempts were exhausted or the tip had moved, the
    node is as the other threads left it. *)
Theorem mined_block_extends_tip `{!BlockLaws} s ob s' :
  mine_once_unlocked s = (Ok ob, s') →
  ∃ t candidate consensus config n1,
    prepare_mining (miner_address (cfg s)) (mine_attempts (cfg s)) t
      (node_others (locks (session s)) (shared_node (session s))) = (Ok (candidate, consensus, config), n1) ∧
    let n2 := node_others (S (locks (session s))) n1 in
    match ob with
    | None => shared_node (session s') = n2
    | Some b => ∃ nonce n3, b = set_header_nonce nonce candidate ∧
        MinerProps.accepts consensus candidate (Miner.difficulty config) nonce ∧
        node_tip_hash n2 = Some (previous_hash b) ∧
        apply_block b n2 = (Ok tt, n3) ∧ flush_to_storage n3 = (Ok tt, shared_node (session s'))
    end.
Proof.
  unfold mine_once_unlocked. rewrite SE_bind_get, SE_bind_lift. destruct (timestamp_now _) as [t|]; [|done].
  cbn [ok_or]. rewrite SE_bind_unfold.
  destruct (with_node (prepare_mining _ _ t) s) as [[[[candidate consensus] config]|] s1] eqn:Ep; [|done].
  apply with_node_run in Ep as [Ep Hl]. rewrite SE_bind_lift.
  pose proof (MinerProps.mine_loop_spec (Z.to_nat (Miner.max_attempts config)) 0 candidate consensus config) as Hm.
  unfold Miner.mine_prepared_block. destruct (Miner.mine_loop _ _ _ _ _) as [[result|]|]; cbn [map_err]; [| |done].
  - destruct Hm as (k & _ & Hb & _ & Hacc & _). cbn zeta in *. intros Hrun.
    unfold record_attempts in Hrun. rewrite SE_bind_modify in Hrun. apply with_node_run in Hrun as [Hrun _].
    cbn [session set_mining_stats] in Hrun. rewrite Hl in Hrun.
    exists t, candidate, consensus, config, (shared_node (session s1)). split; [done|].
    unfold submit_mined in Hrun. rewrite SE_bind_get in Hrun. case_bool_decide as Htip.
    + by injection Hrun as <- <-.
    + rewrite SE_bind_unfold in Hrun. unfold method at 1, zoom at 1, id in Hrun.
      destruct (apply_block _ _) as [[[]|] n3] eqn:Ea; [|done]. cbn [map_err] in Hrun.
      rewrite SE_bind_unfold in Hrun. unfold method, zoom, id in Hrun.
      destruct (flush_to_storage n3) as [[[]|] n4] eqn:Ef; [|done]. injection Hrun as <- <-.
      eexists _, n3. rewrite Hb in *.
      destruct (set_header_nonce_fields (0 + Z.of_nat k) candidate) as (_ & _ & _ & -> & _).
      done.
  - intros Hrun. unfold record_attempts in Hrun. rewrite SE_bind_modify, SE_bind_unfold in Hrun.
    destruct (with_node _ _) as [[r|] s2] eqn:E; [|done]. injection Hrun as <- <-.
    apply with_node_run in E as [E _]. cbn [session set_mining_stats] in E. rewrite Hl in E.
    exists t, candidate, consensus, config, (shared_node (session s1)). split; [done|].
    by injection E as _ <-.
Qed.

End mining.

End ServiceProps.
