(* ===== verification/ServiceDemo.v ===== *)
(** * ServiceDemo: the service on the demo protocol *)

From S2P Require Import Prelude Collections Core Demo Mempool Miner Bytes Storage StorageDemo Cache Node.
From S2P Require Import NodeFacts NodeProps NodeDemo Network P2p P2pDemo Gossip GossipProps.
From S2P Require Import Wallet WalletProps Config ConfigProps Service ServiceProps.

Open Scope string_scope.
Open Scope list_scope.
Open Scope Z_scope.

Module ServiceDemo.
Import Demo Storage StorageDemo Config Node NodeFacts NodeProps NodeDemo Network NetworkProps P2p P2pProps P2pDemo.
Import Gossip GossipProps Service ServiceProps.

(** Peer 5 answers as the peer of [P2pDemo]; peer 6 cannot be reached. *)
#[local] Instance demo_links : PeerWorld := {|
  connect _ peer := if bool_decide (peer = 6) then Err "refused" else Ok 1%nat;
  transmit _ _ _ := Ok tt;
  key_order _ l := l;
  meanwhile _ t := t;
  lock_poisoned _ := false;
|}.

#[local] Instance demo_service_env : ServiceEnv := {|
  wire _ := live_peer;
  node_others _ n := n;
  node_poisoned _ := false;
  addr_of_string s := if bool_decide (s = EmptyString) then None else Some (Z.of_nat (String.length s));
  addr_to_string _ := "addr";
  instant _ := 1000;
  timestamp_now _ := Some 7000;
  elapsed_nanos _ := 500;
  peers_file_write _ := Ok tt;
  MAX_BLOCK_TXS := 100;
|}.

Definition demo_config (peers : list Z) : RunConfig :=
  mkRunConfig "db" [12] 14 peers (Some "peers.json") (Some "gateway:1") [] 60 "STOP" 2 1 2 1800 86400
    9 None true 60 10.

(** Two peers, both due; peer 6 has failed twice already. *)
Definition service0 : Service :=
  mkService (mkSession node0 0 0 [])
    (mkWorld (mkTables (<[5 := P2p.new 0 5]> {[6 := mkPeerState 6 2 0 None]}) ∅ ∅) 0 [])
    (demo_config [5; 6]) true (mkStats 0 0) [].

Example sync_result :
  peer_table (sync_peers service0) = {[5 := mkPeerState 5 0 1005 (Some 1)]} ∧
  peers_saved (sync_peers service0) = [[5]] ∧
  tip_hash (ledger (shared_node (session (sync_peers service0)))) = Some (block_hash block_a).
Proof.
  split_and!; [apply map_eq; intros a| |]; [|by vm_compute|by vm_compute].
  transitivity (({[5 := mkPeerState 5 0 1005 (Some 1)]} : gmap Z PeerState) !! a); [|done].
  by vm_compute.
Qed.

Lemma sync_round_keeps_invariants_witness : service_ok (orphans_wf []) 2 (sync_peers service0).
Proof.
  apply sync_round_keeps_invariants.
  - intros n n' Hs Hn. exact (node_step_wf n n' Hs Hn).
  - intros peer k n Hn. exact Hn.
  - intros k t Ht. exact Ht.
  - split; [exact (new_node_wf _ _ _ _ _ _ node0_created)| |reflexivity].
    split; [by vm_compute|]. cbn [world service0 tables peers].
    apply map_Forall_insert_2; [by vm_compute|]. apply map_Forall_singleton. by vm_compute.
Defined.

(** A gateway is configured and the table is empty: mining starts without any
    handshake. *)
Definition lonely : Service := new_service node0 (demo_config []).

Lemma mining_gate_witness :
  requires_peer_sync_before_mining lonely = true ∧ peer_table lonely = ∅ ∧
  (mining_wait_reason lonely).1 = Ok None.
Proof.
  split_and!; [reflexivity|reflexivity|].
  refine (proj2 (mining_gate _ _ _ _ lonely) _); [intros; reflexivity..|].
  split; [by_eval|]. split; [by_eval|]. split; [by_eval|].
  split; [intros _; left; reflexivity|]. intros a st h Ha.
  change (peer_table lonely) with (∅ : gmap Z PeerState) in Ha. rewrite lookup_empty in Ha. discriminate Ha.
Defined.

Definition mined : option (@Block (@paqus_types demo)) :=
  match mine_once_unlocked lonely with (Ok ob, _) => ob | _ => None end.

Lemma mined_block_extends_tip_witness :
  match mined with Some b => block_height b = 1 | None => False end ∧
  ∃ t candidate consensus config n1,
    prepare_mining (miner_address (cfg lonely)) (mine_attempts (cfg lonely)) t
      (node_others (locks (session lonely)) (shared_node (session lonely))) =
      (Ok (candidate, consensus, config), n1) ∧
    let n2 := node_others (S (locks (session lonely))) n1 in
    match mined with
    | None => shared_node (session (mine_once_unlocked lonely).2) = n2
    | Some b => ∃ nonce n3, b = set_header_nonce nonce candidate ∧
        MinerProps.accepts consensus candidate (Miner.difficulty config) nonce ∧
        node_tip_hash n2 = Some (previous_hash b) ∧
        apply_block b n2 = (Ok tt, n3) ∧
        flush_to_storage n3 = (Ok tt, shared_node (session (mine_once_unlocked lonely).2))
    end.
Proof.
  split; [vm_compute; reflexivity|].
  refine (mined_block_extends_tip lonely mined (mine_once_unlocked lonely).2 _).
  apply run_eq. vm_compute. reflexivity.
Defined.

End ServiceDemo.
