(* ===== verification/Explorer.v ===== *)
(** * Explorer: the chain as the RPC server shows it ([src/main.rs])

    [block_response], [tx_response], [find_transaction], [address_activity],
    [chain_stats] and [balance_json].  They read the node under its lock: blocks
    come from the database, height by height, and the clock is read once for
    every transaction and block that is shown.  The reads are threaded through
    the counters of the node ([clock_reads], [calls]); nothing else changes. *)

From S2P Require Import Prelude Collections Core Mempool Bytes Storage Node Wallet.

Open Scope string_scope.
Open Scope list_scope.
Open Scope Z_scope.

Module Explorer.
Import Storage Node.

(** ** Responses *)

Record TxResponse := mkTxResponse {
  tx_r_hash : string;
  tx_r_from : string;
  tx_r_to : string;
  tx_r_amount : Z;
  tx_r_fee : Z;
  tx_r_nonce : Z;
  tx_r_timestamp : Z;
  tx_r_age_secs : Z;
  tx_r_block_height : option Z;
  tx_r_block_hash : option string;
  tx_r_status : string;
}.

Record CoinbaseResponse := mkCoinbaseResponse {
  cb_r_to : string;
  cb_r_subsidy : Z;
  cb_r_fees : Z;
  cb_r_total : Z;
}.

Record GenesisAllocationResponse := mkAllocationResponse { ga_r_to : string; ga_r_amount : Z }.

Record BlockResponse := mkBlockResponse {
  b_r_height : Z;
  b_r_hash : string;
  b_r_short_hash : string;
  b_r_previous_hash : string;
  b_r_merkle_root : string;
  b_r_state_root : string;
  b_r_miner_address : string;
  b_r_difficulty : Z;
  b_r_timestamp : Z;
  b_r_age_secs : Z;
  b_r_confirmations : Z;
  b_r_block_time_secs : option Z;
  b_r_target_block_time_secs : Z;
  b_r_block_time_delta_secs : option Z;
  b_r_value_moved : Z;
  b_r_nonce : Z;
  b_r_tx_count : Z;
  b_r_size : Z;
  b_r_coinbase : option CoinbaseResponse;
  b_r_genesis_allocations : list GenesisAllocationResponse;
  b_r_transactions : list TxResponse;
}.

Record MinedBlockResponse := mkMinedBlockResponse {
  m_r_height : Z;
  m_r_hash : string;
  m_r_confirmations : Z;
  m_r_maturity_height : Z;
  m_r_matured : bool;
  m_r_subsidy : Z;
  m_r_fees : Z;
  m_r_total : Z;
  m_r_tx_count : Z;
  m_r_timestamp : Z;
}.

Record AddressActivity := mkActivity {
  mined_blocks : list MinedBlockResponse;
  transactions : list TxResponse;
}.

Record ChainStatsResponse := mkStatsResponse {
  cs_chain : string;
  cs_coin : string;
  cs_height : Z;
  cs_blocks : Z;
  cs_average_block_time_secs : option Z;
  cs_target_block_time_secs : Z;
  cs_target_supply : Z;
  cs_genesis_premine : Z;
  cs_max_mined_supply : Z;
  cs_mined_supply : Z;
  cs_current_supply : Z;
  cs_remaining_mined_supply : Z;
  cs_total_coinbase_rewards : Z;
  cs_total_fees_collected : Z;
  cs_total_transactions : Z;
  cs_pending_transactions : Z;
  cs_total_transfer_volume : Z;
  cs_total_transaction_fees : Z;
  cs_average_transfer_amount : Z;
}.

(** [format!("failed to load block: {error}")] *)
Inductive ExplorerError := LoadBlockFailed (error : StorageError).

(** What the handlers use of the crates [paqus] and [hex], and the clock of
    [unix_timestamp]. *)
Class ExplorerEnv `{Paqus} := {
  hex_encode : Hash → string;
  unix_now : nat → result string Timestamp;
  coinbase_total : CoinbaseTransaction → Amount;
  transaction_count : Block → Z;
  serialized_size : Block → Z;
  merkle_root : Block → Hash;
  genesis_allocations : Block → list (Address * Amount);
  account_credits : Account → Z;
  CHAIN_NAME : string;
  COIN_NAME : string;
  PROTOCOL_STAGE : string;
  PROTOCOL_VERSION : Z;
  CONFIRMATION_DEPTH : Z;
  FINALITY_DEPTH : Z;
  BLOCK_REWARD_MATURITY : Z;
  GENESIS_PREMINE : Z;
  MAX_UNIT_SUPPLY : Z;
  MAX_MINED_SUPPLY : Z;
}.

Section explorer.
Context `{Paqus, Kv, Lmdb, Clock, !Codecs, !Wallet.Crypto, !Wallet.WalletEnv, !ExplorerEnv}.
Abbreviation X := (SE Node ExplorerError).

(** [unix_timestamp().unwrap_or(fallback)] *)
Definition now_or (fallback : Timestamp) : X Timestamp := λ n,
  (Ok (match unix_now (clock_reads n) with Ok t => t | Err _ => fallback end),
   set_clock_reads (S (clock_reads n)) n).

Definition load_block (h : Height) : X (option Block) :=
  zoom storage set_storage LoadBlockFailed (load_block_by_height h).

(** [node.tip_height().unwrap_or(Height(0)).0] *)
Definition tip_or_zero (n : Node) : Height := default 0 (node_tip_height n).

Definition format_hash (hash : option Hash) : string :=
  match hash with Some h => hex_encode h | None => "none" end.

(** The first and the last eight characters of a longer text. *)
Definition short_hash (hash : option Hash) : string :=
  let text := format_hash hash in
  if bool_decide (String.length text ≤ 16)%nat then text
  else String.substring 0 8 text +:+ ".." +:+ String.substring (String.length text - 8) 8 text.

(** ** Transactions *)

(** The fields of a [TxResponse] at the instant [now]. *)
Definition tx_view (now : Timestamp) (tx : SignedTransaction) (height : option Height)
    (hash : option Hash) (status : string) : TxResponse :=
  mkTxResponse (hex_encode (tx_hash tx)) (Wallet.address_to_string (tx_from tx))
    (Wallet.address_to_string (tx_to tx)) (tx_amount tx) (tx_fee tx) (tx_nonce tx) (tx_timestamp tx)
    (sat_sub now (tx_timestamp tx)) height (hex_encode <$> hash) status.

Definition tx_response (tx : SignedTransaction) (height : option Height) (hash : option Hash)
    (status : string) : X TxResponse :=
  now ← now_or (tx_timestamp tx);
  mret (tx_view now tx height hash status).

Fixpoint tx_responses (txs : list SignedTransaction) (height : option Height) (hash : option Hash)
    (status : string) : X (list TxResponse) :=
  match txs with
  | [] => mret []
  | tx :: txs' =>
      r ← tx_response tx height hash status;
      rs ← tx_responses txs' height hash status;
      mret (r :: rs)
  end.

(** [transaction.hash() == *hash], the first one. *)
Definition with_hash (h : Hash) (txs : list SignedTransaction) : option SignedTransaction :=
  head (filter (λ tx, tx_hash tx = h) txs).

(** The scan of the heights. *)
Fixpoint find_confirmed (h : Hash) (heights : list Height) : X (option TxResponse) :=
  match heights with
  | [] => mret None
  | height :: heights' =>
      ob ← load_block height;
      match ob with
      | None => find_confirmed h heights'
      | Some block =>
          match with_hash h (block_transactions block) with
          | Some tx =>
              r ← tx_response tx (Some (block_height block)) (Some (block_hash block)) "confirmed";
              mret (Some r)
          | None => find_confirmed h heights'
          end
      end
  end.

Definition find_transaction (h : Hash) : X (option TxResponse) :=
  n ← get_state;
  match with_hash h (Mempool.pending (mempool n)) with
  | Some tx => r ← tx_response tx None None "pending"; mret (Some r)
  | None => find_confirmed h (seqZ 0 (tip_or_zero n + 1))
  end.

(** ** Blocks *)

Definition coinbase_response (c : CoinbaseTransaction) : CoinbaseResponse :=
  mkCoinbaseResponse (Wallet.address_to_string (cb_to c)) (cb_subsidy c) (cb_fees c) (coinbase_total c).

(** [.ok()], then [.flatten()]: an error counts as an absent block. *)
Definition previous_timestamp (height : Height) : X (option Timestamp) :=
  if bool_decide (1 ≤ height) then
    r ← attempt (load_block (height - 1));
    mret (match r with Ok (Some previous) => Some (block_timestamp previous) | _ => None end)
  else mret None.

(** [x as i64 - y as i64], on 64 bits. *)
Definition sub_i64 (x y : Z) : Z :=
  let d := wrap u64_max (x - y) in
  if bool_decide (d < 9223372036854775808) then d else d - (u64_max + 1).

(** The sum of [u32] amounts wraps around in a release build. *)
Definition value_moved (block : Block) : Z :=
  foldl (λ sum tx, wrap u32_max (sum + tx_amount tx)) 0 (block_transactions block).

Definition block_response (block : Block) (status : option string) : X BlockResponse :=
  n ← get_state;
  let tip_height := tip_or_zero n in
  let height := block_height block in
  now ← now_or (block_timestamp block);
  previous ← previous_timestamp height;
  txs ← tx_responses (block_transactions block) (Some height) (Some (block_hash block))
    (default "confirmed" status);
  let time_since t := sat_sub (block_timestamp block) t in
  mret (mkBlockResponse height (hex_encode (block_hash block)) (short_hash (Some (block_hash block)))
    (hex_encode (previous_hash block)) (hex_encode (merkle_root block))
    (hex_encode (block_state_root block)) (Wallet.address_to_string (miner_address block))
    (block_difficulty block) (block_timestamp block) (sat_sub now (block_timestamp block))
    (sat_add u64_max (sat_sub tip_height height) 1)
    (time_since <$> previous) BLOCK_TIME ((λ t, sub_i64 (time_since t) BLOCK_TIME) <$> previous)
    (value_moved block) (block_nonce block) (transaction_count block) (serialized_size block)
    (coinbase_response <$> block_coinbase block)
    ((λ a, mkAllocationResponse (Wallet.address_to_string a.1) a.2) <$> genesis_allocations block)
    txs).

(** ** The activity of an address *)

Definition involves (a : Address) (tx : SignedTransaction) : bool :=
  bool_decide (tx_from tx = a) || bool_decide (tx_to tx = a).

Definition involving (a : Address) (txs : list SignedTransaction) : list SignedTransaction :=
  filter (λ tx, involves a tx = true) txs.

(** The entry of a block the address has mined. *)
Definition mined_response (tip height : Height) (block : Block) (c : CoinbaseTransaction) :
    MinedBlockResponse :=
  let maturity_height := sat_add u64_max height BLOCK_REWARD_MATURITY in
  mkMinedBlockResponse height (hex_encode (block_hash block))
    (sat_add u64_max (sat_sub tip height) 1) maturity_height (bool_decide (maturity_height ≤ tip))
    (cb_subsidy c) (cb_fees c) (coinbase_total c) (transaction_count block) (block_timestamp block).

Definition mined_of (a : Address) (tip height : Height) (block : Block) : list MinedBlockResponse :=
  if bool_decide (miner_address block = a) then
    match block_coinbase block with Some c => [mined_response tip height block c] | None => [] end
  else [].

(** The loop over the heights; the two vectors grow at their ends. *)
Fixpoint activity_loop (a : Address) (tip : Height) (heights : list Height)
    (mined : list MinedBlockResponse) (txs : list TxResponse) :
    X (list MinedBlockResponse * list TxResponse) :=
  match heights with
  | [] => mret (mined, txs)
  | height :: heights' =>
      ob ← load_block height;
      match ob with
      | None => activity_loop a tip heights' mined txs
      | Some block =>
          rs ← tx_responses (involving a (block_transactions block)) (Some (block_height block))
            (Some (block_hash block)) "confirmed";
          activity_loop a tip heights' (mined ++ mined_of a tip height block) (txs ++ rs)
      end
  end.

Definition address_activity (a : Address) : X AddressActivity :=
  n ← get_state;
  let tip := tip_or_zero n in
  p ← activity_loop a tip (seqZ 0 (tip + 1)) [] [];
  pending ← tx_responses (involving a (Mempool.pending (mempool n))) None None "pending";
  mret (mkActivity (reverse p.1) (reverse (p.2 ++ pending))).

(** ** Statistics *)

Record Totals := mkTotals {
  t_blocks : Z;
  t_mined_supply : Z;
  t_coinbase_rewards : Z;
  t_fees_collected : Z;
  t_transactions : Z;
  t_transfer_volume : Z;
  t_transaction_fees : Z;
  t_previous_timestamp : option Timestamp;
  t_block_time_secs : Z;
  t_block_time_samples : Z;
}.

Definition no_totals : Totals := mkTotals 0 0 0 0 0 0 0 None 0 0.

Definition add64 : Z → Z → Z := sat_add u64_max.

Definition count_block_time (block : Block) (t : Totals) : Totals :=
  match t_previous_timestamp t with
  | None =>
      mkTotals (add64 (t_blocks t) 1) (t_mined_supply t) (t_coinbase_rewards t) (t_fees_collected t)
        (t_transactions t) (t_transfer_volume t) (t_transaction_fees t)
        (Some (block_timestamp block)) (t_block_time_secs t) (t_block_time_samples t)
  | Some previous =>
      mkTotals (add64 (t_blocks t) 1) (t_mined_supply t) (t_coinbase_rewards t) (t_fees_collected t)
        (t_transactions t) (t_transfer_volume t) (t_transaction_fees t)
        (Some (block_timestamp block))
        (add64 (t_block_time_secs t) (sat_sub (block_timestamp block) previous))
        (add64 (t_block_time_samples t) 1)
  end.

Definition count_coinbase (c : option CoinbaseTransaction) (t : Totals) : Totals :=
  match c with
  | None => t
  | Some c =>
      mkTotals (t_blocks t) (add64 (t_mined_supply t) (cb_subsidy c))
        (add64 (t_coinbase_rewards t) (coinbase_total c)) (add64 (t_fees_collected t) (cb_fees c))
        (t_transactions t) (t_transfer_volume t) (t_transaction_fees t)
        (t_previous_timestamp t) (t_block_time_secs t) (t_block_time_samples t)
  end.

Definition count_transaction (t : Totals) (tx : SignedTransaction) : Totals :=
  mkTotals (t_blocks t) (t_mined_supply t) (t_coinbase_rewards t) (t_fees_collected t)
    (add64 (t_transactions t) 1) (add64 (t_transfer_volume t) (tx_amount tx))
    (add64 (t_transaction_fees t) (tx_fee tx))
    (t_previous_timestamp t) (t_block_time_secs t) (t_block_time_samples t).

Definition count_block (t : Totals) (block : Block) : Totals :=
  foldl count_transaction (count_coinbase (block_coinbase block) (count_block_time block t))
    (block_transactions block).

Fixpoint stats_loop (heights : list Height) (t : Totals) : X Totals :=
  match heights with
  | [] => mret t
  | height :: heights' =>
      ob ← load_block height;
      match ob with
      | None => stats_loop heights' t
      | Some block => stats_loop heights' (count_block t block)
      end
  end.

Definition stats_response (tip : Height) (pending : Z) (t : Totals) : ChainStatsResponse :=
  mkStatsResponse CHAIN_NAME COIN_NAME tip (t_blocks t)
    (if bool_decide (t_block_time_samples t = 0) then None
     else Some (t_block_time_secs t / t_block_time_samples t))
    BLOCK_TIME MAX_UNIT_SUPPLY GENESIS_PREMINE MAX_MINED_SUPPLY (t_mined_supply t)
    (add64 GENESIS_PREMINE (t_mined_supply t)) (sat_sub MAX_MINED_SUPPLY (t_mined_supply t))
    (t_coinbase_rewards t) (t_fees_collected t) (t_transactions t) pending (t_transfer_volume t)
    (t_transaction_fees t)
    (if bool_decide (t_transactions t = 0) then 0 else t_transfer_volume t / t_transactions t).

Definition chain_stats : X ChainStatsResponse :=
  n ← get_state;
  let tip := tip_or_zero n in
  t ← stats_loop (seqZ 0 (tip + 1)) no_totals;
  mret (stats_response tip (Mempool.len (mempool n)) t).

(** ** Balances *)

(** The fields [balance_json] prints; an absent account prints zeros and a
    null nonce. *)
Record BalanceJson := mkBalanceJson {
  bj_address : string;
  bj_height : Z;
  bj_exists : bool;
  bj_confirmed : Z;
  bj_available : Z;
  bj_pending_incoming : Z;
  bj_pending_outgoing : Z;
  bj_nonce : option Z;
  bj_unspendable : Z;
}.

Definition balance_json (n : Node) (a : Address) : BalanceJson :=
  let address_str := Wallet.address_to_string a in
  let height := tip_or_zero n in
  match balance_summary CONFIRMATION_DEPTH n a with
  | None => mkBalanceJson address_str height false 0 0 0 0 None 0
  | Some summary =>
      let account := account_view n a in
      mkBalanceJson address_str height true (confirmed summary) (available summary)
        (incoming (summary_pending summary)) (outgoing (summary_pending summary))
        (view_nonce <$> account) (from_option view_unspendable 0 account)
  end.

End explorer.
End Explorer.
