(* ===== verification/ExplorerProps.v ===== *)
(** * ExplorerProps: what the explorer shows is what the chain holds

    For a node whose database is in step with its ledger ([NodeSync.synced],
    which every operation of the node keeps) the scans of the explorer read
    the blocks of the active chain, in order. *)

From S2P Require Import Prelude Collections Core Demo Mempool Miner Cache Bytes Storage StorageFacts.
From S2P Require Import StorageLedger StorageReads StorageSaved StorageDemo StorageProps.
From S2P Require Import Node NodeFacts NodeProps NodeSync NodeShared NodeDemo Wallet Explorer.

Open Scope string_scope.
Open Scope list_scope.
Open Scope Z_scope.

Module ExplorerProps.
Import Storage StorageFacts StorageLedger StorageReads StorageSaved StorageProps.
Import Node NodeFacts NodeProps NodeSync NodeShared Explorer.

(** ** Reading *)

Section reading.
Context `{Paqus, Kv, Lmdb, Clock, !Codecs, !CodecLaws, !KvLaws, !NoFaults}.
Context `{!Wallet.Crypto, !Wallet.WalletEnv, !ExplorerEnv}.
Implicit Types n : Node.
Abbreviation X := (SE Node ExplorerError).

Lemma alike_ledger n n' : alike n n' → ledger n' = ledger n.
Proof. intros Hn. exact (f_equal ledger (eq_sym Hn)). Qed.
Lemma alike_mempool n n' : alike n n' → mempool n' = mempool n.
Proof. intros Hn. exact (f_equal mempool (eq_sym Hn)). Qed.
Lemma alike_tables n n' : alike n n' → tables (storage n') = tables (storage n).
Proof. intros Hn. exact (f_equal (λ n, tables (storage n)) (eq_sym Hn)). Qed.

(** [m] returns a value that satisfies [Q], and changes the counters only. *)
Definition yields {A} (m : X A) n (Q : A → Prop) : Prop :=
  ∃ a n', m n = (Ok a, n') ∧ alike n n' ∧ Q a.

Lemma yields_ret {A} (a : A) n (Q : A → Prop) : Q a → yields (mret a) n Q.
Proof. intros Ha. exists a, n. by split_and!. Qed.

Lemma yields_bind {A B} (m : X A) (k : A → X B) n (Q : A → Prop) (R : B → Prop) :
  yields m n Q → (∀ a n', alike n n' → Q a → yields (k a) n' R) → yields (m ≫= k) n R.
Proof.
  intros (a & n' & Hm & Hn & Ha) Hk. destruct (Hk a n' Hn Ha) as (b & n2 & Hb & Hn2 & HR).
  exists b, n2. rewrite SE_bind_unfold, Hm. split_and!; [done|by etrans|done].
Qed.

Lemma yields_get n (Q : Node → Prop) : Q n → yields get_state n Q.
Proof. intros HQ. exists n, n. by split_and!. Qed.

Lemma yields_weaken {A} (m : X A) n (Q R : A → Prop) : yields m n Q → (∀ a, Q a → R a) → yields m n R.
Proof. intros (a & n' & Hm & Hn & Ha) HQR. exists a, n'. eauto. Qed.

Lemma yields_now fallback n : yields (now_or fallback) n (λ _, True).
Proof. eexists _, _. split_and!; [reflexivity|done|done]. Qed.

(** A transaction is shown at some instant. *)
Definition shown (height : option Height) (hash : option Hash) (status : string)
    (tx : SignedTransaction) (r : TxResponse) : Prop :=
  ∃ now, r = tx_view now tx height hash status.

Lemma yields_tx tx height hash status n :
  yields (tx_response tx height hash status) n (shown height hash status tx).
Proof.
  eapply yields_bind; [apply yields_now|]. intros now n' _ _. apply yields_ret. by exists now.
Qed.

Lemma yields_txs txs height hash status : ∀ n,
  yields (tx_responses txs height hash status) n (Forall2 (shown height hash status) txs).
Proof.
  induction txs as [|tx txs IH]; intros n; cbn [tx_responses]; [by apply yields_ret|].
  eapply yields_bind; [apply yields_tx|]. intros r n1 _ Hr.
  eapply yields_bind; [apply IH|]. intros rs n2 _ Hrs. apply yields_ret. by constructor.
Qed.

(** *** Blocks of a node in step with its database *)

Definition explorable n : Prop := synced n ∧ stored_wf (ledger n).

Lemma alike_explorable n n' : alike n n' → explorable n → explorable n'.
Proof.
  intros Hn [Hs Hw]. unfold explorable, synced. by rewrite (alike_ledger _ _ Hn), (alike_tables _ _ Hn).
Qed.

Lemma explorable_block n i b : explorable n → chain_blocks (chain (ledger n)) !! i = Some b →
  block_at (tables (storage n)) (Z.of_nat i) = Ok (Some b).
Proof.
  intros [[_ _ [tb0 Hag]] Hw] Hi. rewrite (block_at_agree _ _ Hag), <-(sw_heights _ Hw _ _ Hi).
  apply saved_block_at; [done|]. by eapply list_elem_of_lookup_2.
Qed.

Lemma yields_load h n ob : block_at (tables (storage n)) h = Ok ob → yields (load_block h) n (eq ob).
Proof.
  intros Hb. pose proof (denotes_block_at h (tables (storage n))) as Hr. cbn beta in Hr. rewrite Hb in Hr.
  destruct (Hr (calls (storage n))) as [k Hk]. unfold yields, load_block, zoom.
  replace (storage n) with (mkStore (tables (storage n)) (calls (storage n))) by (by destruct (storage n)).
  rewrite Hk. eexists _, _. split_and!; [reflexivity|done|done].
Qed.

Lemma explorable_tip n : explorable n →
  tip_or_zero n + 1 = Z.of_nat (length (chain_blocks (chain (ledger n)))).
Proof.
  intros [_ Hw]. destruct (last_block _ Hw) as (b & _ & _ & Hh & _ & Hl).
  unfold tip_or_zero, node_tip_height. rewrite Hh. cbn. lia.
Qed.

(** *** Loops over the heights *)

(** The blocks from height [k] on. *)
Definition blocks_at n (k : nat) (blocks : list Block) : Prop :=
  ∀ i b, blocks !! i = Some b → block_at (tables (storage n)) (Z.of_nat (k + i)) = Ok (Some b).

Lemma blocks_at_chain n : explorable n → blocks_at n 0 (chain_blocks (chain (ledger n))).
Proof. intros Hn i b Hi. by apply explorable_block. Qed.

Lemma blocks_at_alike n n' k blocks : alike n n' → blocks_at n k blocks → blocks_at n' k blocks.
Proof. intros Hn Hb i b Hi. rewrite (alike_tables _ _ Hn). by apply Hb. Qed.

Lemma blocks_at_cons n k b blocks : blocks_at n k (b :: blocks) →
  block_at (tables (storage n)) (Z.of_nat k) = Ok (Some b) ∧ blocks_at n (S k) blocks.
Proof.
  intros Hb. split; [|intros i x Hi].
  - specialize (Hb 0%nat b eq_refl). by rewrite Nat.add_0_r in Hb.
  - specialize (Hb (S i) x Hi). by replace (S k + i)%nat with (k + S i)%nat by lia.
Qed.

Lemma heights_cons (k : nat) (b : Block) (blocks : list Block) :
  seqZ (Z.of_nat k) (Z.of_nat (length (b :: blocks))) =
  Z.of_nat k :: seqZ (Z.of_nat (S k)) (Z.of_nat (length blocks)).
Proof.
  rewrite seqZ_cons by (cbn [length]; lia). f_equal. f_equal; cbn [length]; lia.
Qed.

(** *** Transactions by hash *)

(** The transactions of the blocks with a hash, each with its block. *)
Definition occurrences (h : Hash) (blocks : list Block) : list (Block * SignedTransaction) :=
  b ← blocks; (λ tx, (b, tx)) <$> filter (λ tx, tx_hash tx = h) (block_transactions b).

Definition shown_confirmed (p : Block * SignedTransaction) (r : TxResponse) : Prop :=
  shown (Some (block_height p.1)) (Some (block_hash p.1)) "confirmed" p.2 r.

Lemma occurrences_cons h b blocks :
  head (occurrences h (b :: blocks)) =
  match with_hash h (block_transactions b) with
  | Some tx => Some (b, tx)
  | None => head (occurrences h blocks)
  end.
Proof. unfold occurrences, with_hash. cbn [mbind list_bind]. by destruct (filter _ _). Qed.

Lemma yields_find h blocks : ∀ k n, blocks_at n k blocks →
  yields (find_confirmed h (seqZ (Z.of_nat k) (Z.of_nat (length blocks)))) n
    (option_Forall2 shown_confirmed (head (occurrences h blocks))).
Proof.
  induction blocks as [|b blocks IH]; intros k n Hb; [by apply yields_ret; constructor|].
  rewrite heights_cons. cbn [find_confirmed]. destruct (blocks_at_cons _ _ _ _ Hb) as [Hk Hr].
  eapply yields_bind; [by apply yields_load|]. intros ob n1 Hn1 <-. rewrite occurrences_cons.
  destruct (with_hash h (block_transactions b)) as [tx|].
  - eapply yields_bind; [apply yields_tx|]. intros r n2 _ Hs. apply yields_ret. by constructor.
  - apply IH. by eapply blocks_at_alike.
Qed.

Lemma yields_find_chain h n : explorable n →
  yields (find_confirmed h (seqZ 0 (tip_or_zero n + 1))) n
    (option_Forall2 shown_confirmed (head (occurrences h (chain_blocks (chain (ledger n)))))).
Proof.
  intros Hn. rewrite explorable_tip by done. apply (yields_find h _ 0). by apply blocks_at_chain.
Qed.

(** Every transaction of the chain has a hash of its own. *)
Definition distinct_hashes (l : Ledger) : Prop :=
  ∀ b b' i i' tx tx', b ∈ chain_blocks (chain l) → b' ∈ chain_blocks (chain l) →
    block_transactions b !! i = Some tx → block_transactions b' !! i' = Some tx' →
    hash_key (tx_hash tx) = hash_key (tx_hash tx') → b = b' ∧ i = i'.

Lemma elem_of_occurrences h blocks b tx :
  (b, tx) ∈ occurrences h blocks ↔ b ∈ blocks ∧ tx ∈ block_transactions b ∧ tx_hash tx = h.
Proof.
  unfold occurrences. rewrite list_elem_of_bind. split.
  - intros (b' & (tx' & [= <- <-] & [Hh Hin]%list_elem_of_filter)%list_elem_of_fmap & Hb). done.
  - intros (Hb & Hin & Hh). exists b. split; [|done]. apply list_elem_of_fmap_2. by apply list_elem_of_filter.
Qed.

Lemma index_transaction_at n h : explorable n → distinct_hashes (ledger n) → fits HASH_SIZE h →
  (∀ b tx, b ∈ chain_blocks (chain (ledger n)) → tx ∈ block_transactions b → fits HASH_SIZE (tx_hash tx)) →
  match head (occurrences h (chain_blocks (chain (ledger n)))) with
  | Some (b, tx) => ∃ i, transaction_at (tables (storage n)) h =
      Ok (Some (mkLocation (block_height b) (block_hash b) i, tx))
  | None => transaction_at (tables (storage n)) h = Ok None
  end.
Proof.
  intros [[_ _ [tb0 Hag]] Hw] Hd Hf Hfits.
  assert (transaction_at (tables (storage n)) h = transaction_at (ledger_tables (ledger n) tb0) h) as ->.
  { unfold transaction_at. rewrite (Hag TxIndex) by set_solver. destruct (kv_get _ _) as [v|]; [|done].
    destruct (map_err _ _) as [loc|]; [|done]. cbn. by rewrite (block_at_agree _ _ Hag). }
  destruct (head _) as [[b tx]|] eqn:E.
  - apply head_Some_elem_of, elem_of_occurrences in E as (Hb & [i Hi]%list_elem_of_lookup & <-).
    exists (Z.of_nat i). apply (saved_transaction_at _ Hw); [|done..].
    intros b' i' tx' Hb' Htx' Hk. by apply (Hd b' b i' i tx' tx).
  - apply head_None in E. apply saved_transaction_absent; [done|].
    intros b i tx Hb Hi%list_elem_of_lookup_2 Hk.
    apply be_bytes_inj in Hk; [|by apply (Hfits b)|done].
    assert ((b, tx) ∈ occurrences h (chain_blocks (chain (ledger n)))) as Hin by (by apply elem_of_occurrences).
    rewrite E in Hin. by apply not_elem_of_nil in Hin.
Qed.

(** *** Activity *)

(** What a page shows of a transaction: its own data, its age at some instant,
    and where it stands. *)
Record tx_shown (place : option (Height * Hash)) (status : string) (tx : SignedTransaction)
    (r : TxResponse) : Prop := {
  ts_hash : tx_r_hash r = hex_encode (tx_hash tx);
  ts_from : tx_r_from r = Wallet.address_to_string (tx_from tx);
  ts_to : tx_r_to r = Wallet.address_to_string (tx_to tx);
  ts_amount : tx_r_amount r = tx_amount tx;
  ts_fee : tx_r_fee r = tx_fee tx;
  ts_nonce : tx_r_nonce r = tx_nonce tx;
  ts_timestamp : tx_r_timestamp r = tx_timestamp tx;
  ts_age : ∃ now, tx_r_age_secs r = Z.max 0 (now - tx_timestamp tx);
  ts_height : tx_r_block_height r = fst <$> place;
  ts_block : tx_r_block_hash r = hex_encode ∘ snd <$> place;
  ts_status : tx_r_status r = status;
}.

Definition pending_shown : SignedTransaction → TxResponse → Prop := tx_shown None "pending".
Definition confirmed_shown (p : Block * SignedTransaction) : TxResponse → Prop :=
  tx_shown (Some (block_height p.1, block_hash p.1)) "confirmed" p.2.

(** An address takes part in the payments it sends and in those it receives. *)
Definition involved (a : Address) (tx : SignedTransaction) : Prop := tx_from tx = a ∨ tx_to tx = a.
#[export] Instance involved_dec a tx : Decision (involved a tx).
Proof. unfold involved. apply _. Defined.

(** The payments of an address in the blocks, each with its block. *)
Definition payments (a : Address) (blocks : list Block) : list (Block * SignedTransaction) :=
  b ← blocks; (λ tx, (b, tx)) <$> filter (involved a) (block_transactions b).

(** The blocks an address was paid for. *)
Definition rewarded (a : Address) (b : Block) : Prop :=
  miner_address b = a ∧ is_Some (block_coinbase b).
#[export] Instance rewarded_dec a b : Decision (rewarded a b).
Proof. unfold rewarded. apply _. Defined.

(** What the page shows of such a block when the tip has the height [tip]. *)
Record mined_shown (tip : Height) (b : Block) (r : MinedBlockResponse) : Prop := {
  ms_height : m_r_height r = block_height b;
  ms_hash : m_r_hash r = hex_encode (block_hash b);
  ms_confirmations : m_r_confirmations r = Z.min (tip - block_height b + 1) u64_max;
  ms_maturity : m_r_maturity_height r = Z.min (block_height b + BLOCK_REWARD_MATURITY) u64_max;
  ms_matured : m_r_matured r = true ↔ m_r_maturity_height r ≤ tip;
  ms_reward : ∃ c, block_coinbase b = Some c ∧ m_r_subsidy r = cb_subsidy c ∧
    m_r_fees r = cb_fees c ∧ m_r_total r = coinbase_total c;
  ms_tx_count : m_r_tx_count r = transaction_count b;
  ms_timestamp : m_r_timestamp r = block_timestamp b;
}.

Lemma shown_fields place status tx r :
  shown (fst <$> place) (snd <$> place) status tx r → tx_shown place status tx r.
Proof. intros [now ->]. split; try done; [by exists now|by destruct place]. Qed.

Lemma involving_involved a txs : involving a txs = filter (involved a) txs.
Proof.
  apply list_filter_iff. intros tx. unfold involves, involved.
  by rewrite orb_true_iff, !bool_decide_eq_true.
Qed.

Lemma shown_block b txs rs :
  Forall2 (shown (Some (block_height b)) (Some (block_hash b)) "confirmed") txs rs →
  Forall2 confirmed_shown ((λ tx, (b, tx)) <$> txs) rs.
Proof.
  intros Hrs. apply Forall2_fmap_l. eapply Forall2_impl; [exact Hrs|]. intros tx r Hr.
  by apply (shown_fields (Some (block_height b, block_hash b))).
Qed.

Lemma mined_entry a tip b : 0 ≤ block_height b ≤ tip →
  Forall2 (mined_shown tip) (filter (rewarded a) [b]) (mined_of a tip (block_height b) b).
Proof.
  intros Hh. unfold mined_of. rewrite filter_cons, filter_nil.
  destruct (decide (rewarded a b)) as [[-> [c Hc]]|Hr].
  - rewrite bool_decide_eq_true_2, Hc by done. constructor; [|constructor].
    split; cbn; try done; [unfold sat_add, sat_sub; lia|apply bool_decide_eq_true|by exists c].
  - case_bool_decide as Ha; [|constructor]. destruct (block_coinbase b) as [c|] eqn:E; [|constructor].
    destruct Hr. by split.
Qed.

(** Blocks whose heights are their positions from [k] on, up to [tip]. *)
Definition placed (tip : Height) (k : nat) (blocks : list Block) : Prop :=
  ∀ i b, blocks !! i = Some b → block_height b = Z.of_nat (k + i) ∧ block_height b ≤ tip.

Lemma placed_cons tip k b blocks : placed tip k (b :: blocks) →
  block_height b = Z.of_nat k ∧ block_height b ≤ tip ∧ placed tip (S k) blocks.
Proof.
  intros Hp. destruct (Hp 0%nat b eq_refl) as [Hk Ht]. rewrite Nat.add_0_r in Hk. split_and!; [done..|].
  intros i x Hi. replace (S k + i)%nat with (k + S i)%nat by lia. by apply (Hp (S i)).
Qed.

Lemma explorable_placed n : explorable n → placed (tip_or_zero n) 0 (chain_blocks (chain (ledger n))).
Proof.
  intros Hn i b Hi. rewrite (sw_heights _ (proj2 Hn) _ _ Hi). apply lookup_lt_Some in Hi.
  pose proof (explorable_tip n Hn). split; [done|lia].
Qed.

Lemma yields_activity a tip blocks : ∀ k n mined txs, blocks_at n k blocks → placed tip k blocks →
  yields (activity_loop a tip (seqZ (Z.of_nat k) (Z.of_nat (length blocks))) mined txs) n
    (λ p, ∃ ms rs, p = (mined ++ ms, txs ++ rs) ∧
      Forall2 (mined_shown tip) (filter (rewarded a) blocks) ms ∧
      Forall2 confirmed_shown (payments a blocks) rs).
Proof.
  induction blocks as [|b blocks IH]; intros k n mined txs Hb Hp.
  { apply yields_ret. exists [], []. rewrite !app_nil_r. split_and!; [done|constructor..]. }
  rewrite heights_cons. cbn [activity_loop]. destruct (blocks_at_cons _ _ _ _ Hb) as [Hk Hr].
  destruct (placed_cons _ _ _ _ Hp) as (Eh & Ht & Hp').
  eapply yields_bind; [by apply yields_load|]. intros ob n1 Hn1 <-. rewrite involving_involved.
  eapply yields_bind; [apply yields_txs|]. intros rs n2 Hn2 Hrs%shown_block.
  eapply yields_weaken; [apply IH; [by eapply blocks_at_alike, blocks_at_alike|done]|].
  intros p (ms & rs' & -> & Hms & Hrs'). eexists _, (rs ++ rs'). rewrite <-!app_assoc.
  split_and!; [done| |by apply Forall2_app].
  change (b :: blocks) with ([b] ++ blocks). rewrite filter_app. apply Forall2_app; [|done].
  rewrite <-Eh. apply mined_entry. lia.
Qed.

(** *** Statistics *)

Lemma yields_stats blocks : ∀ k n t, blocks_at n k blocks →
  yields (stats_loop (seqZ (Z.of_nat k) (Z.of_nat (length blocks))) t) n (eq (foldl count_block t blocks)).
Proof.
  induction blocks as [|b blocks IH]; intros k n t Hb; [by apply yields_ret|].
  rewrite heights_cons. cbn [stats_loop foldl]. destruct (blocks_at_cons _ _ _ _ Hb) as [Hk Hr].
  eapply yields_bind; [by apply yields_load|]. intros ob n1 Hn1 <-.
  apply IH. by eapply blocks_at_alike.
Qed.

(** A total that every block changes by adding the numbers [g] gives. *)
Lemma fold_total (f : Totals → Z) (g : Block → list Z) :
  (∀ t b, f (count_block t b) = foldl add64 (f t) (g b)) →
  ∀ blocks t, f (foldl count_block t blocks) = foldl add64 (f t) (blocks ≫= g).
Proof.
  intros Hf. induction blocks as [|b blocks IH]; intros t; [done|].
  cbn [foldl mbind list_bind]. by rewrite IH, Hf, foldl_app.
Qed.

Lemma fold_txs (f : Totals → Z) (h : SignedTransaction → Z) :
  (∀ t tx, f (count_transaction t tx) = add64 (f t) (h tx)) →
  ∀ txs t, f (foldl count_transaction t txs) = foldl add64 (f t) (h <$> txs).
Proof.
  intros Hf. induction txs as [|tx txs IH]; intros t; [done|]. cbn [foldl fmap list_fmap]. by rewrite IH, Hf.
Qed.

Lemma fold_txs_same {A} (f : Totals → A) :
  (∀ t tx, f (count_transaction t tx) = f t) → ∀ txs t, f (foldl count_transaction t txs) = f t.
Proof. intros Hf. induction txs as [|tx txs IH]; intros t; [done|]. cbn [foldl]. by rewrite IH, Hf. Qed.

Definition coinbases (g : CoinbaseTransaction → Z) (b : Block) : list Z :=
  option_list (g <$> block_coinbase b).

Lemma total_blocks t b : t_blocks (count_block t b) = foldl add64 (t_blocks t) [1].
Proof.
  unfold count_block. rewrite (fold_txs_same t_blocks) by done. unfold count_block_time.
  by destruct (block_coinbase b), (t_previous_timestamp t).
Qed.
Lemma total_supply t b :
  t_mined_supply (count_block t b) = foldl add64 (t_mined_supply t) (coinbases cb_subsidy b).
Proof.
  unfold count_block, coinbases. rewrite (fold_txs_same t_mined_supply) by done. unfold count_block_time.
  by destruct (block_coinbase b), (t_previous_timestamp t).
Qed.
Lemma total_fees t b :
  t_fees_collected (count_block t b) = foldl add64 (t_fees_collected t) (coinbases cb_fees b).
Proof.
  unfold count_block, coinbases. rewrite (fold_txs_same t_fees_collected) by done. unfold count_block_time.
  by destruct (block_coinbase b), (t_previous_timestamp t).
Qed.

(** What precedes the transactions of a block leaves their totals alone. *)
Lemma before_txs (f : Totals → Z) h t b :
  (∀ t tx, f (count_transaction t tx) = add64 (f t) (h tx)) →
  f (count_coinbase (block_coinbase b) (count_block_time b t)) = f t →
  f (count_block t b) = foldl add64 (f t) (h <$> block_transactions b).
Proof. intros Hf Hb. unfold count_block. by rewrite (fold_txs f h), Hb. Qed.

Lemma total_transactions t b :
  t_transactions (count_block t b) = foldl add64 (t_transactions t) ((λ _, 1) <$> block_transactions b).
Proof.
  apply before_txs; [done|]. unfold count_block_time. by destruct (block_coinbase b), (t_previous_timestamp t).
Qed.
Lemma total_volume t b :
  t_transfer_volume (count_block t b) = foldl add64 (t_transfer_volume t) (tx_amount <$> block_transactions b).
Proof.
  apply before_txs; [done|]. unfold count_block_time. by destruct (block_coinbase b), (t_previous_timestamp t).
Qed.
Lemma total_tx_fees t b :
  t_transaction_fees (count_block t b) = foldl add64 (t_transaction_fees t) (tx_fee <$> block_transactions b).
Proof.
  apply before_txs; [done|]. unfold count_block_time. by destruct (block_coinbase b), (t_previous_timestamp t).
Qed.

Lemma add64_sum l : Forall (λ x, 0 ≤ x) l → foldl add64 0 l = Z.min (sumZ l) u64_max.
Proof. intros Hl. unfold add64. rewrite foldl_sat_add; [done..|]. done. Qed.

Lemma count_ones (blocks : list Block) : foldl add64 0 (blocks ≫= λ _, [1]) = Z.min (Z.of_nat (length blocks)) u64_max.
Proof.
  rewrite add64_sum.
  - f_equal. induction blocks as [|b blocks IH]; [done|]. cbn [mbind list_bind length]. rewrite sumZ_app, IH.
    cbn [sumZ foldr]. lia.
  - apply Forall_forall. intros x (b & ->%list_elem_of_singleton & _)%list_elem_of_bind. lia.
Qed.

Lemma bounded_timestamps (blocks : list Block) b : StronglySorted Z.le (block_timestamp <$> blocks) →
  last blocks = Some b → block_timestamp b ≤ u64_max → Forall (λ b, block_timestamp b ≤ u64_max) blocks.
Proof.
  intros Hs Hb Hmax. apply (sorted_last_max _ (block_timestamp b)) in Hs; [|by rewrite fmap_last, Hb].
  rewrite Forall_forall in Hs. apply Forall_forall. intros x Hx. etrans; [|exact Hmax]. apply Hs. by apply list_elem_of_fmap_2.
Qed.

(** The intervals between the blocks add up to the time since the first one. *)
Lemma time_totals first blocks : ∀ t p, t_previous_timestamp t = Some p → 0 ≤ first ≤ p →
  t_block_time_secs t = p - first → 0 ≤ t_block_time_samples t →
  t_block_time_samples t + Z.of_nat (length blocks) ≤ u64_max →
  StronglySorted Z.le (p :: (block_timestamp <$> blocks)) →
  Forall (λ b, block_timestamp b ≤ u64_max) blocks →
  let t' := foldl count_block t blocks in
  t_block_time_samples t' = t_block_time_samples t + Z.of_nat (length blocks) ∧
  t_block_time_secs t' = default p (block_timestamp <$> last blocks) - first.
Proof.
  induction blocks as [|b blocks IH]; intros t p Hp Hf Hs Hn Hlen Hsort Hmax; cbn zeta.
  { cbn. split; [lia|done]. }
  cbn [foldl]. apply StronglySorted_inv in Hsort as [Hsort [Hpb _]%Forall_cons].
  apply Forall_cons in Hmax as [Hb Hmax]. cbn [fmap list_fmap length] in *.
  set (t1 := count_block t b).
  assert (t_previous_timestamp t1 = Some (block_timestamp b) ∧ t_block_time_samples t1 = t_block_time_samples t + 1 ∧
    t_block_time_secs t1 = block_timestamp b - first) as (E1 & E2 & E3).
  { unfold t1, count_block. rewrite (fold_txs_same t_previous_timestamp), (fold_txs_same t_block_time_samples),
      (fold_txs_same t_block_time_secs) by done. unfold count_block_time. rewrite Hp.
    unfold add64, sat_add, sat_sub.
    destruct (block_coinbase b); cbn; (split_and!; [done|lia|lia]). }
  destruct (IH t1 (block_timestamp b)) as [H1' H2']; try done; try lia.
  rewrite H1', H2', E2. split; [lia|]. rewrite last_cons. by destruct (last blocks).
Qed.

Lemma average_time b blocks :
  0 ≤ block_timestamp b → StronglySorted Z.le (block_timestamp <$> b :: blocks) →
  Forall (λ b, block_timestamp b ≤ u64_max) blocks → Z.of_nat (length blocks) ≤ u64_max →
  let t := foldl count_block no_totals (b :: blocks) in
  t_block_time_samples t = Z.of_nat (length blocks) ∧
  t_block_time_secs t = default (block_timestamp b) (block_timestamp <$> last blocks) - block_timestamp b.
Proof.
  intros Hb Hs Hmax Hl. cbn [foldl]. set (t1 := count_block no_totals b).
  assert (t_previous_timestamp t1 = Some (block_timestamp b) ∧ t_block_time_samples t1 = 0 ∧
    t_block_time_secs t1 = 0) as (E1 & E2 & E3).
  { unfold t1, count_block. rewrite (fold_txs_same t_previous_timestamp), (fold_txs_same t_block_time_samples),
      (fold_txs_same t_block_time_secs) by done. by destruct (block_coinbase b). }
  destruct (time_totals (block_timestamp b) blocks t1 (block_timestamp b)) as [H1' H2']; try done; try lia.
Qed.

End reading.

(** ** Claims *)

Section claims.
Context `{Paqus, Kv, Lmdb, Clock, !Codecs, !CodecLaws, !KvLaws, !NoFaults}.
Context `{!Wallet.Crypto, !Wallet.WalletEnv, !ExplorerEnv}.
Implicit Types n : Node.

(** C19: looking a transaction up by scanning the blocks of the chain, as the
    explorer does, and by the index of the database give the same answer: for a
    hash that is not pending, both find nothing, or both find the same
    transaction in the same block. *)
Theorem scan_agrees_with_index n h :
  explorable n → distinct_hashes (ledger n) → fits HASH_SIZE h →
  (∀ b tx, b ∈ chain_blocks (chain (ledger n)) → tx ∈ block_transactions b → fits HASH_SIZE (tx_hash tx)) →
  with_hash h (Mempool.pending (mempool n)) = None →
  ∃ o, runs (load_transaction h) (tables (storage n)) (Ok o) (tables (storage n)) ∧
    yields (find_transaction h) n (λ r,
      match o with
      | None => r = None
      | Some (location, tx) => ∃ now, r = Some (tx_view now tx (Some (tl_block_height location))
          (Some (tl_block_hash location)) "confirmed")
      end).
Proof.
  intros Hn Hd Hf Hfits Hp. pose proof (index_transaction_at n h Hn Hd Hf Hfits) as Hi.
  exists (match transaction_at (tables (storage n)) h with Ok o => o | Err _ => None end). split.
  { apply (denotes_Ok _ _ _ _ (denotes_transaction_at h)).
    destruct (head _) as [[b tx]|]; [destruct Hi as [i ->]; done|by rewrite Hi]. }
  eapply yields_bind; [by apply (yields_get n (eq n))|]. intros n0 n' Hn' <-. rewrite Hp.
  assert (tip_or_zero n = tip_or_zero n') as ->.
  { unfold tip_or_zero, node_tip_height. by rewrite (alike_ledger _ _ Hn'). }
  eapply yields_weaken; [by apply yields_find_chain, (alike_explorable n)|].
  rewrite (alike_ledger _ _ Hn'). intros r Hr. destruct (head _) as [[b tx]|].
  - destruct Hi as [i ->]. inversion Hr as [x y [now Hs]|]; subst. by exists now.
  - rewrite Hi. by inversion Hr.
Qed.

(** C31: the page of an address shows its whole activity, the newest first:
    every block of the chain that names it as the miner and has a coinbase, with
    its height, hash, confirmations, maturity and reward; then the pending
    payments it sends or receives; then every payment of the chain that it sent
    or received, with the block that holds it.  Each is shown exactly once, with
    the data of the chain, and nothing else is shown. *)
Theorem address_activity_exact n a :
  explorable n →
  yields (address_activity a) n (λ r,
    let blocks := chain_blocks (chain (ledger n)) in
    Forall2 (mined_shown (tip_or_zero n)) (reverse (filter (rewarded a) blocks)) (mined_blocks r) ∧
    ∃ pending confirmed, transactions r = pending ++ confirmed ∧
      Forall2 pending_shown (reverse (filter (involved a) (Mempool.pending (mempool n)))) pending ∧
      Forall2 confirmed_shown (reverse (payments a blocks)) confirmed).
Proof.
  intros Hn. eapply yields_bind; [by apply (yields_get n (eq n))|]. intros n0 n1 Hn1 <-. cbv zeta.
  rewrite explorable_tip by done.
  eapply yields_bind.
  { apply (yields_activity a (tip_or_zero n) _ 0); [|by apply explorable_placed].
    eapply blocks_at_alike; [exact Hn1|]. by apply blocks_at_chain. }
  intros p n2 Hn2 (ms & rs & -> & Hms & Hrs). rewrite involving_involved.
  eapply yields_bind; [apply yields_txs|].
  intros pending n3 _ Hpe. apply yields_ret. cbn [mined_blocks transactions fst snd app].
  split; [by apply Forall2_reverse|]. exists (reverse pending), (reverse rs). rewrite reverse_app.
  split_and!; [done| |by apply Forall2_reverse]. apply Forall2_reverse.
  eapply Forall2_impl; [exact Hpe|]. intros tx r. apply (shown_fields None).
Qed.

(** Amounts are unsigned. *)
Definition unsigned_amounts (b : Block) : Prop :=
  (∀ tx, tx ∈ block_transactions b → 0 ≤ tx_amount tx ∧ 0 ≤ tx_fee tx) ∧
  (∀ c, block_coinbase b = Some c → 0 ≤ cb_subsidy c ∧ 0 ≤ cb_fees c).

Lemma unsigned_txs (g : SignedTransaction → Z) blocks :
  (∀ b tx, b ∈ blocks → tx ∈ block_transactions b → 0 ≤ g tx) →
  Forall (λ x, 0 ≤ x) (b ← blocks; g <$> block_transactions b).
Proof.
  intros Hg. apply Forall_forall. intros x (b & (tx & -> & Htx)%list_elem_of_fmap & Hb)%list_elem_of_bind.
  by eapply Hg.
Qed.

Lemma unsigned_coinbases (g : CoinbaseTransaction → Z) blocks :
  (∀ b c, b ∈ blocks → block_coinbase b = Some c → 0 ≤ g c) →
  Forall (λ x, 0 ≤ x) (blocks ≫= coinbases g).
Proof.
  intros Hg. apply Forall_forall. intros x (b & Hx & Hb)%list_elem_of_bind. unfold coinbases in Hx.
  destruct (block_coinbase b) as [c|] eqn:E; cbn in Hx; [|by apply not_elem_of_nil in Hx].
  apply list_elem_of_singleton in Hx as ->. by eapply Hg.
Qed.

(** C30: the statistics of the chain are the sums over its blocks, each cut
    off at the largest 64-bit number: the supply is the premine and the
    subsidies of the coinbases, the fees collected are those of the coinbases,
    and every transaction counts once with its amount and its fee.  With
    increasing timestamps the average block time is the time between the first
    and the last block divided by the number of intervals. *)
Theorem chain_stats_exact n :
  explorable n → Forall unsigned_amounts (chain_blocks (chain (ledger n))) →
  let blocks := chain_blocks (chain (ledger n)) in
  let supply := sumZ (blocks ≫= coinbases cb_subsidy) in
  yields chain_stats n (λ r,
    cs_height r = tip_or_zero n ∧ cs_blocks r = Z.of_nat (length blocks) ∧
    cs_mined_supply r = Z.min supply u64_max ∧
    (0 ≤ GENESIS_PREMINE → cs_current_supply r = Z.min (GENESIS_PREMINE + supply) u64_max) ∧
    cs_total_fees_collected r = Z.min (sumZ (blocks ≫= coinbases cb_fees)) u64_max ∧
    cs_total_transactions r = Z.min (sumZ (b ← blocks; (λ _, 1) <$> block_transactions b)) u64_max ∧
    cs_total_transfer_volume r = Z.min (sumZ (b ← blocks; tx_amount <$> block_transactions b)) u64_max ∧
    cs_total_transaction_fees r = Z.min (sumZ (b ← blocks; tx_fee <$> block_transactions b)) u64_max ∧
    cs_pending_transactions r = Mempool.len (mempool n) ∧
    (∀ first rest last_block, blocks = first :: rest → last rest = Some last_block →
      0 ≤ block_timestamp first → StronglySorted Z.le (block_timestamp <$> blocks) →
      block_timestamp last_block ≤ u64_max →
      cs_average_block_time_secs r =
        Some ((block_timestamp last_block - block_timestamp first) / (Z.of_nat (length blocks) - 1)))).
Proof.
  intros Hn Hu blocks supply. rewrite Forall_forall in Hu.
  assert (Z.of_nat (length blocks) ≤ u64_max) as Hlen by apply (sw_length _ (proj2 Hn)).
  eapply yields_bind; [by apply (yields_get n (eq n))|]. intros n0 n1 Hn1 <-. cbv zeta.
  rewrite explorable_tip by done. eapply yields_bind.
  { apply (yields_stats blocks 0 n1 no_totals). eapply blocks_at_alike; [exact Hn1|]. by apply blocks_at_chain. }
  intros t n2 _ <-. apply yields_ret. set (t := foldl count_block no_totals blocks).
  assert (t_mined_supply t = Z.min supply u64_max) as Hsup.
  { unfold t. rewrite (fold_total _ _ total_supply). apply add64_sum, unsigned_coinbases.
    intros b c Hb Hc. by apply (Hu b Hb). }
  assert (0 ≤ supply) as Hpos.
  { apply sumZ_nonneg, unsigned_coinbases. intros b c Hb Hc. by apply (Hu b Hb). }
  cbn [stats_response cs_height cs_blocks cs_mined_supply cs_current_supply cs_total_fees_collected
    cs_total_transactions cs_total_transfer_volume cs_total_transaction_fees cs_pending_transactions
    cs_average_block_time_secs].
  split_and!; [done| |done| | | | | |done|].
  - unfold t. rewrite (fold_total _ _ total_blocks). change (t_blocks no_totals) with 0.
    rewrite count_ones. lia.
  - intros Hg. rewrite Hsup. unfold add64, sat_add. lia.
  - unfold t. rewrite (fold_total _ _ total_fees). apply add64_sum, unsigned_coinbases.
    intros b c Hb Hc. by apply (Hu b Hb).
  - unfold t. rewrite (fold_total _ _ total_transactions). apply add64_sum, unsigned_txs. lia.
  - unfold t. rewrite (fold_total _ _ total_volume). apply add64_sum, unsigned_txs.
    intros b tx Hb Htx. by apply (Hu b Hb).
  - unfold t. rewrite (fold_total _ _ total_tx_fees). apply add64_sum, unsigned_txs.
    intros b tx Hb Htx. by apply (Hu b Hb).
  - intros first rest lb Hbl Hlast Hf Hs Hmax. unfold t. rewrite Hbl in *.
    destruct (average_time first rest) as [Hsam Hsec]; [done|done| |cbn [length] in *; lia|].
    { eapply (Forall_cons_1 _ first), (bounded_timestamps _ lb); [done| |done]. by rewrite last_cons, Hlast. }
    rewrite Hsam, Hsec, Hlast. cbn [default fmap option_fmap length].
    assert (length rest ≠ 0%nat) by (by destruct rest).
    rewrite bool_decide_eq_false_2 by lia. do 2 f_equal. lia.
Qed.

End claims.
End ExplorerProps.
