(* ===== verification/Rpc.v ===== *)
(** * Rpc: the handlers of the RPC server ([src/main.rs])

    One function per route of [start_rpc_server].  A handler takes the node's
    lock for its whole work, so that it sees one state of the node; it shares
    the node and the tables of peers with the service.  A response is its
    status code and the value that is written as JSON. *)

From S2P Require Import Prelude Collections Core Mempool Bytes Storage Node Network.
From S2P Require Import P2p Gossip Wallet Config Service Explorer.

Open Scope string_scope.
Open Scope list_scope.
Open Scope Z_scope.

Module Rpc.
Import Node Network P2p Gossip Explorer.

Definition OK : Z := 200.
Definition BAD_REQUEST : Z := 400.
Definition NOT_FOUND : Z := 404.
Definition INTERNAL_SERVER_ERROR : Z := 500.

(** The error texts. *)
Inductive RpcFault :=
  | StateLockFailed
  | BlockNotFound
  | TransactionNotFound
  | Rejected (message : string)
  | LoadFailed (error : ExplorerError)
  | SubmitFailed (error : NodeError)
  | FlushFailed (error : NodeError).

Record StatusResponse := mkStatus {
  st_chain : string;
  st_stage : string;
  st_protocol_version : Z;
  st_height : Z;
  st_tip_hash : string;
  st_peers : Z;
  st_known_peers : Z;
  st_outbound_peers : Z;
  st_inbound_peers : Z;
  st_mining : bool;
  st_hashrate_hps : Z;
  st_last_mine_attempts : Z;
}.

Record PeerResponse := mkPeerResponse {
  pr_addr : string;
  pr_failures : Z;
  pr_last_tip : option Z;
}.

Record ChainResponse := mkChainResponse {
  cr_chain : string;
  cr_coin : string;
  cr_stage : string;
  cr_protocol_version : Z;
  cr_block_time_secs : Z;
  cr_confirmation_depth : Z;
  cr_finality_depth : Z;
  cr_block_reward_maturity : Z;
  cr_difficulty_start : Z;
}.

Record AccountResponse := mkAccountResponse {
  ar_address : string;
  ar_confirmed : Z;
  ar_available : Z;
  ar_unspendable : Z;
  ar_pending_incoming : Z;
  ar_pending_outgoing : Z;
  ar_nonce : Z;
  ar_credits : Z;
}.

Inductive Body :=
  | StatusBody (r : StatusResponse)
  | HealthBody (ok : bool)
  | ChainBody (r : ChainResponse)
  | StatsBody (r : ChainStatsResponse)
  | PeersBody (r : list PeerResponse)
  | BalanceBody (r : BalanceJson)
  | BlocksBody (r : list BlockResponse)
  | BlockBody (r : BlockResponse)
  | TxBody (r : TxResponse)
  | AddressBody (address : string) (balance : BalanceJson) (activity : AddressActivity)
  | AccountsBody (r : list AccountResponse)
  | MempoolBody (size : Z) (transactions : list TxResponse)
  | SubmitBody (accepted : bool) (hash : string)
  | ErrorBody (error : RpcFault).

Record Response := mkResponse { status : Z; body : Body }.

Definition rpc_error (status : Z) (error : RpcFault) : Response := mkResponse status (ErrorBody error).

Section rpc.
Context `{Paqus, !ChainParams, Kv, Lmdb, Clock, !Storage.Codecs, !PeerWorld, !Service.ServiceEnv}.
Context `{!Wallet.Crypto, !Wallet.WalletEnv, !ExplorerEnv}.
(** [SignedTransaction::try_from_slice] *)
Context (try_from_slice : bytes → result string SignedTransaction).

(** [RpcState]: what it shares with the service, and the counters of the log. *)
Record RpcState := mkRpcState {
  service : Service.Service;
  accepted_tx_total : Z;
  broadcast_tx_total : Z;
}.

Definition set_service (x : Service.Service) (s : RpcState) : RpcState :=
  mkRpcState x (accepted_tx_total s) (broadcast_tx_total s).
Definition on_world (w : World) (s : RpcState) : RpcState :=
  set_service (Service.set_world w (service s)) s.

Definition Handler : Type := RpcState → Response * RpcState.

#[local] Existing Instance Service.own_wire.

(** [state.node.lock()], then the work under the lock. *)
Definition locked_node {A} (m : SE Node Response A) (s : RpcState) : result Response A * RpcState :=
  let '(r, x) := locked_or (rpc_error INTERNAL_SERVER_ERROR StateLockFailed) m
    (Service.session (service s)) in
  (r, set_service (Service.set_session x (service s)) s).

Definition respond (r : result Response Body) : Response :=
  match r with Ok b => mkResponse OK b | Err e => e end.

Definition under_lock (m : SE Node Response Body) : Handler := λ s,
  let '(r, s) := locked_node m s in (respond r, s).

(** A function of the explorer; a block that cannot be read is an internal error. *)
Definition explore {A} (m : SE Node ExplorerError A) : SE Node Response A :=
  zoom id (λ n _, n) (λ e, rpc_error INTERNAL_SERVER_ERROR (LoadFailed e)) m.

(** ** The node and its peers *)

(** The four guards are taken one after the other and held together; all four
    are tried before the first result is looked at. *)
Definition rpc_status : Handler := λ s,
  let '(r, s) := locked_node (gets (λ n, (tip_or_zero n, format_hash (node_tip_hash n)))) s in
  let '(ok1, w1) := lock (Service.world (service s)) in
  let '(ok2, w2) := lock w1 in
  let '(ok3, w3) := lock w2 in
  (match r with
   | Ok (height, hash) =>
       if ok1 && ok2 && ok3 then
         let count := Z.of_nat (size (peers (tables w1))) in
         mkResponse OK (StatusBody (mkStatus CHAIN_NAME PROTOCOL_STAGE PROTOCOL_VERSION height hash
           count count (Z.of_nat (size (peer_connections (tables w2))))
           (Z.of_nat (size (inbound_connections (tables w3))))
           (Config.mine (Service.cfg (service s)))
           (Service.last_hashrate_hps (Service.mining_stats (service s)))
           (Service.last_attempts (Service.mining_stats (service s)))))
       else rpc_error INTERNAL_SERVER_ERROR StateLockFailed
   | Err e => e
   end, on_world w3 s).

Definition rpc_health : Handler := λ s, (mkResponse OK (HealthBody true), s).

Definition rpc_chain : Handler := λ s,
  (mkResponse OK (ChainBody (mkChainResponse CHAIN_NAME COIN_NAME PROTOCOL_STAGE PROTOCOL_VERSION
    BLOCK_TIME CONFIRMATION_DEPTH FINALITY_DEPTH BLOCK_REWARD_MATURITY DIFFICULTY_START)), s).

Definition rpc_stats : Handler := under_lock (r ← explore chain_stats; mret (StatsBody r)).

(** The values of a hash map, in the order of its iterator. *)
Definition rpc_peers : Handler := λ s,
  let '(ok, w) := lock (Service.world (service s)) in
  (if ok : bool then
     mkResponse OK (PeersBody (omap (λ a,
       (λ p, mkPeerResponse (Service.addr_to_string (ps_addr p)) (failures p) (last_tip p)) <$>
         peers (tables w) !! a) (keys (peers (tables w)) w)))
   else rpc_error INTERNAL_SERVER_ERROR StateLockFailed, on_world w s).

(** ** Balances and accounts *)

Definition rpc_balance (address : string) : Handler := λ s,
  match Wallet.parse_address_hex address with
  | Err error => (rpc_error BAD_REQUEST (Rejected error), s)
  | Ok address => under_lock (n ← get_state; mret (BalanceBody (balance_json n address))) s
  end.

Definition account_response (n : Node) (account : Account) : AccountResponse :=
  let height := tip_or_zero n in
  let pending := pending_balance n (account_address account) in
  mkAccountResponse (Wallet.address_to_string (account_address account)) (account_balance account)
    (available_balance_at account height) (unspendable_balance_at account height)
    (incoming pending) (outgoing pending) (account_nonce account) (account_credits account).

Definition rpc_accounts : Handler :=
  under_lock (n ← get_state;
    mret (AccountsBody (account_response n <$> bt_values (accounts (ledger n))))).

(** The balance is printed and parsed again; it always parses. *)
Definition rpc_address (address : string) : Handler := λ s,
  match Wallet.parse_address_hex address with
  | Err error => (rpc_error BAD_REQUEST (Rejected error), s)
  | Ok address =>
      under_lock (
        activity ← explore (address_activity address);
        n ← get_state;
        mret (AddressBody (Wallet.address_to_string address) (balance_json n address) activity)) s
  end.

(** ** Blocks *)

(** The rounds of the loop, from the tip down; a missing block is left out. *)
Fixpoint latest_loop (heights : list Height) (blocks : list BlockResponse) :
    SE Node ExplorerError (list BlockResponse) :=
  match heights with
  | [] => mret blocks
  | height :: heights' =>
      ob ← load_block height;
      match ob with
      | None => latest_loop heights' blocks
      | Some block =>
          r ← block_response block None;
          latest_loop heights' (blocks ++ [r])
      end
  end.

Definition latest_heights (tip : Height) : list Height :=
  let start := sat_sub tip 9 in reverse (seqZ start (tip - start + 1)).

Definition rpc_latest_blocks : Handler :=
  under_lock (
    n ← get_state;
    blocks ← explore (latest_loop (latest_heights (tip_or_zero n)) []);
    mret (BlocksBody blocks)).

Definition show_block (ob : option Block) : SE Node Response Body :=
  match ob with
  | Some block => r ← explore (block_response block None); mret (BlockBody r)
  | None => throw (rpc_error NOT_FOUND BlockNotFound)
  end.

Definition rpc_block_by_height (height : Height) : Handler :=
  under_lock (ob ← explore (load_block height); show_block ob).

Definition parse_hash_hex (value : string) : result string Hash :=
  b ← ok_or (Wallet.hex_decode value) "invalid hash hex";
  if bool_decide (length b = HASH_SIZE) then Ok (be_value b) else Err "hash has invalid length".

Definition rpc_block_by_hash (hash : string) : Handler := λ s,
  match parse_hash_hex hash with
  | Err error => (rpc_error BAD_REQUEST (Rejected error), s)
  | Ok hash =>
      under_lock (
        ob ← explore (zoom storage set_storage LoadBlockFailed (Storage.load_block_by_hash hash));
        show_block ob) s
  end.

(** ** Transactions *)

Definition rpc_tx (hash : string) : Handler := λ s,
  match parse_hash_hex hash with
  | Err error => (rpc_error BAD_REQUEST (Rejected error), s)
  | Ok hash =>
      under_lock (
        o ← explore (find_transaction hash);
        match o with
        | Some transaction => mret (TxBody transaction)
        | None => throw (rpc_error NOT_FOUND TransactionNotFound)
        end) s
  end.

Definition rpc_mempool : Handler :=
  under_lock (
    n ← get_state;
    txs ← explore (tx_responses (Mempool.pending (mempool n)) None None "pending");
    mret (MempoolBody (Mempool.len (mempool n)) txs)).

Definition signed_transaction_from_hex (value : string) : result string SignedTransaction :=
  b ← ok_or (Wallet.hex_decode value) "invalid transaction hex";
  map_err (λ error, "invalid signed transaction bytes: " +:+ error) (try_from_slice b).

(** The two calls under the node's lock. *)
Definition accept_transaction (tx : SignedTransaction) : SE Node Response () :=
  zoom id (λ n _, n) (λ e, rpc_error BAD_REQUEST (SubmitFailed e)) (submit_transaction tx) ;;
  zoom id (λ n _, n) (λ e, rpc_error INTERNAL_SERVER_ERROR (FlushFailed e)) flush_to_storage.

Definition count_accepted (s : RpcState) : RpcState :=
  mkRpcState (service s) (wrap u64_max (accepted_tx_total s + 1)) (broadcast_tx_total s).
Definition count_broadcast (s : RpcState) : RpcState :=
  mkRpcState (service s) (accepted_tx_total s) (wrap u64_max (broadcast_tx_total s + 1)).

Definition rpc_submit_tx (tx : string) : Handler := λ s,
  match signed_transaction_from_hex tx with
  | Err error => (rpc_error BAD_REQUEST (Rejected error), s)
  | Ok transaction =>
      match locked_node (accept_transaction transaction) s with
      | (Err e, s) => (e, s)
      | (Ok _, s) =>
          let s := count_accepted s in
          let '(_, w) := broadcast_to_peers (TransactionMessage transaction) (Service.world (service s)) in
          let s := count_broadcast (on_world w s) in
          (mkResponse OK (SubmitBody true (hex_encode (tx_hash transaction))), s)
      end
  end.

End rpc.
End Rpc.
