(* ===== verification/RpcProps.v ===== *)
(** * RpcProps: what the RPC server promises

    Reading handlers leave the node alone; a submitted transaction is accepted,
    counted and broadcast, or refused without any of it. *)

From S2P Require Import Prelude Collections Core Demo Mempool MempoolFacts MempoolProps Bytes Storage StorageFacts.
From S2P Require Import StorageReads StorageSaved StorageDemo StorageProps Node NodeFacts NodeProps NodeSync NodeShared NodeDemo.
From S2P Require Import Network P2p Gossip Wallet Config Service Explorer ExplorerProps Rpc.

Open Scope string_scope.
Open Scope list_scope.
Open Scope Z_scope.

Module RpcProps.
Import Storage StorageFacts StorageReads StorageSaved StorageProps Node NodeFacts NodeSync NodeShared Network P2p Gossip Explorer ExplorerProps Rpc.

(** ** Reading leaves the node alone *)

Section reading.
Context `{Paqus, !ChainParams, Kv, Lmdb, Clock, !Storage.Codecs, !PeerWorld, !Service.ServiceEnv}.
Context `{!Wallet.Crypto, !Wallet.WalletEnv, !ExplorerEnv}.
Implicit Types (n : Node) (s : RpcState).

Lemma keeps_on_store {E A} (conv : StorageError → E) (m : SE Store StorageError A) :
  keeps same_tables m → keeps alike (zoom storage set_storage conv m).
Proof.
  intros Hm n. unfold zoom. specialize (Hm (storage n)). destruct (m (storage n)) as [r st].
  unfold alike, at_rest, same_tables in *. cbn [snd] in *. by destruct n; cbn in *; rewrite Hm.
Qed.

Lemma keeps_now t : keeps alike (now_or t).
Proof. by intros n. Qed.

Create HintDb alike.
#[local] Hint Resolve keeps_now keeps_on_store keeps_load_by_height keeps_load_by_hash : alike.

(** One step through a reading program. *)
Ltac reading := repeat first
  [ apply keeps_ret, _ | apply keeps_throw, _ | apply keeps_get, _ | apply keeps_gets, _
  | apply keeps_attempt | solve [auto with alike nocore]
  | apply keeps_bind; [apply _| |intros ?] | case_match ].

Lemma keeps_load_block h : keeps alike (load_block h).
Proof. unfold load_block. reading. Qed.
Lemma keeps_tx_response tx h b st : keeps alike (tx_response tx h b st).
Proof. unfold tx_response. reading. Qed.
#[local] Hint Resolve keeps_load_block keeps_tx_response : alike.

Lemma keeps_tx_responses txs h b st : keeps alike (tx_responses txs h b st).
Proof. induction txs; cbn [tx_responses]; reading. Qed.
#[local] Hint Resolve keeps_tx_responses : alike.

Lemma keeps_find_confirmed h hs : keeps alike (find_confirmed h hs).
Proof. induction hs; cbn [find_confirmed]; reading. Qed.
Lemma keeps_activity_loop a tip hs : ∀ m t, keeps alike (activity_loop a tip hs m t).
Proof. induction hs; intros m t; cbn [activity_loop]; reading. Qed.
Lemma keeps_stats_loop hs : ∀ t, keeps alike (stats_loop hs t).
Proof. induction hs; intros t; cbn [stats_loop]; reading. Qed.
Lemma keeps_previous h : keeps alike (previous_timestamp h).
Proof. unfold previous_timestamp. reading. Qed.
#[local] Hint Resolve keeps_find_confirmed keeps_activity_loop keeps_stats_loop keeps_previous : alike.

Lemma keeps_block_response b st : keeps alike (block_response b st).
Proof. unfold block_response. reading. Qed.
#[local] Hint Resolve keeps_block_response : alike.

Lemma keeps_latest_loop hs : ∀ l, keeps alike (latest_loop hs l).
Proof. induction hs; intros l; cbn [latest_loop]; reading. Qed.
#[local] Hint Resolve keeps_latest_loop : alike.

Lemma keeps_explore {A} (m : SE Node ExplorerError A) : keeps alike m → keeps alike (explore m).
Proof. intros Hm n. unfold explore, zoom, id. specialize (Hm n). by destruct (m n). Qed.
#[local] Hint Resolve keeps_explore : alike.

Lemma keeps_chain_stats : keeps alike chain_stats.
Proof. unfold chain_stats. reading. Qed.
Lemma keeps_address_activity a : keeps alike (address_activity a).
Proof. unfold address_activity. reading. Qed.
Lemma keeps_find_transaction h : keeps alike (find_transaction h).
Proof. unfold find_transaction. reading. Qed.
Lemma keeps_show_block ob : keeps alike (show_block ob).
Proof. unfold show_block. reading. Qed.
#[local] Hint Resolve keeps_chain_stats keeps_address_activity keeps_find_transaction keeps_show_block : alike.

(** *** Handlers *)

Definition node_of s : Node := shared_node (Service.session (service s)).

(** The node when the lock has been taken. *)
Definition node_seen s : Node := Service.node_others (locks (Service.session (service s))) (node_of s).

(** Every time a lock of the shared tables is waited for, other threads may work
    on them; nothing is sent meanwhile. *)
Definition waited_for_lock : relation World := λ w w',
  Gossip.tables w' = meanwhile (events w) (Gossip.tables w) ∧
  events w' = S (events w) ∧ delivered w' = delivered w.

(** Nothing but the work of other threads and the counters of reads: the node,
    the tables of peers and connections, what was sent to peers, the
    configuration, the statistics of mining, the saved files of peers, and the
    counters of submitted transactions. *)
Record untouched s s' : Prop := {
  ut_node : node_of s' = node_of s ∨ alike (node_seen s) (node_of s');
  ut_world : rtc waited_for_lock (Service.world (service s)) (Service.world (service s'));
  ut_exchanges : exchanges (Service.session (service s')) = exchanges (Service.session (service s));
  ut_log : log (Service.session (service s')) = log (Service.session (service s));
  ut_cfg : Service.cfg (service s') = Service.cfg (service s);
  ut_sync : Service.requires_peer_sync_before_mining (service s') =
    Service.requires_peer_sync_before_mining (service s);
  ut_mining : Service.mining_stats (service s') = Service.mining_stats (service s);
  ut_peers_saved : Service.peers_saved (service s') = Service.peers_saved (service s);
  ut_accepted : accepted_tx_total s' = accepted_tx_total s;
  ut_broadcast : broadcast_tx_total s' = broadcast_tx_total s;
}.

Lemma untouched_refl s : untouched s s.
Proof. split; auto using rtc_refl. Qed.

Lemma locked_untouched {A} (m : SE Node Response A) s : keeps alike m → untouched s (locked_node m s).2.
Proof.
  intros Hm. unfold locked_node, locked_or. cbn [others poisoned Service.own_wire].
  destruct (Service.node_poisoned _); [split; cbn; auto using rtc_refl; right; reflexivity|].
  specialize (Hm (node_seen s)). unfold node_seen, node_of in *. destruct (m _) as [r n'].
  split; cbn; auto using rtc_refl.
Qed.

Lemma under_lock_untouched (m : SE Node Response Body) s : keeps alike m → untouched s (under_lock m s).2.
Proof.
  intros Hm. unfold under_lock. pose proof (locked_untouched m s Hm) as Hu.
  by destruct (locked_node m s).
Qed.

Lemma lock_waited w : rtc waited_for_lock w (lock w).2.
Proof. by apply rtc_once. Qed.

Lemma on_world_untouched w s s' :
  untouched s s' → rtc waited_for_lock (Service.world (service s')) w → untouched s (on_world w s').
Proof. intros [] Hw. split; cbn; try done. by etrans. Qed.

Definition reading_handlers (address hash : string) (height : Height) : list Handler :=
  [rpc_status; rpc_health; rpc_chain; rpc_stats; rpc_peers; rpc_balance address; rpc_accounts;
   rpc_address address; rpc_latest_blocks; rpc_block_by_height height; rpc_block_by_hash hash;
   rpc_tx hash; rpc_mempool].

(** How a reading handler comes to its answer. *)
Inductive read_outcome s : Response * RpcState → Prop :=
  | outcome_fixed r : read_outcome s (r, s)
  | outcome_locked m : keeps alike m → read_outcome s (under_lock m s)
  | outcome_status : read_outcome s (rpc_status s)
  | outcome_peers : read_outcome s (rpc_peers s).

Lemma reading_outcomes address hash height s :
  Forall (λ handler, read_outcome s (handler s)) (reading_handlers address hash height).
Proof.
  unfold reading_handlers. repeat (apply Forall_cons; split); [..|apply Forall_nil, I];
    try solve [constructor]; try (apply outcome_locked; reading).
  - unfold rpc_balance. destruct (Wallet.parse_address_hex address); [|constructor].
    apply outcome_locked. reading.
  - unfold rpc_address. destruct (Wallet.parse_address_hex address); [|constructor].
    apply outcome_locked. reading.
  - unfold rpc_block_by_hash. destruct (parse_hash_hex hash); [|constructor].
    apply outcome_locked. reading.
  - unfold rpc_tx. destruct (parse_hash_hex hash); [|constructor]. apply outcome_locked. reading.
Qed.

Lemma outcome_untouched s p : read_outcome s p → untouched s p.2.
Proof.
  destruct 1 as [r|m Hm| |]; [apply untouched_refl|by apply under_lock_untouched| |].
  - unfold rpc_status. pose proof (locked_untouched
      (gets (λ n, (tip_or_zero n, format_hash (node_tip_hash n)))) s (keeps_gets _ _)) as Hu.
    destruct (locked_node _ s) as [r s']. apply on_world_untouched; [done|].
    do 2 (etrans; [apply lock_waited|]). apply lock_waited.
  - apply on_world_untouched; [apply untouched_refl|apply lock_waited].
Qed.

Lemma reading_handlers_untouched address hash height s :
  Forall (λ handler, untouched s (handler s).2) (reading_handlers address hash height).
Proof. eapply Forall_impl; [apply reading_outcomes|]. intros h. apply outcome_untouched. Qed.

End reading.

(** ** The latest blocks *)

Section latest.
Context `{Paqus, Kv, Lmdb, Clock, !Codecs, !CodecLaws, !KvLaws, !NoFaults}.
Context `{!Wallet.Crypto, !Wallet.WalletEnv, !ExplorerEnv}.
Implicit Types n : Node.

(** The response that shows a block of a chain with the tip [tip]. *)
Record block_shown (tip : Height) (b : Block) (r : BlockResponse) : Prop := {
  bs_height : b_r_height r = block_height b;
  bs_hash : b_r_hash r = hex_encode (block_hash b);
  bs_previous : b_r_previous_hash r = hex_encode (previous_hash b);
  bs_confirmations : b_r_confirmations r = sat_add u64_max (sat_sub tip (block_height b)) 1;
  bs_txs : Forall2 (shown (Some (block_height b)) (Some (block_hash b)) "confirmed")
    (block_transactions b) (b_r_transactions r);
}.

Lemma yields_previous h n : yields (previous_timestamp h) n (λ _, True).
Proof.
  unfold previous_timestamp. case_bool_decide as Hh; [|by apply yields_ret].
  pose proof (keeps_load_block (h - 1) n) as Hk. unfold yields. rewrite SE_bind_unfold. unfold attempt.
  destruct (load_block (h - 1) n) as [r n']. eexists _, _. split_and!; [reflexivity|done|done].
Qed.

Lemma yields_block b n : yields (block_response b None) n (block_shown (tip_or_zero n) b).
Proof.
  unfold block_response. eapply yields_bind; [by apply (yields_get n (eq n))|]. intros n0 n1 _ <-. cbv zeta.
  eapply yields_bind; [apply yields_now|]. intros now n2 _ _.
  eapply yields_bind; [apply yields_previous|]. intros previous n3 _ _.
  eapply yields_bind; [apply yields_txs|]. intros txs n4 _ Htxs. apply yields_ret. by split.
Qed.

Lemma yields_latest tip bs : ∀ n acc, tip_or_zero n = tip →
  Forall (λ b, block_at (Storage.tables (storage n)) (block_height b) = Ok (Some b)) bs →
  yields (latest_loop (block_height <$> bs) acc) n
    (λ rs, ∃ rs', rs = acc ++ rs' ∧ Forall2 (block_shown tip) bs rs').
Proof.
  induction bs as [|b bs IH]; intros n acc Htip Hbs; cbn [fmap list_fmap latest_loop].
  { apply yields_ret. exists []. by rewrite app_nil_r. }
  apply Forall_cons in Hbs as [Hb Hbs].
  assert (∀ n', alike n n' → tip_or_zero n' = tip) as Htip'.
  { intros n' Hn. unfold tip_or_zero, node_tip_height in *. by rewrite (alike_ledger _ _ Hn). }
  eapply yields_bind; [by apply yields_load|]. intros ob n1 Hn1 <-.
  eapply yields_bind; [apply yields_block|]. intros r n2 Hn2 Hr. rewrite (Htip' _ Hn1) in Hr.
  assert (alike n n2) as Hn by (by etrans).
  eapply yields_weaken; [apply (IH n2); [by apply Htip'|by rewrite (alike_tables _ _ Hn)]|].
  intros rs (rs' & -> & Hrs'). exists (r :: rs'). rewrite <-app_assoc. split; [done|by constructor].
Qed.

Lemma chain_heights l : stored_wf l →
  block_height <$> chain_blocks (chain l) = seqZ 0 (Z.of_nat (length (chain_blocks (chain l)))).
Proof.
  intros Hw. apply list_eq. intros i. rewrite list_lookup_fmap.
  destruct (chain_blocks (chain l) !! i) as [b|] eqn:E; cbn.
  - rewrite (sw_heights _ Hw _ _ E), lookup_seqZ_lt; [done|]. apply lookup_lt_Some in E. lia.
  - rewrite lookup_seqZ_ge; [done|]. apply lookup_ge_None in E. lia.
Qed.

Lemma latest_heights_blocks n : explorable n →
  latest_heights (tip_or_zero n) = block_height <$> take 10 (reverse (chain_blocks (chain (ledger n)))).
Proof.
  intros Hn. pose proof (explorable_tip n Hn) as Ht. destruct Hn as [_ Hw].
  pose proof (chain_heights _ Hw) as Hc. set (blocks := chain_blocks _) in *.
  rewrite fmap_take, fmap_reverse, Hc, take_reverse, length_seqZ, Nat2Z.id. unfold latest_heights.
  f_equal. remember (length blocks - 10)%nat as k eqn:Ek.
  replace (sat_sub (tip_or_zero n) 9) with (Z.of_nat k) by (unfold sat_sub; lia).
  replace (Z.of_nat (length blocks)) with (Z.of_nat k + (tip_or_zero n - Z.of_nat k + 1)) by lia.
  rewrite (seqZ_app 0 (Z.of_nat k)) by lia. rewrite drop_app_ge by (rewrite length_seqZ; lia).
  by rewrite length_seqZ, Nat2Z.id, Nat.sub_diag.
Qed.

Lemma explorable_elem n b : explorable n → b ∈ chain_blocks (chain (ledger n)) →
  block_at (Storage.tables (storage n)) (block_height b) = Ok (Some b).
Proof.
  intros Hn [i Hi]%list_elem_of_lookup. rewrite (sw_heights _ (proj2 Hn) _ _ Hi). by apply explorable_block.
Qed.

End latest.

(** ** Submitting *)

Section submitting.
Context `{Paqus, !ChainParams, Kv, Lmdb, Clock, !Storage.Codecs, !PeerWorld, !Service.ServiceEnv}.
Context `{!Wallet.Crypto, !Wallet.WalletEnv, !ExplorerEnv}.
Context (try_from_slice : bytes → result string SignedTransaction).
Implicit Types (n : Node) (s : RpcState).

Lemma submit_Ok tx n h n1 : submit_transaction tx n = (Ok h, n1) →
  Mempool.get (mempool n1) (tx_hash tx) = Some tx.
Proof.
  cbv [submit_transaction mbind SE_bind current_unix_timestamp get_state on_mempool zoom].
  destruct (Mempool.insert_validated_at _ _ _ _ _) as [[h'|] mp'] eqn:E; cbn [map_err]; [|done].
  intros [= _ <-]. apply MempoolFacts.insert_validated_at_Ok in E as (_ & r & _ & _ & E).
  apply MempoolFacts.insert_unchecked_Ok in E as (-> & _ & _ & -> & _). unfold Mempool.get. cbn.
  by rewrite lookup_insert_eq.
Qed.

Lemma flush_keeps_pool n : mempool (flush_to_storage n).2 = mempool n.
Proof. unfold flush_to_storage. rewrite SE_bind_get. unfold on_storage, zoom. by destruct (save_ledger _ _). Qed.

(** A refused transaction leaves the node as it was: the pool has at most lost
    transactions that had expired. *)
Record pool_shrunk n n' : Prop := {
  psk_ledger : ledger n' = ledger n;
  psk_fork_choice : fork_choice n' = fork_choice n;
  psk_storage : storage n' = storage n;
  psk_pool : Mempool.transactions (mempool n') ⊆ Mempool.transactions (mempool n);
}.

Lemma submit_Err tx n e n' : submit_transaction tx n = (Err e, n') → pool_shrunk n n'.
Proof.
  cbv [submit_transaction mbind SE_bind current_unix_timestamp get_state on_mempool zoom].
  destruct (Mempool.insert_validated_at _ _ _ _ _) as [[h'|] mp'] eqn:E; cbn [map_err]; [done|].
  intros [= _ <-]. apply MempoolFacts.insert_validated_at_Err in E as ->. split; try done.
  apply map_filter_subseteq.
Qed.

Lemma accept_cases tx n :
  match accept_transaction tx n with
  | (Ok _, n') => Mempool.get (mempool n') (tx_hash tx) = Some tx
  | (Err r, n') =>
      (∃ e, r = rpc_error BAD_REQUEST (SubmitFailed e) ∧ pool_shrunk n n') ∨
      (∃ e, r = rpc_error INTERNAL_SERVER_ERROR (FlushFailed e) ∧
        Mempool.get (mempool n') (tx_hash tx) = Some tx)
  end.
Proof.
  unfold accept_transaction. rewrite SE_bind_unfold. unfold zoom, id.
  destruct (submit_transaction tx n) as [[h|e] n1] eqn:E; cbn [map_err].
  2: { left. exists e. split; [done|]. by eapply submit_Err. }
  apply submit_Ok in E. rewrite <-(flush_keeps_pool n1) in E.
  destruct (flush_to_storage n1) as [[[]|e] n2]; cbn [map_err snd] in *; [done|]. right. by exists e.
Qed.

(** The peers were told nothing and no counter has moved. *)
Record unannounced s s' : Prop := {
  un_world : Service.world (service s') = Service.world (service s);
  un_accepted : accepted_tx_total s' = accepted_tx_total s;
  un_broadcast : broadcast_tx_total s' = broadcast_tx_total s;
}.

(** What the server makes of the transaction [tx]. *)
Inductive handled (tx : SignedTransaction) s : Response → RpcState → Prop :=
  | handled_accepted s' :
      Mempool.get (mempool (node_of s')) (tx_hash tx) = Some tx →
      accepted_tx_total s' = wrap u64_max (accepted_tx_total s + 1) →
      broadcast_tx_total s' = wrap u64_max (broadcast_tx_total s + 1) →
      Service.world (service s') =
        (broadcast_to_peers (TransactionMessage tx) (Service.world (service s))).2 →
      handled tx s (mkResponse OK (SubmitBody true (hex_encode (tx_hash tx)))) s'
  | handled_refused e s' :
      pool_shrunk (node_seen s) (node_of s') → unannounced s s' →
      handled tx s (rpc_error BAD_REQUEST (SubmitFailed e)) s'
  | handled_unsaved e s' :
      Mempool.get (mempool (node_of s')) (tx_hash tx) = Some tx → unannounced s s' →
      handled tx s (rpc_error INTERNAL_SERVER_ERROR (FlushFailed e)) s'
  | handled_poisoned s' :
      node_of s' = node_seen s → unannounced s s' →
      handled tx s (rpc_error INTERNAL_SERVER_ERROR StateLockFailed) s'.

Lemma submit_handled hex tx s : signed_transaction_from_hex try_from_slice hex = Ok tx →
  handled tx s (rpc_submit_tx try_from_slice hex s).1 (rpc_submit_tx try_from_slice hex s).2.
Proof.
  intros Htx. unfold rpc_submit_tx. rewrite Htx.
  unfold locked_node, locked_or. cbn [others poisoned Service.own_wire].
  destruct (Service.node_poisoned _); [by apply handled_poisoned|].
  pose proof (accept_cases tx (node_seen s)) as Hc. unfold node_seen, node_of in Hc.
  destruct (accept_transaction tx _) as [[[]|r] n'].
  - cbv zeta. destruct (broadcast_to_peers _ _) as [report w] eqn:Eb. apply handled_accepted; try done.
    exact (f_equal snd (eq_sym Eb)).
  - destruct Hc as [(e & -> & Hn)|(e & -> & Hn)]; [by apply handled_refused|by apply handled_unsaved].
Qed.

(** What became of a transaction that was posted. *)
Inductive submitted (hex : string) s : Response → RpcState → Prop :=
  | sub_accepted tx s' : signed_transaction_from_hex try_from_slice hex = Ok tx →
      Mempool.get (mempool (node_of s')) (tx_hash tx) = Some tx →
      accepted_tx_total s' = wrap u64_max (accepted_tx_total s + 1) →
      broadcast_tx_total s' = wrap u64_max (broadcast_tx_total s + 1) →
      Service.world (service s') =
        (broadcast_to_peers (TransactionMessage tx) (Service.world (service s))).2 →
      submitted hex s (mkResponse OK (SubmitBody true (hex_encode (tx_hash tx)))) s'
  | sub_refused r s' : status r = BAD_REQUEST ∨ status r = INTERNAL_SERVER_ERROR →
      accepted_tx_total s' = accepted_tx_total s → broadcast_tx_total s' = broadcast_tx_total s →
      Service.world (service s') = Service.world (service s) →
      submitted hex s r s'.

Lemma submit_submitted hex s :
  submitted hex s (rpc_submit_tx try_from_slice hex s).1 (rpc_submit_tx try_from_slice hex s).2.
Proof.
  destruct (signed_transaction_from_hex try_from_slice hex) as [tx|e] eqn:Etx.
  - destruct (submit_handled hex tx s Etx) as [s'|e s' _ []|e s' _ []|s' _ []].
    1: by eapply sub_accepted.
    all: apply sub_refused; auto.
  - unfold rpc_submit_tx. rewrite Etx. by apply sub_refused; auto.
Qed.

End submitting.

(** ** Claims *)

Section claims.
Context `{Paqus, !ChainParams, Kv, Lmdb, Clock, !Storage.Codecs, !PeerWorld, !Service.ServiceEnv}.
Context `{!Wallet.Crypto, !Wallet.WalletEnv, !ExplorerEnv}.
Implicit Types (n : Node) (s : RpcState).

(** No request that only reads changes anything: whatever a reading
    handler answers, also when the database fails or an argument is invalid,
    afterwards the node is what the other threads made of it, up to the counters
    of its reads, and the counters of accepted and broadcast transactions stand. *)
Theorem rpc_reads_change_nothing address hash height handler s :
  handler ∈ reading_handlers address hash height → untouched s (handler s).2.
Proof.
  intros Hh. exact (proj1 (Forall_forall _ _) (reading_handlers_untouched address hash height s) _ Hh).
Qed.

(** The list of latest blocks shows the last ten blocks of the chain, the
    newest first, each with its hash, its number of confirmations and its
    transactions in order. *)
Theorem latest_blocks_exact `{!CodecLaws, !KvLaws, !NoFaults} n :
  explorable n →
  yields (latest_loop (latest_heights (tip_or_zero n)) []) n
    (Forall2 (block_shown (tip_or_zero n)) (take 10 (reverse (chain_blocks (chain (ledger n)))))).
Proof.
  intros Hn. rewrite latest_heights_blocks by done. eapply yields_weaken.
  - apply yields_latest; [done|]. apply Forall_forall. intros b Hb%elem_of_take.
    destruct Hb as (i & Hi & _). apply explorable_elem; [done|].
    apply elem_of_reverse. by eapply list_elem_of_lookup_2.
  - by intros rs (rs' & -> & Hrs).
Qed.

(** C20: a posted transaction is either accepted - the answer holds its hash,
    the node has it in its pool, both counters count it and it was broadcast to
    the peers - or refused with an error status, and then it is neither counted
    nor sent to anyone. *)
Theorem submit_all_or_nothing try_from_slice hex s :
  submitted try_from_slice hex s (rpc_submit_tx try_from_slice hex s).1
    (rpc_submit_tx try_from_slice hex s).2.
Proof. apply submit_submitted. Qed.

(** When the database cannot be written the client is told that the
    transaction failed, and no peer receives it, but it stays in the pool of
    the node: the next block the node mines can contain it. *)
Theorem failed_flush_keeps_transaction try_from_slice hex s tx n1 h n2 e :
  signed_transaction_from_hex try_from_slice hex = Ok tx →
  Service.node_poisoned (locks (Service.session (service s))) = false →
  submit_transaction tx (node_seen s) = (Ok h, n1) → flush_to_storage n1 = (Err e, n2) →
  let '(r, s') := rpc_submit_tx try_from_slice hex s in
  r = rpc_error INTERNAL_SERVER_ERROR (FlushFailed e) ∧
  Mempool.get (mempool (node_of s')) (tx_hash tx) = Some tx ∧
  Service.world (service s') = Service.world (service s).
Proof.
  intros Htx Hp Hs Hf. unfold rpc_submit_tx. rewrite Htx. unfold locked_node, locked_or.
  cbn [others poisoned Service.own_wire]. rewrite Hp. unfold node_seen, node_of in *.
  unfold accept_transaction. rewrite SE_bind_unfold. unfold zoom, id. rewrite Hs. cbn [map_err].
  rewrite Hf. cbn. split_and!; [done| |done].
  pose proof (flush_keeps_pool n1) as Hk. rewrite Hf in Hk. cbn in Hk. rewrite Hk. by eapply submit_Ok.
Qed.

End claims.
End RpcProps.
