(* ===== verification/RpcDemo.v ===== *)
(** * RpcDemo: the explorer and the RPC handlers on the demo protocol *)

From S2P Require Import Prelude Collections Core Demo Mempool Miner Cache Bytes Storage StorageFacts.
From S2P Require Import StorageLedger StorageReads StorageSaved StorageDemo StorageProps.
From S2P Require Import Node NodeFacts NodeProps NodeSync NodeDemo Network P2p Gossip Wallet WalletProps.
From S2P Require Import Config Service Explorer ExplorerProps Rpc RpcProps.

Open Scope string_scope.
Open Scope list_scope.
Open Scope Z_scope.

Module RpcDemo.
Import Demo Storage StorageFacts StorageReads StorageSaved StorageDemo Node NodeFacts NodeProps NodeSync NodeDemo.
Import Network P2p Gossip WalletProps Explorer ExplorerProps Rpc RpcProps.

#[local] Instance demo_wallet : Wallet.WalletEnv := demo_env true.

#[local] Instance demo_explorer : ExplorerEnv := {|
  hex_encode h := "hash";
  unix_now k := Ok (7000 + Z.of_nat k);
  coinbase_total c := cb_subsidy c + cb_fees c;
  transaction_count b := Z.of_nat (length (block_transactions b));
  serialized_size b := 100;
  merkle_root b := 0;
  genesis_allocations b := [];
  account_credits a := 0;
  CHAIN_NAME := "paqus"; COIN_NAME := "paq"; PROTOCOL_STAGE := "test"; PROTOCOL_VERSION := 1;
  CONFIRMATION_DEPTH := 6; FINALITY_DEPTH := 60; BLOCK_REWARD_MATURITY := 10;
  GENESIS_PREMINE := 1000; MAX_UNIT_SUPPLY := 100000; MAX_MINED_SUPPLY := 99000;
|}.

#[local] Instance quiet_world : PeerWorld := {|
  connect _ _ := Ok 1%nat; transmit _ _ _ := Ok tt; key_order _ l := l; meanwhile _ t := t;
  lock_poisoned _ := false;
|}.

#[local] Instance quiet_service : Service.ServiceEnv := {|
  Service.wire _ := {| reply _ _ := Err "closed"; P2p.sent _ _ := Err "closed"; others _ n := n;
    poisoned _ := false |};
  Service.node_others _ n := n;
  Service.node_poisoned _ := false;
  Service.addr_of_string _ := None;
  Service.addr_to_string _ := "addr";
  Service.instant _ := 1000;
  Service.timestamp_now _ := Some 7000;
  Service.elapsed_nanos _ := 500;
  Service.peers_file_write _ := Ok tt;
  Service.MAX_BLOCK_TXS := 100;
|}.

(** ** Explorer *)

Lemma node3_explorable : explorable node3.
Proof.
  split; [|exact node3_stored_wf].
  assert (synced node1) as H1 by (do 2 (eapply node_step_synced; [constructor|]); exact node0_synced).
  do 2 (eapply node_step_synced; [constructor|]). exact H1.
Qed.

Lemma node3_elem block : block ∈ chain_blocks (chain (ledger node3)) →
  block = demo_genesis ∨ block = block_b1 ∨ block = block_b2.
Proof. rewrite node3_blocks, !elem_of_cons, elem_of_nil. naive_solver. Qed.

Lemma node3_transactions block i tx :
  block ∈ chain_blocks (chain (ledger node3)) → block_transactions block !! i = Some tx →
  block = block_b1 ∧ i = 0%nat ∧ tx = tx0.
Proof.
  intros [-> |[-> | ->]]%node3_elem; [done| |done]. change (block_transactions block_b1) with [tx0].
  destruct i as [|i]; [intros [= <-]; done|done].
Qed.

(** The same node when its pending transactions have expired. *)
Definition node4 : Node := set_mempool Mempool.new node3.

Lemma emptied (n : Node) : explorable n → explorable (set_mempool Mempool.new n).
Proof. done. Qed.
Lemma emptied_ledger (n : Node) : ledger (set_mempool Mempool.new n) = ledger n.
Proof. done. Qed.

Lemma node4_transactions block i tx :
  block ∈ chain_blocks (chain (ledger node4)) → block_transactions block !! i = Some tx →
  block = block_b1 ∧ i = 0%nat ∧ tx = tx0.
Proof. unfold node4. rewrite emptied_ledger. apply node3_transactions. Qed.

Lemma scan_agrees_with_index_witness :
  ∃ o, runs (load_transaction (tx_hash tx0)) (Storage.tables (storage node4)) (Ok o) (Storage.tables (storage node4)) ∧
    yields (find_transaction (tx_hash tx0)) node4 (λ r,
      match o with
      | None => r = None
      | Some (location, tx) => ∃ now, r = Some (tx_view now tx (Some (tl_block_height location))
          (Some (tl_block_hash location)) "confirmed")
      end).
Proof.
  apply (scan_agrees_with_index node4 (tx_hash tx0)).
  - exact (emptied node3 node3_explorable).
  - intros b b' i i' tx tx' Hb Hb' Hi Hi' _.
    destruct (node4_transactions _ _ _ Hb Hi) as (-> & -> & _), (node4_transactions _ _ _ Hb' Hi') as (-> & -> & _).
    done.
  - unfold fits. split; by vm_compute.
  - intros b tx Hb [i Hi]%list_elem_of_lookup. destruct (node4_transactions _ _ _ Hb Hi) as (_ & _ & ->).
    unfold fits. split; by vm_compute.
  - by vm_compute.
Defined.

Lemma address_activity_exact_witness :
  payments alice (chain_blocks (chain (ledger node3))) = [(block_b1, tx0)] ∧
  yields (address_activity alice) node3 (λ r,
    let blocks := chain_blocks (chain (ledger node3)) in
    Forall2 (mined_shown (tip_or_zero node3)) (reverse (filter (rewarded alice) blocks)) (mined_blocks r) ∧
    ∃ pending confirmed, transactions r = pending ++ confirmed ∧
      Forall2 pending_shown (reverse (filter (involved alice) (Mempool.pending (mempool node3)))) pending ∧
      Forall2 confirmed_shown (reverse (payments alice blocks)) confirmed).
Proof.
  split; [rewrite node3_blocks; reflexivity|].
  apply (address_activity_exact node3 alice). exact node3_explorable.
Defined.

Lemma chain_stats_exact_witness :
  yields chain_stats node3 (λ r, cs_blocks r = 3 ∧ cs_total_transfer_volume r = 10).
Proof.
  refine (yields_weaken _ _ _ _ (chain_stats_exact node3 node3_explorable _) _).
  - apply Forall_forall. intros b Hb. split.
    + intros tx [i Hi]%list_elem_of_lookup. by destruct (node3_transactions _ _ _ Hb Hi) as (_ & _ & ->).
    + intros c. apply node3_elem in Hb as [-> |[-> | ->]]; discriminate.
  - rewrite node3_blocks. intros r (_ & Hb & _ & _ & _ & _ & Hv & _). rewrite Hb, Hv. split; by vm_compute.
Defined.

(** ** Handlers *)

Definition demo_config : Config.RunConfig :=
  Config.mkRunConfig "db" [12] 14 [] None None [] 60 "STOP" 2 1 2 1800 86400 9 None false 60 10.

Definition state3 : RpcState := mkRpcState (Service.new_service node3 demo_config) 0 0.

Lemma rpc_reads_change_nothing_witness : untouched state3 (rpc_address "a50" state3).2.
Proof.
  apply (rpc_reads_change_nothing "a50" "hash" 1). unfold reading_handlers. set_solver.
Defined.

Lemma latest_blocks_exact_witness :
  latest_heights (tip_or_zero node3) = [2; 1; 0] ∧
  yields (latest_loop (latest_heights (tip_or_zero node3)) []) node3
    (Forall2 (block_shown (tip_or_zero node3)) (take 10 (reverse (chain_blocks (chain (ledger node3)))))).
Proof. split; [by vm_compute|]. apply (latest_blocks_exact node3). exact node3_explorable. Defined.

(** ** A disk that fails *)

Section broken.
#[local] Instance broken_engine : Lmdb := {| lmdb_fault _ := Some 5 |}.

Definition state_a : RpcState :=
  mkRpcState (Service.new_service (apply_block (H1 := sound_engine) block_a node0).2 demo_config) 0 0.

Definition node_s : Node := (submit_transaction tx0 (node_seen state_a)).2.

Lemma state_a_submit : submit_transaction tx0 (node_seen state_a) =
  (Ok (tx_hash tx0), (submit_transaction tx0 (node_seen state_a)).2).
Proof. apply run_eq. by_eval. Qed.
Lemma state_a_flush : flush_to_storage node_s = (Err (EStorage (Database 5)), (flush_to_storage node_s).2).
Proof. apply run_eq. by_eval. Qed.

Lemma failed_flush_keeps_transaction_witness :
  let '(r, s') := rpc_submit_tx (λ _, Ok tx0) "key" state_a in
  r = rpc_error INTERNAL_SERVER_ERROR (FlushFailed (EStorage (Database 5))) ∧
  Mempool.get (mempool (node_of s')) (tx_hash tx0) = Some tx0 ∧
  Service.world (service s') = Service.world (service state_a).
Proof.
  pose proof (failed_flush_keeps_transaction (λ _, Ok tx0) "key" state_a tx0 node_s (tx_hash tx0) _ _
    eq_refl eq_refl state_a_submit state_a_flush) as Hf.
  exact Hf.
Defined.

End broken.
End RpcDemo.
