(* ===== verification/Routes.v ===== *)
(** * Routes: the table of routes of the RPC server ([start_rpc_server] of [src/main.rs])

    The router and the extractors are axum's: a parameter, with the documented
    behaviour the table relies on as laws.  [serve] is one request, from its
    method, path and body to the handler of its route. *)

From S2P Require Import Prelude Collections Core Mempool Bytes Storage Node Network.
From S2P Require Import P2p Gossip Wallet Config Service Explorer Rpc.

Open Scope string_scope.
Open Scope list_scope.
Open Scope Z_scope.

Module Routes.
Import Node Network P2p Gossip Explorer Rpc.

(** A [HEAD] request is answered like [GET], without the body. *)
Inductive Method := GET | POST | OtherMethod.

#[export] Instance Method_eq_dec : EqDecision Method.
Proof. solve_decision. Defined.

(** The handlers, by name. *)
Inductive Endpoint :=
  | EStatus | EHealth | EChain | EStats | EPeers | EBalance | ELatestBlocks | EBlockByHeight
  | EBlockByHash | ETx | EAddress | EAccounts | EMempool | ESubmitTx.

#[export] Instance Endpoint_eq_dec : EqDecision Endpoint.
Proof. solve_decision. Defined.

Definition Route : Type := string * Method * Endpoint.

Definition routes : list Route :=
  [("/", GET, EStatus);
   ("/status", GET, EStatus);
   ("/health", GET, EHealth);
   ("/chain", GET, EChain);
   ("/stats", GET, EStats);
   ("/chain/stats", GET, EStats);
   ("/peers", GET, EPeers);
   ("/balance/{address}", GET, EBalance);
   ("/blocks/latest", GET, ELatestBlocks);
   ("/blocks/{height}", GET, EBlockByHeight);
   ("/blocks/hash/{hash}", GET, EBlockByHash);
   ("/tx/{hash}", GET, ETx);
   ("/address/{address}", GET, EAddress);
   ("/accounts", GET, EAccounts);
   ("/mempool", GET, EMempool);
   ("/tx", POST, ESubmitTx);
   ("/transaction", POST, ESubmitTx)].

(** ** Paths *)

(** The segments between slashes. *)
Fixpoint segments (s : string) : list string :=
  match s with
  | EmptyString => [EmptyString]
  | String c s' =>
      if bool_decide (c = Ascii.ascii_of_nat 47) then EmptyString :: segments s'
      else
        match segments s' with
        | seg :: rest => String c seg :: rest
        | [] => [String c EmptyString]
        end
  end.

Definition is_capture (segment : string) : bool :=
  match segment with String c _ => bool_decide (c = Ascii.ascii_of_nat 123) | EmptyString => false end.

(** Letters, digits and the other characters that are never percent-encoded. *)
Definition plain_char (c : Ascii.ascii) : bool :=
  let n := Z.of_nat (Ascii.nat_of_ascii c) in
  bool_decide (48 ≤ n ≤ 57) || bool_decide (65 ≤ n ≤ 90) || bool_decide (97 ≤ n ≤ 122) ||
  bool_decide (n ∈ [45; 46; 95; 126]).
Fixpoint plain (s : string) : bool :=
  match s with EmptyString => true | String c s' => plain_char c && plain s' end.

(** A segment of a pattern takes an equal segment, or captures a plain one. *)
Fixpoint match_segments (pattern path : list string) : option (list string) :=
  match pattern, path with
  | [], [] => Some []
  | p :: pattern', s :: path' =>
      if is_capture p then
        if bool_decide (s = EmptyString) || negb (plain s) then None else (cons s) <$> match_segments pattern' path'
      else if bool_decide (p = s) then match_segments pattern' path' else None
  | _, _ => None
  end.
Definition match_path (pattern path : string) : option (list string) :=
  match_segments (segments pattern) (segments path).

Definition captures (pattern : string) : nat := length (filter (λ s, is_capture s = true) (segments pattern)).

(** ** The router *)

Inductive Dispatched :=
  | Matched (endpoint : Endpoint) (captured : list string)
  | Refused (status : Z).

#[export] Instance Dispatched_eq_dec : EqDecision Dispatched.
Proof. solve_decision. Defined.

(** [axum::Router] built from a table, and the extractor [Json]: the field of a
    well-formed body, or the status of the rejection. *)
Class Router := {
  dispatch : list Route → Method → string → Dispatched;
  json_tx : string → result Z string;
}.

(** What axum documents: only the routes of the table are served, each for its
    own method; a path that is a route of its own is preferred to one that
    captures, and otherwise the pattern that matches is taken. *)
Class RouterLaws `{Router} : Prop := {
  dispatch_sound m path e cs : dispatch routes m path = Matched e cs →
    ∃ pattern, (pattern, m, e) ∈ routes ∧ length cs = captures pattern;
  dispatch_static m path e : (path, m, e) ∈ routes → captures path = 0%nat →
    dispatch routes m path = Matched e [];
  dispatch_capture m pattern path e cs : (pattern, m, e) ∈ routes →
    match_path pattern path = Some cs → (∀ m' e', (path, m', e') ∉ routes) →
    dispatch routes m path = Matched e cs;
}.

(** ** Serving a request *)

Inductive HttpAnswer :=
  | Answered (response : Response)
  | AxumError (status : Z).

Section routes.
Context `{Paqus, !ChainParams, Kv, Lmdb, Clock, !Storage.Codecs, !PeerWorld, !Service.ServiceEnv}.
Context `{!Wallet.Crypto, !Wallet.WalletEnv, !ExplorerEnv, !Router}.
Context (try_from_slice : bytes → result string SignedTransaction).

Definition answer (h : Handler) (s : RpcState) : HttpAnswer * RpcState :=
  let '(r, s') := h s in (Answered r, s').

(** The handler of an endpoint with what axum extracts for it: [AxumPath<u64>]
    parses the captured segment, and a failed extraction never reaches the
    handler. *)
Definition call (e : Endpoint) (captured : list string) (body : string) (s : RpcState) :
    HttpAnswer * RpcState :=
  match e, captured with
  | EStatus, [] => answer rpc_status s
  | EHealth, [] => answer rpc_health s
  | EChain, [] => answer rpc_chain s
  | EStats, [] => answer rpc_stats s
  | EPeers, [] => answer rpc_peers s
  | EBalance, [address] => answer (rpc_balance address) s
  | ELatestBlocks, [] => answer rpc_latest_blocks s
  | EBlockByHeight, [height] =>
      match Config.parse_uint u64_max height with
      | Ok h => answer (rpc_block_by_height h) s
      | Err _ => (AxumError BAD_REQUEST, s)
      end
  | EBlockByHash, [hash] => answer (rpc_block_by_hash hash) s
  | ETx, [hash] => answer (rpc_tx hash) s
  | EAddress, [address] => answer (rpc_address address) s
  | EAccounts, [] => answer rpc_accounts s
  | EMempool, [] => answer rpc_mempool s
  | ESubmitTx, [] =>
      match json_tx body with
      | Ok tx => answer (rpc_submit_tx try_from_slice tx) s
      | Err status => (AxumError status, s)
      end
  | _, _ => (AxumError INTERNAL_SERVER_ERROR, s)
  end.

Definition serve (m : Method) (path body : string) (s : RpcState) : HttpAnswer * RpcState :=
  match dispatch routes m path with
  | Matched e captured => call e captured body s
  | Refused status => (AxumError status, s)
  end.

End routes.

(** ** The table *)

(** What a pattern looks like to the router: capture names do not matter. *)
Definition shape (pattern : string) : list string :=
  (λ s, if is_capture s then "{}" else s) <$> segments pattern.

End Routes.
