(* ===== verification/RoutesProps.v ===== *)
(** * RoutesProps: every request reaches the right handler

    The table of routes is unambiguous, a [GET] request never changes
    anything, and the requests of the wallet reach their handlers.  A concrete
    router satisfies the laws. *)

From S2P Require Import Prelude Collections Core Mempool Bytes Storage Node NodeFacts NodeShared Network.
From S2P Require Import P2p Gossip Wallet Config Service Explorer ExplorerProps Rpc RpcProps Routes.

Open Scope string_scope.
Open Scope list_scope.
Open Scope Z_scope.

Module RoutesProps.
Import Node Network P2p Gossip Explorer Rpc RpcProps Routes.

(** The router can be built: no two routes have the same method and the same
    shape, and a static path takes precedence over only one pattern, that of
    the blocks by height. *)
Theorem routes_do_not_clash :
  NoDup ((λ r : Route, (shape r.1.1, r.1.2)) <$> routes) ∧
  ∀ p m e p' m' e', (p, m, e) ∈ routes → (p', m', e') ∈ routes → p ≠ p' →
    captures p = 0%nat → is_Some (match_path p' p) →
    p = "/blocks/latest" ∧ p' = "/blocks/{height}".
Proof.
  split; [by_eval|].
  assert (Forall (λ r : Route, Forall (λ r' : Route, r.1.1 = r'.1.1 ∨ captures r.1.1 ≠ 0%nat ∨
    match_path r'.1.1 r.1.1 = None ∨
    (r.1.1 = "/blocks/latest" ∧ r'.1.1 = "/blocks/{height}")) routes) routes) as Hall by by_eval.
  intros p m e p' m' e' Hp Hp' Hne Hc [cs Hm]. rewrite Forall_forall in Hall.
  specialize (Hall _ Hp). rewrite Forall_forall in Hall. specialize (Hall _ Hp'). cbn [fst snd] in Hall.
  destruct Hall as [|[|[|]]]; [done|done|congruence|done].
Qed.

(** ** Segments *)

Lemma segments_cons s : ∃ seg rest, segments s = seg :: rest.
Proof.
  destruct s as [|c s]; cbn [segments]; [by eexists _, _|]. case_bool_decide; [by eexists _, _|].
  destruct (segments s); by eexists _, _.
Qed.

Lemma segments_app s u us : segments u = EmptyString :: us → segments (s +:+ u) = segments s ++ us.
Proof.
  intros Hu. induction s as [|c s IH]; [done|].
  change (String c s +:+ u) with (String c (s +:+ u)). cbn [segments]. rewrite IH.
  case_bool_decide; [done|]. by destruct (segments_cons s) as (seg & rest & ->).
Qed.

Lemma segments_slash s t : segments (s +:+ "/" +:+ t) = segments s ++ segments t.
Proof. by apply segments_app. Qed.

Lemma segments_plain s : plain s = true → segments s = [s].
Proof.
  induction s as [|c s IH]; [done|]. cbn [plain segments]. intros [Hc Hs]%andb_true_iff.
  rewrite bool_decide_eq_false_2 by (by intros ->). by rewrite (IH Hs).
Qed.

Section serving.
Context `{Paqus, !ChainParams, Kv, Lmdb, Clock, !Storage.Codecs, !PeerWorld, !Service.ServiceEnv}.
Context `{!Wallet.Crypto, !Wallet.WalletEnv, !ExplorerEnv, !Router, !RouterLaws}.
Context (try_from_slice : bytes → result string SignedTransaction).
Implicit Types s : RpcState.

(** The handlers that a [GET] request can reach are the reading ones. *)
Definition reading (e : Endpoint) : Prop := e ≠ ESubmitTx.

Lemma get_reads e pattern : (pattern, GET, e) ∈ routes → reading e.
Proof.
  assert (Forall (λ r : Route, r.1.2 = GET → r.2 ≠ ESubmitTx) routes) as Hall by by_eval.
  rewrite Forall_forall in Hall. intros Hin. by apply (Hall _ Hin).
Qed.

Lemma answer_untouched address hash height h s :
  h ∈ reading_handlers address hash height → untouched s (answer h s).2.
Proof.
  intros Hh. unfold answer. pose proof (proj1 (Forall_forall _ _)
    (reading_handlers_untouched address hash height s) _ Hh) as Hu. cbv beta in Hu. by destruct (h s).
Qed.

Lemma call_untouched e cs body s : reading e → untouched s (call try_from_slice e cs body s).2.
Proof.
  intros He. unfold call. destruct e, cs as [|c [|c' cs]]; try apply untouched_refl;
    try (by destruct He); try (destruct (Config.parse_uint _ _) as [h|]; [|apply untouched_refl]);
    first [eapply (answer_untouched c c h)|eapply (answer_untouched c c 0)|eapply (answer_untouched "/" "/" 0)];
    unfold reading_handlers; rewrite !elem_of_cons; naive_solver.
Qed.

(** C21: no [GET] request changes anything, whatever its path, also when the
    database fails or an argument is invalid: afterwards the node is what the other
    threads made of it, up to the counters of its reads, the tables of peers and
    connections are what the other threads made of them while the request waited
    for their locks, nothing was sent to a peer, and the configuration, the mining
    statistics, the saved peers and the counters of accepted and broadcast
    transactions stand. *)
Theorem get_requests_change_nothing path body s :
  untouched s (serve try_from_slice GET path body s).2.
Proof.
  unfold serve. destruct (dispatch routes GET path) as [e cs|status] eqn:E; [|apply untouched_refl].
  apply dispatch_sound in E as (pattern & Hin & _). eapply call_untouched, get_reads, Hin.
Qed.

(** The requests of the wallet reach the handlers they are meant for: its two
    queries, whatever the plain text of the address, and the posted
    transaction. *)
Theorem wallet_requests_routed address body s :
  plain address = true → address ≠ EmptyString →
  serve try_from_slice GET ("/balance/" +:+ address) body s = answer (rpc_balance address) s ∧
  serve try_from_slice GET "/mempool" body s = answer rpc_mempool s ∧
  (∀ tx, json_tx body = Ok tx →
    serve try_from_slice POST "/tx" body s = answer (rpc_submit_tx try_from_slice tx) s).
Proof.
  intros Hp Hne. unfold serve. split_and!.
  - rewrite (dispatch_capture GET "/balance/{address}" _ EBalance [address]); [done|by_eval| |].
    + unfold match_path. change ("/balance/" +:+ address) with ("/balance" +:+ "/" +:+ address).
      rewrite (segments_slash "/balance" address), (segments_plain address) by done.
      change (segments "/balance/{address}") with [EmptyString; "balance"; "{address}"].
      change (segments "/balance") with [EmptyString; "balance"]. cbn [app match_segments].
      rewrite !bool_decide_eq_true_2 by done. cbn [is_capture].
      rewrite (bool_decide_eq_false_2 (address = _)) by done. rewrite Hp. done.
    + intros m' e' Hin. unfold routes in Hin. rewrite !elem_of_cons, elem_of_nil in Hin.
      repeat destruct Hin as [Hin|Hin]; try done.
      assert (address = "{address}") as -> by (cbv in Hin; congruence). done.
  - rewrite (dispatch_static GET "/mempool" EMempool); [done|by_eval|done].
  - intros tx Htx. rewrite (dispatch_static POST "/tx" ESubmitTx); [|by_eval|done]. cbn [call]. by rewrite Htx.
Qed.

End serving.
End RoutesProps.

(** ** A router

    The laws hold for the router that looks for the path itself first and then
    takes the first pattern that matches. *)

Module RouterDemo.
Import Routes RoutesProps.

Definition exact (m : Method) (path : string) (r : Route) : bool :=
  bool_decide (r.1.1 = path) && bool_decide (r.1.2 = m) && bool_decide (captures path = 0%nat).
Definition matching (m : Method) (path : string) (r : Route) : option (Endpoint * list string) :=
  if bool_decide (r.1.2 = m) then (λ cs, (r.2, cs)) <$> match_path r.1.1 path else None.

#[export] Instance first_match : Router := {|
  dispatch t m path :=
    match list_find (λ r, exact m path r = true) t with
    | Some (_, r) => Matched r.2 []
    | None => match omap (matching m path) t with (e, cs) :: _ => Matched e cs | [] => Refused 404 end
    end;
  json_tx body := if bool_decide (body = EmptyString) then Err 400 else Ok body;
|}.

Lemma match_captures pattern : ∀ path cs, match_segments pattern path = Some cs →
  length cs = length (filter (λ s, is_capture s = true) pattern).
Proof.
  induction pattern as [|p pattern IH]; intros [|s path] cs; cbn [match_segments]; try done; [by intros [= <-]|].
  rewrite filter_cons. destruct (is_capture p) eqn:Ep.
  - case_match; [done|]. rewrite decide_True by done. intros (cs' & Hm & ->)%fmap_Some.
    cbn. f_equal. by eapply IH.
  - rewrite decide_False by done. case_bool_decide; [|done]. apply IH.
Qed.

(** Two patterns that match one path agree on their literal segments. *)
Fixpoint compatible (p q : list string) : bool :=
  match p, q with
  | [], [] => true
  | a :: p', b :: q' => (is_capture a || is_capture b || bool_decide (a = b)) && compatible p' q'
  | _, _ => false
  end.

Lemma match_cons a p x path cs : match_segments (a :: p) (x :: path) = Some cs →
  (is_capture a = true ∨ a = x) ∧ is_Some (match_segments p path).
Proof.
  cbn [match_segments]. destruct (is_capture a).
  - case_match; [done|]. intros (cs' & -> & _)%fmap_Some. auto.
  - case_bool_decide; [|done]. intros ->. auto.
Qed.

Lemma match_compatible p : ∀ q path cs cs', match_segments p path = Some cs →
  match_segments q path = Some cs' → compatible p q = true.
Proof.
  induction p as [|a p IH]; intros [|b q] [|x path] cs cs'; try done.
  intros [Ha [cp Hp]]%match_cons [Hb [cq Hq]]%match_cons. cbn [compatible]. rewrite (IH _ _ _ _ Hp Hq).
  destruct Ha as [->| ->], Hb as [->| ->]; rewrite ?orb_true_r; try done.
  by rewrite bool_decide_eq_true_2, orb_true_r.
Qed.

Lemma match_literal p : ∀ path, match_segments p path = Some [] →
  Forall (λ s, is_capture s = false) p → path = p.
Proof.
  induction p as [|a p IH]; intros [|s path]; cbn [match_segments]; try done.
  intros Hm [Ha Hp]%Forall_cons. rewrite Ha in Hm. case_bool_decide; [|done]. subst. f_equal. by apply IH.
Qed.

Lemma segments_inj s : ∀ t, segments s = segments t → s = t.
Proof.
  induction s as [|c s IH]; intros [|d t]; cbn [segments]; try done.
  - case_bool_decide; destruct (segments_cons t) as (? & ? & E); rewrite E; done.
  - case_bool_decide; destruct (segments_cons s) as (? & ? & E); rewrite E; done.
  - destruct (segments_cons s) as (a & l & Es), (segments_cons t) as (b & l' & Et).
    repeat case_bool_decide; subst; rewrite ?Es, ?Et; intros Heq; try congruence.
    + f_equal. apply IH. congruence.
    + injection Heq as -> -> ->. f_equal. apply IH. congruence.
Qed.

Lemma static_match pattern path cs : match_path pattern path = Some cs → captures pattern = 0%nat → path = pattern.
Proof.
  unfold match_path, captures. intros Hm Hc. pose proof (match_captures _ _ _ Hm) as Hl. rewrite Hc in Hl.
  apply nil_length_inv in Hl as ->. apply segments_inj, match_literal; [done|].
  apply nil_length_inv in Hc. apply Forall_forall. intros x Hx. destruct (is_capture x) eqn:E; [|done].
  assert (x ∈ filter (λ s, is_capture s = true) (segments pattern)) as Hin by (by apply list_elem_of_filter).
  rewrite Hc in Hin. by apply elem_of_nil in Hin.
Qed.

Lemma routes_apart : Forall (λ r : Route, Forall (λ r' : Route,
  r.1.2 = r'.1.2 → compatible (segments r.1.1) (segments r'.1.1) = true →
  r = r' ∨ captures r.1.1 = 0%nat ∨ captures r'.1.1 = 0%nat) routes) routes.
Proof. by_eval. Qed.

#[export] Instance first_match_laws : RouterLaws.
Proof.
  split.
  - intros m path e cs. cbn [dispatch first_match]. destruct (list_find _ routes) as [[i r]|] eqn:E.
    + apply list_find_Some in E as (Hr & Hx & _). intros [= <- <-]. unfold exact in Hx.
      rewrite !andb_true_iff, !bool_decide_eq_true in Hx. destruct Hx as [[<- <-] Hc].
      exists r.1.1. split; [|done]. destruct r as [[p m] e]. by eapply list_elem_of_lookup_2.
    + destruct (omap _ routes) as [|[e' cs'] l] eqn:Eo; [done|]. intros [= -> ->].
      assert ((e, cs) ∈ omap (matching m path) routes) as Hin by (rewrite Eo; by left).
      apply list_elem_of_omap in Hin as ([[p m'] e'] & Hr & Hm). unfold matching in Hm. cbn [fst snd] in Hm.
      case_bool_decide; [subst m'|done]. apply fmap_Some in Hm as (cs1 & Hm & [= -> ->]).
      exists p. split; [done|]. by eapply match_captures.
  - intros m path e Hin Hc.
    assert (Forall (λ r : Route, captures r.1.1 = 0%nat → dispatch routes r.1.2 r.1.1 = Matched r.2 []) routes)
      as Hall by by_eval.
    rewrite Forall_forall in Hall. exact (Hall _ Hin Hc).
  - intros m pattern path e cs Hin Hm Hno. cbn [dispatch first_match].
    destruct (list_find _ routes) as [[i r]|] eqn:E.
    { apply list_find_Some in E as (Hr%list_elem_of_lookup_2 & Hx & _). unfold exact in Hx.
      rewrite !andb_true_iff, !bool_decide_eq_true in Hx. destruct Hx as [[<- <-] _].
      destruct r as [[p m'] e']. by apply Hno in Hr. }
    assert ((e, cs) ∈ omap (matching m path) routes) as Hin'.
    { apply list_elem_of_omap. exists (pattern, m, e). split; [done|]. unfold matching. cbn [fst snd].
      rewrite bool_decide_eq_true_2 by done. by rewrite Hm. }
    destruct (omap _ routes) as [|[e' cs'] l] eqn:Eo; [by apply elem_of_nil in Hin'|].
    assert ((e', cs') ∈ omap (matching m path) routes) as Hx by (rewrite Eo; by left).
    apply list_elem_of_omap in Hx as ([[p m'] e1] & Hr & Hm'). unfold matching in Hm'. cbn [fst snd] in Hm'.
    case_bool_decide; [subst m'|done]. apply fmap_Some in Hm' as (cs1 & Hm' & [= -> ->]).
    pose proof routes_apart as Ha. rewrite Forall_forall in Ha. specialize (Ha _ Hin).
    rewrite Forall_forall in Ha. specialize (Ha _ Hr eq_refl (match_compatible _ _ _ _ _ Hm Hm')).
    destruct Ha as [[= -> ->]|[Hc|Hc]]; [congruence| |].
    + apply (static_match _ _ _ Hm) in Hc as ->. by apply Hno in Hin.
    + apply (static_match _ _ _ Hm') in Hc as ->. by apply Hno in Hr.
Qed.
End RouterDemo.
