(* ===== verification/Daemon.v ===== *)
(** * Daemon: the loop of the service ([NodeService] of [src/main.rs])

    The checks before the start, the calls of the gateway, the accepting of
    connections, one round of the loop and the shutdown, on top of [Service].
    The monotonic clock, the shutdown file and the listeners are oracles; the
    calls of the gateway go through [Gateway] and [Http]. *)

From S2P Require Import Prelude Collections Core Mempool Bytes Storage Node Network.
From S2P Require Import P2p Gossip Wallet Config Http Gateway Service.

Open Scope string_scope.
Open Scope list_scope.
Open Scope Z_scope.

Module Daemon.
Import Node Network P2p Gossip Service.

Definition ACTIVITY_LOG_INTERVAL : Z := 15.
Definition STATUS_INTERVAL : Z := 30.

(** What a call of [accept] on a listener gives: for a connection, whether its
    writing half could be set up and its thread started. *)
Inductive AcceptOutcome :=
  | WouldBlock
  | Incoming (peer : SocketAddr) (writer : result string nat) (spawned : result string ())
  | AcceptError (error : string).

Inductive DaemonError :=
  | ServiceFailed (error : ServiceError)
  | ShutdownFileExists
  | MissingMinerKey
  | MinerKeyMismatch (address : Address)
  | AcceptFailed (error : string)
  | SpawnFailed (error : string)
  | ShutdownFlushFailed (error : NodeError).

Inductive Flow := Continue | Stopped.

Section daemon.
Context `{Paqus, !ChainParams, Kv, Lmdb, Clock, !Storage.Codecs, !PeerWorld, !ServiceEnv}.
Context `{!Wallet.Crypto, !Wallet.WalletEnv, !Config.ConfigEnv, !Http.HttpWorld, !Gateway.GatewayJson}.

Class DaemonEnv := {
  monotonic : nat → Instant;
  shutdown_file_exists : nat → bool;
  listeners : nat;
  accept : nat → nat → AcceptOutcome;
}.

Record Daemon := mkDaemon {
  svc : Service;
  last_mine : Instant;
  last_status : Instant;
  last_gateway_heartbeat : Instant;
  last_activity_log : Instant;
  last_activity : NodeActivity;
  clock : nat;
  files : nat;
  accepts : nat;
  gateway_updates : list (SocketAddr * result string ());
  gateway_calls : nat;
}.

Definition set_svc (x : Service) (d : Daemon) : Daemon :=
  mkDaemon x (last_mine d) (last_status d) (last_gateway_heartbeat d) (last_activity_log d)
    (last_activity d) (clock d) (files d) (accepts d) (gateway_updates d) (gateway_calls d).
Definition set_last_mine (x : Instant) (d : Daemon) : Daemon :=
  mkDaemon (svc d) x (last_status d) (last_gateway_heartbeat d) (last_activity_log d)
    (last_activity d) (clock d) (files d) (accepts d) (gateway_updates d) (gateway_calls d).
Definition set_last_status (x : Instant) (d : Daemon) : Daemon :=
  mkDaemon (svc d) (last_mine d) x (last_gateway_heartbeat d) (last_activity_log d)
    (last_activity d) (clock d) (files d) (accepts d) (gateway_updates d) (gateway_calls d).
Definition set_last_gateway_heartbeat (x : Instant) (d : Daemon) : Daemon :=
  mkDaemon (svc d) (last_mine d) (last_status d) x (last_activity_log d)
    (last_activity d) (clock d) (files d) (accepts d) (gateway_updates d) (gateway_calls d).
Definition set_last_activity (x : NodeActivity) (t : Instant) (d : Daemon) : Daemon :=
  mkDaemon (svc d) (last_mine d) (last_status d) (last_gateway_heartbeat d) t
    x (clock d) (files d) (accepts d) (gateway_updates d) (gateway_calls d).
Definition set_clock (x : nat) (d : Daemon) : Daemon :=
  mkDaemon (svc d) (last_mine d) (last_status d) (last_gateway_heartbeat d) (last_activity_log d)
    (last_activity d) x (files d) (accepts d) (gateway_updates d) (gateway_calls d).
Definition set_files (x : nat) (d : Daemon) : Daemon :=
  mkDaemon (svc d) (last_mine d) (last_status d) (last_gateway_heartbeat d) (last_activity_log d)
    (last_activity d) (clock d) x (accepts d) (gateway_updates d) (gateway_calls d).
Definition set_accepts (x : nat) (d : Daemon) : Daemon :=
  mkDaemon (svc d) (last_mine d) (last_status d) (last_gateway_heartbeat d) (last_activity_log d)
    (last_activity d) (clock d) (files d) x (gateway_updates d) (gateway_calls d).
Definition called_gateway (u : list (SocketAddr * result string ())) (d : Daemon) : Daemon :=
  mkDaemon (svc d) (last_mine d) (last_status d) (last_gateway_heartbeat d) (last_activity_log d)
    (last_activity d) (clock d) (files d) (accepts d) (gateway_updates d ++ u) (S (gateway_calls d)).

Context `{!DaemonEnv}.
Abbreviation D := (SE Daemon DaemonError).

Definition on_service {A} (m : SE Service ServiceError A) : D A := zoom svc set_svc ServiceFailed m.

(** [Instant::now()] and [elapsed()] *)
Definition now : D Instant := λ d, (Ok (monotonic (clock d)), set_clock (S (clock d)) d).
Definition elapsed (since : Instant) : D Z := t ← now; mret (sat_sub t since).

(** [fs::metadata(&self.config.shutdown_file).is_ok()] *)
Definition shutdown_requested : D bool := λ d,
  (Ok (shutdown_file_exists (files d)), set_files (S (files d)) d).

(** ** Activity *)

Definition set_activity (a : NodeActivity) : D () :=
  d ← get_state;
  stale ← (if bool_decide (a = last_activity d)
           then e ← elapsed (last_activity_log d); mret (bool_decide (ACTIVITY_LOG_INTERVAL ≤ e))
           else mret true);
  if stale : bool then t ← now; modify (set_last_activity a t) else mret tt.

Definition log_activity : D () :=
  a ← on_service activity;
  d ← get_state;
  changed ← (if bool_decide (a ≠ last_activity d) then mret true
             else e ← elapsed (last_activity_log d); mret (bool_decide (ACTIVITY_LOG_INTERVAL ≤ e)));
  if changed : bool then t ← now; modify (set_last_activity a t) else mret tt.

(** ** The gateway *)

(** Registration or heartbeat of one public address; a failure is only logged. *)
Definition update_gateway (register : bool) (url : string) (best_height : option Z)
    (tip_hash : option string) (d : Daemon) (addr : SocketAddr) : Daemon :=
  let call := gateway_calls d in
  let result :=
    if register then Gateway.register_peer call url addr best_height tip_hash
    else Gateway.heartbeat_peer call url addr best_height tip_hash in
  called_gateway [(addr, result)] d.

(** [public_addrs.first().or_else(|| listen_addrs.first())] *)
Definition excluded (c : Config.RunConfig) : option SocketAddr :=
  match head (Config.public_addrs c) with
  | Some addr => Some addr
  | None => head (Config.listen_addrs c)
  end.

Definition query_gateway (url : string) (available : Z) (d : Daemon) : Daemon :=
  let answer := Gateway.request_gateway_peers (gateway_calls d) url (Z.min available 32)
    (excluded (cfg (svc d))) in
  let d := called_gateway [] d in
  match answer with
  | Ok [] | Err _ => d
  | Ok infos => set_svc (learn_peers infos (svc d)) d
  end.

Definition stamp_heartbeat (d : Daemon) : Daemon :=
  set_last_gateway_heartbeat (monotonic (clock d)) (set_clock (S (clock d)) d).

Definition refresh_gateway_peers (register : bool) (d : Daemon) : Daemon :=
  match Config.gateway_url (cfg (svc d)) with
  | None => d
  | Some url =>
      match with_node (gets (λ n, (node_tip_height n,
              (λ h, Gateway.hex_encode (be_bytes HASH_SIZE h)) <$> node_tip_hash n))) (svc d) with
      | (Err _, s) => set_svc s d
      | (Ok (best_height, tip_hash), s) =>
          let d := foldl (update_gateway register url best_height tip_hash) (set_svc s d)
            (Config.public_addrs (cfg s)) in
          let '(ok, w) := lock (world (svc d)) in
          let d := set_svc (set_world w (svc d)) d in
          if ok : bool then
            let available := sat_sub (Config.max_peers (cfg (svc d)))
              (Z.of_nat (size (peers (tables w)))) in
            stamp_heartbeat (if bool_decide (0 < available) then query_gateway url available d else d)
          else d
      end
  end.

(** ** Before the start *)

(** [poll_peer]: a connection of its own, dropped afterwards. *)
Definition poll_peer (peer : SocketAddr) : SE Service ServiceError PeerPoll := λ s,
  let w := world s in
  let s := set_world (mkWorld (tables w) (S (events w)) (delivered w)) s in
  match connect (events w) peer with
  | Err e => (Err (ConnectFailed e), s)
  | Ok _ =>
      zoom session set_session PollFailed
        (poll_peer_connection (H5 := wire peer) (addr_to_string <$> Config.public_addrs (cfg s))) s
  end.

Definition preflight_peer (s : Service) (peer : SocketAddr) : Service :=
  match poll_peer peer s with
  | (Ok (Idle remote_tip), s) | (Ok (Synced remote_tip), s) =>
      update_peer peer (λ now, mark_ok now (Some remote_tip)) s
  | (Err _, s) => update_peer peer mark_failed s
  end.

(** The miner's key, when the node mines. *)
Definition check_miner (c : Config.RunConfig) : result DaemonError () :=
  if Config.mine c then
    secret_key ← ok_or (Config.miner_secret_key c) MissingMinerKey;
    let derived_address := Wallet.address_from_public_key (Wallet.derive_public_key secret_key) in
    if bool_decide (derived_address ≠ Config.miner_address c)
    then Err (MinerKeyMismatch (Config.miner_address c)) else Ok tt
  else Ok tt.

Definition preflight : D () :=
  stop ← shutdown_requested;
  if stop : bool then throw ShutdownFileExists
  else
    on_service (with_node (method DifficultyFailed next_difficulty)) ;;
    d ← get_state;
    lift (check_miner (cfg (svc d))) ;;
    modify (refresh_gateway_peers true) ;;
    on_service (with_tables PeerLockPoisoned (λ s,
      (Ok tt, foldl preflight_peer s (keys (peers (tables (world s))) (world s))))) ;;
    on_service save_peers ;;
    on_service (with_node (attempt (F := ServiceError) (method DifficultyFailed next_difficulty))) ;;
    mret tt.

(** ** Connections *)

(** A connection that was accepted: it is registered when its writing half is
    set up, and served by a thread of its own. *)
Definition take_connection (peer : SocketAddr) (writer : result string nat)
    (spawned : result string ()) : D () :=
  set_activity ServingPeers ;;
  modify (λ d,
    let '(ok, w) := lock (world (svc d)) in
    let w := match ok, writer with
             | true, Ok stream => set_tables (set_inbound_connections
                 (<[peer := mkConnection peer stream]> (inbound_connections (tables w))) (tables w)) w
             | _, _ => w
             end in
    set_svc (set_world w (svc d)) d) ;;
  lift (map_err SpawnFailed spawned).

Definition call_accept (index : nat) : D AcceptOutcome := λ d,
  (Ok (accept (accepts d) index), set_accepts (S (accepts d)) d).

(** One pass over the listeners: whether one of them had a connection. *)
Fixpoint accept_pass (indices : list nat) (accepted : bool) : D bool :=
  match indices with
  | [] => mret accepted
  | index :: indices' =>
      outcome ← call_accept index;
      match outcome with
      | WouldBlock => accept_pass indices' accepted
      | Incoming peer writer spawned => take_connection peer writer spawned ;; accept_pass indices' true
      | AcceptError error => throw (AcceptFailed error)
      end
  end.

(** The loop, for at most [fuel] passes; [None] when they were not enough. *)
Fixpoint accept_loop (fuel : nat) : D (option ()) :=
  match fuel with
  | O => mret None
  | S fuel' =>
      accepted ← accept_pass (seq 0 listeners) false;
      if accepted : bool then accept_loop fuel' else mret (Some tt)
  end.

(** What the thread of a connection reads; its end is the end of the stream.
    Both kinds of errors end the loop. *)
Inductive InboundEvent :=
  | Received (message : NetworkMessage) (answered : result string ())
  | Unreadable.

(** [handle_p2p_stream_task] *)
Fixpoint handle_p2p_stream_task (events : list InboundEvent) : SE Service ServiceError () :=
  match events with
  | [] | Unreadable :: _ => mret tt
  | Received message answered :: events' =>
      response ← handle_inbound message;
      match response with
      | Some _ =>
          match answered with
          | Ok _ => handle_p2p_stream_task events'
          | Err e => throw (ConnectFailed e)
          end
      | None => handle_p2p_stream_task events'
      end
  end.

(** The whole thread: the connection is removed when the task ends. *)
Definition inbound_thread (peer : SocketAddr) (events : list InboundEvent) (s : Service) : Service :=
  let s := (handle_p2p_stream_task events s).2 in
  set_world (drop_inbound peer (world s)) s.

(** ** One round *)

Definition shutdown : D () :=
  zoom svc set_svc (λ e, e)
    (zoom session set_session (λ e, e)
      (locked_or (H5 := own_wire) (ServiceFailed NodeLockPoisoned)
        (zoom id (λ n _, n) ShutdownFlushFailed flush_to_storage))) ;;
  on_service save_peers ;;
  on_service (with_tables PeerLockPoisoned (gets (λ s, size (peer_table s)))) ;;
  mret tt.

(** A mining attempt, and the block to every peer. *)
Definition mining_round : D () :=
  reason ← on_service mining_wait_reason;
  match reason with
  | Some _ => mret tt
  | None =>
      set_activity Mining ;;
      block ← on_service mine_once_unlocked;
      match block with
      | Some block =>
          modify (λ d, set_svc (set_world (broadcast (BlockMessage block) (world (svc d))).2 (svc d)) d)
      | None => mret tt
      end
  end ;;
  t ← now; modify (set_last_mine t).

(** The status line takes the four locks; only their failures matter. *)
Definition status_round : D () :=
  on_service (with_node (attempt (F := ServiceError) (method DifficultyFailed next_difficulty))) ;;
  on_service (with_tables PeerLockPoisoned (mret tt)) ;;
  on_service (with_tables ConnectionLockPoisoned (mret tt)) ;;
  on_service (with_tables InboundLockPoisoned (mret tt)) ;;
  t ← now; modify (set_last_status t).

(** One iteration of [run]; [fuel] bounds the passes of [accept_p2p]. *)
Definition round (fuel : nat) : D Flow :=
  stop ← shutdown_requested;
  if stop : bool then shutdown ;; mret Stopped
  else
    accept_loop fuel ;;
    modify (λ d, set_svc (sync_peers (svc d)) d) ;;
    d ← get_state;
    beat ← elapsed (last_gateway_heartbeat d);
    (if bool_decide (Config.gateway_heartbeat (cfg (svc d)) ≤ beat)
     then modify (refresh_gateway_peers false) else mret tt) ;;
    log_activity ;;
    d ← get_state;
    due ← (if Config.mine (cfg (svc d))
           then e ← elapsed (last_mine d); mret (bool_decide (Config.mine_interval (cfg (svc d)) ≤ e))
           else mret false);
    (if due : bool then mining_round else mret tt) ;;
    d ← get_state;
    since ← elapsed (last_status d);
    (if bool_decide (STATUS_INTERVAL ≤ since) then status_round else mret tt) ;;
    mret Continue.

(** The rounds until the shutdown file appears. *)
Fixpoint run (rounds fuel : nat) : D Flow :=
  match rounds with
  | O => mret Continue
  | S rounds' =>
      flow ← round fuel;
      match flow with
      | Stopped => mret Stopped
      | Continue => run rounds' fuel
      end
  end.

(** [Instant::now().checked_sub(d).unwrap_or_else(Instant::now)] at the [k]-th
    reading of the clock: an instant counts its seconds in an [i64]. The second
    component is the next reading. *)
Definition checked_sub_or_now (k : nat) (d : Z) : Instant * nat :=
  if bool_decide (-9223372036854775808 ≤ monotonic k - d) then (monotonic k - d, S k)
  else (monotonic (S k), S (S k)).

(** [NodeService::new] *)
Definition new_daemon (s : Service) : Daemon :=
  let '(heartbeat, k) := checked_sub_or_now 0 (Config.gateway_heartbeat (cfg s)) in
  let '(activity_log, k') := checked_sub_or_now (S (S k)) ACTIVITY_LOG_INTERVAL in
  mkDaemon s (monotonic k) (monotonic (S k)) heartbeat activity_log Starting k' 0 0 [] 0.

(** ** [run_node] *)

(** The pool with the fees and times of the configuration. *)
Definition configure_pool (c : Config.RunConfig) (n : Node) : Node :=
  set_mempool (Mempool.with_config {|
    Mempool.max_transactions := Mempool.max_transactions Mempool.default_config;
    Mempool.max_bytes := Mempool.max_bytes Mempool.default_config;
    Mempool.transaction_ttl_secs := Config.mempool_expiry c;
    Mempool.low_fee_ttl_secs := Config.low_fee_expiry c;
    Mempool.min_relay_fee := Config.min_relay_fee c;
    Mempool.market_fee := Config.market_fee c;
  |}) n.

(** From the opened node and the peers of the file to the service. *)
Definition start_service (file_peers : list SocketAddr) (c : Config.RunConfig) (n : Node) :
    result string Daemon :=
  let c := startup_peers file_peers c in
  let n := configure_pool c n in
  if bool_decide (Config.listen_addrs c = []) then Err "at least one --listen address is required"
  else
    let c := Config.set_public_addrs (Config.dedupe_socket_addrs (Config.public_addrs c))
      (Config.set_listen_addrs (Config.dedupe_socket_addrs (Config.listen_addrs c)) c) in
    Ok (new_daemon (new_service n c)).

Definition serve (rounds fuel : nat) : D Flow :=
  preflight ;;
  on_service (with_node (attempt (F := ServiceError) (method DifficultyFailed next_difficulty))) ;;
  run rounds fuel.

End daemon.
End Daemon.
