(* ===== verification/DaemonProps.v ===== *)
(** * DaemonProps: the loop of the service keeps the invariants *)

From S2P Require Import Prelude Collections Core Mempool Miner Bytes Storage StorageFacts.
From S2P Require Import Node NodeFacts NodeProps NodeShared Network.
From S2P Require Import P2p Gossip Wallet Config Http Gateway Service ServiceProps Daemon.

Open Scope string_scope.
Open Scope list_scope.
Open Scope Z_scope.

Module DaemonProps.
Import Node NodeFacts NodeProps NodeShared Network P2p Gossip Service ServiceProps Daemon.

Section loop.
Context `{Paqus, !ChainParams, Kv, Lmdb, Clock, !Storage.Codecs, !PeerWorld, !ServiceEnv}.
Context `{!Wallet.Crypto, !Wallet.WalletEnv, !Config.ConfigEnv, !Http.HttpWorld, !Gateway.GatewayJson}.
Context `{!DaemonEnv}.

(** An invariant of the node that the steps of its threads keep, respected by
    the other threads as well. *)
Context (I : Node → Prop) (M : Z).
Context (Hshared : ∀ n n', shared_step n n' → I n → I n').
Context (Hnode : ∀ k n, I n → I (node_others k n)).
Context (Hothers : ∀ peer k n, I n → I (others (Wire := wire peer) k n)).
Context (Hmeanwhile : ∀ k t, table_ok M t → table_ok M (meanwhile k t)).

Abbreviation ok := (service_ok I M).
Definition steady (d : Daemon) : Prop := ok (svc d).

(** ** Tables of peers under a broadcast *)

Abbreviation wok w := (table_ok M (tables w)).

Lemma lock_wok w : wok w → wok (lock w).2.
Proof. apply lock_ok, Hmeanwhile. Qed.

Lemma send_on_wok c peer m w : wok w → wok (send_on c peer m w).2.
Proof. intros Hw. unfold send_on. destruct c; [|done]. by destruct (transmit _ _ _). Qed.

Lemma drop_inbound_wok peer w : wok w → wok (drop_inbound peer w).
Proof.
  intros Hw. unfold drop_inbound. pose proof (lock_wok w Hw) as Hl. destruct (lock w) as [[] w1]; [|done].
  by apply (table_ok_peers M (tables w1)).
Qed.

Lemma visit_wok m acc peer : wok acc.2 → wok (service_visit_peer m acc peer).2.
Proof.
  destruct acc as [report w]. cbn [snd]. intros Hw. unfold service_visit_peer.
  pose proof (lock_wok w Hw) as Hl. destruct (lock w) as [[] w1]; cbn [snd] in Hl; [|done].
  pose proof (ensure_connection_ok M peer w1 Hl) as He.
  destruct (ensure_connection peer w1) as [[]  w2]; cbn [snd] in He; [|done].
  unfold send_outbound. rewrite SE_bind_gets.
  pose proof (send_on_wok (peer_connections (tables w2) !! peer) peer m w2 He) as Hs.
  destruct (send_on _ _ _ w2) as [[] w3]; cbn [snd] in Hs; [done|].
  by apply drop_outbound_ok.
Qed.

Lemma visit_inbound_wok known m acc peer : wok acc.2 → wok (visit_inbound known m acc peer).2.
Proof.
  destruct acc as [report w]. cbn [snd]. intros Hw. unfold visit_inbound. case_bool_decide; [done|].
  pose proof (lock_wok w Hw) as Hl. destruct (lock w) as [[] w1]; cbn [snd] in Hl; [|done].
  unfold send_inbound. rewrite SE_bind_gets.
  pose proof (send_on_wok (inbound_connections (tables w1) !! peer) peer m w1 Hl) as Hs.
  destruct (send_on _ _ _ w1) as [[] w2]; cbn [snd] in Hs; [done|].
  by apply drop_inbound_wok.
Qed.

Lemma foldl_wok {A} (f : BroadcastReport * World → A → BroadcastReport * World) l :
  (∀ acc a, wok acc.2 → wok (f acc a).2) → ∀ acc, wok acc.2 → wok (foldl f acc l).2.
Proof. intros Hf. induction l as [|a l IH]; intros acc Hacc; [done|]. by apply IH, Hf. Qed.

Lemma visit_peer_wok m acc peer : wok acc.2 → wok (visit_peer m acc peer).2.
Proof.
  destruct acc as [report w]. cbn [snd]. intros Hw. unfold visit_peer.
  pose proof (lock_wok w Hw) as Hl. destruct (lock w) as [[] w1]; cbn [snd] in Hl; [|done].
  rewrite SE_bind_unfold. pose proof (ensure_connection_ok M peer w1 Hl) as He.
  destruct (ensure_connection peer w1) as [[] w2]; cbn [snd] in He; [|by apply drop_outbound_ok].
  unfold send_outbound. rewrite SE_bind_gets.
  pose proof (send_on_wok (peer_connections (tables w2) !! peer) peer m w2 He) as Hs.
  destruct (send_on _ _ _ w2) as [[] w3]; cbn [snd] in Hs; [done|]. by apply drop_outbound_ok.
Qed.

Lemma broadcast_inbound_wok known m acc : wok acc.2 → wok (broadcast_inbound known m acc).2.
Proof.
  destruct acc as [report w]. cbn [snd]. intros Hw. unfold broadcast_inbound.
  pose proof (lock_wok w Hw) as Hl. destruct (lock w) as [b w1]; cbn [snd] in Hl.
  apply foldl_wok; [apply visit_inbound_wok|done].
Qed.

(** Both broadcasts, with their first loop as a parameter. *)
Lemma broadcasts_wok visit m w :
  (∀ acc peer, wok acc.2 → wok (visit m acc peer).2) → wok w →
  wok (let '(ok, w) := lock w in
       if ok : bool then
         let peers := keys (peers (tables w)) w in
         broadcast_inbound peers m (foldl (visit m) (mkReport (Z.of_nat (length peers)) 0 0, w) peers)
       else (default_report, w)).2.
Proof.
  intros Hv Hw. pose proof (lock_wok w Hw) as Hl. destruct (lock w) as [[] w1]; cbn [snd] in Hl; [|done].
  cbn zeta. apply broadcast_inbound_wok, foldl_wok; [apply Hv|done].
Qed.

Lemma broadcast_wok m w : wok w → wok (broadcast m w).2.
Proof. apply (broadcasts_wok service_visit_peer), visit_wok. Qed.
Lemma broadcast_to_peers_wok m w : wok w → wok (broadcast_to_peers m w).2.
Proof. apply (broadcasts_wok visit_peer), visit_peer_wok. Qed.

(** ** Programs of the service *)

Abbreviation skeeps m := (preserves ok m).

Lemma with_node_ok {A} (m : SE Node ServiceError A) : (∀ n, I n → I (m n).2) → skeeps (with_node m).
Proof.
  intros Hm s [Hn Ht Hx]. unfold with_node, zoom, locked_or. cbn [others poisoned own_wire].
  destruct (node_poisoned _); [split; cbn; auto|].
  specialize (Hm _ (Hnode (locks (session s)) _ Hn)). destruct (m _) as [r n']. by split.
Qed.

Lemma with_tables_ok {A} poison (m : SE Service ServiceError A) : skeeps m → skeeps (with_tables poison m).
Proof.
  intros Hm s [Hn Ht Hx]. unfold with_tables. pose proof (lock_wok _ Ht) as Hl.
  destruct (lock (world s)) as [[] w]; cbn [snd] in Hl; [|by split]. apply Hm. by split.
Qed.

#[local] Instance imp_preorder {S} (P : S → Prop) : PreOrder (λ s s', P s → P s').
Proof. split; [by intros s|intros s1 s2 s3; auto]. Qed.

Ltac chain := repeat first
  [ apply keeps_ret, _ | apply keeps_throw, _ | apply keeps_get, _ | apply keeps_gets, _
  | apply keeps_lift, _ | apply with_tables_ok | apply with_node_ok; by intros
  | apply keeps_bind; [apply _| |intros ?] | case_match ].

Lemma handshake_ok : skeeps needs_peer_handshake_before_mining.
Proof. unfold needs_peer_handshake_before_mining. chain. Qed.
Lemma ahead_ok : skeeps peer_ahead_of_local_tip.
Proof. unfold peer_ahead_of_local_tip. chain. Qed.
Lemma wait_reason_ok : skeeps mining_wait_reason.
Proof. unfold mining_wait_reason. chain; first [apply handshake_ok|apply ahead_ok]. Qed.
Lemma activity_ok : skeeps activity.
Proof. unfold activity. chain; first [apply handshake_ok|apply ahead_ok]. Qed.

(** *** Methods of the node *)

Lemma Hstep n n' : node_step n n' → I n → I n'.
Proof. intros Hs. by apply Hshared, shared_method. Qed.

Lemma method_I {E A} (conv : NodeError → E) (m : SE Node NodeError A) :
  preserves I m → preserves I (method conv m).
Proof. intros Hm n Hn. unfold method, zoom, id. specialize (Hm n Hn). by destruct (m n). Qed.

Lemma on_storage_I {A} (m : SE Storage.Store Storage.StorageError A) :
  keeps StorageFacts.same_tables m → preserves I (on_storage m).
Proof.
  intros Hm n. apply Hshared, shared_read. unfold on_storage, zoom. specialize (Hm (storage n)).
  destruct (m (storage n)) as [r st]. unfold StorageFacts.same_tables in Hm. unfold alike, at_rest.
  destruct n. cbn in *. by rewrite Hm.
Qed.

Lemma next_difficulty_I : preserves I next_difficulty.
Proof. apply next_difficulty_keeps; [apply _|]. intros A m. apply on_storage_I. Qed.

Lemma apply_block_I block : preserves I (apply_block block).
Proof. intros n. apply Hstep, step_apply. Qed.
Lemma flush_I : preserves I flush_to_storage.
Proof. intros n. apply Hstep, step_flush. Qed.

Lemma prepare_I miner attempts t : preserves I (prepare_mining miner attempts t).
Proof.
  unfold prepare_mining. apply keeps_bind; [apply _|apply keeps_modify; intros n; apply Hshared, shared_prune|intros _].
  apply keeps_bind; [apply _|apply method_I, next_difficulty_I|intros difficulty]. chain.
Qed.

Lemma submit_mined_I parent block : preserves I (submit_mined parent block).
Proof.
  unfold submit_mined. apply keeps_bind; [apply _|apply keeps_get, _|intros n].
  case_bool_decide; [apply keeps_ret, _|].
  apply keeps_bind; [apply _|apply method_I, apply_block_I|intros _].
  apply keeps_bind; [apply _|apply method_I, flush_I|intros _]. apply keeps_ret, _.
Qed.

Lemma mine_once_ok : skeeps mine_once_unlocked.
Proof.
  unfold mine_once_unlocked. apply keeps_bind; [apply _|apply keeps_get, _|intros s].
  apply keeps_bind; [apply _|apply keeps_lift, _|intros t].
  apply keeps_bind; [apply _|apply with_node_ok, prepare_I|intros [[candidate c] config]].
  apply keeps_bind; [apply _|apply keeps_lift, _|intros [result|]];
    (apply keeps_bind; [apply _|by apply keeps_modify; intros s' [? ? ?]|intros _]).
  - apply with_node_ok, submit_mined_I.
  - apply keeps_bind; [apply _|by apply with_node_ok|intros _]. apply keeps_ret, _.
Qed.

(** *** The service *)

Lemma save_peers_ok : skeeps save_peers.
Proof. intros s. exact (save_ok I M Hmeanwhile s). Qed.

Lemma sync_ok s : ok s → ok (sync_peers s).
Proof. exact (sync_round_keeps_invariants I M Hstep Hothers Hmeanwhile s). Qed.

Lemma learn_steady infos s : ok s → ok (learn_peers infos s).
Proof. exact (learn_ok I M Hmeanwhile infos s). Qed.

(** ** Programs of the loop *)

Lemma on_service_steady {A} (m : SE Service ServiceError A) : skeeps m → preserves steady (on_service m).
Proof. intros Hm d Hd. unfold on_service, zoom. specialize (Hm (svc d) Hd). by destruct (m (svc d)). Qed.

Lemma now_steady : preserves steady now.
Proof. by intros d. Qed.
Lemma elapsed_steady since : preserves steady (elapsed since).
Proof. by intros d. Qed.

Lemma set_activity_steady a : preserves steady (set_activity a).
Proof.
  unfold set_activity. apply keeps_bind; [apply _|apply keeps_get, _|intros d].
  apply keeps_bind; [apply _|case_bool_decide; [|apply keeps_ret, _]|intros []].
  - apply keeps_bind; [apply _|apply elapsed_steady|intros e; apply keeps_ret, _].
  - apply keeps_bind; [apply _|apply now_steady|intros t]. by apply keeps_modify.
  - apply keeps_ret, _.
Qed.

Lemma log_activity_steady : preserves steady log_activity.
Proof.
  unfold log_activity. apply keeps_bind; [apply _|apply on_service_steady, activity_ok|intros a].
  apply keeps_bind; [apply _|apply keeps_get, _|intros d].
  apply keeps_bind; [apply _|case_bool_decide; [apply keeps_ret, _|]|intros []].
  - apply keeps_bind; [apply _|apply elapsed_steady|intros e; apply keeps_ret, _].
  - apply keeps_bind; [apply _|apply now_steady|intros t]. by apply keeps_modify.
  - apply keeps_ret, _.
Qed.

(** *** The gateway *)

Lemma updates_svc register url h t l : ∀ d, svc (foldl (update_gateway register url h t) d l) = svc d.
Proof. induction l as [|a l IH]; intros d; [done|]. cbn [foldl]. by rewrite IH. Qed.

Lemma query_steady url available d : steady d → steady (query_gateway url available d).
Proof.
  intros Hd. unfold query_gateway. destruct (Gateway.request_gateway_peers _ _ _ _) as [[|i infos]|]; try done.
  by apply learn_steady.
Qed.

Lemma refresh_steady register d : steady d → steady (refresh_gateway_peers register d).
Proof.
  intros Hd. unfold refresh_gateway_peers. destruct (Config.gateway_url _) as [url|]; [|done].
  match goal with |- context [with_node ?m ?s] =>
    pose proof (with_node_ok m ltac:(by intros) s Hd) as Hs; destruct (with_node m s) as [[[h t]|e] s'] end;
    cbn [snd] in Hs; [|done].
  rewrite updates_svc. cbn [svc set_svc].
  destruct Hs as [Hn Ht Hx]. pose proof (lock_wok _ Ht) as Hl.
  destruct (lock (world s')) as [[] w]; cbn [snd] in Hl; [|by split].
  unfold steady, stamp_heartbeat. cbn [svc set_last_gateway_heartbeat set_clock].
  case_bool_decide; [apply query_steady|]; by split.
Qed.

(** *** Connections *)

Lemma set_world_ok w s : ok s → wok w → ok (set_world w s).
Proof. by intros [Hn Ht Hx]. Qed.

Lemma take_connection_steady peer writer spawned : preserves steady (take_connection peer writer spawned).
Proof.
  unfold take_connection. apply keeps_bind; [apply _|apply set_activity_steady|intros _].
  apply keeps_bind; [apply _|apply keeps_modify|intros _; apply keeps_lift, _].
  intros d Hd. pose proof (lock_wok _ (so_table _ _ _ Hd)) as Hl.
  destruct (lock (world (svc d))) as [b w]; cbn [snd] in Hl. apply set_world_ok; [done|].
  destruct b, writer; try done. by apply (table_ok_peers M (tables w)).
Qed.

Lemma accept_pass_steady indices : ∀ accepted, preserves steady (accept_pass indices accepted).
Proof.
  induction indices as [|i indices IH]; intros accepted; cbn [accept_pass]; [apply keeps_ret, _|].
  apply keeps_bind; [apply _|by intros d|intros [|peer writer spawned|e]]; [apply IH| |apply keeps_throw, _].
  apply keeps_bind; [apply _|apply take_connection_steady|intros _; apply IH].
Qed.

Lemma accept_loop_steady fuel : preserves steady (accept_loop fuel).
Proof.
  induction fuel as [|fuel IH]; cbn [accept_loop]; [apply keeps_ret, _|].
  apply keeps_bind; [apply _|apply accept_pass_steady|intros []]; [apply IH|apply keeps_ret, _].
Qed.

Lemma handle_message_I m : preserves I (handle_message m).
Proof.
  intros n Hn. destruct m; cbn [handle_message]; rewrite ?SE_bind_get; try done.
  - by destruct (validate_compatibility _).
  - rewrite SE_bind_unfold. unfold on_node, zoom, id. pose proof (apply_block_I block n Hn) as Hw.
    by destruct (apply_block block n) as [[[]|] n'].
  - rewrite SE_bind_unfold. unfold on_node, zoom, id.
    pose proof (Hstep _ _ (step_submit transaction n) Hn) as Hw.
    by destruct (submit_transaction transaction n) as [[]].
Qed.

Lemma peer_infos_ok own s : ok s → ok (peer_infos_from own s).2.
Proof.
  intros [Hn Ht Hx]. unfold peer_infos_from. pose proof (lock_wok _ Ht) as Hl.
  destruct (lock (world s)) as [[] w]; by split.
Qed.

Lemma handle_inbound_ok m : skeeps (handle_inbound m).
Proof.
  assert (∀ m, skeeps (with_node (zoom id (λ n _, n) HandleFailed (handle_message m)))) as Hnode'.
  { intros m'. apply with_node_ok. intros n Hn. unfold zoom, id. pose proof (handle_message_I m' n Hn) as Hm.
    by destruct (handle_message m' n). }
  destruct m; try apply Hnode'.
  - intros s Hs. cbn [handle_inbound]. pose proof (peer_infos_ok (Config.public_addrs (cfg s)) s Hs) as Hp.
    by destruct (peer_infos_from _ s).
  - cbn [handle_inbound]. apply keeps_bind; [apply _| |intros _; apply keeps_ret, _].
    apply keeps_modify. intros s. apply learn_steady.
Qed.

Lemma stream_task_ok events : skeeps (handle_p2p_stream_task events).
Proof.
  induction events as [|[m answered|] events IH]; cbn [handle_p2p_stream_task]; try apply keeps_ret, _.
  apply keeps_bind; [apply _|apply handle_inbound_ok|intros [response|]]; [|apply IH].
  destruct answered; [apply IH|apply keeps_throw, _].
Qed.

Lemma inbound_ok peer events s : ok s → ok (inbound_thread peer events s).
Proof.
  intros Hs. unfold inbound_thread. pose proof (stream_task_ok events s Hs) as Ht.
  apply set_world_ok; [done|]. by apply drop_inbound_wok, (so_table _ _ _ Ht).
Qed.

(** *** One round *)

Lemma shutdown_steady : preserves steady shutdown.
Proof.
  unfold shutdown. apply keeps_bind; [apply _| |intros _].
  { intros d [Hn Ht Hx]. unfold zoom at 1 2, locked_or. cbn [others poisoned own_wire].
    destruct (node_poisoned _); [split; cbn; auto|]. unfold zoom, id.
    pose proof (flush_I _ (Hnode (locks (session (svc d))) _ Hn)) as Hf.
    destruct (flush_to_storage _) as [r n']. by split. }
  apply keeps_bind; [apply _|apply on_service_steady, save_peers_ok|intros _].
  apply keeps_bind; [apply _|apply on_service_steady, with_tables_ok, keeps_gets, _|intros _].
  apply keeps_ret, _.
Qed.

Lemma mining_round_steady : preserves steady mining_round.
Proof.
  unfold mining_round. apply keeps_bind; [apply _|apply on_service_steady, wait_reason_ok|intros reason].
  apply keeps_bind; [apply _| |intros _].
  - destruct reason; [apply keeps_ret, _|]. apply keeps_bind; [apply _|apply set_activity_steady|intros _].
    apply keeps_bind; [apply _|apply on_service_steady, mine_once_ok|intros [block|]]; [|apply keeps_ret, _].
    apply keeps_modify. intros d Hd. apply set_world_ok; [done|]. by apply broadcast_wok, (so_table _ _ _ Hd).
  - apply keeps_bind; [apply _|apply now_steady|intros t]. by apply keeps_modify.
Qed.

Lemma difficulty_line_steady :
  preserves steady (on_service (with_node (attempt (F := ServiceError) (method DifficultyFailed next_difficulty)))).
Proof.
  apply on_service_steady, with_node_ok.
  exact (keeps_attempt (λ n n', I n → I n') _ (method_I DifficultyFailed _ next_difficulty_I)).
Qed.

Lemma status_round_steady : preserves steady status_round.
Proof.
  unfold status_round. apply keeps_bind; [apply _|apply difficulty_line_steady|intros _].
  do 3 (apply keeps_bind; [apply _|apply on_service_steady, with_tables_ok, keeps_ret, _|intros _]).
  apply keeps_bind; [apply _|apply now_steady|intros t]. by apply keeps_modify.
Qed.

Lemma round_steady fuel : preserves steady (round fuel).
Proof.
  unfold round. apply keeps_bind; [apply _|by intros d|intros []].
  { apply keeps_bind; [apply _|apply shutdown_steady|intros _; apply keeps_ret, _]. }
  apply keeps_bind; [apply _|apply accept_loop_steady|intros _].
  apply keeps_bind; [apply _|apply keeps_modify; intros d; apply sync_ok|intros _].
  apply keeps_bind; [apply _|apply keeps_get, _|intros d].
  apply keeps_bind; [apply _|apply elapsed_steady|intros beat].
  apply keeps_bind; [apply _|case_bool_decide; [apply keeps_modify, refresh_steady|apply keeps_ret, _]|intros _].
  apply keeps_bind; [apply _|apply log_activity_steady|intros _].
  apply keeps_bind; [apply _|apply keeps_get, _|intros d'].
  apply keeps_bind; [apply _| |intros due].
  { case_match; [|apply keeps_ret, _].
    apply keeps_bind; [apply _|apply elapsed_steady|intros e; apply keeps_ret, _]. }
  apply keeps_bind; [apply _|destruct due; [apply mining_round_steady|apply keeps_ret, _]|intros _].
  apply keeps_bind; [apply _|apply keeps_get, _|intros d2].
  apply keeps_bind; [apply _|apply elapsed_steady|intros since].
  apply keeps_bind; [apply _|case_bool_decide; [apply status_round_steady|apply keeps_ret, _]|intros _].
  apply keeps_ret, _.
Qed.

Lemma run_steady rounds fuel : preserves steady (run rounds fuel).
Proof.
  induction rounds as [|rounds IH]; cbn [run]; [apply keeps_ret, _|].
  apply keeps_bind; [apply _|apply round_steady|intros []]; [apply IH|apply keeps_ret, _].
Qed.

(** ** The start *)

Lemma listed_peers (l : list SocketAddr) t0 a st :
  (list_to_map ((λ p, (p, P2p.new t0 p)) <$> l) : gmap SocketAddr PeerState) !! a = Some st →
  st = P2p.new t0 a ∧ a ∈ l.
Proof.
  induction l as [|p l IH]; cbn [fmap list_fmap list_to_map]; [done|]. cbn.
  rewrite lookup_insert_Some. intros [[-> <-]|[_ Ha]]; [split; [done|left]|].
  destruct (IH Ha) as [-> Hin]. split; [done|by right].
Qed.

Lemma listed_size (l : list SocketAddr) t0 :
  (size (list_to_map ((λ p, (p, P2p.new t0 p)) <$> l) : gmap SocketAddr PeerState) ≤ length l)%nat.
Proof.
  induction l as [|p l IH]; cbn [fmap list_fmap list_to_map length]; [done|]. cbn.
  rewrite map_size_insert. destruct (_ !! _); cbn; lia.
Qed.

Lemma svc_new_daemon s : svc (new_daemon s) = s.
Proof.
  unfold new_daemon. destruct (checked_sub_or_now 0 _) as [t k].
  by destruct (checked_sub_or_now (S (S k)) _) as [u k'].
Qed.

(** The service that is started satisfies the invariants. *)
Lemma started_ok file_peers c n d : 0 ≤ M → Config.max_peers c = M →
  I (configure_pool (startup_peers file_peers c) n) →
  start_service file_peers c n = Ok d → steady d.
Proof.
  intros HM Hc Hn. unfold start_service. case_bool_decide; [done|]. intros [= <-].
  unfold steady. rewrite svc_new_daemon. split.
  - exact Hn.
  - split.
    + cbn [new_service world tables peers]. etrans; [apply inj_le, listed_size|].
      cbn. rewrite length_take. lia.
    + intros a st Ha. apply listed_peers in Ha as [-> _]. split; [done|]. unfold MAX_PEER_FAILURES. cbn. lia.
  - exact Hc.
Qed.

(** ** Claims *)

(** C17: the loop keeps the node and its tables in order: from a state that
    satisfies the invariants - the node's, a table of peers within its limit
    with every entry under its own address - any number of rounds leaves one
    that does, whatever the peers, the gateway, the listeners, the miner and the
    other threads do, and also when a round ends with an error.  The service
    that [run_node] builds satisfies them when the node with the configured pool
    satisfies its own. *)
Theorem service_loop_keeps_invariants rounds fuel d :
  (service_ok I M (svc d) → service_ok I M (svc (run rounds fuel d).2)) ∧
  (∀ file_peers c n, 0 ≤ M → Config.max_peers c = M →
    I (configure_pool (startup_peers file_peers c) n) →
    start_service file_peers c n = Ok d → service_ok I M (svc d)).
Proof. split; [apply run_steady|intros file_peers c n; apply started_ok]. Qed.

(** Whatever a peer sends on a connection it has opened, in whatever
    order, and however the connection ends, the thread that serves it keeps the
    invariants, and the connection is no longer in the table of connections
    afterwards unless another thread has opened it again. *)
Theorem inbound_thread_keeps_invariants peer events s :
  service_ok I M s →
  let s' := inbound_thread peer events s in
  service_ok I M s' ∧
  (lock_poisoned (Gossip.events (world (handle_p2p_stream_task events s).2)) = false →
    inbound_connections (tables (world s')) !! peer = None).
Proof.
  intros Hs. cbn zeta. split; [by apply inbound_ok|].
  intros Hp. unfold inbound_thread, drop_inbound, lock. rewrite Hp. cbn. by rewrite lookup_delete_eq.
Qed.

End loop.

(** ** Start and accepting *)

Section start.
Context `{Paqus, !ChainParams, Kv, Lmdb, Clock, !Storage.Codecs, !PeerWorld, !ServiceEnv}.
Context `{!Wallet.Crypto, !Wallet.WalletEnv, !Config.ConfigEnv, !Http.HttpWorld, !Gateway.GatewayJson}.
Context `{!DaemonEnv}.
Implicit Types d : Daemon.

Lemma with_node_cfg {A} (m : SE Node ServiceError A) s : cfg (with_node m s).2 = cfg s.
Proof.
  unfold with_node, zoom, locked_or. cbn [others poisoned own_wire]. destruct (node_poisoned _); [done|].
  by destruct (m _).
Qed.

Lemma check_miner_Ok c : check_miner c = Ok tt → Config.mine c = true →
  ∃ key, Config.miner_secret_key c = Some key ∧
    Wallet.address_from_public_key (Wallet.derive_public_key key) = Config.miner_address c.
Proof.
  unfold check_miner. intros Hc Hm. rewrite Hm in Hc. apply result_bind_Ok in Hc as (key & Hk%ok_or_Ok & Hc).
  exists key. split; [done|]. by case_bool_decide.
Qed.

(** A node that starts mining holds the key of the address it mines for:
    the checks before the start succeed only when no shutdown file is there, and,
    for a node that mines, when the secret key is configured and the address
    derived from it is the miner's. *)
Theorem start_requires_miner_key d d' :
  preflight d = (Ok tt, d') →
  shutdown_file_exists (files d) = false ∧
  (Config.mine (cfg (svc d)) = true → ∃ key, Config.miner_secret_key (cfg (svc d)) = Some key ∧
    Wallet.address_from_public_key (Wallet.derive_public_key key) = Config.miner_address (cfg (svc d))).
Proof.
  unfold preflight. rewrite SE_bind_unfold. cbn [shutdown_requested].
  destruct (shutdown_file_exists (files d)); [done|]. rewrite SE_bind_unfold. unfold on_service at 1, zoom.
  cbn [svc set_files]. pose proof (with_node_cfg (method DifficultyFailed next_difficulty) (svc d)) as Hc.
  destruct (with_node _ (svc d)) as [[x|e] s]; cbn [map_err snd] in *; [|done].
  rewrite SE_bind_get, SE_bind_unfold. cbn [lift svc set_svc]. rewrite Hc.
  destruct (check_miner (cfg (svc d))) as [[]|e] eqn:E; [|done]. intros _. split; [done|]. by apply check_miner_Ok.
Qed.

(** *** The loop over the listeners ends *)

Lemma set_activity_accepts a d : accepts (set_activity a d).2 = accepts d.
Proof.
  cbv [set_activity elapsed now get_state mbind SE_bind mret SE_ret modify].
  destruct (bool_decide (a = last_activity d)); [|done]. by destruct (bool_decide _).
Qed.

Lemma take_connection_accepts peer writer spawned d : accepts (take_connection peer writer spawned d).2 = accepts d.
Proof.
  unfold take_connection. rewrite SE_bind_unfold. pose proof (set_activity_accepts ServingPeers d) as Ha.
  destruct (set_activity ServingPeers d) as [[[]|e] d1]; cbn [snd] in Ha; [|done].
  rewrite SE_bind_unfold. cbn [modify lift snd]. rewrite <-Ha. by destruct (lock (world (svc d1))).
Qed.

Lemma accept_pass_accepts indices : ∀ b d b' d',
  accept_pass indices b d = (Ok b', d') → accepts d' = (accepts d + length indices)%nat.
Proof.
  induction indices as [|i indices IH]; intros b d b' d'; cbn [accept_pass].
  { intros [= _ <-]. cbn. lia. }
  rewrite SE_bind_unfold. cbn [call_accept]. destruct (accept (accepts d) i) as [|peer writer spawned|e]; [..|done].
  - intros Ha%IH. rewrite Ha. cbn. lia.
  - rewrite SE_bind_unfold. pose proof (take_connection_accepts peer writer spawned (set_accepts (S (accepts d)) d)) as Ht.
    destruct (take_connection _ _ _ _) as [[[]|e] d1]; cbn [snd] in Ht; [|done].
    intros Ha%IH. rewrite Ha, Ht. cbn. lia.
Qed.

Lemma accept_pass_quiet indices b : ∀ d, (∀ c i, (accepts d ≤ c)%nat → accept c i = WouldBlock) →
  ∃ d', accept_pass indices b d = (Ok b, d').
Proof.
  induction indices as [|i indices IH]; intros d Hq; cbn [accept_pass]; [by eexists|].
  rewrite SE_bind_unfold. cbn [call_accept]. rewrite Hq by lia. apply IH. intros c j Hc. apply Hq. cbn in Hc. lia.
Qed.

(** Accepting connections ends: when no connection arrives after the next
    [k] calls of [accept], at most [k] + 1 passes over the listeners are made,
    after which the loop has returned. *)
Theorem accept_terminates k d :
  (∀ c i, (accepts d + k ≤ c)%nat → accept c i = WouldBlock) →
  (accept_loop (S k) d).1 ≠ Ok None.
Proof.
  revert d. induction k as [|k IH]; intros d Hq.
  - cbn [accept_loop]. rewrite SE_bind_unfold.
    destruct (accept_pass_quiet (seq 0 listeners) false d) as [d' ->]; [|done].
    intros c i Hc. apply Hq. lia.
  - remember (S k) as m. cbn [accept_loop]. subst m. rewrite SE_bind_unfold.
    destruct (accept_pass (seq 0 listeners) false d) as [[[]|e] d1] eqn:E; [|done..].
    pose proof (accept_pass_accepts _ _ _ _ _ E) as Ha. rewrite length_seq in Ha.
    apply IH. intros c i Hc. apply Hq. destruct listeners; [by cbn in E|]. lia.
Qed.

End start.
End DaemonProps.
