(* ===== verification/DaemonDemo.v ===== *)
(** * DaemonDemo: the service loop on the demo protocol *)

From S2P Require Import Prelude Collections Core Demo Mempool Miner Bytes Storage StorageDemo Cache Node.
From S2P Require Import NodeFacts NodeProps NodeShared NodeDemo Network P2p P2pDemo Gossip GossipProps.
From S2P Require Import Wallet WalletProps Config ConfigProps Http Gateway Service ServiceProps ServiceDemo.
From S2P Require Import Daemon DaemonProps.

Open Scope string_scope.
Open Scope list_scope.
Open Scope Z_scope.

Module DaemonDemo.
Import Demo Storage StorageDemo Node NodeFacts NodeProps NodeShared NodeDemo Network NetworkProps P2p P2pProps P2pDemo.
Import Gossip GossipProps WalletProps Service ServiceProps ServiceDemo Daemon DaemonProps.

#[local] Existing Instance ServiceDemo.demo_links.
#[local] Existing Instance ServiceDemo.demo_service_env.
#[local] Existing Instance ConfigProps.test_wallet.
#[local] Existing Instance ConfigProps.test_env.
#[local] Existing Instance GatewayProps.test_http.
#[local] Existing Instance GatewayProps.test_json.

(** One connection is waiting; the shutdown file appears after the first round. *)
#[local] Instance demo_daemon_env : DaemonEnv := {|
  monotonic k := 1000 + 20 * Z.of_nat k;
  shutdown_file_exists k := bool_decide (1 ≤ k)%nat;
  listeners := 1;
  accept c i := if bool_decide (c = 0%nat) then Incoming 77 (Ok 3%nat) (Ok tt) else WouldBlock;
|}.

Definition miner_config : Config.RunConfig :=
  Config.mkRunConfig "db" [12] 14 [5; 6] (Some "peers.json") (Some "gateway:1") [33] 60 "STOP" 2 1 2 1800 86400
    50 (Some [5]) true 60 10.

Definition service_m : Service :=
  mkService (mkSession node0 0 0 [])
    (mkWorld (mkTables (<[5 := P2p.new 0 5]> {[6 := mkPeerState 6 1 0 None]}) ∅ ∅) 0 [])
    miner_config true (mkStats 0 0) [].

Definition daemon0 : Daemon := new_daemon service_m.

Lemma service_m_ok : service_ok (orphans_wf []) 2 service_m.
Proof.
  split; [exact (new_node_wf _ _ _ _ _ _ node0_created)| |reflexivity].
  split; [by vm_compute|]. cbn [world service_m tables peers].
  apply map_Forall_insert_2; [by vm_compute|]. apply map_Forall_singleton. by vm_compute.
Qed.

(** The loop stops with the shutdown file. *)
Example run_stops : (run 5 2 daemon0).1 = Ok Stopped.
Proof. by vm_compute. Qed.

Lemma service_loop_keeps_invariants_witness :
  service_ok (orphans_wf []) 2 (svc (run 5 2 daemon0).2).
Proof.
  refine (proj1 (service_loop_keeps_invariants (orphans_wf []) 2 _ _ _ _ 5 2 daemon0) _).
  - intros n n' Hs Hn. exact (shared_step_wf n n' Hs Hn).
  - intros k n Hn. exact Hn.
  - intros peer k n Hn. exact Hn.
  - intros k t Ht. exact Ht.
  - exact service_m_ok.
Defined.

Lemma inbound_thread_keeps_invariants_witness :
  service_ok (orphans_wf []) 2
    (inbound_thread 77 [Received (BlockMessage block_a) (Ok tt); Received GetTip (Ok tt); Unreadable] service_m).
Proof.
  refine (proj1 (inbound_thread_keeps_invariants (orphans_wf []) 2 _ _ _ 77 _ service_m service_m_ok)).
  - intros n n' Hs Hn. exact (shared_step_wf n n' Hs Hn).
  - intros k n Hn. exact Hn.
  - intros k t Ht. exact Ht.
Defined.

Lemma start_requires_miner_key_witness :
  ∃ key, Config.miner_secret_key (cfg (svc daemon0)) = Some key ∧
    Wallet.address_from_public_key (Wallet.derive_public_key key) = Config.miner_address (cfg (svc daemon0)).
Proof.
  refine (proj2 (start_requires_miner_key daemon0 (preflight daemon0).2 _) eq_refl).
  apply run_eq. by vm_compute.
Defined.

Lemma accept_terminates_witness : (accept_loop 2 daemon0).1 ≠ Ok None.
Proof.
  apply (accept_terminates 1 daemon0). intros c i Hc. cbn in Hc. cbn [accept demo_daemon_env].
  rewrite bool_decide_eq_false_2; [reflexivity|lia].
Defined.

End DaemonDemo.
