(* ===== verification/System.v ===== *)
(** * System: the threads of the node together

    The service loop ([run]), the threads of inbound connections and the
    requests to the RPC server work on one node and one set of tables.  An
    execution is a sequence of their operations, in any order; between two
    critical sections of an operation other threads may run, which is the
    oracle of the service ([node_others], [others], [meanwhile]).  Every
    operation changes the node by the steps of [NodeShared] only, so what the
    theorems assume about the other threads is what they prove about each. *)

From S2P Require Import Prelude Collections Core Mempool Bytes Storage StorageFacts StorageSaved StorageProps.
From S2P Require Import Node NodeFacts NodeProps NodeSync NodeShared NodeStart Network P2p Gossip Wallet Config Http Gateway.
From S2P Require Import Service ServiceProps Explorer ExplorerProps Rpc RpcProps Routes RoutesProps Daemon DaemonProps.
From S2P Require Import MempoolFacts.

Open Scope string_scope.
Open Scope list_scope.
Open Scope Z_scope.

Module System.
Import Node NodeFacts NodeProps NodeSync NodeShared NodeStart Network P2p Gossip Service ServiceProps Explorer.
Import StorageFacts StorageSaved StorageProps MempoolFacts Rpc RpcProps Routes Daemon DaemonProps.

Section system.
Context `{Paqus, !ChainParams, Kv, Lmdb, Clock, !Storage.Codecs, !PeerWorld, !ServiceEnv}.
Context `{!Wallet.Crypto, !Wallet.WalletEnv, !Config.ConfigEnv, !Http.HttpWorld, !Gateway.GatewayJson}.
Context `{!DaemonEnv, !ExplorerEnv, !Router}.
Context (try_from_slice : bytes → result string SignedTransaction).

(** The daemon and the two counters of the RPC server. *)
Record System := mkSystem {
  daemon : Daemon;
  accepted_total : Z;
  broadcast_total : Z;
}.

Definition service_of (y : System) : Service := svc (daemon y).
Definition the_node (y : System) : Node := shared_node (session (service_of y)).

(** What a thread does: rounds of the loop, a whole inbound connection, or a
    request to the RPC server. *)
Inductive Action :=
  | Rounds (rounds fuel : nat)
  | Connection (peer : SocketAddr) (events : list InboundEvent)
  | Request (m : Method) (path body : string).

Definition rpc_state (y : System) : RpcState :=
  mkRpcState (service_of y) (accepted_total y) (broadcast_total y).
Definition set_rpc (s : RpcState) (y : System) : System :=
  mkSystem (set_svc (Rpc.service s) (daemon y)) (accepted_tx_total s) (broadcast_tx_total s).

Definition perform (y : System) (a : Action) : System :=
  match a with
  | Rounds rounds fuel =>
      mkSystem (run rounds fuel (daemon y)).2 (accepted_total y) (broadcast_total y)
  | Connection peer events =>
      mkSystem (set_svc (inbound_thread peer events (service_of y)) (daemon y))
        (accepted_total y) (broadcast_total y)
  | Request m path body => set_rpc (Routes.serve try_from_slice m path body (rpc_state y)).2 y
  end.

Definition execute (y : System) (l : list Action) : System := foldl perform y l.

(** ** Requests keep the invariants of the service *)

Section invariant.
Context (I : Node → Prop) (M : Z).
Context (Hshared : ∀ n n', shared_step n n' → I n → I n').
Context (Hnode : ∀ k n, I n → I (node_others k n)).
Context (Hothers : ∀ peer k n, I n → I (others (Wire := wire peer) k n)).
Context (Hmeanwhile : ∀ k t, table_ok M t → table_ok M (meanwhile k t)).

Abbreviation ok s := (service_ok I M (Rpc.service s)).
Abbreviation wok w := (table_ok M (tables w)).

Lemma alike_I n n' : alike n n' → I n → I n'.
Proof. intros Ha. apply Hshared, shared_read, Ha. Qed.

Lemma on_world_ok w s : ok s → wok w → ok (on_world w s).
Proof. by intros [Hn Ht Hx]. Qed.

Lemma locked_node_ok {A} (m : SE Node Response A) s :
  (∀ n, I n → I (m n).2) → ok s → ok (locked_node m s).2.
Proof.
  intros Hm [Hn Ht Hx]. unfold locked_node, locked_or. cbn [others poisoned own_wire].
  destruct (node_poisoned _); [split; cbn; auto|].
  specialize (Hm _ (Hnode (locks (session (Rpc.service s))) _ Hn)). destruct (m _) as [r n']. by split.
Qed.

Lemma under_lock_ok (m : SE Node Response Body) s : keeps alike m → ok s → ok (under_lock m s).2.
Proof.
  intros Hm Hs. unfold under_lock. pose proof (locked_node_ok m s) as Hl.
  destruct (locked_node m s) as [r s']. apply Hl; [|done]. intros n. apply alike_I, Hm.
Qed.

Lemma outcome_ok s p : read_outcome s p → ok s → ok p.2.
Proof.
  destruct 1 as [r|m Hm| |]; intros Hs; [done|by apply under_lock_ok| |].
  - unfold rpc_status.
    pose proof (locked_node_ok (gets (λ n, (tip_or_zero n, format_hash (node_tip_hash n)))) s
      (λ _ Hn, Hn) Hs) as Hl.
    destruct (locked_node _ s) as [r s']. cbn [snd] in *. apply on_world_ok; [done|].
    do 3 apply (lock_wok M Hmeanwhile). apply Hl.
  - apply on_world_ok; [done|]. apply (lock_wok M Hmeanwhile), Hs.
Qed.

Lemma accept_I tx n : I n → I (accept_transaction tx n).2.
Proof.
  intros Hn. unfold accept_transaction. rewrite SE_bind_unfold. unfold zoom, id.
  pose proof (Hshared _ _ (shared_method _ _ (step_submit tx n)) Hn) as H1'.
  destruct (submit_transaction tx n) as [[h|e] n1]; cbn [map_err snd] in *; [|done].
  pose proof (Hshared _ _ (shared_method _ _ (step_flush n1)) H1') as H2'. by destruct (flush_to_storage n1).
Qed.

Lemma submit_ok hex s : ok s → ok (rpc_submit_tx try_from_slice hex s).2.
Proof.
  intros Hs. unfold rpc_submit_tx. destruct (signed_transaction_from_hex _ _) as [tx|]; [|done].
  pose proof (locked_node_ok (accept_transaction tx) s (accept_I tx) Hs) as Hl.
  destruct (locked_node _ s) as [[[]|] s']; cbn [snd] in Hl; [|done]. cbv zeta.
  assert (ok (count_accepted s')) as Hc by done.
  pose proof (broadcast_to_peers_wok M Hmeanwhile (TransactionMessage tx)
    (Service.world (Rpc.service (count_accepted s'))) (so_table _ _ _ Hc)) as Hb.
  destruct (broadcast_to_peers _ _) as [report w]. exact (on_world_ok w _ Hc Hb).
Qed.

Lemma answer_ok h s : ok (h s).2 → ok (answer h s).2.
Proof. unfold answer. by destruct (h s). Qed.

Lemma call_ok e cs body s : ok s → ok (call try_from_slice e cs body s).2.
Proof.
  intros Hs. pose proof (λ a h k, proj1 (Forall_forall _ _) (reading_outcomes a h k s)) as Hr.
  assert (∀ a h k handler, handler ∈ reading_handlers a h k → ok (answer handler s).2) as Hread.
  { intros a h k handler Hin. apply answer_ok. apply (outcome_ok s), Hs. exact (Hr a h k _ Hin). }
  unfold call. destruct e, cs as [|c [|c' cs]]; try exact Hs;
    try (destruct (json_tx body); [apply answer_ok, submit_ok, Hs|exact Hs]);
    try (destruct (Config.parse_uint _ _) as [k|]; [|exact Hs]);
    first [eapply (Hread c c k)|eapply (Hread c c 0)|eapply (Hread "/" "/" 0)];
    unfold reading_handlers; rewrite !elem_of_cons; naive_solver.
Qed.

Lemma serve_ok m path body s : ok s → ok (Routes.serve try_from_slice m path body s).2.
Proof. intros Hs. unfold Routes.serve. destruct (dispatch _ _ _); [by apply call_ok|done]. Qed.

Lemma perform_ok a y : service_ok I M (service_of y) → service_ok I M (service_of (perform y a)).
Proof.
  intros Hy. destruct a as [rounds fuel|peer evs|m path body]; cbn [perform].
  - exact (run_steady I M Hshared Hnode Hothers Hmeanwhile rounds fuel (daemon y) Hy).
  - exact (inbound_ok I M Hshared Hnode Hmeanwhile peer evs (service_of y) Hy).
  - exact (serve_ok m path body (rpc_state y) Hy).
Qed.

Lemma execute_ok l : ∀ y, service_ok I M (service_of y) → service_ok I M (service_of (execute y l)).
Proof. induction l as [|a l IH]; intros y Hy; [done|]. by apply IH, perform_ok. Qed.

End invariant.

(** ** The threads together *)

Section threads.
Context (M : Z).
(** The other threads take steps of the node, and keep the table of peers. *)
Context (Hnode : ∀ k n, rtc shared_step n (node_others k n)).
Context (Hothers : ∀ peer k n, rtc shared_step n (others (Wire := wire peer) k n)).
Context (Hmeanwhile : ∀ k t, table_ok M t → table_ok M (meanwhile k t)).

(** What closes under one step closes under the steps of other threads. *)
Lemma closed_rtc (I : Node → Prop) n n' :
  (∀ n n', shared_step n n' → I n → I n') → rtc shared_step n n' → I n → I n'.
Proof. intros Hs. induction 1; eauto. Qed.

Lemma execute_closed (I : Node → Prop) l y :
  (∀ n n', shared_step n n' → I n → I n') →
  service_ok I M (service_of y) → service_ok I M (service_of (execute y l)).
Proof.
  intros Hs. apply execute_ok; [done| | |done].
  - intros k n. by apply closed_rtc.
  - intros peer k n. by apply closed_rtc.
Qed.

(** C18: every thread of the node keeps the contract it relies on: if the other
    threads change the shared node only by methods of the node, by pruning the
    pool and by reading, then so does any execution of the service loop,
    inbound connections and RPC requests, in any order and whatever arrives. *)
Theorem threads_keep_contract l y :
  service_ok (λ _, True) M (service_of y) →
  rtc shared_step (the_node y) (the_node (execute y l)).
Proof.
  intros [_ Ht Hm].
  assert (service_ok (rtc shared_step (the_node y)) M (service_of (execute y l))) as Hg.
  { apply execute_closed; [|by split]. intros n n' Hs Hn. by eapply rtc_r. }
  apply (so_node _ _ _ Hg).
Qed.

(** C2: a node that is shared by its threads stays in order: whatever the
    service loop, the inbound connections and the RPC server do, in any order
    and with other threads in between, the orphan pool stays consistent, the
    pool of transactions within its limits and the database in step with the
    ledger, and the table of peers within its limit; a node that is started on
    the database of any of these moments has the ledger of that moment, and is
    in order again. *)
Theorem shared_node_stays_good
    `{!Storage.CodecLaws, !Storage.KvLaws, !NoFaults, !LedgerLaws, !ForkChoiceLaws, !TxLaws} l y :
  service_ok node_good M (service_of y) →
  let n := the_node (execute y l) in
  service_ok node_good M (service_of (execute y l)) ∧
  (stored_wf (ledger n) → ∀ c clock j,
   starts (ledger n) (Storage.tables (storage n))
     (init_or_load c clock (Storage.mkStore (Storage.tables (storage n)) j))).
Proof.
  intros Hy. cbn zeta. assert (service_ok node_good M (service_of (execute y l))) as Hg
    by (apply execute_closed; [apply shared_step_good|done]).
  split; [done|]. intros Hwf c clock j. by apply restarts; [apply good_database, (so_node _ _ _ Hg)|apply good_records, (so_node _ _ _ Hg)|].
Qed.

End threads.
End system.
End System.
