(* ===== verification/SystemDemo.v ===== *)
(** * SystemDemo: the threads of a node on the demo protocol

    The loop, a connection that sends a block and requests to the RPC server,
    while another thread submits a transaction at every fourth lock. *)

From S2P Require Import Prelude Collections Core Demo Mempool MempoolFacts MempoolProps Miner Bytes Storage.
From S2P Require Import StorageDemo StorageFacts StorageSaved StorageProps Cache Node NodeFacts NodeProps NodeSync NodeShared NodeDemo Network.
From S2P Require Import P2p P2pDemo Gossip GossipProps Wallet WalletProps Config ConfigProps Http Gateway Service.
From S2P Require Import ServiceProps ServiceDemo Explorer ExplorerProps Rpc RpcProps RpcDemo Routes RoutesProps.
From S2P Require Import Daemon DaemonProps DaemonDemo System.

Open Scope string_scope.
Open Scope list_scope.
Open Scope Z_scope.

Module SystemDemo.
Import Demo Storage StorageDemo Node NodeFacts NodeProps NodeSync NodeShared NodeDemo Network NetworkProps.
Import MempoolProps P2p P2pDemo Gossip WalletProps Service ServiceProps Explorer Rpc Routes Daemon DaemonProps System.

#[local] Existing Instance ServiceDemo.demo_links.
#[local] Existing Instance ConfigProps.test_wallet.
#[local] Existing Instance ConfigProps.test_env.
#[local] Existing Instance GatewayProps.test_http.
#[local] Existing Instance GatewayProps.test_json.
#[local] Existing Instance DaemonDemo.demo_daemon_env.
#[local] Existing Instance RpcDemo.demo_explorer.
#[local] Existing Instance RouterDemo.first_match.
#[local] Existing Instance RouterDemo.first_match_laws.

#[local] Instance busy_service_env : ServiceEnv := {|
  wire _ := live_peer;
  node_others k n := if bool_decide (k mod 4 = 3)%nat then (submit_transaction tx0 n).2 else n;
  node_poisoned _ := false;
  addr_of_string s := if bool_decide (s = EmptyString) then None else Some (Z.of_nat (String.length s));
  addr_to_string _ := "addr";
  instant _ := 1000;
  timestamp_now _ := Some 7000;
  elapsed_nanos _ := 500;
  peers_file_write _ := Ok tt;
  MAX_BLOCK_TXS := 100;
|}.

Definition system0 : System :=
  mkSystem (new_daemon (mkService (mkSession node0 0 0 [])
    (mkWorld (mkTables (<[5 := P2p.new 0 5]> {[6 := mkPeerState 6 1 0 None]}) ∅ ∅) 0 [])
    DaemonDemo.miner_config true (mkStats 0 0) [])) 0 0.

Definition decode_nothing (b : bytes) : result string SignedTransaction := Err "bytes".

Definition busy : list Action :=
  [Request GET "/mempool" "body"; Connection 77 [Received (BlockMessage block_a) (Ok tt); Unreadable];
   Request POST "/tx" "body"; Rounds 3 2; Request GET "/blocks/latest" "body"].

Lemma busy_others k n : rtc shared_step n (node_others k n).
Proof.
  cbn [node_others busy_service_env]. case_bool_decide; [|apply rtc_refl].
  apply rtc_once, shared_method, step_submit.
Qed.

Lemma system0_tables : table_ok 2 (tables (world (service_of system0))).
Proof.
  split; [by vm_compute|]. apply map_Forall_insert_2; [by vm_compute|]. apply map_Forall_singleton. by vm_compute.
Qed.

Lemma node0_good : node_good node0.
Proof.
  split; [exact (new_node_wf _ _ _ _ _ _ node0_created)| |exact node0_synced|].
  2: { apply (StorageSaved.saved_readable ledger0 fresh_tables).
    apply StorageSaved.put_meta_readable, StorageSaved.empty_readable. }
  apply MempoolFacts.with_config_exact, MempoolProps.default_config_wf.
Qed.

Lemma threads_keep_contract_witness :
  rtc shared_step (the_node system0) (the_node (execute decode_nothing system0 busy)).
Proof.
  refine (threads_keep_contract decode_nothing 2 busy_others _ _ busy system0 _).
  - intros peer k n. apply rtc_refl.
  - intros k t Ht. exact Ht.
  - split; [exact Logic.I|exact system0_tables|reflexivity].
Defined.

Lemma shared_node_stays_good_witness :
  service_ok node_good 2 (service_of (execute decode_nothing system0 busy)).
Proof.
  refine (proj1 (shared_node_stays_good decode_nothing 2 busy_others _ _ busy system0 _)).
  - intros peer k n. apply rtc_refl.
  - intros k t Ht. exact Ht.
  - split; [exact node0_good|exact system0_tables|reflexivity].
Defined.

Lemma get_requests_change_nothing_witness :
  RpcProps.untouched (rpc_state system0) (Routes.serve decode_nothing GET "/chain/stats" "body" (rpc_state system0)).2.
Proof. exact (RoutesProps.get_requests_change_nothing decode_nothing "/chain/stats" "body" (rpc_state system0)). Defined.

(** The chain has the block of the connection and a block the node has mined,
    with the transaction of the other thread. *)
Example busy_chain :
  block_transactions <$> chain_blocks (chain (ledger (the_node (execute decode_nothing system0 busy)))) =
    [[]; block_transactions block_a; [tx0]].
Proof. by vm_compute. Qed.

End SystemDemo.
