(* ===== verification/EndToEnd.v ===== *)
(** * EndToEnd: a payment from the wallet command to the pool of the node

    The wallet's HTTP client talks to the RPC server of a node: the answer of
    the posting call is what [Routes.serve] answers in the state of the server
    at that moment. *)

From S2P Require Import Prelude Collections Core Demo Mempool Bytes Storage StorageDemo Node NodeFacts NodeSync NodeShared.
From S2P Require Import NodeDemo Network P2p Gossip Wallet WalletProps Config Service Explorer ExplorerProps.
From S2P Require Import Rpc RpcProps RpcDemo Routes RoutesProps.

Open Scope string_scope.
Open Scope list_scope.
Open Scope Z_scope.

Module EndToEnd.
Import Node Network P2p Gossip Wallet WalletProps Explorer Rpc RpcProps Routes RoutesProps.

Section payment.
Context `{Paqus, !ChainParams, Kv, Lmdb, Clock, !Storage.Codecs, !PeerWorld, !Service.ServiceEnv}.
Context `{!Wallet.Crypto, !Wallet.WalletEnv, !ExplorerEnv, !Router, !RouterLaws}.
Context (try_from_slice : bytes → result string SignedTransaction).
(** The body of an HTTP answer: the JSON text of the response, or axum's own
    text. *)
Context (text : HttpAnswer → string).

(** Borsh and hex round trip, the JSON of the command is read back, and
    [Transaction::new_at] stores its first argument as the sender. *)
Context (Hfrom : ∀ a to amount fee n t, transaction_from (new_at a to amount fee n t) = a).
Context (Hhex : ∀ tx h, transaction_to_hex tx = Ok h → signed_transaction_from_hex try_from_slice h = Ok tx).
Context (Hjson : ∀ h, json_tx (tx_body h) = Ok h).

(** The command has read its wallet, has asked for the next nonce, and has signed
    and encoded the payment [tx]; the client [c1] has not posted it yet. *)
Inductive prepared path to amount fee n rpc c : SignedTransaction → string → Client → Prop :=
  | prepared_by w resolved c1 t tx_hex :
      load_wallet path = Ok w →
      resolve_wallet_nonce (address w) rpc c = (Ok resolved, c1) →
      unix_timestamp = Ok t →
      transaction_to_hex (payment w to amount fee (default resolved n) t) = Ok tx_hex →
      prepared path to amount fee n rpc c (payment w to amount fee (default resolved n) t) tx_hex c1.


End payment.
End EndToEnd.
