(* ===== verification/EndToEndDemo.v ===== *)
(** * EndToEndDemo: alice pays bob through a node of the demo protocol

    The wallet file holds alice's key, the HTTP client is answered by the RPC
    server of a node, and the node is asked twice for the same payment: the
    second one is refused, and the command does not fail. *)

From S2P Require Import Prelude Collections Core Demo Mempool Bytes Storage StorageDemo Node NodeFacts NodeSync NodeShared.
From S2P Require Import NodeDemo Network P2p Gossip Wallet WalletProps Config Service Explorer ExplorerProps.
From S2P Require Import Rpc RpcProps RpcDemo Routes RoutesProps EndToEnd.

Open Scope string_scope.
Open Scope list_scope.
Open Scope Z_scope.

Module EndToEndDemo.
Import Demo Storage StorageDemo Node NodeDemo Network P2p Gossip Wallet WalletProps Explorer Rpc RpcProps RpcDemo.
Import Routes RoutesProps EndToEnd.

#[local] Existing Instance RpcDemo.demo_explorer.
#[local] Existing Instance RpcDemo.quiet_world.
#[local] Existing Instance RpcDemo.quiet_service.

(** Every payment is signed into transaction 11, so that the payment of the
    command is [tx0]. *)
#[local] Instance paying_crypto : Crypto := {|
  PublicKey := Z; Signature := Z; Transaction := Tx; SECRET_KEY_SIZE := 1;
  derive_public_key sk := sumZ sk;
  address_from_public_key pk := pk;
  sign sk msg := 10;
  generate_keypair seed := (Z.of_nat seed, [Z.of_nat seed]);
  new_at from to amount fee nonce time := mkTx 0 from to amount fee nonce time;
  transaction_from := d_from;
  signing_bytes tx := [d_to tx; d_amount tx];
  new_signed tx pk sig := mkTx (pk + sig) (d_from tx) (d_to tx) (d_amount tx) (d_fee tx) (d_nonce tx) (d_time tx);
|}.

#[local] Instance paying_env (post : string → result string string) : WalletEnv := {|
  address_to_string a := "alice";
  hex_decode s :=
    if bool_decide (s = "key") then Some [1]
    else if bool_decide (s = "alice") then Some (repeat 0 19 ++ [1])
    else if bool_decide (s = "feed") then Some [2] else None;
  transaction_to_hex tx := if bool_decide (tx = tx0) then Ok "feed" else Err "failed";
  read_to_string _ := Ok "file";
  parse_wallet_file _ := Ok (mkWalletFile "alice" "key");
  parse_balance _ := Ok (Some 0);
  parse_mempool _ := Ok [];
  http_get _ _ _ := Ok "body";
  http_post_json _ _ _ body := post body;
  unix_timestamp := Ok 5000;
|}.

(** The JSON text [{"tx":"..."}] without its quotes. *)
#[local] Instance json_router : Router := {|
  dispatch := @dispatch RouterDemo.first_match;
  json_tx body := Ok (String.substring 7 (String.length body - 9) body);
|}.

#[local] Instance json_router_laws : RouterLaws.
Proof. destruct RouterDemo.first_match_laws as [Hs Hst Hc]. split; [exact Hs|exact Hst|exact Hc]. Qed.

Lemma substring_prefix h s r : String.substring 0 (String.length h) ((h +:+ s) +:+ r) = h.
Proof.
  induction h as [|c h IH]; [generalize ((EmptyString +:+ s) +:+ r); intros []; reflexivity|].
  change (String c (String.substring 0 (String.length h) ((h +:+ s) +:+ r)) = String c h). by rewrite IH.
Qed.

Lemma append_length_add s r : String.length (s +:+ r) = (String.length s + String.length r)%nat.
Proof. induction s as [|c s IH]; [reflexivity|]. change (S (String.length (s +:+ r)) = S (String.length s + String.length r)). lia. Qed.

Definition closing : string := String (Ascii.ascii_of_nat 34) EmptyString.

Lemma json_reads_body h : json_tx (tx_body h) = Ok h.
Proof.
  cbn [json_tx json_router]. f_equal.
  replace (String.length (tx_body h) - 9)%nat with (String.length h).
  - exact (substring_prefix h closing "}").
  - change (String.length (tx_body h)) with (7 + String.length ((h +:+ closing) +:+ "}"))%nat.
    rewrite !append_length_add. change (String.length closing) with 1%nat. change (String.length "}") with 1%nat. lia.
Qed.

Definition read_tx (b : bytes) : result string SignedTransaction :=
  if bool_decide (b = [2]) then Ok tx0 else Err "bytes".

Definition text (a : HttpAnswer) : string :=
  match a with Answered r => if bool_decide (status r = OK) then "accepted" else "refused" | AxumError _ => "axum" end.

Definition fresh : RpcState := mkRpcState (Service.new_service node0 demo_config) 0 0.

(** The server makes no request itself. *)
#[local] Instance server_env : WalletEnv := paying_env (λ _, Err "offline").

(** The server of a node, as the client sees it. *)
Definition online (s : RpcState) (body : string) : result string string :=
  Ok (text (Routes.serve read_tx POST "/tx" body s).1).

Definition paid : RpcState :=
  (Routes.serve read_tx POST "/tx" (tx_body "feed") fresh).2.

#[local] Instance alice_wallet : WalletEnv := paying_env (online fresh).

Lemma sender_kept a to amount fee n t : transaction_from (new_at a to amount fee n t) = a.
Proof. reflexivity. Qed.

Lemma reads_back tx h : transaction_to_hex tx = Ok h → signed_transaction_from_hex read_tx h = Ok tx.
Proof.
  cbn [transaction_to_hex alice_wallet paying_env]. case_bool_decide; [|done]. intros [= <-]. subst. by vm_compute.
Qed.

#[local] Instance Printed_eq_dec : EqDecision Printed.
Proof. solve_decision. Defined.
#[local] Instance Client_eq_dec : EqDecision Client.
Proof. solve_decision. Defined.

Lemma alice_pays : submit_wallet_payment "file" bob 10 2 None "rpc" (mkClient 0 []) =
  (Ok (Wallet.Response "accepted"), mkClient 3 [("rpc", "/tx", tx_body "feed")]).
Proof. by_eval. Qed.

Lemma served tx_hex k : http_post_json k "rpc" "/tx" (tx_body tx_hex) =
  Ok (text (Routes.serve read_tx POST "/tx" (tx_body tx_hex) fresh).1).
Proof. reflexivity. Qed.


(** The same command against the server that already has the payment: refused,
    and the command succeeds with the text of the refusal. *)
Example refused_payment_succeeds :
  let _ := paying_env (online paid) in
  (submit_wallet_payment "file" bob 10 2 None "rpc" (mkClient 0 [])).1 = Ok (Wallet.Response "refused").
Proof. by_eval. Qed.

End EndToEndDemo.
