(* ===== verification/Catchup.v ===== *)
(** * Catchup: a node that polls a peer which runs the same program

    The answers of the peer are those of [Network.handle_message] on its node.
    A poll asks for the next blocks of the peer's chain and applies them; when
    the node finds them valid, it has the peer's ledger after one poll for every
    [MAX_BLOCKS_PER_SYNC] blocks it was behind. *)

From S2P Require Import Prelude Collections Core Mempool Cache Bytes Storage StorageFacts StorageLedger StorageReads.
From S2P Require Import StorageSaved StorageProps Node NodeFacts NodeProps NodeSync Network P2p.

Open Scope Z_scope.

Module Catchup.
Import Storage StorageFacts Node NodeFacts NodeSync Network P2p P2pProps.

(** ** Blocks a node takes as its new tip *)

Section accept.
Context `{Paqus, Kv, Lmdb, Clock, !Codecs}.
Implicit Types n : Node.

(** What the protocol crate says of a block [b] that continues the ledger [l]
    of a node with the fork choice [f]: it is valid at any time, its state root
    and its transactions fit, and it becomes the best tip. *)
Record welcomed (c : Consensus) (l : Ledger) (f : ForkChoice) (b : Block) (l1 : Ledger) (f1 : ForkChoice) : Prop := {
  wl_valid n k : ledger n = l → fork_choice n = f → consensus n = c → validate_at (wall k) n b = Ok tt;
  wl_extends : tip_hash l = Some (previous_hash b);
  wl_root : validate_canonical_state_root l b = Ok tt;
  wl_applies : ledger_apply_block b l = (Ok tt, l1);
  wl_indexed : fc_insert_block b f = (Ok (block_hash b), f1);
  wl_best : fn_hash <$> fc_best_tip f1 = Some (block_hash b);
  wl_height h : tip_height l = Some h → tip_height l1 = Some (h + 1);
}.

(** A list of blocks, each welcomed after the ones before, and the ledger they
    lead to. *)
Inductive follows (c : Consensus) : Ledger → ForkChoice → list Block → Ledger → Prop :=
  | follows_nil l f : follows c l f [] l
  | follows_cons l f b bs l1 f1 l2 :
      welcomed c l f b l1 f1 → follows c l1 f1 bs l2 → follows c l f (b :: bs) l2.

(** No orphans, and no parent to ask for. *)
Record idle n : Prop := {
  idle_orphans : orphan_blocks n = ∅;
  idle_children : orphan_children_by_parent n = ∅;
  idle_requests : missing_parent_requests n = [];
}.

Lemma idle_same n n' : orphans_of n = orphans_of n' → idle n → idle n'.
Proof. unfold orphans_of. intros [= E1 E2 E3 _ _] [Ho Hc Hr]. split; congruence. Qed.

Lemma created_idle l st c genesis clock n : with_genesis_accounts l st c genesis clock = Some n → idle n.
Proof. unfold with_genesis_accounts. by intros (f & _ & [= <-])%bind_Some. Qed.

Lemma prune_idle now n : idle n → prune_expired_orphans now n = n.
Proof. intros [Ho _ _]. unfold prune_expired_orphans. by rewrite Ho, bt_iter_empty. Qed.

Lemma process_idle h n : idle n →
  ∃ k, process_orphans_for_parent h n = (Ok tt, set_clock_reads k n).
Proof.
  intros Hn. exists (S (clock_reads n)). unfold process_orphans_for_parent. rewrite SE_bind_unfold.
  cbn [current_unix_timestamp]. rewrite SE_bind_modify, prune_idle by (by apply (idle_same n)).
  rewrite SE_bind_get. unfold process_fuel. cbn [process_loop]. rewrite SE_bind_unfold, SE_bind_get.
  cbn [set_clock_reads orphan_children_by_parent]. rewrite (idle_children _ Hn). rewrite lookup_empty.
  by destruct (size _).
Qed.

Context `{!CodecLaws, !KvLaws, !NoFaults, !LedgerLaws}.

Lemma on_storage_only {A} (m : SE Store StorageError A) n r n' :
  on_storage m n = (r, n') → n' = set_storage (storage n') n.
Proof. unfold on_storage, zoom. destruct (m (storage n)). by intros [= _ <-]. Qed.

(** The fields a welcomed block decides, and those it leaves alone. *)
Definition took (n : Node) (l1 : Ledger) (f1 : ForkChoice) (n' : Node) : Prop :=
  ledger n' = l1 ∧ fork_choice n' = f1 ∧ consensus n' = consensus n ∧ orphans_of n' = orphans_of n ∧ synced n'.

Lemma extend_took b n l1 :
  ledger_apply_block b (ledger n) = (Ok tt, l1) → synced n →
  ∃ n', (on_ledger (ledger_apply_block b) ;;
    modify (λ n, set_mempool (Mempool.remove_confirmed b (mempool n)) n) ;;
    modify (λ n, set_cache (Cache.insert_block b (cache n)) n) ;;
    modify (λ n, set_cache (cache_block_accounts (ledger n) b (cache n)) n) ;;
    n2 ← get_state; on_storage (save_ledger (ledger n2))) n = (Ok tt, n') ∧ took n l1 (fork_choice n) n'.
Proof.
  intros El Hn. rewrite SE_bind_unfold. unfold on_ledger, zoom. rewrite El. cbn [map_err].
  rewrite !SE_bind_modify, SE_bind_get.
  match goal with |- context [on_storage (save_ledger (ledger ?m)) _] => set (n1 := m) end.
  destruct (save_ledger_syncs n1) as (n2 & E2 & Hn2).
  - apply apply_block_blocks in El as [Hb Hx]. intros x [->|Hin]%Hx; [done|]. by apply (sync_small _ _ Hn).
  - apply (sync_version _ _ Hn).
  - exists n2. split; [done|]. apply on_storage_only in E2. split_and!; [by rewrite E2..|done].
Qed.

Lemma apply_known_welcomed b n l1 f1 :
  welcomed (consensus n) (ledger n) (fork_choice n) b l1 f1 → synced n →
  ∃ n', apply_known_parent_block b n = (Ok tt, n') ∧ took n l1 f1 n'.
Proof.
  intros W Hn. unfold apply_known_parent_block, validate_block_for_known_parent.
  rewrite SE_bind_unfold. rewrite SE_bind_unfold. cbn [current_unix_timestamp]. rewrite SE_bind_get.
  set (n1 := set_clock_reads _ n). unfold lift at 1. rewrite (wl_valid _ _ _ _ _ _ W n1) by done.
  rewrite SE_bind_get, SE_bind_lift.
  assert (∀ m, ledger m = ledger n → extends_active_tip m b = true) as Hext.
  { intros m E. unfold extends_active_tip. rewrite E, (wl_extends _ _ _ _ _ _ W). by apply bool_decide_eq_true. }
  assert (validate_block_state_for_known_parent n1 b = Ok tt) as ->.
  { unfold validate_block_state_for_known_parent. rewrite Hext by done.
    change (ledger n1) with (ledger n). rewrite (wl_root _ _ _ _ _ _ W). cbn.
    unfold try_apply. by rewrite (wl_applies _ _ _ _ _ _ W). }
  rewrite SE_bind_unfold. unfold on_fork_choice, zoom. change (fork_choice n1) with (fork_choice n).
  rewrite (wl_indexed _ _ _ _ _ _ W). cbn [map_err]. rewrite SE_bind_get. cbn zeta.
  set (n2 := set_fork_choice f1 n1). change (fork_choice n2) with f1. rewrite (wl_best _ _ _ _ _ _ W).
  rewrite bool_decide_eq_false_2 by naive_solver. rewrite Hext by done. cbn [negb].
  destruct (extend_took b n2 l1) as (n' & En & Ht); [exact (wl_applies _ _ _ _ _ _ W)|exact Hn|].
  by exists n'.
Qed.

Lemma apply_block_welcomed b n l1 f1 :
  welcomed (consensus n) (ledger n) (fork_choice n) b l1 f1 → synced n → idle n →
  ∃ n', apply_block b n = (Ok tt, n') ∧ took n l1 f1 n'.
Proof.
  intros W Hn Hi. unfold apply_block. rewrite SE_bind_unfold. cbn [current_unix_timestamp].
  set (n0 := set_clock_reads _ n). assert (idle n0) as Hi0 by by apply (idle_same n).
  rewrite SE_bind_modify, prune_idle by done.
  destruct (apply_known_welcomed b n0 l1 f1) as (n1 & E1 & El & Ef & Ec & Eo & Hs); [exact W|exact Hn|].
  rewrite SE_bind_attempt, E1.
  destruct (process_idle (block_hash b) n1) as [k Ek]; [by apply (idle_same n0)|].
  cbn [fst snd]. rewrite Ek. eexists. split; [done|]. by split_and!.
Qed.

Lemma flush_took n : synced n → ∃ n', flush_to_storage n = (Ok tt, n') ∧ took n (ledger n) (fork_choice n) n'.
Proof.
  intros Hn. unfold flush_to_storage. rewrite SE_bind_get.
  destruct (save_ledger_syncs n) as (n' & E & Hn'); [apply Hn..|]. exists n'. split; [done|].
  apply on_storage_only in E. split_and!; [by rewrite E..|done].
Qed.

End accept.

(** ** Polls *)

Section polls.
Context `{Paqus, Kv, Lmdb, Clock, !Codecs, !CodecLaws, !KvLaws, !NoFaults, !LedgerLaws, !ChainParams, !Wire}.

(** The node of the peer, which only answers: by [messages_preserve_node] its
    queries leave it as it is. *)
Context (r : Node).

(** The connection takes every query to the peer's handler and its answer
    back, and nobody else uses the local node meanwhile. *)
Record serves : Prop := {
  sv_reply k m answer : (handle_message m r).1 = Ok (Some answer) → reply k m = Ok answer;
  sv_sent k m : sent k m = Ok tt;
  sv_others k n : others k n = n;
  sv_open k : poisoned k = false;
}.

Context (Hserves : serves) (top : Height) (Htop : top ≤ u64_max).

(** A node at height [h], that finds the blocks [bs] of the peer above [h] valid. *)
Record behind (h : Height) (bs : list Block) (n : Node) : Prop := {
  bh_synced : synced n;
  bh_idle : idle n;
  bh_height : tip_height (ledger n) = Some h;
  bh_range : 0 ≤ h ≤ top;
  bh_follows : follows (consensus n) (ledger n) (fork_choice n) bs (ledger r);
  bh_served : Forall2 (λ i b, ledger_block (ledger r) i = Some b) (seqZ (h + 1) (top - h)) bs;
}.
Abbreviation node_of s := (shared_node s).

Lemma behind_same h bs n n' : ledger n = ledger n' → fork_choice n = fork_choice n' → consensus n = consensus n' →
  orphans_of n = orphans_of n' → tables (storage n) = tables (storage n') → behind h bs n → behind h bs n'.
Proof.
  intros El Ef Ec Eo Et [Hs Hi Hh Hr Hf Hb]. split; [|by eapply idle_same|congruence|done|congruence|done].
  unfold synced in *. by rewrite <-El, <-Et.
Qed.

Lemma locked_runs {A} (m : SE Node SyncError A) s : locked m s =
  ((m (node_of s)).1, mkSession (m (node_of s)).2 (exchanges s) (S (locks s)) (log s)).
Proof.
  unfold locked, locked_or. rewrite (sv_others Hserves), (sv_open Hserves). by destruct (m _).
Qed.

Lemma request_runs m answer s : (handle_message m r).1 = Ok (Some answer) →
  request m s = (Ok answer, mkSession (node_of s) (S (exchanges s)) (locks s) (log s ++ [m])).
Proof. intros Hm. unfold request. by rewrite (sv_reply Hserves _ _ _ Hm). Qed.

Lemma height_answer i : (handle_message (GetBlockByHeight i) r).1 = Ok (BlockMessage <$> ledger_block (ledger r) i).
Proof. reflexivity. Qed.

(** The block above the tip. *)
Lemma block_taken h b bs s : behind h (b :: bs) (node_of s) →
  ∃ s', request_block (h + 1) s = (Ok tt, s') ∧ behind (h + 1) bs (node_of s') ∧
    log s' = log s ++ [GetBlockByHeight (h + 1)].
Proof.
  intros [Hs Hi Hh Hr Hf Hb]. apply Forall2_cons_inv_r in Hb as (i & hs & Hb & Hbs & Ei).
  assert (0 < top - h) as Hlt by (destruct (Z_lt_ge_dec 0 (top - h)); [done|by rewrite seqZ_nil in Ei by lia]).
  rewrite seqZ_cons in Ei by lia. injection Ei as <- <-.
  inversion Hf as [|? ? ? ? l1 f1 ? W Hf']; subst.
  unfold request_block. rewrite SE_bind_unfold.
  rewrite (request_runs _ (BlockMessage b)) by (by rewrite height_answer, Hb).
  unfold apply_and_flush. rewrite locked_runs. cbn [shared_node exchanges locks log].
  destruct (apply_block_welcomed _ _ _ _ W Hs Hi) as (n1 & E1 & El & Ef & Ec & Eo & Hs1).
  destruct (flush_took n1 Hs1) as (n2 & E2 & El2 & Ef2 & Ec2 & Eo2 & Hs2).
  rewrite SE_bind_unfold. unfold call, zoom, id. rewrite E1. cbn [map_err]. rewrite E2. cbn [map_err fst snd].
  eexists. split; [done|]. split; [|done]. cbn [shared_node]. split.
  - done.
  - apply (idle_same (node_of s)); [congruence|done].
  - rewrite El2, El. by apply (wl_height _ _ _ _ _ _ W).
  - lia.
  - by rewrite El2, Ef2, Ec2, El, Ef, Ec.
  - replace (h + 1 + 1) with (Z.succ (h + 1)) by lia. by replace (top - (h + 1)) with (Z.pred (top - h)) by lia.
Qed.

Lemma heights_log s s' h : log s' = log s ++ [GetBlockByHeight h] → heights_of (log s') = heights_of (log s) ++ [h].
Proof. intros ->. by rewrite heights_of_app. Qed.

Lemma blocks_taken k : ∀ h bs s, behind h bs (node_of s) → Z.of_nat k ≤ top - h →
  ∃ bs' s', for_each request_block (seqZ (h + 1) (Z.of_nat k)) s = (Ok tt, s') ∧
    behind (h + Z.of_nat k) bs' (node_of s') ∧
    heights_of (log s') = heights_of (log s) ++ seqZ (h + 1) (Z.of_nat k).
Proof.
  induction k as [|k IH]; intros h bs s Hn Hk.
  - exists bs, s. rewrite seqZ_nil, app_nil_r by lia. by replace (h + Z.of_nat 0) with h by lia.
  - pose proof (bh_served _ _ _ Hn) as Hb. destruct bs as [|b bs].
    { apply Forall2_length in Hb. rewrite length_seqZ in Hb. cbn in Hb. lia. }
    rewrite seqZ_cons by lia. cbn [for_each]. rewrite SE_bind_unfold.
    destruct (block_taken _ _ _ _ Hn) as (s1 & -> & Hn1 & Hl%heights_log).
    destruct (IH _ _ _ Hn1) as (bs' & s' & E & Hn' & Hl'); [lia|].
    replace (Z.pred (Z.of_nat (S k))) with (Z.of_nat k) by lia. replace (Z.succ (h + 1)) with (h + 1 + 1) by lia.
    exists bs', s'. split; [done|]. split; [|by rewrite Hl', Hl, <-app_assoc].
    by replace (h + Z.of_nat (S k)) with (h + 1 + Z.of_nat k) by lia.
Qed.

Lemma parents_asked h bs s : behind h bs (node_of s) →
  ∃ s', request_missing_parent_blocks s = (Ok false, s') ∧ behind h bs (node_of s') ∧ log s' = log s.
Proof.
  intros Hn. pose proof (idle_requests _ (bh_idle _ _ _ Hn)) as Hr.
  unfold request_missing_parent_blocks. rewrite SE_bind_unfold, locked_runs.
  unfold call, zoom, id, drain_missing_parent_requests. rewrite SE_bind_unfold.
  cbn [current_unix_timestamp]. unfold infallible, drain_missing_parent_requests_at.
  cbn [set_clock_reads missing_parent_requests]. rewrite Hr. cbn.
  eexists. split; [done|]. split; [|done]. eapply behind_same, Hn; try done. unfold orphans_of. cbn. by rewrite Hr.
Qed.

Context (hash : BlockHash) (Htip : tip_info r = Some (mkTipInfo top hash)) (addrs : list string).

Lemma compatible_versions tip : validate_compatibility (local tip) = Ok tt.
Proof. unfold validate_compatibility, local. cbn. by rewrite !bool_decide_eq_false_2 by naive_solver. Qed.

Lemma version_answer tip : (handle_message (Version (local tip)) r).1 = Ok (Some (VerAck (local_version r))).
Proof. cbn [handle_message]. rewrite SE_bind_get. by rewrite compatible_versions. Qed.

Lemma tip_answer : (handle_message GetTip r).1 = Ok (Some (Tip (mkTipInfo top hash))).
Proof. cbn [handle_message]. rewrite SE_bind_get. by rewrite Htip. Qed.

Lemma handshake_runs s : ∃ s', handshake_peer addrs s = (Ok tt, s') ∧ node_of s' = node_of s ∧
  heights_of (log s') = heights_of (log s).
Proof.
  pose proof (handshake_heights addrs s) as Hh. unfold handshake_peer in *.
  rewrite SE_bind_unfold, locked_runs in *. cbn [gets fst snd] in *.
  rewrite SE_bind_unfold, (request_runs _ _ _ (version_answer _)) in *.
  unfold local_version in *. rewrite compatible_versions in *. cbn [map_err] in *. rewrite SE_bind_lift in *.
  case_bool_decide; [|by eexists].
  unfold send_message in *. rewrite (sv_sent Hserves) in *. by eexists.
Qed.

Lemma tip_runs s : ∃ s', request_tip s = (Ok top, s') ∧ node_of s' = node_of s ∧
  heights_of (log s') = heights_of (log s).
Proof.
  unfold request_tip. rewrite SE_bind_unfold, (request_runs _ _ _ tip_answer). eexists. split_and!; [done|done|].
  cbn [log]. by rewrite heights_of_app, app_nil_r.
Qed.

(** How many blocks one poll takes. *)
Definition window (h : Height) : Z := Z.min (top - h) MAX_BLOCKS_PER_SYNC.

Lemma poll_takes h bs s : behind h bs (node_of s) →
  ∃ bs' s', poll_peer_connection addrs s = (Ok (if bool_decide (h = top) then Idle top else Synced top), s') ∧
    behind (h + window h) bs' (node_of s') ∧
    heights_of (log s') = heights_of (log s) ++ seqZ (h + 1) (window h).
Proof.
  intros Hn. pose proof (bh_range _ _ _ Hn) as Hr. unfold poll_peer_connection. rewrite SE_bind_unfold.
  destruct (handshake_runs s) as (s1 & -> & E1 & L1). rewrite SE_bind_unfold.
  destruct (tip_runs s1) as (s2 & -> & E2 & L2). rewrite SE_bind_unfold, locked_runs. cbn [gets fst snd].
  set (s3 := mkSession _ _ _ _). rewrite <-E1, <-E2 in Hn. change (node_of s2) with (node_of s3) in Hn |- *.
  assert (heights_of (log s3) = heights_of (log s)) as L3 by (by rewrite <-L1, <-L2).
  unfold node_tip_height. rewrite (bh_height _ _ _ Hn). cbn [default from_option id].
  unfold window, MAX_BLOCKS_PER_SYNC, sat_add. unfold u64_max in *. case_bool_decide as Hle; cbn zeta.
  - rewrite bool_decide_eq_true_2 by lia. rewrite SE_bind_unfold.
    destruct (parents_asked _ _ _ Hn) as (s4 & -> & Hn4 & L4). exists bs, s4.
    replace (Z.min (top - h) 64) with 0 by lia. rewrite seqZ_nil, app_nil_r, Z.add_0_r by lia.
    by rewrite L4.
  - rewrite bool_decide_eq_false_2 by lia. rewrite SE_bind_unfold.
    replace (Z.min (h + 1) _) with (h + 1) by lia.
    replace (Z.min top _ - (h + 1) + 1) with (Z.of_nat (Z.to_nat (Z.min (top - h) 64))) by lia.
    destruct (blocks_taken (Z.to_nat (Z.min (top - h) 64)) _ _ _ Hn) as (bs4 & s4 & -> & Hn4 & L4); [lia|].
    rewrite SE_bind_unfold. destruct (parents_asked _ _ _ Hn4) as (s5 & -> & Hn5 & L5).
    exists bs4, s5. rewrite Z2Nat.id in * by lia. split_and!; [done|done|]. by rewrite L5, L4, L3.
Qed.

(** The session after [k] polls. *)
Definition polled (k : nat) (s : Session) : Session := Nat.iter k (λ s, (poll_peer_connection addrs s).2) s.

Lemma polled_takes k h bs s : behind h bs (node_of s) →
  ∃ bs', behind (h + Z.min (top - h) (MAX_BLOCKS_PER_SYNC * Z.of_nat k)) bs' (node_of (polled k s)) ∧
    heights_of (log (polled k s)) = heights_of (log s) ++ seqZ (h + 1) (Z.min (top - h) (MAX_BLOCKS_PER_SYNC * Z.of_nat k)).
Proof.
  intros Hn. pose proof (bh_range _ _ _ Hn) as Hr. unfold MAX_BLOCKS_PER_SYNC.
  induction k as [|k (bs1 & Hn1 & L1)].
  - exists bs. rewrite Z.mul_0_r, Z.min_r, seqZ_nil, app_nil_r, Z.add_0_r by lia. by split.
  - destruct (poll_takes _ _ _ Hn1) as (bs2 & s2 & E & Hn2 & L2).
    change (polled (S k) s) with (poll_peer_connection addrs (polled k s)).2. rewrite E. cbn [snd]. exists bs2. unfold window, MAX_BLOCKS_PER_SYNC in *.
    set (d := Z.min (top - h) (64 * Z.of_nat k)) in *. assert (0 ≤ d) by lia.
    replace (Z.min (top - h) (64 * Z.of_nat (S k))) with (d + Z.min (top - (h + d)) 64) by lia.
    split; [by rewrite Z.add_assoc|]. rewrite L2, L1, <-app_assoc, seqZ_app by lia.
    by replace (h + 1 + d) with (h + d + 1) by lia.
Qed.

(** C5: a node catches up with a peer that runs the same program.  The node has
    no orphans and asks for no missing parent, its database is in step with its
    ledger and the engine works; the peer keeps its chain, and every exchange of
    the connection delivers what the peer's handler answers; no other thread
    changes the node meanwhile or poisons its lock.  When the node then finds the
    peer's blocks above its tip valid, one after the other, every poll succeeds,
    and after one poll for every 64 blocks it was behind its ledger is the
    peer's; it has asked for each of these blocks exactly once, in order, and a
    further poll finds nothing to do. *)
Theorem peer_catches_up h bs s k : behind h bs (node_of s) → top - h ≤ MAX_BLOCKS_PER_SYNC * Z.of_nat k →
  ledger (node_of (polled k s)) = ledger r ∧
  heights_of (log (polled k s)) = heights_of (log s) ++ seqZ (h + 1) (top - h) ∧
  (poll_peer_connection addrs (polled k s)).1 = Ok (Idle top) ∧
  (∀ j, is_ok (poll_peer_connection addrs (polled j s)).1 = true).
Proof.
  intros Hn Hk. destruct (polled_takes k _ _ _ Hn) as (bs' & Hn' & L).
  rewrite Z.min_l in Hn', L by done. replace (h + (top - h)) with top in Hn' by lia.
  split_and!; [|done| |].
  - pose proof (bh_served _ _ _ Hn') as Hb. rewrite Z.sub_diag, seqZ_nil in Hb by lia.
    apply Forall2_nil_inv_l in Hb as ->.
    pose proof (bh_follows _ _ _ Hn') as Hf. by inversion Hf.
  - destruct (poll_takes _ _ _ Hn') as (? & ? & -> & _). by rewrite bool_decide_eq_true_2.
  - intros j. destruct (polled_takes j _ _ _ Hn) as (? & Hj & _). destruct (poll_takes _ _ _ Hj) as (? & ? & -> & _).
    by case_bool_decide.
Qed.

End polls.
End Catchup.
