(* ===== verification/CatchupDemo.v ===== *)
(** * CatchupDemo: a node on the genesis block catches up on the demo protocol *)

From S2P Require Import Prelude Collections Core Demo Mempool Cache Bytes Storage StorageDemo StorageFacts Node.
From S2P Require Import NodeFacts NodeProps NodeSync NodeDemo Network P2p P2pDemo Catchup.

Open Scope string_scope.
Open Scope list_scope.
Open Scope Z_scope.

Module CatchupDemo.
Import Demo Storage StorageDemo Node NodeFacts NodeSync NodeDemo Network NetworkProps P2p P2pProps P2pDemo Catchup.

(** The peer has the chain of [node3]: the genesis block, [block_b1], [block_b2]. *)
#[local] Instance to_node3 : Wire := {|
  reply _ m := match (handle_message m node3).1 with Ok (Some answer) => Ok answer | _ => Err "timed out" end;
  sent _ _ := Ok tt; others _ n := n; poisoned _ := false;
|}.

Lemma node3_serves : serves node3.
Proof. split; [|done..]. intros k m answer E. cbn [reply to_node3]. by rewrite E. Qed.

Definition fork_b1 : @ForkChoice (@paqus_types demo) := (fc_insert_block block_b1 (fork_choice node0)).2.
Definition fork_b2 : @ForkChoice (@paqus_types demo) := (fc_insert_block block_b2 fork_b1).2.

Lemma b1_welcomed : welcomed (consensus node0) (ledger node0) (fork_choice node0) block_b1 ledger_b1 fork_b1.
Proof.
  split; [|by vm_compute..|].
  - intros n k _ Ef Ec. unfold validate_at. rewrite Ef, Ec. by vm_compute.
  - intros h. vm_compute. by intros [= <-].
Qed.

Lemma b2_welcomed : welcomed (consensus node0) ledger_b1 fork_b1 block_b2 (ledger node3) fork_b2.
Proof.
  split; [|by vm_compute..|].
  - intros n k _ Ef Ec. unfold validate_at. rewrite Ef, Ec. by vm_compute.
  - intros h. vm_compute. by intros [= <-].
Qed.

Lemma node0_behind : behind node3 2 0 [block_b1; block_b2] node0.
Proof.
  split.
  - exact node0_synced.
  - exact (created_idle _ _ _ _ _ _ node0_created).
  - by vm_compute.
  - done.
  - exact (follows_cons _ _ _ _ _ _ _ _ b1_welcomed (follows_cons _ _ _ _ _ _ _ _ b2_welcomed (follows_nil _ _ _))).
  - change (seqZ (0 + 1) (2 - 0)) with [1; 2]. repeat constructor; by vm_compute.
Qed.

Lemma peer_catches_up_witness :
  ledger (shared_node (polled [] 1 (session node0))) = ledger node3 ∧
  heights_of (log (polled [] 1 (session node0))) = [1; 2].
Proof.
  destruct (peer_catches_up node3 node3_serves 2 ltac:(by vm_compute) (block_hash block_b2) ltac:(by vm_compute) []
    0 [block_b1; block_b2] (session node0) 1 node0_behind ltac:(by vm_compute)) as (Hl & Hh & _).
  split; [exact Hl|exact Hh].
Defined.

End CatchupDemo.
