(* ===== verification/Commands.v ===== *)
(** * Commands: the wallet commands and the menu of wallets ([src/main.rs])

    The options of [wallet pay] and [wallet send], wallet files, and the menus
    that choose, create and import a wallet and send a payment.  The terminal is
    the list of lines that will be typed; the texts that are printed are left
    out.  Payments go through [Wallet]. *)

From Stdlib Require Import Ascii.
From S2P Require Import Prelude Collections Core Wallet Config.

Open Scope string_scope.
Open Scope list_scope.
Open Scope Z_scope.

Module Commands.
Import Wallet Config.

(** ** Arguments *)

Definition parse_amount (value : option string) (flag : string) : result string Amount :=
  value ← ok_or value ("missing value for " +:+ flag);
  map_err (λ error, "invalid amount for " +:+ flag +:+ ": " +:+ error) (parse_uint u32_max value).

Definition parse_nonce (value : option string) : result string Nonce :=
  value ← ok_or value "missing value for --nonce";
  map_err (λ error, "invalid nonce: " +:+ error) (parse_uint u64_max value).

Section commands.
Context `{Paqus, !Crypto, !WalletEnv}.
Abbreviation R := (result string).
Abbreviation C := (SE Client string).

(** The options of the short form. *)
Record ShortOptions := mkShort {
  so_wallet : string;
  so_rpc : string;
  so_fee : Amount;
  so_nonce : option Nonce;
}.
Definition short_defaults : ShortOptions :=
  mkShort "wallet.json" DEFAULT_RPC_ADDR DEFAULT_TRANSACTION_FEE None.

(** The loop over the options; [nonces] tells [wallet send] from [wallet pay]. *)
Fixpoint short_options (command : string) (nonces : bool) (args : list string) (o : ShortOptions) :
    R ShortOptions :=
  match args with
  | [] => Ok o
  | flag :: rest =>
      if bool_decide (flag = "--wallet") then
        match rest with
        | [] => Err "missing value for --wallet"
        | v :: rest' => short_options command nonces rest' (mkShort v (so_rpc o) (so_fee o) (so_nonce o))
        end
      else if bool_decide (flag = "--rpc") || bool_decide (flag = "--rpc-addr") then
        match rest with
        | [] => Err "missing value for --rpc"
        | v :: rest' => short_options command nonces rest' (mkShort (so_wallet o) v (so_fee o) (so_nonce o))
        end
      else if bool_decide (flag = "--fee") then
        match rest with
        | [] => parse_amount None "--fee" ;; Ok o
        | v :: rest' =>
            fee ← parse_amount (Some v) "--fee";
            short_options command nonces rest' (mkShort (so_wallet o) (so_rpc o) fee (so_nonce o))
        end
      else if nonces && bool_decide (flag = "--nonce") then
        match rest with
        | [] => parse_nonce None ;; Ok o
        | v :: rest' =>
            nonce ← parse_nonce (Some v);
            short_options command nonces rest' (mkShort (so_wallet o) (so_rpc o) (so_fee o) (Some nonce))
        end
      else Err ("unknown wallet " +:+ command +:+ " option `" +:+ flag +:+ "`")
  end.

Definition short_command (command : string) (nonces : bool) (args : list string) : C Printed :=
  to ← lift (parse_address (args !! 0%nat));
  amount ← lift (parse_amount (args !! 1%nat) "amount");
  o ← lift (short_options command nonces (drop 2 args) short_defaults);
  submit_wallet_payment (so_wallet o) to amount (so_fee o) (so_nonce o) (so_rpc o).

Definition wallet_pay_command (args : list string) : C Printed := short_command "pay" false args.

(** The options of the long form. *)
Record LongOptions := mkLong {
  lo_wallet : option string;
  lo_to : option Address;
  lo_amount : option Amount;
  lo_fee : Amount;
  lo_nonce : option Nonce;
  lo_rpc : string;
  lo_submit : bool;
}.
Definition long_defaults : LongOptions :=
  mkLong None None None DEFAULT_TRANSACTION_FEE None DEFAULT_RPC_ADDR false.

Fixpoint long_options (args : list string) (o : LongOptions) : R LongOptions :=
  match args with
  | [] => Ok o
  | flag :: rest =>
      if bool_decide (flag = "--wallet") then
        match rest with
        | [] => Ok (mkLong None (lo_to o) (lo_amount o) (lo_fee o) (lo_nonce o) (lo_rpc o) (lo_submit o))
        | v :: rest' => long_options rest'
            (mkLong (Some v) (lo_to o) (lo_amount o) (lo_fee o) (lo_nonce o) (lo_rpc o) (lo_submit o))
        end
      else if bool_decide (flag = "--to") then
        match rest with
        | [] => parse_address None ;; Ok o
        | v :: rest' =>
            to ← parse_address (Some v);
            long_options rest'
              (mkLong (lo_wallet o) (Some to) (lo_amount o) (lo_fee o) (lo_nonce o) (lo_rpc o) (lo_submit o))
        end
      else if bool_decide (flag = "--amount") then
        match rest with
        | [] => parse_amount None "--amount" ;; Ok o
        | v :: rest' =>
            amount ← parse_amount (Some v) "--amount";
            long_options rest'
              (mkLong (lo_wallet o) (lo_to o) (Some amount) (lo_fee o) (lo_nonce o) (lo_rpc o) (lo_submit o))
        end
      else if bool_decide (flag = "--fee") then
        match rest with
        | [] => parse_amount None "--fee" ;; Ok o
        | v :: rest' =>
            fee ← parse_amount (Some v) "--fee";
            long_options rest'
              (mkLong (lo_wallet o) (lo_to o) (lo_amount o) fee (lo_nonce o) (lo_rpc o) (lo_submit o))
        end
      else if bool_decide (flag = "--nonce") then
        match rest with
        | [] => parse_nonce None ;; Ok o
        | v :: rest' =>
            nonce ← parse_nonce (Some v);
            long_options rest'
              (mkLong (lo_wallet o) (lo_to o) (lo_amount o) (lo_fee o) (Some nonce) (lo_rpc o) (lo_submit o))
        end
      else if bool_decide (flag = "--rpc") || bool_decide (flag = "--rpc-addr") then
        match rest with
        | [] => Err "missing value for --rpc"
        | v :: rest' => long_options rest'
            (mkLong (lo_wallet o) (lo_to o) (lo_amount o) (lo_fee o) (lo_nonce o) v (lo_submit o))
        end
      else if bool_decide (flag = "--submit") then
        long_options rest
          (mkLong (lo_wallet o) (lo_to o) (lo_amount o) (lo_fee o) (lo_nonce o) (lo_rpc o) true)
      else Err ("unknown wallet send option `" +:+ flag +:+ "`")
  end.

Definition long_command (args : list string) : C Printed :=
  o ← lift (long_options args long_defaults);
  wallet_path ← lift (ok_or (lo_wallet o) "missing --wallet path");
  to ← lift (ok_or (lo_to o) "missing --to address");
  amount ← lift (ok_or (lo_amount o) "missing --amount");
  submit_wallet_transaction wallet_path to amount (lo_fee o) (lo_nonce o) (lo_rpc o) (lo_submit o).

Definition short_form (args : list string) : bool :=
  match args with
  | first :: second :: _ => negb (starts_with_dash first) && negb (starts_with_dash second)
  | _ => false
  end.

Definition wallet_send_command (args : list string) : C Printed :=
  if short_form args then short_command "send" true args else long_command args.

(** ** Wallet files *)

(** [serde_json] on the object of a wallet file, [hex::encode], the directory
    listings and whether a file exists. *)
Class FilesEnv := {
  hex_encode : bytes → string;
  public_key_bytes : PublicKey → bytes;
  wallet_json : string → string → string → result string string;
  write_file : string → string → result string ();
  read_dir : string → option (list string);
  has_json_extension : string → bool;
  exists_file : string → bool;
}.
Context `{!FilesEnv}.

(** The text that is written, with its path. *)
Definition save_wallet_file (path : string) (wallet : Wallet) : R string :=
  json_str ← map_err (λ error, "failed to serialize wallet: " +:+ error)
    (wallet_json (address_to_string (address wallet)) (hex_encode (public_key_bytes (public_key wallet)))
      (hex_encode (secret_key wallet)));
  map_err (λ error, "failed to write wallet file `" +:+ path +:+ "`: " +:+ error) (write_file path json_str) ;;
  Ok json_str.

Definition wallets_in (dir : string) : list (string * Wallet) :=
  match read_dir dir with
  | None => []
  | Some entries =>
      omap (λ path,
        if has_json_extension path then
          match load_wallet path with Ok wallet => Some (path, wallet) | Err _ => None end
        else None) entries
  end.

(** [dedup_by] keeps the first of neighbours with the same path. *)
Fixpoint dedup_paths (l : list (string * Wallet)) : list (string * Wallet) :=
  match l with
  | [] => []
  | x :: l' =>
      match dedup_paths l' with
      | y :: l'' => if bool_decide (x.1 = y.1) then x :: l'' else x :: y :: l''
      | [] => [x]
      end
  end.

Definition discover_wallets : list (string * Wallet) :=
  dedup_paths (sort_by (λ x y, String.leb x.1 y.1) (wallets_in "." ++ wallets_in "./data/paqus")).

(** ** Menus *)

(** The lines still to be typed, and the HTTP client. *)
Record Terminal := mkTerminal { typed : list (result string string); client : Client }.
Abbreviation T := (SE Terminal string).

(** [read_line] returns an empty line at the end of the input. *)
Definition prompt : T string := λ t,
  match typed t with
  | [] => (Ok EmptyString, t)
  | line :: typed' =>
      (map_err (λ error, "failed to read input: " +:+ error) ((λ s, trim s) <$> line), mkTerminal typed' (client t))
  end.

Definition prompt_default (dflt : string) : T string :=
  value ← prompt;
  mret (if bool_decide (value = EmptyString) then dflt else value).

Definition prompt_yes_no : T bool :=
  value ← prompt;
  mret (bool_decide (value ∈ ["y"; "Y"; "yes"; "yeS"; "yEs"; "yES"; "Yes"; "YeS"; "YEs"; "YES"])).

Definition parse_index (choice : string) : R Z :=
  map_err (λ error, "invalid selection: " +:+ error) (parse_uint usize_max choice).

(** [choose_wallet]: the entry of the answer, or [None] for a manual address. *)
Definition pick_wallet (wallets : list (string * Wallet)) (choice : string) : R (option (string * Wallet)) :=
  index ← parse_index choice;
  if bool_decide (index = Z.of_nat (length wallets) + 1) then Ok None
  else Some <$> ok_or (wallets !! Z.to_nat (sat_sub index 1)) "invalid selection".

Definition choose_wallet : T (option (string * Wallet)) :=
  let wallets := discover_wallets in
  if bool_decide (length wallets = 0%nat) then mret None
  else choice ← prompt; lift (pick_wallet wallets choice).

(** [menu_receive]: the address that is shown. *)
Definition receive_wallet (wallets : list (string * Wallet)) (choice : string) : R (string * Wallet) :=
  index ← parse_index choice;
  index ← ok_or (if bool_decide (1 ≤ index) then Some (index - 1) else None) "invalid selection";
  ok_or (wallets !! Z.to_nat index) "invalid selection".

Definition menu_receive : T (option Address) :=
  match discover_wallets with
  | [] => mret None
  | [w] => mret (Some (address w.2))
  | wallets => choice ← prompt; w ← lift (receive_wallet wallets choice); mret (Some (address w.2))
  end.

(** The file that is written and the address that is shown, or [None] when the
    user keeps the old file. *)
Definition store_wallet (path : string) (wallet : Wallet) : T (option (string * string * string)) :=
  keep ← (if exists_file path then yes ← prompt_yes_no; mret (negb yes) else mret false);
  if keep : bool then mret None
  else json ← lift (save_wallet_file path wallet); mret (Some (path, json, wallet_address wallet)).

Definition menu_create_wallet (seed : nat) : T (option (string * string * string)) :=
  path ← prompt_default "wallet.json";
  store_wallet path (generate seed).

Definition menu_import_wallet : T (option (string * string * string)) :=
  line ← prompt;
  secret_key ← lift (parse_secret_key (Some line));
  path ← prompt_default "wallet.json";
  store_wallet path (from_secret_key secret_key).

(** The default fee is [DEFAULT_TRANSACTION_FEE.to_string()]. *)
Definition menu_send : T (option Printed) :=
  w ← choose_wallet;
  match w with
  | None => mret None
  | Some (wallet_path, _) =>
      line ← prompt;
      to ← lift (parse_address (Some line));
      line ← prompt;
      amount ← lift (parse_amount (Some line) "amount");
      line ← prompt_default "2";
      fee ← lift (parse_amount (Some line) "fee");
      rpc_addr ← prompt_default DEFAULT_RPC_ADDR;
      printed ← zoom client (λ c t, mkTerminal (typed t) c) id
        (submit_wallet_payment wallet_path to amount fee None rpc_addr);
      mret (Some printed)
  end.

End commands.
End Commands.
