(* ===== verification/CommandsProps.v ===== *)
(** * CommandsProps: the forms of a payment, wallet files and selections *)

From S2P Require Import Prelude Collections Core Demo Bytes Wallet WalletProps Config Commands.

Open Scope string_scope.
Open Scope list_scope.
Open Scope Z_scope.

Module CommandsProps.
Import Wallet Config Commands.

Section props.
Context `{Paqus, !Crypto, !WalletEnv}.

(** ** The two forms of a payment *)

(** The long form that has read what the short form has. *)
Definition as_long (to : Address) (amount : Amount) (o : ShortOptions) : LongOptions :=
  mkLong (Some (so_wallet o)) (Some to) (Some amount) (so_fee o) (so_nonce o) (so_rpc o) true.

Lemma options_agree_upto command nonces to amount n : ∀ args o o', (length args ≤ n)%nat →
  short_options command nonces args o = Ok o' →
  long_options args (as_long to amount o) = Ok (as_long to amount o').
Proof.
  induction n as [|n IH]; (intros [|flag args] o o' Hn; cbn [short_options long_options length] in *; [by intros [= ->]|]); [lia|].
  case_bool_decide as Hf1. { destruct args as [|v args]; [done|]. apply IH. cbn in Hn. lia. }
  case_bool_decide as Hf2; cbn [orb].
  { subst flag. repeat (rewrite bool_decide_eq_false_2 by discriminate).
    cbn [orb]. destruct args as [|v args]; [done|]. apply IH. cbn in Hn. lia. }
  case_bool_decide as Hf3.
  { subst flag. repeat (rewrite bool_decide_eq_false_2 by discriminate).
    cbn [orb]. destruct args as [|v args]; [done|]. apply IH. cbn in Hn. lia. }
  case_bool_decide as Hf4.
  { subst flag. repeat (rewrite bool_decide_eq_false_2 by discriminate).
    destruct args as [|v args]; [done|].
    intros (fee & Hf & Ho)%result_bind_Ok. rewrite Hf. refine (IH args _ _ _ Ho). cbn in Hn. lia. }
  destruct nonces; cbn [andb]; [|done]. case_bool_decide as Hf5; [|done].
  subst flag. repeat (rewrite bool_decide_eq_false_2 by discriminate).
  destruct args as [|v args]; [done|].
  intros (nonce & Hp & Ho)%result_bind_Ok. rewrite Hp. refine (IH args _ _ _ Ho). cbn in Hn. lia.
Qed.

Lemma options_agree command nonces to amount args o o' :
  short_options command nonces args o = Ok o' →
  long_options args (as_long to amount o) = Ok (as_long to amount o').
Proof. by apply (options_agree_upto _ _ _ _ (length args)). Qed.

(** The arguments of the long form. *)
Definition long_args (to amount : string) (opts : list string) : list string :=
  ["--wallet"; "wallet.json"; "--to"; to; "--amount"; amount; "--submit"] ++ opts.

Lemma long_args_run to amount opts :
  long_options (long_args to amount opts) long_defaults =
  (t ← parse_address (Some to); a ← parse_amount (Some amount) "--amount";
   long_options opts (as_long t a short_defaults)).
Proof. reflexivity. Qed.

Lemma amount_flag text flag flag' a : parse_amount (Some text) flag = Ok a → parse_amount (Some text) flag' = Ok a.
Proof. unfold parse_amount. cbn. by rewrite !map_err_Ok. Qed.

(** C40: the short form of [wallet send], and [wallet pay], are abbreviations:
    with options that are accepted they do exactly what the long form does with
    the recipient, the amount, the default wallet and [--submit] spelled out -
    the same requests, the same result, the same error. *)
Theorem payment_forms_agree to amount opts o a c :
  short_form (to :: amount :: opts) = true → parse_amount (Some amount) "amount" = Ok a →
  (short_options "send" true opts short_defaults = Ok o →
    wallet_send_command (to :: amount :: opts) c = wallet_send_command (long_args to amount opts) c) ∧
  (short_options "pay" false opts short_defaults = Ok o →
    wallet_pay_command (to :: amount :: opts) c = wallet_send_command (long_args to amount opts) c).
Proof.
  intros Hs Ha. assert (∀ command nonces, short_options command nonces opts short_defaults = Ok o →
    short_command command nonces (to :: amount :: opts) c = long_command (long_args to amount opts) c) as Hc.
  { intros command nonces Ho. unfold short_command, long_command. rewrite long_args_run.
    change (drop 2 (to :: amount :: opts)) with opts. cbn [lookup list_lookup]. rewrite !SE_bind_lift.
    destruct (parse_address (Some to)) as [t|e]; [|done]. cbn [mbind result_bind].
    rewrite (amount_flag _ _ "--amount" _ Ha). cbn [mbind result_bind].
    rewrite SE_bind_lift, Ha, SE_bind_lift, Ho. by rewrite (options_agree command nonces t a opts _ _ Ho). }
  unfold wallet_send_command at 1. rewrite Hs. split; apply Hc.
Qed.

(** ** Wallet files *)

Context `{!FilesEnv}.

(** A wallet that was saved can be loaded: when the file holds the text
    that was written, and JSON, hex and addresses are read back as they are
    printed, loading gives the same wallet. *)
Theorem saved_wallet_loads path key json
    (Hjson : ∀ a p k j, wallet_json a p k = Ok j → parse_wallet_file j = Ok (mkWalletFile a k))
    (Hhex : hex_decode (hex_encode key) = Some key)
    (Haddress : ∀ a, fits ADDRESS_SIZE a → parse_address_hex (address_to_string a) = Ok a) :
  fits ADDRESS_SIZE (address (from_secret_key key)) → length key = SECRET_KEY_SIZE →
  save_wallet_file path (from_secret_key key) = Ok json → read_to_string path = Ok json →
  load_wallet path = Ok (from_secret_key key).
Proof.
  intros Hfit Hlen (j & Hj%map_err_Ok & (u & _ & [= ->])%result_bind_Ok)%result_bind_Ok Hread.
  apply Hjson in Hj. unfold load_wallet. rewrite Hread. cbn [map_err mbind result_bind]. rewrite Hj.
  cbn [map_err mbind result_bind wf_address wf_secret_key parse_address]. rewrite Haddress by done.
  cbn [mbind result_bind parse_secret_key secret_key from_secret_key from_keypair]. rewrite Hhex.
  cbn [ok_or mbind result_bind]. rewrite bool_decide_eq_true_2 by done. cbn [mbind result_bind].
  by rewrite bool_decide_eq_false_2 by naive_solver.
Qed.

(** ** Selections *)

(** The menu of wallets takes 0 for the first wallet, which is listed as
    1, while the menu that shows an address refuses it; every other answer is
    understood the same way by both. *)
Theorem zero_selects_first_wallet w wallets choice i :
  parse_index choice = Ok i → i ≠ Z.of_nat (length (w :: wallets)) + 1 → 0 ≤ i →
  pick_wallet (w :: wallets) choice =
    (if bool_decide (i = 0) then Ok (Some w) else Some <$> receive_wallet (w :: wallets) choice) ∧
  (i = 0 → receive_wallet (w :: wallets) choice = Err "invalid selection").
Proof.
  intros Hi Hne Hpos. unfold pick_wallet, receive_wallet. rewrite Hi. cbn [mbind result_bind].
  rewrite (bool_decide_eq_false_2 (i = _)) by done. split.
  - case_bool_decide as H0i; [by subst i|]. rewrite bool_decide_eq_true_2 by lia. cbn [ok_or mbind result_bind].
    unfold sat_sub. by rewrite Z.max_r by lia.
  - intros ->. done.
Qed.

End props.

(** ** Witnesses *)

Import Demo WalletProps.
#[local] Instance demo_online : WalletEnv := {|
  address_to_string a := if bool_decide (a = 50) then "a50" else "other";
  hex_decode s :=
    if bool_decide (s = "key") then Some [5]
    else if bool_decide (s = "a50") then Some (repeat 0 19 ++ [50]) else None;
  transaction_to_hex _ := Ok "feed";
  read_to_string _ := Ok "file";
  parse_wallet_file _ := Ok (mkWalletFile "a50" "key");
  parse_balance _ := Ok (Some 3);
  parse_mempool _ := Ok [];
  http_get _ _ _ := Ok "body";
  http_post_json _ _ _ _ := Ok "accepted";
  unix_timestamp := Ok 7000;
|}.

Lemma payment_forms_agree_witness :
  (wallet_pay_command ["a50"; "10"; "--fee"; "3"] (mkClient 0 [])).1 = Ok (Response "accepted") ∧
  wallet_pay_command ["a50"; "10"; "--fee"; "3"] (mkClient 0 []) =
    wallet_send_command (long_args "a50" "10" ["--fee"; "3"]) (mkClient 0 []).
Proof.
  split; [reflexivity|].
  refine (proj2 (payment_forms_agree "a50" "10" ["--fee"; "3"]
    (mkShort "wallet.json" DEFAULT_RPC_ADDR 3 None) 10 (mkClient 0 []) _ _) _); reflexivity.
Defined.

(** Bytes as characters, addresses by their bytes. *)
Definition chars (b : bytes) : string := foldr (λ x, String (Ascii.ascii_of_nat (Z.to_nat x))) EmptyString b.
Fixpoint codes (s : string) : bytes :=
  match s with EmptyString => [] | String a s' => Z.of_nat (Ascii.nat_of_ascii a) :: codes s' end.

Lemma codes_chars b : Forall (λ x, 0 ≤ x < 256) b → codes (chars b) = b.
Proof.
  induction 1 as [|x b Hx Hb IH]; [done|]. cbn. rewrite Ascii.nat_ascii_embedding by lia.
  rewrite Z2Nat.id by lia. by f_equal.
Qed.

Section saved.
(** The file is the printed key; the address follows from it. *)
#[local] Instance disk : WalletEnv := {|
  address_to_string a := chars (be_bytes ADDRESS_SIZE a);
  hex_decode s := Some (codes s);
  transaction_to_hex _ := Ok "feed";
  read_to_string _ := Ok (chars [5]);
  parse_wallet_file s := Ok (mkWalletFile (chars (be_bytes ADDRESS_SIZE (10 * sumZ (codes s)))) s);
  parse_balance _ := Ok (Some 3); parse_mempool _ := Ok []; http_get _ _ _ := Ok "body";
  http_post_json _ _ _ _ := Ok "accepted"; unix_timestamp := Ok 7000;
|}.
#[local] Instance disk_files : FilesEnv := {|
  hex_encode := chars;
  public_key_bytes p := [];
  wallet_json a p k := if bool_decide (a = chars (be_bytes ADDRESS_SIZE (10 * sumZ (codes k)))) then Ok k else Err "no";
  write_file _ _ := Ok tt; read_dir _ := None; has_json_extension _ := true; exists_file _ := false;
|}.

Lemma saved_wallet_loads_witness : load_wallet "w.json" = Ok (from_secret_key [5]).
Proof.
  refine (saved_wallet_loads "w.json" [5] (chars [5]) _ _ _ _ _ _ _).
  - intros a p k j. cbn. case_bool_decide as Ha; [|discriminate]. intros [= <-]. by rewrite Ha.
  - reflexivity.
  - intros a Ha. unfold parse_address_hex. cbn [hex_decode address_to_string disk ok_or mbind result_bind].
    rewrite codes_chars by apply be_bytes_range. rewrite length_be_bytes.
    rewrite bool_decide_eq_true_2 by reflexivity. by rewrite be_value_bytes_small.
  - unfold fits. split; by vm_compute.
  - reflexivity.
  - vm_compute. reflexivity.
  - reflexivity.
Defined.
End saved.

Lemma zero_selects_first_wallet_witness :
  pick_wallet [("w.json", from_secret_key [5])] "0" = Ok (Some ("w.json", from_secret_key [5])) ∧
  receive_wallet [("w.json", from_secret_key [5])] "0" = Err "invalid selection".
Proof.
  destruct (zero_selects_first_wallet ("w.json", from_secret_key [5]) [] "0" 0) as [Hp Hr];
    [reflexivity|discriminate|lia|]. split; [exact Hp|exact (Hr eq_refl)].
Defined.

End CommandsProps.
