(* ===== verification/Locks.v ===== *)
(** * Locks: the order in which the service takes its locks ([src/main.rs],
    [src/gossip.rs], [src/p2p.rs])

    The node, the table of peers and the two tables of connections are behind
    four mutexes, shared by the service loop, the threads of inbound
    connections and the RPC server.  Each operation is the sequence of locks it
    takes and releases; threads interleave freely. *)

From S2P Require Import Prelude Collections.

Open Scope list_scope.
Open Scope nat_scope.

Module Locks.

Inductive Lock := NodeLock | PeersLock | ConnectionsLock | InboundLock.

#[export] Instance Lock_eq_dec : EqDecision Lock.
Proof. solve_decision. Defined.

Inductive Action := Acquire (l : Lock) | Release (l : Lock).

#[export] Instance Action_eq_dec : EqDecision Action.
Proof. solve_decision. Defined.

(** ** Operations *)

(** A guard that is dropped at the end of its block. *)
Definition guarded (l : Lock) (body : list Action) : list Action := Acquire l :: body ++ [Release l].

(** [rpc_status]: the four guards of the [match] are held together. *)
Definition rpc_status : list Action :=
  guarded NodeLock (guarded PeersLock (guarded ConnectionsLock (guarded InboundLock []))).

(** [poll_persistent_peer]: the connections stay locked while
    [poll_peer_connection] takes the node's lock [polls] times, the first time
    for the handshake. *)
Definition poll_persistent_peer (polls : nat) : list Action :=
  guarded ConnectionsLock (concat (repeat (guarded NodeLock []) polls)).

(** The status line of [run]: the node stays locked while the tables are counted. *)
Definition status_line : list Action :=
  guarded NodeLock (guarded PeersLock [] ++ guarded ConnectionsLock [] ++ guarded InboundLock []).

(** [shutdown]: [save_peers], then the count of the peers, with the node locked. *)
Definition shutdown : list Action :=
  guarded NodeLock (guarded PeersLock [] ++ guarded PeersLock []).

Definition mining_wait_reason : list Action :=
  guarded NodeLock [] ++ guarded PeersLock [] ++ guarded NodeLock [] ++ guarded PeersLock [].

Definition log_activity : list Action :=
  guarded NodeLock [] ++ guarded PeersLock [] ++ guarded PeersLock [] ++ guarded NodeLock [] ++
  guarded PeersLock [].

(** [refresh_gateway_peers]: the tip, the room left, the new peers and the file. *)
Definition refresh_gateway_peers : list Action :=
  guarded NodeLock [] ++ guarded PeersLock [] ++ guarded PeersLock [] ++ guarded PeersLock [].

(** [mine_once_unlocked]: once to prepare and once to submit. *)
Definition mine_once_unlocked : list Action := guarded NodeLock [] ++ guarded NodeLock [].

(** [broadcast] and [broadcast_to_peers]: the peers, then one lock for each
    peer, and a second one to remove a connection that failed. *)
Definition visit (l : Lock) (failed : bool) : list Action :=
  guarded l [] ++ (if failed then guarded l [] else []).
Definition broadcast (outbound inbound : list bool) : list Action :=
  guarded PeersLock [] ++ concat (visit ConnectionsLock <$> outbound) ++
  guarded InboundLock [] ++ concat (visit InboundLock <$> inbound).

Definition rpc_submit_tx (outbound inbound : list bool) : list Action :=
  guarded NodeLock [] ++ broadcast outbound inbound.

(** The RPC handlers that read the node or the peers only. *)
Definition rpc_read (l : Lock) : list Action := guarded l [].

(** One message of an inbound connection: peers are learnt and saved, anything
    else goes to the node. *)
Definition inbound_message (about_peers : bool) : list Action :=
  if about_peers then guarded PeersLock [] ++ guarded PeersLock [] else guarded NodeLock [].

(** A connection is registered when it is accepted and removed when it ends. *)
Definition inbound_entry : list Action := guarded InboundLock [].

(** The rest of a round of [sync_peers]: the peer's state, the addresses it
    knows, and the peers file. *)
Definition sync_bookkeeping : list Action :=
  guarded PeersLock [] ++ guarded ConnectionsLock [] ++ guarded PeersLock [] ++ guarded PeersLock [].

(** ** Threads *)

Record Thread := mkThread { held : list Lock; todo : list Action }.

Definition start (program : list Action) : Thread := mkThread [] program.

(** A lock is free when no thread holds it; it is not reentrant. *)
Definition free (l : Lock) (ts : list Thread) : Prop := Forall (λ t, l ∉ held t) ts.

Inductive step : list Thread → list Thread → Prop :=
  | step_acquire ts i h l k :
      ts !! i = Some (mkThread h (Acquire l :: k)) → free l ts →
      step ts (<[i := mkThread (l :: h) k]> ts)
  | step_release ts i h l k :
      ts !! i = Some (mkThread h (Release l :: k)) →
      step ts (<[i := mkThread (filter (λ x, x ≠ l) h) k]> ts).

Definition finished (ts : list Thread) : Prop := Forall (λ t, todo t = []) ts.
Definition deadlocked (ts : list Thread) : Prop := ¬ finished ts ∧ ∀ ts', ¬ step ts ts'.

End Locks.

Module LocksProps.
Import Locks.

(** ** Ordered locking never deadlocks *)

Section order.
Context (rank : Lock → nat).

(** Locks are taken in increasing rank, released while held, and all released
    at the end. *)
Fixpoint ordered (h : list Lock) (k : list Action) : bool :=
  match k with
  | [] => bool_decide (h = [])
  | Acquire l :: k' => forallb (λ x, rank x <? rank l) h && ordered (l :: h) k'
  | Release l :: k' => bool_decide (l ∈ h) && ordered (filter (λ x, x ≠ l) h) k'
  end.

Definition all_ordered (ts : list Thread) : Prop := Forall (λ t, ordered (held t) (todo t) = true) ts.

Lemma step_ordered ts ts' : step ts ts' → all_ordered ts → all_ordered ts'.
Proof.
  intros [? i h l k Hi Hf|? i h l k Hi] Ho; unfold all_ordered in *;
    (apply Forall_insert; [done|]); rewrite Forall_lookup in Ho; specialize (Ho _ _ Hi);
    cbn [held todo ordered] in Ho; by apply andb_true_iff in Ho as [_ Ho].
Qed.

(** The next lock a blocked thread waits for. *)
Definition waits (t : Thread) : option Lock :=
  match todo t with Acquire l :: _ => Some l | _ => None end.

Lemma ordered_waits t l x :
  ordered (held t) (todo t) = true → waits t = Some l → x ∈ held t → rank x < rank l.
Proof.
  unfold waits. destruct t as [h [|[l'|l'] k]]; cbn; try done. intros [Ho _]%andb_true_iff [= ->] Hx.
  apply forallb_forall with (x := x) in Ho; [by apply Nat.ltb_lt|by apply list_elem_of_In].
Qed.

(** Without a step every unfinished thread waits for a lock that is held, by a
    thread that is unfinished too. *)
Lemma stuck_chain ts t : all_ordered ts → (∀ ts', ¬ step ts ts') → t ∈ ts → todo t ≠ [] →
  ∃ l u, waits t = Some l ∧ u ∈ ts ∧ l ∈ held u ∧ todo u ≠ [].
Proof.
  intros Ho Hstuck Ht Htodo. apply list_elem_of_lookup in Ht as [i Hi].
  destruct t as [h [|[l|l] k]]; [done| |].
  - exists l. destruct (decide (free l ts)) as [Hf|Hf]; [by edestruct Hstuck; econstructor|].
    apply not_Forall_Exists in Hf; [|apply _]. apply list.Exists_exists in Hf as (u & Hu & Hl).
    apply dec_stable in Hl. exists u. split_and!; [done|done|done|]. intros Hnil.
    unfold all_ordered in Ho. rewrite list.Forall_forall in Ho. specialize (Ho u Hu). rewrite Hnil in Ho. cbn in Ho.
    apply bool_decide_eq_true in Ho. rewrite Ho in Hl. by apply not_elem_of_nil in Hl.
  - edestruct Hstuck. by eapply step_release.
Qed.

(** The locks waited for get arbitrarily high ranks. *)
Lemma stuck_climbs ts : all_ordered ts → (∀ ts', ¬ step ts ts') → ∀ bound t, t ∈ ts → todo t ≠ [] →
  ∃ u l, u ∈ ts ∧ todo u ≠ [] ∧ waits u = Some l ∧ bound ≤ rank l.
Proof.
  intros Ho Hstuck bound. induction bound as [|bound IH]; intros t Ht Htodo.
  - destruct (stuck_chain ts t Ho Hstuck Ht Htodo) as (l & u & Hw & _). exists t, l. split_and!; [done..|lia].
  - destruct (IH t Ht Htodo) as (u & l & Hu & Hutodo & Hw & Hr).
    destruct (stuck_chain ts u Ho Hstuck Hu Hutodo) as (l' & v & Hw' & Hv & Hl & Hvtodo). simplify_eq.
    destruct (stuck_chain ts v Ho Hstuck Hv Hvtodo) as (m & _ & Hwm & _). exists v, m. split_and!; [done..|].
    unfold all_ordered in Ho. rewrite list.Forall_forall in Ho.
    pose proof (ordered_waits v m l (Ho v Hv) Hwm Hl). lia.
Qed.

Lemma ordered_progress ts : all_ordered ts → ¬ deadlocked ts.
Proof.
  intros Ho [Hunf Hstuck]. unfold finished in Hunf. apply not_Forall_Exists in Hunf; [|apply _].
  apply list.Exists_exists in Hunf as (t & Ht & Htodo).
  set (top := S (rank NodeLock + rank PeersLock + rank ConnectionsLock + rank InboundLock)).
  destruct (stuck_climbs ts Ho Hstuck top t Ht Htodo) as (u & l & _ & _ & _ & Hr).
  unfold top in Hr. destruct l; lia.
Qed.

Lemma reachable_ordered ts ts' : all_ordered ts → rtc step ts ts' → all_ordered ts'.
Proof. intros Ho Hr. revert Ho. induction Hr; [done|]. intros Ho. by eapply IHHr, step_ordered. Qed.

Lemma ordered_app h k k' : ordered h k = true → ordered [] k' = true → ordered h (k ++ k') = true.
Proof.
  revert h. induction k as [|[l|l] k IH]; intros h; cbn [app ordered].
  - by intros ->%bool_decide_eq_true.
  - intros [Hl Hk]%andb_true_iff Hk'. apply andb_true_iff. split; [done|by apply IH].
  - intros [Hl Hk]%andb_true_iff Hk'. apply andb_true_iff. split; [done|by apply IH].
Qed.

Lemma ordered_concat ks : Forall (λ k, ordered [] k = true) ks → ordered [] (concat ks) = true.
Proof. induction 1; cbn; [done|by apply ordered_app]. Qed.

End order.

(** ** One thread that holds several locks *)

(** The thread never waits for a lock it holds, and holds none at the end. *)
Fixpoint proper (h : list Lock) (k : list Action) : bool :=
  match k with
  | [] => bool_decide (h = [])
  | Acquire l :: k' => bool_decide (l ∉ h) && proper (l :: h) k'
  | Release l :: k' => bool_decide (l ∈ h) && proper (filter (λ x, x ≠ l) h) k'
  end.

(** The thread holds at most one lock at a time. *)
Fixpoint flat (h : list Lock) (k : list Action) : bool :=
  match k with
  | [] => bool_decide (h = [])
  | Acquire l :: k' => bool_decide (h = []) && flat [l] k'
  | Release l :: k' => bool_decide (h = [l]) && flat [] k'
  end.

Lemma flat_proper k : ∀ h, flat h k = true → proper h k = true.
Proof.
  induction k as [|[l|l] k IH]; intros h; cbn [flat proper]; [done| |];
    intros [->%bool_decide_eq_true Hk]%andb_true_iff.
  - rewrite bool_decide_eq_true_2 by set_solver. by apply IH.
  - rewrite bool_decide_eq_true_2 by set_solver. rewrite filter_cons, decide_False by auto. by apply IH.
Qed.

Lemma proper_app k k' : ∀ h, proper h k = true → proper [] k' = true → proper h (k ++ k') = true.
Proof.
  induction k as [|[l|l] k IH]; intros h; cbn [app proper]; [by intros ->%bool_decide_eq_true| |];
    intros [Hl Hk]%andb_true_iff Hk'; apply andb_true_iff; (split; [done|by apply IH]).
Qed.
Lemma proper_concat ks : Forall (λ k, proper [] k = true) ks → proper [] (concat ks) = true.
Proof. induction 1; cbn; [done|by apply proper_app]. Qed.
Lemma flat_app k k' : ∀ h, flat h k = true → flat [] k' = true → flat h (k ++ k') = true.
Proof.
  induction k as [|[l|l] k IH]; intros h; cbn [app flat]; [by intros ->%bool_decide_eq_true| |];
    intros [Hl Hk]%andb_true_iff Hk'; apply andb_true_iff; (split; [done|by apply IH]).
Qed.
Lemma flat_concat ks : Forall (λ k, flat [] k = true) ks → flat [] (concat ks) = true.
Proof. induction 1; cbn; [done|by apply flat_app]. Qed.

(** One proper thread, and flat ones. *)
Definition led (ts : list Thread) : Prop :=
  ∃ t others, ts = t :: others ∧ proper (held t) (todo t) = true ∧
    Forall (λ u, flat (held u) (todo u) = true) others.

Lemma flat_step h a k : flat h (a :: k) = true →
  match a with Acquire l => flat (l :: h) k | Release l => flat (filter (λ x, x ≠ l) h) k end = true.
Proof.
  destruct a as [l|l]; cbn [flat]; intros [->%bool_decide_eq_true Hk]%andb_true_iff; [done|].
  by rewrite filter_cons, decide_False by auto.
Qed.

Lemma proper_step h a k : proper h (a :: k) = true →
  match a with Acquire l => proper (l :: h) k | Release l => proper (filter (λ x, x ≠ l) h) k end = true.
Proof. by destruct a; cbn [proper]; intros [_ Hk]%andb_true_iff. Qed.

Lemma led_insert ts i h a k t' : led ts → ts !! i = Some (mkThread h (a :: k)) →
  t' = match a with Acquire l => mkThread (l :: h) k | Release l => mkThread (filter (λ x, x ≠ l) h) k end →
  led (<[i := t']> ts).
Proof.
  intros (t & others & -> & Ht & Ho) Hi ->. destruct i as [|i]; cbn in Hi |- *.
  - injection Hi as ->. eexists _, others. split_and!; [done| |done]. apply proper_step in Ht. by destruct a.
  - eexists t, _. split_and!; [done|done|]. apply Forall_insert; [done|].
    rewrite Forall_lookup in Ho. specialize (Ho _ _ Hi). apply flat_step in Ho. by destruct a.
Qed.

Lemma reachable_led ts ts' : led ts → rtc step ts ts' → led ts'.
Proof.
  intros Hl Hr. induction Hr as [|ts ts1 ts2 Hs _ IH]; [done|]. apply IH.
  destruct Hs as [? i h l k Hi _|? i h l k Hi]; by eapply led_insert.
Qed.

(** A flat thread that holds a lock can release it. *)
Lemma flat_holder_steps ts u l : u ∈ ts → flat (held u) (todo u) = true → l ∈ held u → ∃ ts', step ts ts'.
Proof.
  intros [i Hi]%list_elem_of_lookup Hf Hl. destruct u as [h [|[l'|l'] k]]; cbn in Hf, Hl;
    [apply bool_decide_eq_true in Hf; set_solver| |by eexists; eapply step_release].
  apply andb_true_iff in Hf as [->%bool_decide_eq_true _]. set_solver.
Qed.

Lemma not_free l ts : ¬ free l ts → ∃ u, u ∈ ts ∧ l ∈ held u.
Proof.
  intros (u & Hu & Hl)%not_Forall_Exists%list.Exists_exists; [|apply _].
  exists u. split; [done|by apply dec_stable].
Qed.

(** The leading thread waits for flat ones only, and these can release. *)
Lemma leader_steps ts : led ts → ∀ t, ts !! 0 = Some t → todo t ≠ [] → ∃ ts', step ts ts'.
Proof.
  intros (t & others & -> & Ht & Ho) ? [= <-] Htodo. destruct t as [h [|[l|l] k]]; [done| |].
  2: { eexists. by apply (step_release _ 0). }
  destruct (decide (free l (mkThread h (Acquire l :: k) :: others))) as [Hf|Hf].
  { eexists. by apply (step_acquire _ 0). }
  apply not_free in Hf as (u & [->|Hu]%elem_of_cons & Hl).
  - cbn in Ht, Hl. apply andb_true_iff in Ht as [Ht%bool_decide_eq_true _]. done.
  - rewrite list.Forall_forall in Ho. eapply flat_holder_steps; [by right|by apply Ho|done].
Qed.

Lemma led_progress ts : led ts → ¬ deadlocked ts.
Proof.
  intros Hled [Hunf Hstuck]. unfold finished in Hunf. apply not_Forall_Exists in Hunf; [|apply _].
  apply list.Exists_exists in Hunf as (v & Hv & Htodo).
  assert (∃ ts', step ts ts') as [ts' Hs]; [|by apply (Hstuck ts')].
  pose proof (leader_steps ts Hled) as Hlead. destruct Hled as (t & others & -> & Ht & Ho).
  specialize (Hlead t eq_refl). apply elem_of_cons in Hv as [->|Hv]; [by apply Hlead|].
  pose proof (proj1 (list.Forall_forall _ _) Ho _ Hv) as Hf.
  pose proof Hv as [i Hi]%list_elem_of_lookup. destruct v as [h [|[l|l] k]]; [by destruct Htodo| |].
  2: { eexists. by apply (step_release _ (S i) h l k). }
  destruct (decide (free l (t :: others))) as [Hfree|Hfree].
  { eexists. by apply (step_acquire _ (S i)). }
  apply not_free in Hfree as (u & [->|Hu]%elem_of_cons & Hl).
  - apply Hlead. intros Hnil. rewrite Hnil in Ht. cbn in Ht. apply bool_decide_eq_true in Ht.
    rewrite Ht in Hl. by apply not_elem_of_nil in Hl.
  - eapply flat_holder_steps; [by right|by apply (proj1 (list.Forall_forall _ _) Ho)|done].
Qed.

(** ** The operations of the service *)

(** The operations that hold one lock at a time. *)
Inductive flat_operation : list Action → Prop :=
  | op_wait_reason : flat_operation mining_wait_reason
  | op_activity : flat_operation log_activity
  | op_gateway : flat_operation refresh_gateway_peers
  | op_mine : flat_operation mine_once_unlocked
  | op_broadcast outbound inbound : flat_operation (broadcast outbound inbound)
  | op_submit outbound inbound : flat_operation (rpc_submit_tx outbound inbound)
  | op_read l : flat_operation (rpc_read l)
  | op_message about_peers : flat_operation (inbound_message about_peers)
  | op_entry : flat_operation inbound_entry
  | op_bookkeeping : flat_operation sync_bookkeeping.

(** What the service loop runs, its polls, its status line and its end included. *)
Inductive loop_operation : list Action → Prop :=
  | loop_flat k : flat_operation k → loop_operation k
  | loop_poll polls : loop_operation (poll_persistent_peer polls)
  | loop_line : loop_operation status_line
  | loop_shutdown : loop_operation shutdown.

(** Everything but a poll: nothing takes the node while it holds the connections. *)
Inductive without_poll : list Action → Prop :=
  | np_flat k : flat_operation k → without_poll k
  | np_status : without_poll rpc_status
  | np_line : without_poll status_line
  | np_shutdown : without_poll shutdown.

Definition node_first (l : Lock) : nat :=
  match l with NodeLock => 0 | PeersLock => 1 | ConnectionsLock => 2 | InboundLock => 3 end.

Lemma visits_flat l failed : flat [] (concat (visit l <$> failed)) = true.
Proof. apply flat_concat, Forall_fmap, Forall_true. by intros []; destruct l. Qed.

Lemma broadcast_flat outbound inbound : flat [] (broadcast outbound inbound) = true.
Proof.
  unfold broadcast. apply flat_app; [done|]. apply flat_app; [apply visits_flat|].
  apply flat_app; [done|apply visits_flat].
Qed.

Lemma flat_operation_flat k : flat_operation k → flat [] k = true.
Proof.
  destruct 1 as [| | | |outbound inbound|outbound inbound|l|[]| |]; try done.
  - apply broadcast_flat.
  - unfold rpc_submit_tx. apply flat_app; [done|apply broadcast_flat].
  - by destruct l.
Qed.

(** A flat thread respects every order. *)
Lemma flat_ordered rank k : ∀ h, flat h k = true → ordered rank h k = true.
Proof.
  induction k as [|[l|l] k IH]; intros h; cbn [flat ordered]; [done| |];
    intros [->%bool_decide_eq_true Hk]%andb_true_iff; [by apply IH|].
  rewrite bool_decide_eq_true_2 by set_solver. rewrite filter_cons, decide_False by auto. by apply IH.
Qed.

Lemma without_poll_ordered k : without_poll k → ordered node_first [] k = true.
Proof. by destruct 1; [by apply flat_ordered, flat_operation_flat|..]. Qed.

Lemma polls_proper h polls : NodeLock ∉ h → ∀ k,
  proper h (concat (repeat (guarded NodeLock []) polls) ++ k) = proper h k.
Proof.
  intros Hn k. induction polls as [|polls IH]; [done|].
  cbn [repeat concat app guarded proper]. rewrite bool_decide_eq_true_2 by done.
  rewrite bool_decide_eq_true_2 by (by left). cbn [andb].
  rewrite filter_cons, decide_False by auto. rewrite filter_all; [exact IH|].
  apply list.Forall_forall. by intros x Hx ->.
Qed.

Lemma loop_operation_proper k : loop_operation k → proper [] k = true.
Proof.
  destruct 1 as [k Hk|polls| |]; [by apply flat_proper, flat_operation_flat| |done|done].
  unfold poll_persistent_peer, guarded at 1. cbn [proper].
  rewrite polls_proper by set_solver. done.
Qed.

(** The threads of the service, each running some operations one after the other. *)
Definition launch (threads : list (list (list Action))) : list Thread := (λ ops, start (concat ops)) <$> threads.

Lemma launch_ordered rank threads :
  Forall (Forall (λ k, ordered rank [] k = true)) threads → all_ordered rank (launch threads).
Proof.
  intros Ht. apply Forall_fmap. eapply Forall_impl; [exact Ht|]. intros ops Hops. by apply ordered_concat.
Qed.

Lemma launch_led loop others :
  Forall loop_operation loop → Forall (Forall flat_operation) others → led (launch (loop :: others)).
Proof.
  intros Hl Ho. exists (start (concat loop)), (launch others). split_and!; [done| |].
  - apply proper_concat. eapply Forall_impl; [exact Hl|exact loop_operation_proper].
  - apply Forall_fmap. eapply Forall_impl; [exact Ho|]. intros ops Hops. apply flat_concat.
    eapply Forall_impl; [exact Hops|exact flat_operation_flat].
Qed.

(** C16: a status request during a poll is the only way the threads of the
    service can block each other for good.  The service loop, with its polls, its
    status line and its shutdown, together with any number of other threads that
    handle the messages of inbound connections and every request but that for the
    status, never reaches a deadlock; nor do any number of threads that run any
    operations of the service but polls, status requests included. *)
Theorem lock_order_prevents_deadlock threads ts :
  (∃ loop others, threads = loop :: others ∧
    Forall loop_operation loop ∧ Forall (Forall flat_operation) others) ∨
  Forall (Forall without_poll) threads →
  rtc step (launch threads) ts → ¬ deadlocked ts.
Proof.
  intros [(loop & others & -> & Hl & Ho)|Ht] Hr.
  - eapply led_progress, reachable_led; [by apply launch_led|done].
  - apply (ordered_progress node_first). eapply reachable_ordered; [|exact Hr]. apply launch_ordered.
    eapply Forall_impl; [exact Ht|]. intros ops Hops. eapply Forall_impl; [exact Hops|exact without_poll_ordered].
Qed.

Lemma lock_order_prevents_deadlock_witness :
  ¬ deadlocked (launch [[poll_persistent_peer 3; status_line; mine_once_unlocked; shutdown];
    [rpc_submit_tx [true] []]; [inbound_entry; inbound_message true]]) ∧
  ¬ deadlocked (launch [[rpc_status]; [status_line; rpc_submit_tx [true; false] [true]]]).
Proof.
  split; eapply lock_order_prevents_deadlock; [left|apply rtc_refl|right|apply rtc_refl].
  - eexists _, _. split; [reflexivity|].
    split; repeat first [apply loop_poll | apply loop_line | apply loop_shutdown | apply loop_flat, op_mine
      | apply op_submit | apply op_entry | apply op_message | constructor].
  - repeat first [apply np_status | apply np_line | apply np_flat, op_submit | constructor].
Defined.

(** C22: a status request that arrives while a peer is polled can stop both
    threads for good: the poll holds the connections and waits for the node,
    the request holds the node and waits for the connections. *)
Theorem status_request_can_deadlock polls :
  ∃ ts, rtc step (launch [[poll_persistent_peer (S polls)]; [rpc_status]]) ts ∧ deadlocked ts.
Proof.
  cbn. rewrite !app_nil_r. set (rest := concat (repeat (guarded NodeLock []) polls) ++ [Release ConnectionsLock]).
  exists [mkThread [ConnectionsLock] (Acquire NodeLock :: Release NodeLock :: rest);
     mkThread [PeersLock; NodeLock] (Acquire ConnectionsLock :: Acquire InboundLock ::
       Release InboundLock :: Release ConnectionsLock :: Release PeersLock :: [Release NodeLock])].
  split.
  - eapply rtc_l; [eapply (step_acquire _ 0); [reflexivity|]; repeat constructor; set_solver|].
    eapply rtc_l; [eapply (step_acquire _ 1); [reflexivity|]; repeat constructor; set_solver|].
    eapply rtc_l; [eapply (step_acquire _ 1); [reflexivity|]; repeat constructor; set_solver|].
    reflexivity.
  - split; [by intros [? _]%Forall_cons|]. intros ts' Hstep. inversion Hstep as [? i h l k Hi Hf|? i h l k Hi]; subst.
    + unfold free in Hf. rewrite !Forall_cons in Hf. destruct Hf as (H1 & H2 & _).
      destruct i as [|[|i]]; cbn in Hi; [| |done]; injection Hi as <- <- _; cbn in H1, H2; set_solver.
    + by destruct i as [|[|i]].
Qed.

End LocksProps.
