(* ===== verification/ChainStorage.v ===== *)
(** * ChainStorage: the first storage of the chain ([src/storage.rs])

    The file is kept in the repository but no module declares it; the node uses
    [Storage].  It stores the same data with other tables, other errors and
    other reads: whatever goes wrong while a value is read counts as its absence.
    The engine, the tables and the codecs are the parameters of [Storage]; the
    texts of engine and codec errors are parameters too. *)

From S2P Require Import Prelude Collections Core Bytes Storage.

Open Scope string_scope.
Open Scope list_scope.
Open Scope Z_scope.

#[local] Existing Instances Storage.block_borsh Storage.account_borsh Storage.block_laws Storage.account_laws.

Module ChainStorage.

Inductive Database_ := BlocksByHeight | BlocksByHash | Txs | TxIndex | Accounts | Meta.

#[export] Instance Database__eq_dec : EqDecision Database_.
Proof. solve_decision. Defined.

(** The name a table is created under. *)
Definition name (db : Database_) : string :=
  match db with
  | BlocksByHeight => "blocks_by_height" | BlocksByHash => "blocks_by_hash" | Txs => "txs"
  | TxIndex => "tx_index" | Accounts => "accounts" | Meta => "meta"
  end.
Definition MAX_DBS : Z := 10.

Record TxLocation := mkTxLocation { height : Height; block_hash : BlockHash }.

(** [Display] of the engine's and of the codec's errors, and the codecs that
    only this storage needs. *)
Class Texts `{Paqus} := {
  lmdb_text : Z → string;
  borsh_text : Z → string;
  transaction_borsh :: Borsh SignedTransaction;
  tx_location_borsh :: Borsh TxLocation;
}.
Class TextLaws `{Texts} : Prop := {
  transaction_laws :: BorshLaws SignedTransaction;
  tx_location_laws :: BorshLaws TxLocation;
}.

Definition height_key (h : Height) : bytes := be_bytes 8 h.

Section storage.
Context `{Paqus, Kv, Lmdb, !Storage.Codecs, !Texts}.

(** The committed tables, and the number of engine calls made so far. *)
Record Store := mkStore { tables : Database_ → Table; calls : nat }.
Local Abbreviation St := (SE Store string).

(** A call of the engine whose failure is described by [label]. *)
Definition call (label : string) : St () := λ st,
  let st' := mkStore (tables st) (S (calls st)) in
  match lmdb_fault (calls st) with
  | None => (Ok tt, st')
  | Some e => (Err (label +:+ ": " +:+ lmdb_text e), st')
  end.

(** A write transaction that is dropped, or committed under [label]. *)
Definition rw_txn (label : string) (body : St ()) : St () := λ st,
  match (call "failed to begin write transaction" ;; body) st with
  | (Err e, st1) => (Err e, mkStore (tables st) (calls st1))
  | (Ok _, st1) =>
      match call label st1 with
      | (Err e, st2) => (Err e, mkStore (tables st) (calls st2))
      | (Ok _, st2) => (Ok tt, st2)
      end
  end.

Definition put (db : Database_) (key value : bytes) (label : string) : St () :=
  call label ;;
  modify (λ st, mkStore (λ db', if decide (db' = db) then kv_put key value (tables st db) else tables st db') (calls st)).

(** [txn.get(..).ok()] *)
Definition get_ok (db : Database_) (key : bytes) : St (option bytes) := λ st,
  let st' := mkStore (tables st) (S (calls st)) in
  match lmdb_fault (calls st) with
  | None => (Ok (kv_get (tables st db) key), st')
  | Some _ => (Ok None, st')
  end.

Definition to_vec {A} `{!Borsh A} (label : string) (x : A) : St bytes :=
  lift (map_err (λ e, label +:+ ": " +:+ borsh_text e) (encode x)).

(** A read transaction around one [get], and the decoding of the bytes. *)
Definition load {A} `{!Borsh A} (db : Database_) (key : bytes) (label : string) : St (option A) :=
  call "failed to begin read transaction" ;;
  o ← get_ok db key;
  match o with
  | None => mret None
  | Some b => x ← lift (map_err (λ e, label +:+ ": " +:+ borsh_text e) (decode b)); mret (Some x)
  end.

Definition open : St () :=
  call "failed to open lmdb environment" ;;
  for_each (λ db, call ("failed to open " +:+ name db +:+ " db"))
    [BlocksByHeight; BlocksByHash; Txs; TxIndex; Accounts; Meta].

Definition save_transaction_in_txn (tx : SignedTransaction) (h : option Height) (hash : option BlockHash) : St () :=
  b ← to_vec "failed to serialize tx" tx;
  put Txs (Storage.hash_key (tx_hash tx)) b "failed to save tx" ;;
  match h, hash with
  | Some h, Some hash =>
      index ← to_vec "failed to serialize tx index" (mkTxLocation h hash);
      put TxIndex (Storage.hash_key (tx_hash tx)) index "failed to save tx index"
  | _, _ => mret tt
  end.

Definition save_block (block : Block) : St () :=
  let h := block_height block in
  let hash := Core.block_hash block in
  b ← to_vec "failed to serialize block" block;
  rw_txn "failed to commit block" (
    put BlocksByHeight (height_key h) b "failed to save block by height" ;;
    put BlocksByHash (Storage.hash_key hash) b "failed to save block by hash" ;;
    put Meta Storage.TIP_HEIGHT_KEY (be_bytes 8 h) "failed to save tip height" ;;
    put Meta Storage.TIP_HASH_KEY (Storage.hash_key hash) "failed to save tip hash" ;;
    for_each (λ tx, save_transaction_in_txn tx (Some h) (Some hash)) (block_transactions block)).

Definition load_block_by_height (h : Height) : St (option Block) :=
  load BlocksByHeight (height_key h) "invalid block bytes".

Definition load_block_by_hash (hash : BlockHash) : St (option Block) :=
  load BlocksByHash (Storage.hash_key hash) "invalid block bytes".

Definition save_transaction (tx : SignedTransaction) (h : option Height) (hash : option BlockHash) : St () :=
  rw_txn "failed to commit transaction" (save_transaction_in_txn tx h hash).

Definition load_transaction (hash : TransactionHash) : St (option SignedTransaction) :=
  load Txs (Storage.hash_key hash) "invalid tx bytes".

(** The account is encoded inside the transaction. *)
Definition save_account (account : Account) : St () :=
  rw_txn "failed to commit account" (
    b ← to_vec "failed to serialize account" account;
    put Accounts (Storage.address_key (account_address account)) b "failed to save account").

Definition load_account (address : Address) : St (option Account) :=
  load Accounts (Storage.address_key address) "invalid account bytes".

Definition flush : St () := call "failed to sync lmdb env".

End storage.
End ChainStorage.

Module ChainStorageProps.
Import ChainStorage.

(** The six tables have names of their own, and the environment has room. *)
Example tables_fit : NoDup (name <$> [BlocksByHeight; BlocksByHash; Txs; TxIndex; Accounts; Meta]) ∧ 6 ≤ MAX_DBS.
Proof. split; [by_eval|done]. Qed.

Section props.
Context `{Paqus, Kv, !KvLaws, Lmdb, !Storage.Codecs, !Storage.CodecLaws, !Texts, !TextLaws}.
Local Abbreviation St := (SE Store string).
Implicit Types st : Store.

(** A table holds the bytes of [x] under [key]. *)
Definition holds {A} `{!Borsh A} (tb : Database_ → Table) (db : Database_) (key : bytes) (x : A) : Prop :=
  ∃ b, encode x = Ok b ∧ kv_get (tb db) key = Some b.

(** ** Writers that succeed *)

Lemma call_Ok label st u st' : call label st = (Ok u, st') → tables st' = tables st.
Proof. unfold call. case_match; [done|]. by intros [= _ <-]. Qed.

Lemma put_Ok db key v label st u st' : put db key v label st = (Ok u, st') →
  ∀ db' k, kv_get (tables st' db') k = if decide (db' = db ∧ key = k) then Some v else kv_get (tables st db') k.
Proof.
  unfold put. rewrite SE_bind_unfold. destruct (call label st) as [[?|?] st1] eqn:Hc; [|done].
  apply call_Ok in Hc. intros [= _ <-] db' k. cbn. rewrite Hc.
  destruct (decide (db' = db)) as [->|Hdb]; [|by rewrite decide_False by naive_solver].
  rewrite kv_get_put. repeat case_decide; naive_solver.
Qed.

(** What a step of a write transaction leaves: tables that differ from the
    ones before at most at the keys [W]. *)
Definition touches (W : Database_ → bytes → Prop) (m : St ()) : Prop :=
  ∀ st u st', m st = (Ok u, st') → ∀ db k, ¬ W db k → kv_get (tables st' db) k = kv_get (tables st db) k.

Lemma touches_bind W m f : touches W m → (∀ u, touches W (f u)) → touches W (m ≫= f).
Proof.
  intros Hm Hf st u st'. rewrite SE_bind_unfold. destruct (m st) as [[v|e] st1] eqn:Em; [|done].
  intros Hs db k Hk. by rewrite (Hf _ _ _ _ Hs), (Hm _ _ _ Em).
Qed.

Lemma touches_put (W : Database_ → bytes → Prop) db key v label : W db key → touches W (put db key v label).
Proof.
  intros Hw st u st' Hp db' k Hk. rewrite (put_Ok _ _ _ _ _ _ _ Hp), decide_False; naive_solver.
Qed.

Lemma rw_txn_Ok label m st u st' : rw_txn label m st = (Ok u, st') →
  ∃ st0 st1 v, tables st0 = tables st ∧ m st0 = (Ok v, st1) ∧ tables st' = tables st1.
Proof.
  unfold rw_txn. rewrite SE_bind_unfold.
  destruct (call _ st) as [[?|?] st0] eqn:Hb; [|done]. apply call_Ok in Hb.
  destruct (m st0) as [[v|?] st1] eqn:Hm; [|done].
  destruct (call label st1) as [[?|?] st2] eqn:Hc; [|done]. apply call_Ok in Hc.
  intros [= _ <-]. by exists st0, st1, v.
Qed.

Lemma to_vec_bind {A B} `{!Borsh A} label (x : A) (f : bytes → St B) st r st' :
  (to_vec label x ≫= f) st = (Ok r, st') → ∃ b, encode x = Ok b ∧ f b st = (Ok r, st').
Proof. unfold to_vec. rewrite SE_bind_lift. destruct (encode x) as [b|e]; [|done]. by exists b. Qed.

(** A failed write changes nothing. *)
Lemma write_txn_atomic label m st e st' : rw_txn label m st = (Err e, st') → tables st' = tables st.
Proof.
  unfold rw_txn. destruct ((_ ;; m) st) as [[?|?] st1]; [|by intros [= _ <-]].
  destruct (call label st1) as [[?|?] st2]; [done|by intros [= _ <-]].
Qed.

Definition tx_keys (txs : list SignedTransaction) (db : Database_) (k : bytes) : Prop :=
  (db = Txs ∨ db = TxIndex) ∧ ∃ tx, tx ∈ txs ∧ k = Storage.hash_key (tx_hash tx).

Lemma save_transaction_touches tx h hash : touches (tx_keys [tx]) (save_transaction_in_txn tx h hash).
Proof.
  assert (∀ db, db = Txs ∨ db = TxIndex → tx_keys [tx] db (Storage.hash_key (tx_hash tx))) as Hk.
  { intros db Hdb. split; [done|]. exists tx. split; [by left|done]. }
  unfold save_transaction_in_txn. intros st u st' (b & _ & Hs)%to_vec_bind.
  revert st u st' Hs. apply touches_bind; [apply touches_put; auto|intros _].
  destruct h, hash; try (by intros st u st' [= _ <-]).
  intros st u st' (i & _ & Hs)%to_vec_bind. revert st u st' Hs. apply touches_put; auto.
Qed.

Lemma save_transaction_holds tx h hash st u st' :
  save_transaction_in_txn tx (Some h) (Some hash) st = (Ok u, st') →
  holds (tables st') Txs (Storage.hash_key (tx_hash tx)) tx ∧
  holds (tables st') TxIndex (Storage.hash_key (tx_hash tx)) (mkTxLocation h hash).
Proof.
  unfold save_transaction_in_txn. intros (b & Hb & Hs)%to_vec_bind. rewrite SE_bind_unfold in Hs.
  destruct (put Txs _ _ _ st) as [[?|?] st1] eqn:Hp; [|done].
  apply to_vec_bind in Hs as (i & Hi & Hs).
  pose proof (put_Ok _ _ _ _ _ _ _ Hp) as H1'. pose proof (put_Ok _ _ _ _ _ _ _ Hs) as H2'.
  split; [exists b|exists i]; (split; [done|]); rewrite H2'.
  - by rewrite decide_False, H1', decide_True by naive_solver.
  - by rewrite decide_True.
Qed.

Lemma save_all_holds txs h hash : (∀ t t', t ∈ txs → t' ∈ txs → tx_hash t = tx_hash t' → t = t') →
  Forall (λ t, fits HASH_SIZE (tx_hash t)) txs → ∀ st u st',
  for_each (λ tx, save_transaction_in_txn tx (Some h) (Some hash)) txs st = (Ok u, st') →
  (∀ tx, tx ∈ txs → holds (tables st') Txs (Storage.hash_key (tx_hash tx)) tx ∧
    holds (tables st') TxIndex (Storage.hash_key (tx_hash tx)) (mkTxLocation h hash)) ∧
  (∀ db k, ¬ tx_keys txs db k → kv_get (tables st' db) k = kv_get (tables st db) k).
Proof.
  induction txs as [|t txs IH] using rev_ind; intros Hinj Hfit st u st'.
  { intros [= _ <-]. split; [|done]. intros tx []%elem_of_nil. }
  rewrite for_each_app, SE_bind_unfold.
  destruct (for_each _ txs st) as [[?|?] st1] eqn:E1; [|done].
  apply Forall_app in Hfit as [Hfit [Ht _]%Forall_cons].
  apply IH in E1 as [Hin Hout]; [|by intros t1 t2 ? ? ?; apply Hinj; [apply elem_of_app; left..|]|done].
  cbn [for_each]. rewrite SE_bind_unfold.
  destruct (save_transaction_in_txn t (Some h) (Some hash) st1) as [[?|?] st2] eqn:E2; [|done].
  intros [= _ <-]. pose proof (save_transaction_holds _ _ _ _ _ _ E2) as Hnew.
  pose proof (save_transaction_touches t (Some h) (Some hash) _ _ _ E2) as Hold. split.
  - intros tx [Hx| ->%list_elem_of_singleton]%elem_of_app; [|done].
    destruct (decide (tx = t)) as [->|Hne]; [done|].
    assert (∀ db, ¬ tx_keys [t] db (Storage.hash_key (tx_hash tx))) as Hfar.
    { intros db (_ & t' & ->%list_elem_of_singleton & Hk). destruct Hne.
      apply Hinj; [by apply elem_of_app; left|apply elem_of_app; right; by left|]. rewrite Forall_forall in Hfit.
      exact (be_bytes_inj HASH_SIZE _ _ (Hfit _ Hx) Ht Hk). }
    unfold holds. rewrite !Hold by done. by apply Hin.
  - intros db k Hk. rewrite Hold, Hout; [done| |].
    + intros (Hdb & tx & Hx & ->). apply Hk. split; [done|]. exists tx. split; [by apply elem_of_app; left|done].
    + intros (Hdb & tx & Hx & ->). apply Hk. split; [done|]. exists tx. split; [by apply elem_of_app; right|done].
Qed.

(** ** Reads *)

(** Whatever is read from the tables [tb]: the value, unless the transaction
    cannot be opened; and nothing when only the [get] fails. *)
Definition answers {A} (m : St (option A)) (tb : Database_ → Table) (x : A) : Prop := ∀ n,
  match lmdb_fault n, lmdb_fault (S n) with
  | None, None => (m (mkStore tb n)).1 = Ok (Some x)
  | None, Some _ => (m (mkStore tb n)).1 = Ok None
  | Some e, _ => (m (mkStore tb n)).1 = Err ("failed to begin read transaction: " +:+ lmdb_text e)
  end.

Lemma load_answers {A} `{!Borsh A, !BorshLaws A} db key label tb (x : A) :
  holds tb db key x → answers (load db key label) tb x.
Proof.
  intros (b & Hb & Hk) n. unfold load. rewrite SE_bind_unfold. unfold call. cbn [tables calls].
  destruct (lmdb_fault n) as [e|]; [done|]. rewrite SE_bind_unfold. unfold get_ok. cbn [tables calls].
  destruct (lmdb_fault (S n)) as [e|]; [done|]. cbn. rewrite Hk, SE_bind_lift. by erewrite decode_encode.
Qed.

(** [save_block] either leaves every table as it was, or puts the block under
    its height and its hash and every transaction under its hash, and makes the
    block the tip.  What was put is read back - but a read that fails at the
    engine is reported as a value that is not there. *)
Theorem saved_block_answers block st r st' :
  (∀ t t', t ∈ block_transactions block → t' ∈ block_transactions block → tx_hash t = tx_hash t' → t = t') →
  Forall (λ t, fits HASH_SIZE (tx_hash t)) (block_transactions block) →
  save_block block st = (r, st') →
  match r with
  | Err _ => tables st' = tables st
  | Ok _ =>
      answers (load_block_by_height (block_height block)) (tables st') block ∧
      answers (load_block_by_hash (Core.block_hash block)) (tables st') block ∧
      (∀ tx, tx ∈ block_transactions block → answers (load_transaction (tx_hash tx)) (tables st') tx) ∧
      kv_get (tables st' Meta) Storage.TIP_HEIGHT_KEY = Some (height_key (block_height block)) ∧
      kv_get (tables st' Meta) Storage.TIP_HASH_KEY = Some (Storage.hash_key (Core.block_hash block))
  end.
Proof.
  intros Hinj Hfit Hs. destruct r as [u|e].
  2: { revert Hs. unfold save_block, to_vec. cbn zeta. rewrite SE_bind_lift.
    destruct (encode block); cbn [map_err]; [apply write_txn_atomic|by intros [= _ <-]]. }
  apply to_vec_bind in Hs as (b & Hb & Hs). apply rw_txn_Ok in Hs as (st0 & st1 & v & H0' & Hm & ->).
  apply SE_bind_Ok in Hm as (? & s1 & P1 & Hm). apply SE_bind_Ok in Hm as (? & s2 & P2 & Hm).
  apply SE_bind_Ok in Hm as (? & s3 & P3 & Hm). apply SE_bind_Ok in Hm as (? & s4 & P4 & Hm).
  apply save_all_holds in Hm as [Htx Hrest]; [|done|done].
  pose proof (put_Ok _ _ _ _ _ _ _ P1) as E1. pose proof (put_Ok _ _ _ _ _ _ _ P2) as E2.
  pose proof (put_Ok _ _ _ _ _ _ _ P3) as E3. pose proof (put_Ok _ _ _ _ _ _ _ P4) as E4.
  assert (∀ db k, db = BlocksByHeight ∨ db = BlocksByHash ∨ db = Meta → kv_get (tables st1 db) k = kv_get (tables s4 db) k) as Hfar.
  { intros db k Hdb. apply Hrest. intros [[-> | ->] _]; naive_solver. }
  split_and!.
  - apply load_answers. exists b. split; [done|]. rewrite Hfar, E4, E3, E2, E1 by auto.
    rewrite !decide_False by (intros [? ?]; discriminate). by rewrite decide_True.
  - apply load_answers. exists b. split; [done|]. rewrite Hfar, E4, E3, E2 by auto.
    rewrite !decide_False by (intros [? ?]; discriminate). by rewrite decide_True.
  - intros tx Hx. by apply load_answers, Htx.
  - rewrite Hfar, E4, E3 by auto. rewrite decide_False by (intros [_ ?]; discriminate). by rewrite decide_True.
  - rewrite Hfar, E4 by auto. by rewrite decide_True.
Qed.

End props.
End ChainStorageProps.
