(* ===== verification/Messages.v ===== *)
(** * Messages: what the node says about errors, messages and mining

    [Display], [Error::source] and the conversions of the error types
    ([src/runtime/*/error.rs]), and the texts of [src/main.rs] about received
    messages, closed streams and the proof-of-work target.  The texts of the
    errors of the protocol crate, LMDB and [io::Error] are parameters. *)

From S2P Require Import Prelude Collections Core Mempool Bytes Storage Node Network.
From S2P Require Import Wallet Config P2p Gossip Http Service Explorer.

Open Scope string_scope.
Open Scope list_scope.
Open Scope Z_scope.

Module Messages.
Import Network Explorer.

(** ** Parameters *)

(** [Display] of the errors of other crates ([Debug] for the fork choice), and
    [io::Error::kind]. *)
Inductive ErrorKind :=
  | UnexpectedEof | WouldBlock | TimedOut | ConnectionReset | BrokenPipe | OtherKind (code : Z).

#[export] Instance ErrorKind_eq_dec : EqDecision ErrorKind.
Proof. solve_decision. Defined.

Class ErrorTexts := {
  transaction_error_text : TransactionError → string;
  ledger_error_text : LedgerError → string;
  consensus_error_text : ConsensusError → string;
  genesis_error_text : Z → string;
  fork_choice_error_debug : ForkChoiceError → string;
  lmdb_error_text : Z → string;
  io_error_text : Z → string;
  io_error_kind : Z → ErrorKind;
}.

(** Different errors of other crates have different texts. *)
Class ErrorTextLaws `{ErrorTexts} : Prop := {
  transaction_error_inj :: Inj (=) (=) transaction_error_text;
  ledger_error_inj :: Inj (=) (=) ledger_error_text;
  consensus_error_inj :: Inj (=) (=) consensus_error_text;
  genesis_error_inj :: Inj (=) (=) genesis_error_text;
  fork_choice_error_inj :: Inj (=) (=) fork_choice_error_debug;
  lmdb_error_inj :: Inj (=) (=) lmdb_error_text;
  io_error_inj :: Inj (=) (=) io_error_text;
}.

Definition number (n : Z) : string := Http.text (Http.decimal n).

Section errors.
Context `{ErrorTexts}.

(** ** [Display] *)

Definition wallet_error_text (e : Wallet.WalletError) : string :=
  match e with Wallet.SenderAddressMismatch => "transaction sender does not match wallet address" end.

Definition mempool_error_text (e : Mempool.MempoolError) : string :=
  match e with
  | Mempool.DuplicateTransaction => "transaction already exists in mempool"
  | Mempool.FeeTooLow => "transaction fee is below node policy"
  | Mempool.MempoolFull => "mempool transaction limit reached"
  | Mempool.ReplacementFeeTooLow => "replacement transaction fee must be higher"
  | Mempool.InvalidTransaction error => "invalid transaction: " +:+ transaction_error_text error
  | Mempool.InvalidLedgerState error => "transaction does not fit ledger state: " +:+ ledger_error_text error
  end.

Definition storage_error_text (e : Storage.StorageError) : string :=
  match e with
  | Storage.Database error => "storage database error: " +:+ lmdb_error_text error
  | Storage.Io error => "storage io error: " +:+ io_error_text error
  | Storage.Serialization error => "storage serialization error: " +:+ io_error_text error
  | Storage.Integrity message => "storage integrity error: " +:+ message
  | Storage.MissingStorageVersion => "storage version is missing from existing database"
  | Storage.UnsupportedStorageVersion expected found =>
      "unsupported storage version: expected " +:+ number expected +:+ ", found " +:+ number found
  end.

Definition node_error_text (e : Node.NodeError) : string :=
  match e with
  | Node.EConsensus error => "consensus error: " +:+ consensus_error_text error
  | Node.EGenesis error => "genesis error: " +:+ genesis_error_text error
  | Node.EForkChoice error => "fork choice error: " +:+ fork_choice_error_debug error
  | Node.ELedger error => "ledger error: " +:+ ledger_error_text error
  | Node.EMempool error => "mempool error: " +:+ mempool_error_text error
  | Node.EStorage error => "storage error: " +:+ storage_error_text error
  | Node.MiningExhausted => "mining attempt budget was exhausted"
  | Node.MissingGenesisState => "node cannot reorg without a genesis state snapshot"
  | Node.CheckpointMismatch => "block does not match hardcoded checkpoint"
  | Node.ReorgRequired => "fork choice selected a non-linear best tip"
  end.

Definition network_error_text (e : NetworkError) : string :=
  match e with
  | MessageTooLarge => "network message exceeds maximum size"
  | NodeErr error => "network node handler error: " +:+ node_error_text error
  | Io error => "network I/O error: " +:+ io_error_text error
  | Serialization error => "network message serialization error: " +:+ io_error_text error
  end.

(** ** [Error::source] *)

(** The errors a [source] may point to. *)
Inductive AnyError :=
  | OfTransaction (e : TransactionError) | OfLedger (e : LedgerError) | OfConsensus (e : ConsensusError)
  | OfGenesis (e : Z) | OfLmdb (e : Z) | OfIo (e : Z)
  | OfMempool (e : Mempool.MempoolError) | OfStorage (e : Storage.StorageError) | OfNode (e : Node.NodeError)
  | OfNetwork (e : NetworkError).

Definition mempool_source (e : Mempool.MempoolError) : option AnyError :=
  match e with
  | Mempool.DuplicateTransaction | Mempool.FeeTooLow | Mempool.MempoolFull | Mempool.ReplacementFeeTooLow => None
  | Mempool.InvalidTransaction error => Some (OfTransaction error)
  | Mempool.InvalidLedgerState error => Some (OfLedger error)
  end.

Definition storage_source (e : Storage.StorageError) : option AnyError :=
  match e with
  | Storage.Database error => Some (OfLmdb error)
  | Storage.Io error => Some (OfIo error)
  | Storage.Serialization error => Some (OfIo error)
  | Storage.Integrity _ | Storage.MissingStorageVersion | Storage.UnsupportedStorageVersion _ _ => None
  end.

Definition node_source (e : Node.NodeError) : option AnyError :=
  match e with
  | Node.EConsensus error => Some (OfConsensus error)
  | Node.EGenesis error => Some (OfGenesis error)
  | Node.EForkChoice _ => None
  | Node.ELedger error => Some (OfLedger error)
  | Node.EMempool error => Some (OfMempool error)
  | Node.EStorage error => Some (OfStorage error)
  | Node.MiningExhausted | Node.MissingGenesisState | Node.CheckpointMismatch | Node.ReorgRequired => None
  end.

Definition network_source (e : NetworkError) : option AnyError :=
  match e with
  | MessageTooLarge => None
  | NodeErr error => Some (OfNode error)
  | Io error => Some (OfIo error)
  | Serialization error => Some (OfIo error)
  end.

Definition error_text (e : AnyError) : string :=
  match e with
  | OfTransaction e => transaction_error_text e | OfLedger e => ledger_error_text e
  | OfConsensus e => consensus_error_text e | OfGenesis e => genesis_error_text e
  | OfLmdb e => lmdb_error_text e | OfIo e => io_error_text e
  | OfMempool e => mempool_error_text e | OfStorage e => storage_error_text e | OfNode e => node_error_text e
  | OfNetwork e => network_error_text e
  end.

Definition source (e : AnyError) : option AnyError :=
  match e with
  | OfTransaction _ | OfLedger _ | OfConsensus _ | OfGenesis _ | OfLmdb _ | OfIo _ => None
  | OfMempool e => mempool_source e | OfStorage e => storage_source e | OfNode e => node_source e
  | OfNetwork e => network_source e
  end.

(** ** [From] *)

Definition from_io (error : Z) : NetworkError := Serialization error.
Definition from_node (error : Node.NodeError) : NetworkError := NodeErr error.
Definition storage_from_io (error : Z) : Storage.StorageError := Storage.Serialization error.
Definition storage_from_std_io (error : Z) : Storage.StorageError := Storage.Io error.

(** ** Log lines *)

Definition is_peer_stream_closed (error : NetworkError) : bool :=
  match error with
  | Io error =>
      match io_error_kind error with
      | UnexpectedEof | WouldBlock | TimedOut | ConnectionReset | BrokenPipe => true
      | OtherKind _ => false
      end
  | _ => false
  end.

Definition format_difficulty {E} (display : E → string) (difficulty : result E Z) : string :=
  match difficulty with Ok d => number d | Err error => "error:" +:+ display error end.

(** Two lower-case hexadecimal digits. *)
Definition hex_digit (n : Z) : Ascii.ascii := Ascii.ascii_of_nat (Z.to_nat (if bool_decide (n < 10) then 48 + n else 87 + n)).
Definition hex2 (n : Z) : string := String (hex_digit (n / 16)) (String (hex_digit (n mod 16)) EmptyString).

(** How many leading bytes of the hash are zero, and the mask the next byte
    must not meet: [0xff_u8 << (8 - zero_bits)]. *)
Definition pow_target (difficulty : Z) : Z * option Z :=
  let zero_bytes := difficulty / 8 in
  let zero_bits := difficulty mod 8 in
  if bool_decide (zero_bits = 0) then (zero_bytes, None)
  else (zero_bytes, Some (Z.land (Z.shiftl 255 (8 - zero_bits)) 255)).

Definition pow_target_description (difficulty : Z) : string :=
  if bool_decide (difficulty = 0) then "disabled_for_test"
  else
    match pow_target difficulty with
    | (zero_bytes, None) => "hash_prefix_zero_bytes>=" +:+ number zero_bytes
    | (zero_bytes, Some mask) =>
        "hash_prefix_zero_bytes>=" +:+ number zero_bytes +:+ ",next_byte_mask=0x" +:+ hex2 mask +:+
        ",leading_zero_bits>=" +:+ number difficulty
    end.

End errors.

Section log.
Context `{Paqus, Kv, Lmdb, Clock, !Storage.Codecs, !ChainParams, !Gossip.PeerWorld, !Service.ServiceEnv, !ExplorerEnv}.

Definition inbound_message_log (message : NetworkMessage) (peer : Z) : option string :=
  match message with
  | BlockMessage block => Some (
      "received block height " +:+ number (block_height block) +:+ " from " +:+ Service.addr_to_string peer +:+
      " |hash::" +:+ short_hash (Some (block_hash block)) +:+
      "|txs::" +:+ number (Z.of_nat (length (block_transactions block))) +:+ "|")
  | TransactionMessage transaction => Some (
      "received tx:: |from::" +:+ Service.addr_to_string peer +:+
      "|hash::" +:+ short_hash (Some (tx_hash transaction)) +:+
      "|amount::" +:+ number (tx_amount transaction) +:+ "|fee::" +:+ number (tx_fee transaction) +:+
      "|nonce::" +:+ number (tx_nonce transaction) +:+ "|")
  | _ => None
  end.

End log.
End Messages.
