(* ===== verification/MessagesProps.v ===== *)
(** * MessagesProps: what the texts determine *)

From S2P Require Import Prelude Collections Core Mempool Bytes Storage Node Network.
From S2P Require Import Wallet Config P2p Http HttpProps Service Explorer Messages.

Open Scope string_scope.
Open Scope list_scope.
Open Scope Z_scope.

Module MessagesProps.
Import Network Messages.

(** ** Numbers *)

Lemma number_inj n m : 0 ≤ n ≤ usize_max → 0 ≤ m ≤ usize_max → number n = number m → n = m.
Proof.
  intros Hn Hm Heq. pose proof (HttpProps.parse_decimal n Hn) as E1. pose proof (HttpProps.parse_decimal m Hm) as E2.
  unfold number in Heq. rewrite Heq in E1. congruence.
Qed.

Lemma byte_usize n : 0 ≤ n < 256 → 0 ≤ n ≤ usize_max.
Proof. assert (256 ≤ usize_max) by (by vm_compute). lia. Qed.

(** A list of digits ends where the first other character stands. *)
Lemma digits_split (sep : Z) l1 : ∀ l2 r1 r2, sep < 48 → Forall (λ b, 48 ≤ b ≤ 57) l1 → Forall (λ b, 48 ≤ b ≤ 57) l2 →
  l1 ++ sep :: r1 = l2 ++ sep :: r2 → l1 = l2.
Proof.
  induction l1 as [|a l1 IH]; intros [|b l2] r1 r2 Hs H1 H2; [done| | |].
  - intros [= -> _]. apply Forall_cons in H2 as [? _]. lia.
  - intros [= -> _]. apply Forall_cons in H1 as [? _]. lia.
  - intros [= -> Heq]. apply Forall_cons in H1 as [_ H1], H2 as [_ H2]. f_equal. by eapply IH.
Qed.

Lemma utf8_app s t : Http.utf8 (s +:+ t) = Http.utf8 s ++ Http.utf8 t.
Proof. induction s as [|a s IH]; [done|]. change (String a s +:+ t) with (String a (s +:+ t)). cbn. by rewrite IH. Qed.

Lemma utf8_text l : Forall (λ b, 48 ≤ b ≤ 57) l → Http.utf8 (Http.text l) = l.
Proof.
  induction 1 as [|b l Hb Hl IH]; [done|]. cbn. rewrite Ascii.nat_ascii_embedding by lia.
  rewrite Z2Nat.id by lia. by rewrite IH.
Qed.

Lemma number_digits n : 0 ≤ n → Http.utf8 (number n) = Http.decimal n ∧ Forall (λ b, 48 ≤ b ≤ 57) (Http.decimal n).
Proof.
  intros Hn. pose proof (HttpProps.decimal_digits_ascii 20 n Hn) as Hd. fold (Http.decimal n) in Hd.
  split; [by apply utf8_text|done].
Qed.

(** Two numbers separated by a text that does not start with a digit. *)
Lemma number_then_inj n m a s t : 0 ≤ n ≤ usize_max → 0 ≤ m ≤ usize_max → Z.of_nat (Ascii.nat_of_ascii a) < 48 →
  number n +:+ String a s = number m +:+ String a t → n = m ∧ s = t.
Proof.
  intros Hn Hm Ha Heq. destruct (number_digits n) as [En Dn]; [lia|]. destruct (number_digits m) as [Em Dm]; [lia|].
  assert (n = m) as ->.
  { apply (f_equal Http.utf8) in Heq. rewrite !utf8_app, En, Em in Heq. cbn [Http.utf8] in Heq.
    apply digits_split in Heq; [|done..]. apply number_inj; [done|done|]. unfold number. by rewrite Heq. }
  split; [done|]. apply (inj (String.append (number m))) in Heq. congruence.
Qed.

(** ** Texts of errors

    Two texts that start with different literals differ; equal literals are
    taken off. *)
Ltac texts_differ :=
  let E := fresh in intros E; cbv [String.append] in E; discriminate E.
Ltac same_literal H := apply (inj (String.append _)) in H.

Section errors.
Context `{ErrorTexts, !ErrorTextLaws}.

Lemma mempool_error_text_inj : Inj (=) (=) mempool_error_text.
Proof.
  intros [] [] E; cbn [mempool_error_text] in E; try done; try (exfalso; revert E; texts_differ);
    same_literal E; f_equal; by apply (inj _) in E.
Qed.

(** The versions are bytes. *)
Definition version_bytes (e : Storage.StorageError) : Prop :=
  match e with
  | Storage.UnsupportedStorageVersion expected found => 0 ≤ expected < 256 ∧ 0 ≤ found < 256
  | _ => True
  end.

Lemma storage_error_text_inj e e' : version_bytes e → version_bytes e' →
  storage_error_text e = storage_error_text e' → e = e'.
Proof.
  intros He He' E. destruct e, e'; cbn [storage_error_text version_bytes] in *; try done;
    try (exfalso; revert E; texts_differ); same_literal E; try (f_equal; by apply (inj _) in E); [by subst|].
  destruct He, He'. apply number_then_inj in E as [-> E]; [|by apply byte_usize..|by vm_compute].
  change (" found " +:+ number found = " found " +:+ number found0) in E. same_literal E.
  apply number_inj in E as ->; [done|by apply byte_usize..].
Qed.

Definition node_versions (e : Node.NodeError) : Prop :=
  match e with Node.EStorage error => version_bytes error | _ => True end.

Lemma node_error_text_inj e e' : node_versions e → node_versions e' →
  node_error_text e = node_error_text e' → e = e'.
Proof.
  intros He He' E. destruct e, e'; cbn [node_error_text node_versions] in *; try done;
    try (exfalso; revert E; texts_differ); same_literal E; try (f_equal; by apply (inj _) in E).
  - f_equal. by apply mempool_error_text_inj.
  - f_equal. by apply storage_error_text_inj.
Qed.

(** The text of an error identifies it, through every layer: two network
    errors that print alike are the same error, of the same node, storage, pool
    or protocol error. *)
Theorem error_text_identifies e e' :
  (∀ error, e = NodeErr error → node_versions error) → (∀ error, e' = NodeErr error → node_versions error) →
  network_error_text e = network_error_text e' → e = e'.
Proof.
  intros He He' E. destruct e, e'; cbn [network_error_text] in E; try done;
    try (exfalso; revert E; texts_differ); same_literal E; try (f_equal; by apply (inj _) in E).
  f_equal. apply node_error_text_inj; auto.
Qed.

(** The cause an error points to is the end of its text. *)
Theorem source_is_shown e e' : source e = Some e' → ∃ literal, error_text e = literal +:+ error_text e'.
Proof.
  destruct e as [| | | | | |[]|[]|[]|[]]; intros [= <-]; cbn [error_text mempool_error_text storage_error_text
    node_error_text network_error_text]; eexists; reflexivity.
Qed.

(** ** The end of a stream *)

(** A stream that ends between two frames, or inside the length of one, is
    closed without a complaint; a frame of another network is complained about. *)
Theorem end_of_stream_is_quiet `{Paqus, !ChainParams, !Borsh NetworkEnvelope} (buf : bytes) :
  io_error_kind UNEXPECTED_EOF = UnexpectedEof → (length buf < MESSAGE_LENGTH_SIZE)%nat →
  ∃ e, (read_message buf).1 = Err e ∧ is_peer_stream_closed e = true.
Proof.
  intros Hk Hl. exists (Io UNEXPECTED_EOF). split; [|cbn; by rewrite Hk].
  unfold read_message. rewrite SE_bind_unfold. unfold io, zoom. cbn [read_exact buffer_read id].
  by rewrite bool_decide_eq_false_2 by lia.
Qed.

End errors.

(** ** The target of the proof of work *)

(** What [pow_target_description] says of the bytes of a hash. *)
Definition described (difficulty : Z) (hash : bytes) : Prop :=
  let '(zero_bytes, mask) := pow_target difficulty in
  Forall (λ b, b = 0) (take (Z.to_nat zero_bytes) hash) ∧
  match mask with
  | None => True
  | Some m => ∀ b, hash !! Z.to_nat zero_bytes = Some b → Z.land b m = 0
  end.

Lemma mask_bits : Forall (λ d, Forall (λ b, Z.land (Z.of_nat b) (Z.land (Z.shiftl 255 (8 - Z.of_nat d)) 255) = 0 ↔
  Z.of_nat b < 2 ^ (8 - Z.of_nat d)) (seq 0 256)) (seq 1 7).
Proof. by_eval. Qed.

Lemma mask_spec d b : 0 < d < 8 → 0 ≤ b < 256 →
  Z.land b (Z.land (Z.shiftl 255 (8 - d)) 255) = 0 ↔ b < 2 ^ (8 - d).
Proof.
  intros Hd Hb. pose proof mask_bits as Hm. rewrite Forall_forall in Hm.
  specialize (Hm (Z.to_nat d) ltac:(apply elem_of_seq; lia)). rewrite Forall_forall in Hm.
  specialize (Hm (Z.to_nat b) ltac:(apply elem_of_seq; lia)). by rewrite !Z2Nat.id in Hm by lia.
Qed.

Lemma be_value_range l : Forall (λ b, 0 ≤ b < 256) l → 0 ≤ be_value l < 256 ^ Z.of_nat (length l).
Proof.
  induction l as [|b l IH] using rev_ind; [done|]. rewrite Forall_app, Forall_singleton. intros [Hl Hb].
  rewrite be_value_snoc, length_app, Nat2Z.inj_add. cbn [length]. rewrite Z.pow_add_r, Z.pow_1_r by lia.
  specialize (IH Hl). lia.
Qed.

Lemma be_value_cons b l : be_value (b :: l) = b * 256 ^ Z.of_nat (length l) + be_value l.
Proof.
  induction l as [|x l IH] using rev_ind; [unfold be_value; cbn; lia|].
  rewrite app_comm_cons, !be_value_snoc, IH, length_app, Nat2Z.inj_add. cbn [length].
  rewrite Z.pow_add_r, Z.pow_1_r by lia. lia.
Qed.

(** One more zero byte. *)
Lemma described_step d b l : 8 ≤ d → described d (b :: l) ↔ b = 0 ∧ described (d - 8) l.
Proof.
  intros Hd. unfold described, pow_target.
  assert ((d - 8) / 8 = d / 8 - 1) as -> by (replace (d - 8) with (d + (-1) * 8) by lia; rewrite Z.div_add by lia; lia).
  assert ((d - 8) mod 8 = d mod 8) as -> by (replace (d - 8) with (d + (-1) * 8) by lia; by rewrite Z.mod_add by lia).
  assert (1 ≤ d / 8) by (apply Z.div_le_lower_bound; lia).
  assert (Z.to_nat (d / 8) = S (Z.to_nat (d / 8 - 1))) as E by lia.
  case_bool_decide; rewrite E; cbn; rewrite Forall_cons; naive_solver.
Qed.

Lemma described_low d b l : 0 < d < 8 → 0 ≤ b < 256 → described d (b :: l) ↔ b < 2 ^ (8 - d).
Proof.
  intros Hd Hb. unfold described, pow_target. rewrite Z.div_small, Z.mod_small by lia.
  rewrite bool_decide_eq_false_2 by lia. cbn. rewrite <-mask_spec by done. split.
  - intros [_ Hm]. by apply Hm.
  - intros Hm. split; [constructor|]. by intros b' [= <-].
Qed.

(** The description is exact: a hash has the bytes that are described if and
    only if its value, read big-endian, is below two to the number of its bits
    less the difficulty. *)
Theorem pow_target_exact hash : ∀ difficulty, Forall (λ b, 0 ≤ b < 256) hash →
  0 ≤ difficulty ≤ 8 * Z.of_nat (length hash) →
  described difficulty hash ↔ be_value hash < 2 ^ (8 * Z.of_nat (length hash) - difficulty).
Proof.
  assert (∀ n : nat, 256 ^ Z.of_nat n = 2 ^ (8 * Z.of_nat n)) as H256.
  { intros n. change 256 with (2 ^ 8). rewrite <-Z.pow_mul_r by lia. done. }
  induction hash as [|b hash IH]; intros d Hh Hd.
  - cbn [length] in *. assert (d = 0) as -> by lia. unfold described. cbn. by split.
  - apply Forall_cons in Hh as [Hb Hh]. pose proof (be_value_range hash Hh) as Hv.
    rewrite be_value_cons. cbn [length] in *. rewrite Nat2Z.inj_succ in *. set (n := length hash) in *.
    assert (0 < 256 ^ Z.of_nat n) as Hp by (apply Z.pow_pos_nonneg; lia).
    destruct (decide (8 ≤ d)) as [H8|H8]; [|destruct (decide (d = 0)) as [->|Hd0]].
    + rewrite described_step, IH by (done || lia).
      replace (8 * Z.succ (Z.of_nat n) - d) with (8 * Z.of_nat n - (d - 8)) by lia.
      assert (2 ^ (8 * Z.of_nat n - (d - 8)) ≤ 256 ^ Z.of_nat n) as Hle.
      { rewrite H256. apply Z.pow_le_mono_r; lia. }
      split; [intros [-> ?]; lia|]. intros Hlt. assert (b = 0) as -> by nia. split; [done|lia].
    + unfold described. cbn. split; [intros _|by repeat constructor].
      replace (8 * Z.succ (Z.of_nat n) - 0) with (8 + 8 * Z.of_nat n) by lia.
      rewrite Z.pow_add_r, <-H256 by lia. change (2 ^ 8) with 256. nia.
    + rewrite described_low by lia.
      replace (8 * Z.succ (Z.of_nat n) - d) with ((8 - d) + 8 * Z.of_nat n) by lia.
      rewrite Z.pow_add_r, <-H256 by lia. split; intros; nia.
Qed.

(** 20 leading zero bits: two bytes and the mask [0xf0]. *)
Example pow_target_20 : pow_target_description 20 =
  "hash_prefix_zero_bytes>=2,next_byte_mask=0xf0,leading_zero_bits>=20".
Proof. by vm_compute. Qed.
End MessagesProps.
