(* ===== verification/Libp2p.v ===== *)
(** * Libp2p: the messages and the configuration of the libp2p experiment
    ([src/libp2p_node.rs])

    The program builds the swarm for [node libp2p-info] and never runs it.
    What is modelled is what the file itself does: the wire message, and the
    settings it gives to the crate, whose behaviours are the crate's own. *)

From S2P Require Import Prelude Collections Core Bytes Storage Node Network Messages.

Open Scope string_scope.
Open Scope list_scope.
Open Scope Z_scope.

Module Libp2p.
Import Network.

Definition PAQUS_BLOCK_TOPIC : string := "paqus/devnet/blocks/1".
Definition PAQUS_TX_TOPIC : string := "paqus/devnet/tx/1".
Definition PAQUS_REQUEST_PROTOCOL : string := "/paqus/devnet/sync/1".

Record WireMessage := mkWire { wire_bytes : bytes }.

Section wire.
Context `{Paqus, !ChainParams, !Borsh NetworkEnvelope, !Messages.ErrorTexts}.

(** Peer identities and addresses of the crate are numbers. *)
Inductive Libp2pCommand :=
  | Dial (address : Z)
  | PublishBlock (message : NetworkMessage)
  | PublishTransaction (message : NetworkMessage)
  | Request (peer : Z) (message : NetworkMessage).

Inductive Libp2pEvent :=
  | MessageEvent (source : option Z) (message : NetworkMessage)
  | RequestEvent (peer : Z) (message : NetworkMessage)
  | ResponseEvent (peer : Z) (message : NetworkMessage).

Definition encode (message : NetworkMessage) : result string WireMessage :=
  b ← map_err (λ error, "failed to encode network envelope: " +:+ Messages.network_error_text error)
    (to_bytes (to_envelope message));
  Ok (mkWire b).

Definition decode (w : WireMessage) : result string NetworkMessage :=
  map_err (λ error, "failed to decode network envelope: " +:+ Messages.network_error_text error)
    (message <$> from_bytes (wire_bytes w)).

End wire.

(** ** Events of the behaviour *)

Section events.
(** The event types of the crate's protocols. *)
Context {GossipsubEvent RequestResponseEvent IdentifyEvent PingEvent : Type}.

Inductive PaqusBehaviourEvent :=
  | Gossipsub_ (event : GossipsubEvent)
  | RequestResponse (event : RequestResponseEvent)
  | Identify (event : IdentifyEvent)
  | Ping (event : PingEvent).

Definition from_gossipsub (event : GossipsubEvent) : PaqusBehaviourEvent := Gossipsub_ event.
Definition from_request_response (event : RequestResponseEvent) : PaqusBehaviourEvent := RequestResponse event.
Definition from_identify (event : IdentifyEvent) : PaqusBehaviourEvent := Identify event.
Definition from_ping (event : PingEvent) : PaqusBehaviourEvent := Ping event.

End events.

(** ** Settings *)

Record Gossipsub := mkGossipsub {
  heartbeat_secs : Z;
  strict_validation : bool;
  signed : bool;
  subscriptions : list string;
}.

Record Behaviour := mkBehaviour {
  gossipsub : Gossipsub;
  request_protocols : list string;
  request_timeout_secs : Z;
  identify_protocol : string;
  pings : bool;
}.

Definition block_topic : string := PAQUS_BLOCK_TOPIC.
Definition transaction_topic : string := PAQUS_TX_TOPIC.

Definition build_behaviour : Behaviour :=
  mkBehaviour (mkGossipsub 10 true true [block_topic; transaction_topic])
    [PAQUS_REQUEST_PROTOCOL] 10 PAQUS_REQUEST_PROTOCOL true.

(** The steps of the builder that can fail are the crate's. *)
Definition build_swarm (tcp behaviour : result string ()) : result string (Behaviour * Z) :=
  map_err (λ error, "failed to build libp2p tcp transport: " +:+ error) tcp ;;
  map_err (λ error, "failed to build libp2p behaviour: " +:+ error) behaviour ;;
  Ok (build_behaviour, 60).

(** ** The wire message *)

Section props.
Context `{Paqus, !ChainParams, !Borsh NetworkEnvelope, !Messages.ErrorTexts, !BorshLaws NetworkEnvelope}.

(** A message that can be encoded is decoded again, and the bytes are those of
    the frame the TCP protocol sends: both transports carry the same envelope. *)
Theorem wire_round_trip m w :
  encode m = Ok w → decode w = Ok m ∧ to_bytes (to_envelope m) = Ok (wire_bytes w).
Proof.
  unfold encode. intros (b & Hb%map_err_Ok & [= <-])%result_bind_Ok. split; [|done].
  unfold decode. cbn [wire_bytes]. unfold to_bytes in Hb. apply result_bind_Ok in Hb as (b' & Hb'%map_err_Ok & Hb).
  case_bool_decide as Hs; [done|]. injection Hb as <-. unfold from_bytes. rewrite bool_decide_eq_false_2 by done.
  rewrite (decode_encode _ _ Hb'). cbn [map_err mbind result_bind magic to_envelope new_envelope].
  by rewrite bool_decide_eq_false_2 by naive_solver.
Qed.

End props.
End Libp2p.
