(* ===== verification/Sockets.v ===== *)
(** * Sockets: opening and configuring the sockets ([src/network.rs], [src/p2p.rs],
    [src/gateway.rs], [run_node] of [src/main.rs])

    A socket is its options; a call of the system fails or sets one.  A socket
    that is owned when a function returns an error is dropped, which closes it:
    it is not part of the result.  Times are in seconds. *)

From S2P Require Import Prelude Collections Core P2p.

Open Scope string_scope.
Open Scope list_scope.
Open Scope Z_scope.

Module Sockets.

Inductive Family := V4 | V6.

#[export] Instance Family_eq_dec : EqDecision Family.
Proof. solve_decision. Defined.

Record Socket := mkSocket {
  family : Family;
  addr : Z;
  only_v6 : bool;
  listening : bool;
  nonblocking : bool;
  read_timeout : option Z;
  write_timeout : option Z;
}.

Definition set_only_v6 (s : Socket) : Socket :=
  mkSocket (family s) (addr s) true (listening s) (nonblocking s) (read_timeout s) (write_timeout s).
Definition set_listening (s : Socket) : Socket :=
  mkSocket (family s) (addr s) (only_v6 s) true (nonblocking s) (read_timeout s) (write_timeout s).
Definition set_nonblocking (b : bool) (s : Socket) : Socket :=
  mkSocket (family s) (addr s) (only_v6 s) (listening s) b (read_timeout s) (write_timeout s).
Definition set_read_timeout (t : Z) (s : Socket) : Socket :=
  mkSocket (family s) (addr s) (only_v6 s) (listening s) (nonblocking s) (Some t) (write_timeout s).
Definition set_write_timeout (t : Z) (s : Socket) : Socket :=
  mkSocket (family s) (addr s) (only_v6 s) (listening s) (nonblocking s) (read_timeout s) (Some t).

(** The n-th system call fails with a text or not; addresses and their texts,
    and the address a listener was really bound to. *)
Class Os := {
  os_fault : nat → option string;
  is_ipv6 : Z → bool;
  addr_text : Z → string;
  local_addr : nat → Z → Z;
}.

Definition RPC_HTTP_TIMEOUT : Z := 60.
Definition GATEWAY_HTTP_TIMEOUT : Z := 60.
Definition SYNC_TIMEOUT : Z := 5.

Section sockets.
Context `{Os}.

(** The number of system calls made so far. *)
Local Abbreviation O := (SE nat string).

Definition syscall {A} (label : string) (a : A) : O A := λ k,
  match os_fault k with
  | None => (Ok a, S k)
  | Some e => (Err (label +:+ ": " +:+ e), S k)
  end.

(** [family] of the new socket; nothing is set. *)
Definition fresh (f : Family) (a : Z) : Socket := mkSocket f a false false false None None.

(** [TcpListener::bind] binds and listens in one call of the library. *)
Definition bind_nonblocking (a : Z) (label : string) : O Socket :=
  listener ← (if is_ipv6 a then
      socket ← syscall ("failed to create " +:+ label +:+ " IPv6 socket") (fresh V6 a);
      socket ← syscall ("failed to set " +:+ label +:+ " IPv6-only mode") (set_only_v6 socket);
      socket ← syscall ("failed to bind " +:+ label +:+ " " +:+ addr_text a) socket;
      syscall ("failed to listen on " +:+ label +:+ " " +:+ addr_text a) (set_listening socket)
    else
      syscall ("failed to bind " +:+ label +:+ " " +:+ addr_text a) (set_listening (fresh V4 a)));
  syscall ("failed to set " +:+ label +:+ " listener nonblocking") (set_nonblocking true listener).

Definition configure_stream (stream : Socket) (timeout : Z) : O Socket :=
  stream ← syscall "failed to set stream blocking mode" (set_nonblocking false stream);
  stream ← syscall "failed to set read timeout" (set_read_timeout timeout stream);
  syscall "failed to set write timeout" (set_write_timeout timeout stream).

Definition connected (a : Z) : Socket := fresh (if is_ipv6 a then V6 else V4) a.

Definition connect_peer (peer : Z) : O Socket :=
  stream ← syscall "connect failed" (connected peer);
  configure_stream stream SYNC_TIMEOUT.

(** [PeerConnection::connect] and [PeerConnection::from_stream] *)
Definition connect (a : Z) : O (Z * Socket) :=
  stream ← connect_peer a;
  stream ← configure_stream stream P2p.PERSISTENT_PEER_TIMEOUT;
  mret (a, stream).

Definition from_stream (a : Z) (stream : Socket) : O (Z * Socket) :=
  stream ← configure_stream stream P2p.PERSISTENT_PEER_TIMEOUT;
  mret (a, stream).

(** The stream of a request to the RPC server, and to the gateway. *)
Definition rpc_stream (a : Z) : O Socket :=
  stream ← syscall "failed to connect rpc" (connected a);
  configure_stream stream RPC_HTTP_TIMEOUT.

Definition configure_gateway_stream (stream : Socket) : O Socket :=
  stream ← syscall "failed to set gateway read timeout" (set_read_timeout GATEWAY_HTTP_TIMEOUT stream);
  syscall "failed to set gateway write timeout" (set_write_timeout GATEWAY_HTTP_TIMEOUT stream).

Definition gateway_stream (a : Z) : O Socket :=
  stream ← syscall "failed to connect gateway" (connected a);
  configure_gateway_stream stream.

(** The listeners of [run_node], with the addresses they were bound to. *)
Fixpoint bind_listeners (addrs : list Z) : O (list Socket * list Z) :=
  match addrs with
  | [] => mret ([], [])
  | a :: addrs' =>
      listener ← bind_nonblocking a "p2p";
      k ← get_state;
      bound ← syscall "failed to read listener address" (local_addr k a);
      '(listeners, bounds) ← bind_listeners addrs';
      mret (listener :: listeners, bound :: bounds)
  end.

End sockets.
End Sockets.

Module SocketsProps.
Import Sockets.

Section props.
Context `{Os}.

Lemma syscall_Ok {A} label (a b : A) k k' : syscall label a k = (Ok b, k') → b = a.
Proof. unfold syscall. case_match; [done|]. by intros [= ->]. Qed.

(** Take a successful sequence of system calls apart. *)
Ltac calls H := repeat (
  apply SE_bind_Ok in H; let x := fresh "x" in let k := fresh "k" in let E := fresh "E" in
  destruct H as (x & k & E & H); try apply syscall_Ok in E); try apply syscall_Ok in H; subst.

(** Reads and writes end after [timeout] seconds at most. *)
Definition timed (timeout : Z) (s : Socket) : Prop :=
  nonblocking s = false ∧ read_timeout s = Some timeout ∧ write_timeout s = Some timeout.

Lemma configure_timed stream timeout s k k' : configure_stream stream timeout k = (Ok s, k') →
  timed timeout s ∧ addr s = addr stream ∧ family s = family stream.
Proof. unfold configure_stream. intros Hc. calls Hc. done. Qed.

(** No thread waits for a peer for ever: a stream to or from a peer that is in
    use blocks, for thirty seconds at most; an RPC or a gateway request for the
    timeout of its client. *)
Theorem streams_are_timed a stream k :
  (∀ c k', connect a k = (Ok c, k') → c.1 = a ∧ timed P2p.PERSISTENT_PEER_TIMEOUT c.2) ∧
  (∀ c k', from_stream a stream k = (Ok c, k') → c.1 = a ∧ timed P2p.PERSISTENT_PEER_TIMEOUT c.2) ∧
  (∀ s k', connect_peer a k = (Ok s, k') → timed SYNC_TIMEOUT s) ∧
  (∀ s k', rpc_stream a k = (Ok s, k') → timed RPC_HTTP_TIMEOUT s) ∧
  (∀ s k', gateway_stream a k = (Ok s, k') → timed GATEWAY_HTTP_TIMEOUT s).
Proof.
  split_and!.
  - intros c k' Hc. unfold connect in Hc. apply SE_bind_Ok in Hc as (s & k1 & _ & Hc).
    apply SE_bind_Ok in Hc as (s' & k2 & E & [= <- <-]). split; [done|]. by apply configure_timed in E as [? _].
  - intros c k' Hc. unfold from_stream in Hc.
    apply SE_bind_Ok in Hc as (s' & k2 & E & [= <- <-]). split; [done|]. by apply configure_timed in E as [? _].
  - intros s k' Hc. unfold connect_peer in Hc. apply SE_bind_Ok in Hc as (s' & k2 & _ & E).
    by apply configure_timed in E as [? _].
  - intros s k' Hc. unfold rpc_stream in Hc. apply SE_bind_Ok in Hc as (s' & k2 & _ & E).
    by apply configure_timed in E as [? _].
  - intros s k' Hc. unfold gateway_stream, configure_gateway_stream in Hc. calls Hc. done.
Qed.

(** What a listener is. *)
Definition listens_on (a : Z) (s : Socket) : Prop :=
  addr s = a ∧ listening s = true ∧ nonblocking s = true ∧
  family s = (if is_ipv6 a then V6 else V4) ∧ (family s = V6 → only_v6 s = true).

Lemma bind_listens a label s k k' : bind_nonblocking a label k = (Ok s, k') → listens_on a s.
Proof.
  unfold bind_nonblocking, listens_on. intros Hb. apply SE_bind_Ok in Hb as (l & k1 & E & Hb). apply syscall_Ok in Hb as ->.
  destruct (is_ipv6 a) eqn:E6; calls E; done.
Qed.

(** All listeners or none: [run_node] goes on with exactly one for every
    address, in order; each accepts without blocking, and an IPv6 one leaves the
    IPv4 port of the same number to another listener. *)
Theorem listeners_bound addrs : ∀ ls bounds k k', bind_listeners addrs k = (Ok (ls, bounds), k') →
  Forall2 listens_on addrs ls ∧ length bounds = length addrs.
Proof.
  induction addrs as [|a addrs IH]; intros ls bounds k k'; cbn [bind_listeners]; [by intros [= <- <- _]|].
  intros Hb. apply SE_bind_Ok in Hb as (l & k1 & El & Hb). rewrite SE_bind_get in Hb.
  apply SE_bind_Ok in Hb as (b & k2 & _ & Hb). apply SE_bind_Ok in Hb as ([ls' bs'] & k3 & Er & [= <- <- _]).
  apply IH in Er as [Hl Hn]. apply bind_listens in El. split; [by constructor|cbn; by f_equal].
Qed.

End props.
End SocketsProps.
