(* ===== verification/Cli.v ===== *)
(** * Cli: the program from its arguments ([src/main.rs])

    [run], the interactive menu, the commands [wallet] and [node], the file
    [node config] writes and the texts of [--help], [version] and [info].  A
    command is a function of the console: what is typed, what is printed, the
    files that are written.  [run_node] is the last call of the command that
    starts it; [Daemon] takes over from there. *)

From S2P Require Import Prelude Collections Core Bytes Mempool Storage Node Network.
From S2P Require Import Wallet Config P2p Gossip Http Service Explorer Commands Messages Libp2p Routes.

Open Scope string_scope.
Open Scope list_scope.
Open Scope Z_scope.

Module Cli.
Import Wallet Config Commands Routes.

(** ** What is printed *)

Section lines.
Context `{Paqus}.

(** A line of text, the object of [balance_json], what a payment prints, a JSON
    value, and the report of [node init]. *)
Inductive Line :=
  | Text (text : string)
  | Balance (balance : Explorer.BalanceJson)
  | Payment (printed : Printed)
  | Initialised (path : string) (tip_height : option Height) (tip_hash miner premine : string).

(** How a command ends: it returns, or [run_node] is called with the arguments
    that are left. *)
Inductive Ended := Done | StartNode (args : list string).

(** [Err(message)], or a panic. *)
Inductive Failure := Failed (message : string) | Panicked.

Record Console := mkConsole {
  terminal : Terminal;
  printed : list Line;
  written : list (string * string);
  seeds : nat;
  opened : nat;
}.

Definition set_terminal (t : Terminal) (c : Console) : Console :=
  mkConsole t (printed c) (written c) (seeds c) (opened c).
Definition println (l : Line) (c : Console) : Console :=
  mkConsole (terminal c) (printed c ++ [l]) (written c) (seeds c) (opened c).
Definition add_file (f : string * string) (c : Console) : Console :=
  mkConsole (terminal c) (printed c) (written c ++ [f]) (seeds c) (opened c).
Definition next_seed (c : Console) : Console :=
  mkConsole (terminal c) (printed c) (written c) (S (seeds c)) (opened c).
Definition next_opening (c : Console) : Console :=
  mkConsole (terminal c) (printed c) (written c) (seeds c) (S (opened c)).

(** The crates and the system: constants of the protocol and of the build, the
    directories and the storage that is found by the n-th opening of a path,
    the JSON of the configuration and of the explorer's answers, and the libp2p
    swarm. *)
Class CliEnv `{Kv} := {
  CARGO_PKG_VERSION : string;
  CHAIN_ID : Z;
  NETWORK_MAGIC : bytes;
  GENESIS_PREMINE_ADDRESS : Address;
  default_consensus : Consensus;
  socket_text : Z → string;
  is_loopback : Z → bool;
  parent_dir : string → option string;
  create_dir_all : string → result string ();
  config_json : RunConfigFile → result string string;
  open_environment : nat → string → result Storage.StorageError Storage.Store;
  Json : Type;
  json_parse : string → result string Json;
  json_get : string → Json → option Json;
  json_empty : Json;
  json_pretty : Json → result string string;
  local_peer_id : result string string;
}.

End lines.

Section cli.
Context `{Paqus, Kv, Lmdb, Clock, !Storage.Codecs, !Crypto, !WalletEnv, !Explorer.ExplorerEnv, !ConfigEnv}.
Context `{!FilesEnv, !Messages.ErrorTexts, !CliEnv}.
Abbreviation M := (SE Console Failure).

Definition print (l : Line) : M () := modify (println l).
Definition say (s : string) : M () := print (Text s).

(** The parts of the console that the other components use. *)
Definition on_terminal {A} (m : SE Terminal string A) : M A := zoom terminal set_terminal Failed m.
Definition on_client {A} (m : SE Client string A) : M A :=
  on_terminal (zoom client (λ c t, mkTerminal (typed t) c) id m).
Definition checked {A} (r : result string A) : M A := lift (map_err Failed r).

(** ** The node's storage *)

Definition open_node (path : string) (miner_address : Address) : M Node.Node := λ c,
  let c' := next_opening c in
  match open_environment (opened c) path with
  | Err e => (Err (Failed ("failed to open node storage: " +:+ Messages.node_error_text (Node.EStorage e))), c')
  | Ok store =>
      match Node.init_or_load default_consensus (opened c) store with
      | Err e => (Err (Failed ("failed to open node storage: " +:+ Messages.node_error_text e)), c')
      | Ok None => (Err Panicked, c')
      | Ok (Some n) => (Ok n, c')
      end
  end.

(** [Address([9; 20])] *)
Definition any_miner : Address := be_value (repeat 9 20).

(** ** Texts *)

Definition print_version : M () :=
  say (Explorer.CHAIN_NAME +:+ " " +:+ CARGO_PKG_VERSION +:+ " (" +:+ Explorer.PROTOCOL_STAGE +:+
    ", protocol " +:+ Messages.number Explorer.PROTOCOL_VERSION +:+ ")").

Definition print_network_info : M () :=
  say ("chain: " +:+ Explorer.CHAIN_NAME) ;;
  say ("coin: " +:+ Explorer.COIN_NAME) ;;
  say ("stage: " +:+ Explorer.PROTOCOL_STAGE) ;;
  say ("protocol_version: " +:+ Messages.number Explorer.PROTOCOL_VERSION) ;;
  say ("block_time_secs: " +:+ Messages.number BLOCK_TIME) ;;
  say ("confirmation_depth: " +:+ Messages.number Explorer.CONFIRMATION_DEPTH) ;;
  say ("finality_depth: " +:+ Messages.number Explorer.FINALITY_DEPTH) ;;
  say ("difficulty_start: " +:+ Messages.number DIFFICULTY_START).

(** The usage of the node and of the wallet, and the RPC requests. *)
Definition help_usage : list string :=
  ["paqus"; "paqus menu"; "paqus --help"; "paqus version"; "paqus node info"; "paqus node libp2p-info";
   "paqus node config [config-path]"; "paqus node init [db-path] [miner-address-hex]";
   "paqus node run [db-path] [--config path] [--listen addr] [--rpc-listen addr] [--peer addr] [--peers-file path] [--gateway host:port] [--public-addr host:port] [--min-relay-fee units] [--market-fee units] [--low-fee-expiry-secs n] [--mempool-expiry-secs n] [--wallet path] [--miner address-hex] [--miner-secret-key key-hex] [--mine]";
   "paqus wallet new [wallet-path] [--show-secret]"; "paqus wallet address <secret-key-hex>";
   "paqus wallet balance <address-hex> [db-path]";
   "paqus wallet pay <address-hex> <amount> [--wallet path] [--fee units] [--rpc addr]";
   "paqus wallet send <address-hex> <amount> [--wallet path] [--nonce n] [--fee units] [--rpc addr]";
   "paqus wallet send --wallet path --to address-hex --amount units [--nonce n] [--fee units] [--submit] [--rpc addr]"].

Definition help_rpc : list (Method * string) :=
  [(GET, "/status"); (GET, "/health"); (GET, "/chain"); (GET, "/stats"); (GET, "/peers");
   (GET, "/balance/<address-hex>"); (GET, "/blocks/latest"); (GET, "/blocks/<height>");
   (GET, "/blocks/hash/<block-hash>"); (GET, "/tx/<tx-hash>"); (GET, "/address/<address-hex>");
   (GET, "/accounts"); (GET, "/mempool"); (POST, "/tx")].

Definition method_text (m : Method) : string := match m with GET => "GET  " | POST => "POST " | OtherMethod => EmptyString end.

(** What follows a request in the help: the body of the only [POST]. *)
Definition quoted (s : string) : string :=
  String (Ascii.ascii_of_nat 34) (s +:+ String (Ascii.ascii_of_nat 34) EmptyString).
Definition help_body (m : Method) : string :=
  match m with
  | POST => "              JSON: {" +:+ quoted "tx" +:+ ":" +:+ quoted "signed-transaction-hex" +:+ "}"
  | _ => EmptyString
  end.

Definition help_mining : list string :=
  ["To bootstrap mining with your own account:"; "  1. Create a wallet: paqus wallet new wallet.json";
   "  2. Create config: paqus node config"; "  3. Edit ./data/paqus/node.json once"; "  4. Run: paqus node run"].

(** The text ends with a line break of its own. *)
Definition help_lines : list string :=
  ["paqus"; EmptyString; "Usage:"] ++ (String.append "  " <$> help_usage) ++
  [EmptyString; "RPC:"] ++ ((λ r, "  " +:+ method_text r.1 +:+ r.2 +:+ help_body r.1) <$> help_rpc) ++
  [EmptyString] ++ help_mining ++ [EmptyString].

Definition print_help : M () := for_each say help_lines.

Definition print_libp2p_info : M () :=
  peer_id ← checked local_peer_id;
  say ("peer_id: " +:+ peer_id) ;;
  say ("block_topic: " +:+ Libp2p.PAQUS_BLOCK_TOPIC) ;;
  say ("tx_topic: " +:+ Libp2p.PAQUS_TX_TOPIC) ;;
  say ("request_protocol: " +:+ Libp2p.PAQUS_REQUEST_PROTOCOL).

(** ** Wallet commands *)

Definition wallet_new (args : list string) : M () :=
  let show_secret := existsb (λ arg, bool_decide (arg = "--show-secret")) args in
  let output_path := find (λ arg, negb (starts_with_dash arg)) (drop 1 args) in
  c ← get_state;
  let wallet := generate (seeds c) in
  modify next_seed ;;
  let address_str := wallet_address wallet in
  let public_key_hex := hex_encode (public_key_bytes (public_key wallet)) in
  let secret_key_hex := hex_encode (secret_key wallet) in
  match output_path with
  | Some path =>
      json_str ← checked (map_err (λ error, "failed to serialize wallet: " +:+ error)
        (wallet_json address_str public_key_hex secret_key_hex));
      checked (map_err (λ error, "failed to write wallet file `" +:+ path +:+ "`: " +:+ error)
        (write_file path json_str)) ;;
      modify (add_file (path, json_str)) ;;
      say ("Wallet successfully saved to `" +:+ path +:+ "`") ;;
      say ("address: " +:+ address_str) ;;
      if show_secret then say ("secret_key: " +:+ secret_key_hex) else mret tt
  | None =>
      say ("address: " +:+ address_str) ;;
      say ("public_key: " +:+ public_key_hex) ;;
      if show_secret then say ("secret_key: " +:+ secret_key_hex)
      else say "secret_key: hidden (rerun with --show-secret to print it)"
  end.

Definition wallet_command (args : list string) : M () :=
  match args with
  | "new" :: _ => wallet_new args
  | "address" :: _ =>
      secret_key ← checked (parse_secret_key (args !! 1%nat));
      say (address_to_string (address_from_public_key (derive_public_key secret_key)))
  | "balance" :: _ =>
      address ← checked (parse_address (args !! 1%nat));
      node ← open_node (default DEFAULT_NODE_DB (args !! 2%nat)) any_miner;
      print (Balance (Explorer.balance_json node address))
  | "pay" :: args => p ← on_client (wallet_pay_command args); print (Payment p)
  | "send" :: args => p ← on_client (wallet_send_command args); print (Payment p)
  | _ => throw (Failed "usage: paqus wallet <new|address|balance|pay|send> [options]")
  end.

(** ** Node commands *)

(** [RunConfigFile::default] *)
Definition default_config_file : RunConfigFile :=
  let d := default_config in
  mkRunConfigFile (db_path d) (Many (socket_text <$> listen_addrs d)) (socket_text (rpc_addr d)) []
    (Some DEFAULT_PEERS_FILE) None None (gateway_heartbeat d) (shutdown_file d) (max_peers d)
    (Some (min_relay_fee d)) (Some (market_fee d)) (Some (low_fee_expiry d)) (Some (mempool_expiry d))
    None None None false (mine_interval d) (mine_attempts d).

Definition write_default_run_config (path : string) : M () :=
  match parent_dir path with
  | Some parent => checked (map_err (λ error, "failed to create config directory: " +:+ error) (create_dir_all parent))
  | None => mret tt
  end ;;
  contents ← checked (map_err (λ error, "failed to encode default config: " +:+ error) (config_json default_config_file));
  checked (map_err (λ error, "failed to write config " +:+ path +:+ ": " +:+ error) (write_file path contents)) ;;
  modify (add_file (path, contents)).

Definition node_config_command (args : list string) : M () :=
  let path := default DEFAULT_CONFIG_FILE (head args) in
  write_default_run_config path ;;
  say ("node config written: " +:+ path) ;;
  say "run with: cargo run -- node run".

Definition node_init (args : list string) : M () :=
  let path := default DEFAULT_NODE_DB (args !! 1%nat) in
  let miner_address := match parse_address (args !! 2%nat) with Ok a => a | Err _ => any_miner end in
  match args !! 3%nat with
  | Some _ => throw (Failed "premine address is fixed by protocol and cannot be overridden")
  | None =>
      node ← open_node path miner_address;
      print (Initialised path (Node.node_tip_height node) (Explorer.format_hash (Node.node_tip_hash node))
        (address_to_string miner_address) (address_to_string GENESIS_PREMINE_ADDRESS))
  end.

Definition node_command (args : list string) : M Ended :=
  match args with
  | "init" :: _ => node_init args ;; mret Done
  | "run" :: args => mret (StartNode args)
  | "config" :: args => node_config_command args ;; mret Done
  | "libp2p-info" :: _ => print_libp2p_info ;; mret Done
  | "info" :: _ => print_network_info ;; mret Done
  | _ => throw (Failed "usage: paqus node <info|libp2p-info|init|config|run> [options]")
  end.

(** What [run_node] prints first. *)
Definition warn_if_public_rpc (c : RunConfig) : M () :=
  if is_loopback (rpc_addr c) then mret tt
  else say ("warning: rpc is listening on " +:+ socket_text (rpc_addr c) +:+
    "; keep fullnode rpc internal and expose public traffic through paqus-gateway").

Definition print_core_startup_info : M () :=
  say ("core chain::" +:+ Explorer.CHAIN_NAME +:+ "|chain_id::" +:+ Messages.number CHAIN_ID +:+ "|coin::" +:+
    Explorer.COIN_NAME +:+ "|stage::" +:+ Explorer.PROTOCOL_STAGE +:+ "|protocol::" +:+
    Messages.number Explorer.PROTOCOL_VERSION +:+ "|storage::" +:+ Messages.number STORAGE_VERSION +:+ "|magic::" +:+
    hex_encode NETWORK_MAGIC) ;;
  say ("consensus: block_time::" +:+ Messages.number BLOCK_TIME +:+ "s|confirmation::" +:+
    Messages.number Explorer.CONFIRMATION_DEPTH +:+ "|finality::" +:+ Messages.number Explorer.FINALITY_DEPTH +:+
    "|reward_maturity::" +:+ Messages.number Explorer.BLOCK_REWARD_MATURITY +:+ "|difficulty_start::" +:+
    Messages.number DIFFICULTY_START +:+ "|retarget_window::" +:+ Messages.number DIFFICULTY_ADJUSTMENT_INTERVAL).

Definition format_socket_addrs (addrs : list Z) : string := String.concat "," (socket_text <$> addrs).

(** ** The interactive menu *)

Definition on_wallet_menu {A} (m : SE Terminal string (option A)) (some : A → M ()) (none : M ()) : M () :=
  r ← on_terminal m;
  match r with Some a => some a | None => none end.

Definition stored (label : string) (r : string * string * string) : M () :=
  modify (add_file r.1) ;; say (label +:+ ": " +:+ r.1.1) ;; say ("address: " +:+ r.2).

(** The wallet that was chosen, or an address that is typed. *)
Definition ask_address : M Address :=
  w ← on_terminal choose_wallet;
  match w with
  | Some (_, wallet) => mret (address wallet)
  | None => line ← on_terminal prompt; checked (parse_address (Some line))
  end.

Definition menu_check_balance : M () :=
  address ← ask_address;
  db_path ← on_terminal (prompt_default DEFAULT_NODE_DB);
  node ← open_node db_path any_miner;
  print (Balance (Explorer.balance_json node address)).

Definition menu_explorer : M () :=
  address ← ask_address;
  rpc_addr ← on_terminal (prompt_default DEFAULT_RPC_ADDR);
  body ← on_client (Wallet.get rpc_addr ("/address/" +:+ address_to_string address));
  value ← checked (map_err (λ error, "failed to parse explorer response: " +:+ error) (json_parse body));
  let transactions := default json_empty (json_get "transactions" value) in
  text ← checked (map_err (λ error, "failed to render transactions: " +:+ error) (json_pretty transactions));
  say text.

Definition menu_lines : list string :=
  [EmptyString; "Paqus Node CLI"; "1. Create wallet"; "2. Import wallet"; "3. Run node"; "4. Check balance";
   "5. Send"; "6. Receive"; "7. Explorer"; "8. Exit"].

(** What is done with the line that is read: [None] goes round again. *)
Definition menu_choice (choice : string) : M (option Ended) :=
  match choice with
  | "1" =>
      c ← get_state; modify next_seed ;;
      on_wallet_menu (menu_create_wallet (seeds c)) (stored "wallet") (mret tt) ;; mret None
  | "2" => on_wallet_menu menu_import_wallet (stored "wallet imported") (mret tt) ;; mret None
  | "3" =>
      say "Starting node. Press Ctrl+C to stop, or create the STOP file from another terminal." ;;
      mret (Some (StartNode []))
  | "4" => menu_check_balance ;; mret None
  | "5" => on_wallet_menu menu_send (λ p, print (Payment p)) (say "No wallet selected.") ;; mret None
  | "6" => on_wallet_menu menu_receive (λ a, say (address_to_string a))
           (say "No wallet files found. Create or import a wallet first.") ;; mret None
  | "7" => menu_explorer ;; mret None
  | "8" => mret (Some Done)
  | value => say ("Unknown menu `" +:+ value +:+ "`") ;; mret None
  end.
Definition menu_turn : M (option Ended) :=
  for_each say menu_lines ;;
  choice ← on_terminal prompt;
  menu_choice choice.

(** The loop, for at most [fuel] turns. *)
Fixpoint interactive_menu (fuel : nat) : M (option Ended) :=
  match fuel with
  | O => mret None
  | S fuel' =>
      e ← menu_turn;
      match e with Some e => mret (Some e) | None => interactive_menu fuel' end
  end.

(** ** The program *)

Definition run (fuel : nat) (args : list string) : M (option Ended) :=
  match args with
  | [] => interactive_menu fuel
  | ("-h" | "--help" | "help") :: _ => print_help ;; mret (Some Done)
  | ("-V" | "--version" | "version") :: _ => print_version ;; mret (Some Done)
  | "wallet" :: args => wallet_command args ;; mret (Some Done)
  | "node" :: args => e ← node_command args; mret (Some e)
  | ("menu" | "cli") :: _ => interactive_menu fuel
  | command :: _ => throw (Failed ("unknown command `" +:+ command +:+ "`. Try `paqus --help`."))
  end.

(** [main]: the exit code, when the program ends without a node. *)
Inductive ExitCode := SUCCESS | FAILURE (message : string) | ABORT.

Definition exit_code (r : result Failure (option Ended)) : option ExitCode :=
  match r with
  | Ok (Some Done) => Some SUCCESS
  | Ok (Some (StartNode _)) | Ok None => None
  | Err (Failed message) => Some (FAILURE ("error: " +:+ message))
  | Err Panicked => Some ABORT
  end.

End cli.
End Cli.
