(* ===== verification/CliProps.v ===== *)
(** * CliProps: the menu, the default configuration and the printed secrets *)

From S2P Require Import Prelude Collections Core Bytes Mempool Storage Node Network.
From S2P Require Import Wallet Config P2p Gossip Http Service Explorer Commands Messages Rpc Routes Cli.

Open Scope string_scope.
Open Scope list_scope.
Open Scope Z_scope.

Module CliProps.
Import Wallet Config Commands Routes Cli.

Section props.
Context `{Paqus, Kv, Lmdb, Clock, !Storage.Codecs, !Crypto, !WalletEnv, !Explorer.ExplorerEnv, !ConfigEnv}.
Context `{!FilesEnv, !Messages.ErrorTexts, !CliEnv}.
Implicit Types c : Console.

(** ** What is typed is read once, in order *)

Definition unread c : list (result string string) := typed (terminal c).
Definition reads_on c c' : Prop := unread c' `suffix_of` unread c.
#[local] Instance reads_on_preorder : PreOrder reads_on.
Proof. split; unfold reads_on; [intros c; reflexivity|intros c1 c2 c3 ? ?; by etransitivity]. Qed.

Definition reads (t t' : Terminal) : Prop := typed t' `suffix_of` typed t.
#[local] Instance reads_preorder : PreOrder reads.
Proof. split; unfold reads; [intros t; reflexivity|intros t1 t2 t3 ? ?; by etransitivity]. Qed.

Lemma keeps_on_terminal {A} (m : SE Terminal string A) : keeps reads m → keeps reads_on (on_terminal m).
Proof. intros Hm c. specialize (Hm (terminal c)). unfold on_terminal, zoom. by destruct (m (terminal c)). Qed.

Lemma keeps_client {A} (m : SE Client string A) :
  keeps reads (zoom client (λ k t, mkTerminal (typed t) k) id m).
Proof. intros t. unfold zoom. destruct (m (client t)). unfold reads. cbn. reflexivity. Qed.

Lemma keeps_prompt : keeps reads prompt.
Proof.
  intros t. unfold prompt, reads. destruct (typed t) as [|l ls] eqn:E; cbn; [by rewrite E|by exists [l]].
Qed.

(** One step of a menu at a time. *)
Ltac reading := repeat first
  [ apply keeps_ret, _ | apply keeps_lift, _ | apply keeps_throw, _ | apply keeps_get, _
  | apply keeps_prompt | apply keeps_client | apply keeps_on_terminal
  | apply keeps_modify; intros k; exact (reflexivity (unread k))
  | apply keeps_bind; [apply _| |intros ?]
  | progress unfold print, say, checked
  | match goal with |- keeps _ (match ?x with _ => _ end) => destruct x end
  | match goal with |- keeps _ (if ?x then _ else _) => destruct x end ].

Lemma keeps_prompt_default d : keeps reads (prompt_default d).
Proof. unfold prompt_default. reading. Qed.
Lemma keeps_choose_wallet : keeps reads choose_wallet.
Proof. unfold choose_wallet. reading. Qed.
Lemma keeps_store path wallet : keeps reads (store_wallet path wallet).
Proof. unfold store_wallet, prompt_yes_no. reading. Qed.
Lemma keeps_create seed : keeps reads (menu_create_wallet seed).
Proof. unfold menu_create_wallet. apply keeps_bind; [apply _|apply keeps_prompt_default|intros; apply keeps_store]. Qed.
Lemma keeps_import : keeps reads menu_import_wallet.
Proof.
  unfold menu_import_wallet. apply keeps_bind; [apply _|apply keeps_prompt|intros line].
  apply keeps_bind; [apply _|apply keeps_lift, _|intros key].
  apply keeps_bind; [apply _|apply keeps_prompt_default|intros path; apply keeps_store].
Qed.
Lemma keeps_receive : keeps reads menu_receive.
Proof. unfold menu_receive. reading. Qed.
Lemma keeps_send : keeps reads menu_send.
Proof.
  unfold menu_send. apply keeps_bind; [apply _|apply keeps_choose_wallet|intros [[path w]|]]; [|apply keeps_ret, _].
  reading; apply keeps_prompt_default.
Qed.

Lemma keeps_open path a : keeps reads_on (open_node path a).
Proof. intros c. unfold open_node. repeat case_match; exact (reflexivity (unread c)). Qed.

Lemma keeps_on_menu {A} (m : SE Terminal string (option A)) some none :
  keeps reads m → (∀ a, keeps reads_on (some a)) → keeps reads_on none → keeps reads_on (on_wallet_menu m some none).
Proof.
  intros Hm Hs Hn. apply keeps_bind; [apply _|by apply keeps_on_terminal|intros [a|]]; [apply Hs|apply Hn].
Qed.

Lemma keeps_ask : keeps reads_on ask_address.
Proof.
  apply keeps_bind; [apply _|apply keeps_on_terminal, keeps_choose_wallet|intros [[path w]|]]; reading.
Qed.

Lemma keeps_balance : keeps reads_on menu_check_balance.
Proof.
  apply keeps_bind; [apply _|apply keeps_ask|intros a].
  apply keeps_bind; [apply _|apply keeps_on_terminal, keeps_prompt_default|intros path].
  apply keeps_bind; [apply _|apply keeps_open|intros n]. reading.
Qed.

Lemma keeps_explorer : keeps reads_on menu_explorer.
Proof.
  apply keeps_bind; [apply _|apply keeps_ask|intros a].
  apply keeps_bind; [apply _|apply keeps_on_terminal, keeps_prompt_default|intros addr].
  reading; apply keeps_client.
Qed.

(** ** The menu *)

Lemma keeps_then_again (m : SE Console Failure ()) : keeps reads_on m → keeps reads_on (m ;; mret (@None Ended)).
Proof. intros Hm. apply keeps_bind; [apply _|done|intros _; apply keeps_ret, _]. Qed.

Lemma keeps_say s : keeps reads_on (say s).
Proof. reading. Qed.

Lemma keeps_stored label r : keeps reads_on (stored label r).
Proof. unfold stored. reading. Qed.

Lemma keeps_choice choice : keeps reads_on (menu_choice choice).
Proof.
  unfold menu_choice.
  repeat (match goal with |- keeps _ (match ?x with _ => _ end) => destruct x end);
    try first
      [ apply keeps_ret, _
      | apply keeps_then_again, keeps_say
      | apply keeps_then_again, keeps_balance
      | apply keeps_then_again, keeps_explorer
      | apply keeps_then_again, keeps_on_menu; [apply keeps_import|intros; apply keeps_stored|apply keeps_ret, _]
      | apply keeps_then_again, keeps_on_menu; [apply keeps_send|intros; reading|apply keeps_say]
      | apply keeps_then_again, keeps_on_menu; [apply keeps_receive|intros; apply keeps_say|apply keeps_say]
      | apply keeps_bind; [apply _|apply keeps_say|intros; apply keeps_ret, _] ].
  apply keeps_bind; [apply _|apply keeps_get, _|intros c].
  apply keeps_bind; [apply _|apply keeps_modify; intros k; exact (reflexivity (unread k))|intros _].
  apply keeps_then_again, keeps_on_menu; [apply keeps_create|intros; apply keeps_stored|apply keeps_ret, _].
Qed.

Lemma say_all_unread l c : ∃ c', for_each say l c = (Ok tt, c') ∧ terminal c' = terminal c.
Proof.
  revert c. induction l as [|s l IH]; intros c; [by exists c|]. cbn [for_each].
  destruct (IH (println (Text s) c)) as (c' & E & Ht). exists c'. split; [exact E|exact Ht].
Qed.

(** A turn takes a line, and without one it goes round again. *)
Lemma turn_unread c r c' : menu_turn c = (r, c') →
  match unread c with
  | [] => r = Ok None ∧ unread c' = []
  | _ :: rest => unread c' `suffix_of` rest
  end.
Proof.
  unfold menu_turn. rewrite SE_bind_unfold. destruct (say_all_unread menu_lines c) as (c1 & -> & Ht).
  rewrite SE_bind_unfold. unfold on_terminal at 1, zoom at 1. rewrite Ht. unfold prompt, unread.
  destruct (typed (terminal c)) as [|line rest] eqn:E.
  - cbn. intros [= <- <-]. by rewrite <-E.
  - cbn [map_err]. destruct line as [line|e].
    + intros Ht'. pose proof (keeps_choice (trim line) (set_terminal (mkTerminal rest (client (terminal c))) c1)) as Hk.
      unfold reads_on, unread in Hk. cbn [terminal set_terminal typed] in Hk.
      change (fmap (λ s : string, trim s) (Ok line : result string string)) with (Ok (trim line) : result string string) in Ht'.
      cbn [map_err] in Ht'. by rewrite Ht' in Hk.
    + cbn. by intros [= _ <-].
Qed.

(** Once the typed lines have run out the loop never ends. *)
Lemma menu_spins fuel : ∀ c, unread c = [] → ∃ c', interactive_menu fuel c = (Ok None, c') ∧ unread c' = [].
Proof.
  induction fuel as [|fuel IH]; intros c Hc; [by exists c|]. cbn [interactive_menu].
  destruct (menu_turn c) as [r c1] eqn:Et. pose proof (turn_unread _ _ _ Et) as Hu. rewrite Hc in Hu.
  destruct Hu as [-> Hu]. destruct (IH c1 Hu) as (c' & E & Hc'). exists c'. split; [|done].
  by rewrite SE_bind_unfold, Et.
Qed.

(** A loop that has ended does not use more turns. *)
Lemma menu_more fuel k : ∀ c r c', interactive_menu fuel c = (r, c') → r ≠ Ok None → interactive_menu (fuel + k) c = (r, c').
Proof.
  induction fuel as [|fuel IH]; intros c r c'; [by intros [= <- _]|]. cbn [interactive_menu Nat.add].
  rewrite !SE_bind_unfold. destruct (menu_turn c) as [[[e|]|f] c1]; [done| |done]. apply IH.
Qed.

Lemma menu_goes_on fuel k : ∀ c c', interactive_menu fuel c = (Ok None, c') →
  interactive_menu (fuel + k) c = interactive_menu k c'.
Proof.
  induction fuel as [|fuel IH]; intros c c'; [by intros [= ->]|]. cbn [interactive_menu Nat.add].
  rewrite !SE_bind_unfold. destruct (menu_turn c) as [[[e|]|f] c1]; [done| |done]. apply IH.
Qed.

Lemma menu_uses_lines fuel : ∀ c c', (length (unread c) ≤ fuel)%nat → interactive_menu fuel c = (Ok None, c') →
  unread c' = [].
Proof.
  induction fuel as [|fuel IH]; intros c c' Hl.
  - intros [= <-]. apply nil_length_inv. lia.
  - cbn [interactive_menu]. rewrite SE_bind_unfold. destruct (menu_turn c) as [[[e|]|f] c1] eqn:Et; [done| |done].
    intros Hm. pose proof (turn_unread _ _ _ Et) as Hu. eapply IH; [|exact Hm].
    destruct (unread c) as [|l rest]; [destruct Hu as [_ ->]; cbn; lia|].
    apply suffix_length in Hu. cbn in Hl. lia.
Qed.

(** C24: the interactive menu ends within as many turns as there are typed
    lines - with the exit, with the node, or with an error - or it never ends:
    at the end of the input every further turn reads an empty line, which is
    no choice, and goes round again. *)
Theorem menu_ends_or_spins c :
  let n := length (unread c) in
  (∃ r c', r ≠ Ok None ∧ ∀ k, interactive_menu (n + k) c = (r, c')) ∨
  (∀ k, (interactive_menu (n + k) c).1 = Ok None ∧ unread (interactive_menu (n + k) c).2 = []).
Proof.
  intros n. destruct (interactive_menu n c) as [r c'] eqn:E.
  assert (r = Ok None ∨ r ≠ Ok None) as [->|Hr] by (destruct r as [[e|]|f]; auto).
  - right. intros k. pose proof (menu_uses_lines n c c' ltac:(lia) E) as Hu.
    destruct (menu_spins k c' Hu) as (c2 & E2 & Hu2).
    by rewrite (menu_goes_on _ _ _ _ E), E2.
  - left. exists r, c'. split; [done|]. intros k. by apply menu_more.
Qed.

(** ** The default configuration *)

(** [parse_run_config] without a configuration file. *)
Definition flags_only (args : list string) : result string RunConfig :=
  p ← parse_loop (trim <$> args) (mkParseState default_config false false);
  let c := set_listen_addrs (dedupe_socket_addrs (listen_addrs (config p))) (config p) in
  let c := set_public_addrs (dedupe_socket_addrs (public_addrs c)) c in
  Ok (normalize_mempool_policy c).

Lemma no_file_flags_only args : read_config (default DEFAULT_CONFIG_FILE (config_path_arg (trim <$> args))) = Err NotFound →
  parse_run_config args = flags_only args.
Proof. intros Hn. unfold parse_run_config, load_run_config_file_if_exists. cbn zeta. by rewrite Hn. Qed.

Lemma default_file_applies :
  (∀ a, a = default_listen ∨ a = default_rpc → parse_socket_addr (socket_text a) = Ok a) →
  apply_run_config_file default_config_file default_config = Ok default_config.
Proof.
  intros Ha. unfold apply_run_config_file, default_config_file. cbn.
  rewrite !Ha by auto. reflexivity.
Qed.

(** C25: the file that [node config] writes says what the program does without
    one: when JSON and socket addresses are read back as they are printed, and
    the file is the one [node run] reads, every command line gives the same
    configuration, or the same error, as with no file at all. *)
Theorem default_config_file_is_default c c' args :
  (∀ file text, config_json file = Ok text → parse_config text = Ok file) →
  (∀ a, a = default_listen ∨ a = default_rpc → parse_socket_addr (socket_text a) = Ok a) →
  node_command ["config"] c = (Ok Done, c') →
  config_path_arg (trim <$> args) = None →
  ∃ text, written c' = written c ++ [(DEFAULT_CONFIG_FILE, text)] ∧
    (read_config DEFAULT_CONFIG_FILE = Ok text → parse_run_config args = flags_only args).
Proof.
  intros Hjson Ha Hc Hargs. cbn [node_command] in Hc. apply SE_bind_Ok in Hc as (u & c1 & Hc & [= <-]).
  unfold node_config_command in Hc. cbn [head default] in Hc. apply SE_bind_Ok in Hc as (u1 & c2 & Hw & Hs).
  assert (written c1 = written c2) as -> by (injection Hs as _ <-; reflexivity).
  unfold write_default_run_config in Hw. apply SE_bind_Ok in Hw as (u2 & c3 & Hp & Hw).
  assert (c3 = c) as ->.
  { destruct (parent_dir _); [|by injection Hp]. unfold checked, lift in Hp. by injection Hp. }
  unfold checked in Hw. rewrite SE_bind_lift in Hw.
  destruct (config_json default_config_file) as [text|e] eqn:Ej; [|done]. cbn [map_err] in Hw.
  rewrite SE_bind_lift in Hw. destruct (write_file _ _) as [[]|e]; [|done]. injection Hw as _ <-.
  exists text. split; [done|]. intros Hr. unfold parse_run_config, load_run_config_file_if_exists. cbn zeta.
  rewrite Hargs. cbn [default from_option id]. rewrite Hr, (Hjson _ _ Ej). cbn [map_err mbind result_bind].
  by rewrite default_file_applies.
Qed.

(** ** Secrets *)

Definition reseed (seed : nat) c : Console := mkConsole (terminal c) (printed c) (written c) seed (opened c).

(** C26: [wallet new] without [--show-secret] does not show the secret key: two
    key pairs with one public key give the same lines, and without a path no
    file is written. *)
Theorem wallet_new_hides_secret args c seed :
  "--show-secret" ∉ args →
  public_key (generate (seeds c)) = public_key (generate seed) →
  (is_Some (find (λ arg, negb (starts_with_dash arg)) (drop 1 args)) →
    ∀ c1 c2, wallet_new args c = (Ok tt, c1) → wallet_new args (reseed seed c) = (Ok tt, c2) → printed c1 = printed c2) ∧
  (find (λ arg, negb (starts_with_dash arg)) (drop 1 args) = None →
    ∃ c1 c2, wallet_new args c = (Ok tt, c1) ∧ wallet_new args (reseed seed c) = (Ok tt, c2) ∧
      printed c1 = printed c2 ∧ written c1 = written c ∧ written c2 = written c).
Proof.
  intros Hs Hp.
  assert (existsb (λ arg, bool_decide (arg = "--show-secret")) args = false) as Hsecret.
  { apply not_true_is_false. intros (a & Ha & E)%existsb_exists. apply bool_decide_eq_true in E as ->.
    by apply Hs, list_elem_of_In. }
  assert (address (generate (seeds c)) = address (generate seed)) as Hadr.
  { revert Hp. unfold generate. destruct (generate_keypair (seeds c)), (generate_keypair seed). cbn. by intros ->. }
  assert (wallet_address (generate (seeds c)) = wallet_address (generate seed)) as Haddr by (unfold wallet_address; by rewrite Hadr).
  unfold wallet_new. rewrite Hsecret. cbn zeta. rewrite !SE_bind_get. cbn [seeds reseed]. rewrite Haddr, Hp.
  destruct (find _ _) as [path|]; split; intros Hf; try (by destruct Hf); try done.
  - intros c1 c2. rewrite !SE_bind_modify. unfold checked. rewrite !SE_bind_lift.
    destruct (wallet_json _ _ (hex_encode (secret_key (generate (seeds c))))); [|done].
    destruct (wallet_json _ _ (hex_encode (secret_key (generate seed)))); [|done]. cbn [map_err]. rewrite !SE_bind_lift.
    destruct (write_file path a) as [[]|]; [|done]. destruct (write_file path a0) as [[]|]; [|done].
    by intros [= <-] [= <-].
  - eexists _, _. split_and!; reflexivity.
Qed.

End props.

(** ** The help *)

(** What a path of the help looks like to the router. *)
Definition help_shape (path : string) : list string :=
  (λ s, if String.prefix "<" s then "{}" else s) <$> segments path.

(** Every request of the help is a route of the table, for its method; the
    routes it leaves out are second names of others. *)
Lemma help_lists_routes :
  Forall (λ h, Exists (λ r : Route, r.1.2 = h.1 ∧ shape r.1.1 = help_shape h.2) routes) help_rpc ∧
  Forall (λ r : Route, Exists (λ h, r.1.2 = h.1 ∧ shape r.1.1 = help_shape h.2) help_rpc ∨
    r.1.1 ∈ ["/"; "/chain/stats"; "/transaction"]) routes.
Proof. split; by_eval. Qed.

End CliProps.
