(* ===== verification/CliDemo.v ===== *)
(** * CliDemo: the program on the demo protocol *)

From S2P Require Import Prelude Collections Core Demo Bytes Mempool Storage StorageDemo Node NodeDemo Network.
From S2P Require Import Wallet WalletProps Config P2p Gossip Http Service Explorer RpcDemo Commands Messages Routes Cli CliProps.

Open Scope string_scope.
Open Scope list_scope.
Open Scope Z_scope.

Module CliDemo.
Import Demo Storage StorageDemo Node NodeDemo Wallet WalletProps Config Commands Cli CliProps.

#[local] Existing Instance RpcDemo.demo_explorer.
#[local] Instance offline : WalletEnv := demo_env false.
(** Every seed gives one public key, with a secret key of its own. *)
#[local] Instance twins : Crypto := {|
  PublicKey := Z; Signature := Z; Transaction := Tx; SECRET_KEY_SIZE := 1;
  derive_public_key sk := 7;
  address_from_public_key pk := pk;
  sign sk msg := sumZ sk;
  generate_keypair seed := (7, [65 + Z.of_nat seed]);
  new_at from to amount fee nonce time := mkTx 0 from to amount fee nonce time;
  transaction_from := d_from;
  signing_bytes tx := [];
  new_signed tx pk sig := tx;
|}.

#[local] Instance OneOrMany_eq_dec {T} `{EqDecision T} : EqDecision (OneOrMany T).
Proof. solve_decision. Defined.
#[local] Instance RunConfigFile_eq_dec : EqDecision RunConfigFile.
Proof. solve_decision. Defined.

(** The default file, as [node config] writes it. *)
Definition file0 : RunConfigFile :=
  mkRunConfigFile DEFAULT_NODE_DB (Many [DEFAULT_LISTEN_ADDR]) DEFAULT_RPC_ADDR [] (Some DEFAULT_PEERS_FILE)
    None None 60 DEFAULT_SHUTDOWN_FILE 128 (Some 1) (Some DEFAULT_MARKET_FEE) (Some LOW_FEE_EXPIRY_SECS)
    (Some MEMPOOL_EXPIRY_SECS) None None None false 60 10000.

#[local] Program Instance disk_config : ConfigEnv := {|
  parse_socket_addr s := if bool_decide (s = EmptyString) then Err "empty" else Ok (Z.of_nat (String.length s));
  default_listen := 12;
  default_rpc := 14;
  read_config _ := Ok "json";
  parse_config _ := Ok file0;
|}.
Solve All Obligations with reflexivity.

#[local] Instance files : FilesEnv := {|
  hex_encode b := Http.text b; public_key_bytes p := [p]; wallet_json a p k := Ok k; write_file _ _ := Ok tt;
  read_dir _ := None; has_json_extension _ := true; exists_file _ := false;
|}.

#[local] Instance texts : Messages.ErrorTexts := {|
  Messages.transaction_error_text _ := "transaction"; Messages.ledger_error_text _ := "ledger";
  Messages.consensus_error_text _ := "consensus"; Messages.genesis_error_text _ := "genesis";
  Messages.fork_choice_error_debug _ := "fork"; Messages.lmdb_error_text _ := "lmdb";
  Messages.io_error_text _ := "io"; Messages.io_error_kind := Messages.OtherKind;
|}.

#[local] Instance shell : CliEnv := {|
  CARGO_PKG_VERSION := "0.1.0"; CHAIN_ID := 1; NETWORK_MAGIC := [80]; GENESIS_PREMINE_ADDRESS := 9;
  default_consensus := 1;
  socket_text a := if bool_decide (a = 12) then DEFAULT_LISTEN_ADDR else DEFAULT_RPC_ADDR;
  is_loopback _ := true;
  parent_dir _ := Some "./data/paqus";
  create_dir_all _ := Ok tt;
  config_json file := if bool_decide (file = file0) then Ok "json" else Err "no";
  open_environment _ _ := Ok store0;
  Json := string; json_parse s := Ok s; json_get _ _ := None; json_empty := "[]"; json_pretty s := Ok s;
  local_peer_id := Ok "12D3";
|}.

Definition console (lines : list string) : Console := mkConsole (mkTerminal (Ok <$> lines) (mkClient 0 [])) [] [] 0 0.

Lemma config_written : node_command ["config"] (console []) =
  (Ok Done, (node_command ["config"] (console [])).2).
Proof. reflexivity. Qed.

Lemma default_config_file_is_default_witness : ∃ text,
  written (node_command ["config"] (console [])).2 = [(DEFAULT_CONFIG_FILE, text)] ∧
  (read_config DEFAULT_CONFIG_FILE = Ok text → parse_run_config ["--mine"] = flags_only ["--mine"]).
Proof.
  refine (default_config_file_is_default (console []) _ ["--mine"] _ _ config_written _).
  - intros file text. cbn. case_bool_decide; [|done]. by intros [= <-]; subst.
  - intros a [-> | ->]; reflexivity.
  - reflexivity.
Defined.

Lemma wallet_new_hides_secret_witness :
  printed (wallet_new ["new"] (console [])).2 = printed (wallet_new ["new"] (reseed 3 (console []))).2 ∧
  secret_key (generate 0) ≠ secret_key (generate 3).
Proof.
  split; [|by vm_compute].
  destruct (wallet_new_hides_secret ["new"] (console []) 3) as [_ Hn]; [by_eval|reflexivity|].
  destruct (Hn eq_refl) as (c1 & c2 & E1 & E2 & Hp & _). rewrite E1, E2. exact Hp.
Defined.

(** Nothing is typed: a hundred turns, and as many unknown choices. *)
Example no_input_spins : (run 100 [] (console [])).1 = Ok None ∧ length (printed (run 100 [] (console [])).2) = 1100%nat.
Proof. by vm_compute. Qed.

(** A wrong choice, a new wallet under the offered name, and the exit. *)
Example menu_session :
  (run 5 [] (console ["9"; "1"; EmptyString; "8"; "1"])).1 = Ok (Some Done) ∧
  written (run 5 [] (console ["9"; "1"; EmptyString; "8"; "1"])).2 = [("wallet.json", "A")].
Proof. by vm_compute. Qed.

(** An address that cannot be read is replaced without a word. *)
Example init_accepts_any_miner :
  (node_command ["init"; "db"; "not an address"] (console [])).1 = Ok Done.
Proof. by vm_compute. Qed.

End CliDemo.
