(* ===== verification/Program.v ===== *)
(** * Program: [run_node] of [src/main.rs], from the command line to the loop

    The configuration, the peers file, the node's storage, the listeners and
    the service, in the order [run_node] opens them, and [run] with the node it
    starts.  The RPC server gets a thread of its own; [System] has its requests. *)

From S2P Require Import Prelude Collections Core Bytes Mempool MempoolFacts Storage StorageFacts StorageSaved StorageProps.
From S2P Require Import Node NodeFacts NodeProps NodeSync NodeShared NodeStart Network Wallet Config ConfigProps P2p Gossip.
From S2P Require Import Http Gateway PeersFile Service ServiceProps Explorer Commands Messages Routes Daemon DaemonProps.
From S2P Require Import Sockets Cli.

Open Scope string_scope.
Open Scope list_scope.
Open Scope Z_scope.

Module Program.
Import Node NodeFacts NodeProps NodeSync NodeShared NodeStart Service ServiceProps Daemon DaemonProps Cli.
Import MempoolFacts StorageFacts StorageSaved StorageProps Sockets SocketsProps.

Section program.
Context `{Paqus, !Network.ChainParams, Kv, Lmdb, Clock, !Storage.Codecs, !Gossip.PeerWorld, !ServiceEnv}.
Context `{!Wallet.Crypto, !Wallet.WalletEnv, !Config.ConfigEnv, !Http.HttpWorld, !Gateway.GatewayJson}.
Context `{!DaemonEnv, !Explorer.ExplorerEnv, !Commands.FilesEnv, !Messages.ErrorTexts, !CliEnv, !Os, !PeersFile.PeersEnv}.
(** What spawning the thread of the RPC server returns. *)
Context (rpc_spawned : result string ()).
Abbreviation M := (SE Console Failure).

(** The node under its lock, for the line that is printed at the start. *)
Definition start_line : SE Daemon DaemonError (Height * string * string) :=
  on_service (with_node (
    n ← get_state;
    difficulty ← attempt (F := ServiceError) (method DifficultyFailed next_difficulty);
    mret (Explorer.tip_or_zero n, Explorer.short_hash (node_tip_hash n),
      Messages.format_difficulty (λ e, match e with DifficultyFailed e => Messages.node_error_text e | _ => EmptyString end)
        difficulty))).

Definition node_text (c : Config.RunConfig) (bound : list Z) (x : Height * string * string) : string :=
  let '(height, tip, difficulty) := x in
  "Paqus Node db::" +:+ Config.db_path c +:+ "|p2p::" +:+ format_socket_addrs bound +:+ "|rpc::" +:+
  socket_text (Config.rpc_addr c) +:+ "|height::" +:+ Messages.number height +:+ "|tip::" +:+ tip +:+
  "|difficulty::" +:+ difficulty +:+ "|peers::" +:+ Messages.number (Z.of_nat (length (Config.peers c))) +:+
  "|mining::" +:+ (if Config.mine c then "true" else "false") +:+
  "|min_relay_fee::" +:+ Messages.number (Config.min_relay_fee c) +:+
  "|market_fee::" +:+ Messages.number (Config.market_fee c) +:+
  "|low_fee_expiry::" +:+ Messages.number (Config.low_fee_expiry c) +:+
  "s|mempool_expiry::" +:+ Messages.number (Config.mempool_expiry c) +:+ "s".

(** Everything [run_node] does before [preflight]: the service, the listeners
    and the addresses they are bound to. *)
Definition prepare_node (args : list string) : M (Daemon * list Socket * list Z) :=
  config ← checked (Config.parse_run_config args);
  print_core_startup_info ;;
  warn_if_public_rpc config ;;
  file_peers ← checked (match Config.peers_file config with
                        | Some path => PeersFile.load_peers_file path
                        | None => Ok []
                        end);
  let c := startup_peers file_peers config in
  node ← open_node (Config.db_path c) (Config.miner_address c);
  d ← checked (start_service file_peers config node);
  '(sockets, bound) ← checked (bind_listeners (Config.listen_addrs (cfg (svc d))) 0%nat).1;
  mret (d, sockets, bound).

(** The checks, the first line, the RPC server and the loop; the loop works on
    the daemon. *)
Definition run_node (rounds fuel : nat) (args : list string) : M (result DaemonError Flow * Daemon) :=
  '(d, sockets, bound) ← prepare_node args;
  match (preflight ;; start_line) d with
  | (Err e, d1) => mret (Err e, d1)
  | (Ok x, d1) =>
      say (node_text (cfg (svc d1)) bound x) ;;
      checked (map_err (λ error, "failed to spawn rpc server: " +:+ error) rpc_spawned) ;;
      mret (Daemon.run rounds fuel d1)
  end.

(** [main] and the node it may start: the menu for at most [turns] turns, the
    node for at most [rounds] rounds. *)
Definition main (turns rounds fuel : nat) (args : list string) : M (option (result DaemonError Flow * Daemon)) :=
  e ← Cli.run turns args;
  match e with
  | Some (StartNode args) => r ← run_node rounds fuel args; mret (Some r)
  | Some Done | None => mret None
  end.

(** ** What is prepared *)

Context `{!Storage.CodecLaws, !Storage.KvLaws, !NoFaults, !LedgerLaws, !ForkChoiceLaws, !TxLaws}.

(** A storage a node can be started on: a new one, when the genesis block
    makes a well-formed ledger, or the one a node in order has left. *)
Definition startable (st : Storage.Store) : Prop :=
  (Storage.tables st = no_tables ∧ block_hash genesis_block = GENESIS_HASH ∧
    ∃ l, ledger_apply_block genesis_block ledger_new = (Ok tt, l) ∧ stored_wf l) ∨
  (∃ n, node_good n ∧ stored_wf (ledger n) ∧ Storage.tables st = Storage.tables (storage n)).

Lemma startable_good st c clock n : startable st → init_or_load c clock st = Ok (Some n) → node_good n.
Proof.
  destruct st as [tb j].
  intros [(Et & Hg & l & Hl & Hwf)|(n0 & Hn & Hwf & Et)] Hi; cbn [Storage.tables] in Et; subst tb.
  - destruct (starts_first l c clock j Hg Hl Hwf) as (tb & _ & _ & Hs & _). rewrite Hi in Hs. apply Hs.
  - pose proof (restarts _ _ c clock j (good_database _ Hn) (good_records _ Hn) Hwf) as Hs. rewrite Hi in Hs. apply Hs.
Qed.

Lemma configured_good c n : node_good n → node_good (configure_pool c n).
Proof.
  intros [Ho Hp Hd Hr]. split; [by apply (orphans_wf_same [] n)| |exact Hd|exact Hr].
  apply (with_config_exact {| Mempool.max_transactions := _ |}). split; by_eval.
Qed.

Lemma opened_good path a c n c' :
  (∀ k path store, open_environment k path = Ok store → startable store) →
  open_node path a c = (Ok n, c') → node_good n.
Proof.
  intros Hs. unfold open_node. destruct (open_environment _ _) as [store|] eqn:E; [|done]. apply Hs in E.
  destruct (init_or_load _ _ store) as [[n'|]|] eqn:Ei; try done. intros [= <- _]. by eapply startable_good.
Qed.

Lemma checked_Ok {A} (r : result string A) c a c' : checked r c = (Ok a, c') → r = Ok a ∧ c' = c.
Proof. unfold checked, lift. intros [= Hr <-]. by apply map_err_Ok in Hr. Qed.

(** C7: what [run_node] serves with is in order: when the storage it finds is
    a new one or the one a node in order has left, the arguments were accepted
    as a configuration, the service starts with a node in order and a table of
    peers within the configured limit, and it has exactly one listener for
    every address, none twice, each ready to accept without waiting. *)
Theorem prepared_node args c d sockets bound c' :
  (∀ k path store, open_environment k path = Ok store → startable store) →
  prepare_node args c = (Ok (d, sockets, bound), c') →
  ∃ config, Config.parse_run_config args = Ok config ∧
    service_ok node_good (Config.max_peers config) (svc d) ∧ 1 ≤ Config.max_peers config ∧
    Config.listen_addrs (cfg (svc d)) ≠ [] ∧ NoDup (Config.listen_addrs (cfg (svc d))) ∧
    Forall2 listens_on (Config.listen_addrs (cfg (svc d))) sockets ∧ length bound = length sockets.
Proof.
  intros Hst Hp. unfold prepare_node in Hp.
  apply SE_bind_Ok in Hp as (config & c1 & [Hc ->]%checked_Ok & Hp).
  apply SE_bind_Ok in Hp as (u1 & c2 & _ & Hp). apply SE_bind_Ok in Hp as (u2 & c3 & _ & Hp).
  apply SE_bind_Ok in Hp as (file_peers & c4 & [_ ->]%checked_Ok & Hp). cbn zeta in Hp.
  apply SE_bind_Ok in Hp as (n & c5 & Hn%opened_good & Hp); [|done].
  apply SE_bind_Ok in Hp as (d' & c6 & [Hd ->]%checked_Ok & Hp).
  apply SE_bind_Ok in Hp as ([ls bs] & c7 & [Hb ->]%checked_Ok & [= -> -> -> _]).
  exists config. split; [done|].
  assert (1 ≤ Config.max_peers config) as HM.
  { apply ConfigProps.parsed_usable in Hc as (c0 & [_ _ HM _] & ->). unfold Config.normalize_mempool_policy.
    cbn zeta. by case_bool_decide. }
  pose proof Hd as Hok. unfold start_service in Hd. case_bool_decide as He; [done|]. injection Hd as <-.
  assert (∀ l, NoDup (Config.dedupe_socket_addrs l)) as Hdup by (intros l; apply P2pProps.retain_unseen_spec).
  assert (∀ l, l ≠ [] → Config.dedupe_socket_addrs l ≠ []) as Hne.
  { intros [|a l] Hl; [done|]. unfold Config.dedupe_socket_addrs. cbn. done. }
  rewrite svc_new_daemon in Hb |- *. apply run_eq, listeners_bound in Hb as [Hf Hlen].
  split_and!.
  - rewrite <-(svc_new_daemon (new_service _ _)).
    eapply (started_ok node_good (Config.max_peers config)); [lia|reflexivity| |exact Hok]. by apply configured_good.
  - done.
  - cbn. apply Hne. exact He.
  - cbn. apply Hdup.
  - exact Hf.
  - by rewrite Hlen, (Forall2_length _ _ _ Hf).
Qed.

End program.
End Program.
