(* ===== verification/ProgramDemo.v ===== *)
(** * ProgramDemo: a node that is started again on the demo protocol *)

From S2P Require Import Prelude Collections Core Demo Mempool MempoolFacts MempoolProps Bytes Storage StorageDemo StorageFacts StorageSaved.
From S2P Require Import StorageProps Cache Node NodeFacts NodeProps NodeSync NodeShared NodeStart NodeDemo Network P2p P2pDemo Gossip.
From S2P Require Import Wallet WalletProps Config ConfigProps Http Gateway PeersFile Service ServiceProps ServiceDemo Explorer RpcDemo.
From S2P Require Import Commands Messages Routes Daemon DaemonProps DaemonDemo SystemDemo Sockets Cli CliDemo Program.

Open Scope string_scope.
Open Scope list_scope.
Open Scope Z_scope.

Module ProgramDemo.
Import Demo Storage StorageDemo StorageSaved Node NodeFacts NodeProps NodeSync NodeShared NodeStart NodeDemo Network NetworkProps.
Import MempoolProps Service ServiceProps Daemon Sockets SocketsProps Cli Program.

#[local] Existing Instance ServiceDemo.demo_links.
#[local] Existing Instance ServiceDemo.demo_service_env.
#[local] Existing Instance GatewayProps.test_http.
#[local] Existing Instance GatewayProps.test_json.
#[local] Existing Instance DaemonDemo.demo_daemon_env.
#[local] Existing Instance RpcDemo.demo_explorer.
#[local] Existing Instance CliDemo.twins.
#[local] Existing Instance CliDemo.offline.
#[local] Existing Instance CliDemo.disk_config.
#[local] Existing Instance CliDemo.files.
#[local] Existing Instance CliDemo.texts.

(** The database is the one [node3] has left. *)
#[local] Instance installed : CliEnv := {|
  CARGO_PKG_VERSION := "0.1.0"; CHAIN_ID := 1; NETWORK_MAGIC := [80]; GENESIS_PREMINE_ADDRESS := 9;
  default_consensus := 1;
  socket_text a := if bool_decide (a = 12) then Config.DEFAULT_LISTEN_ADDR else Config.DEFAULT_RPC_ADDR;
  is_loopback _ := true;
  parent_dir _ := None;
  create_dir_all _ := Ok tt;
  config_json _ := Err "no";
  open_environment _ _ := Ok (storage node3);
  Json := string; json_parse s := Ok s; json_get _ _ := None; json_empty := "[]"; json_pretty s := Ok s;
  local_peer_id := Ok "12D3";
|}.

#[local] Instance kernel : Os := {|
  os_fault _ := None; is_ipv6 a := bool_decide (a = 33); addr_text _ := "addr"; local_addr _ a := a;
|}.

#[local] Instance no_peers_file : PeersFile.PeersEnv := {|
  PeersFile.cache_from_str _ := Ok []; PeersFile.cache_to_string_pretty _ := Ok [];
  PeersFile.read_peers _ := Err Config.NotFound; PeersFile.write_peers _ _ := Ok tt;
  PeersFile.peer_to_string _ := "addr";
|}.

Lemma node3_good : node_good node3.
Proof.
  apply (shared_step_good _ _ (shared_method _ _ (step_apply block_b2 node2))).
  apply (shared_step_good _ _ (shared_method _ _ (step_apply block_b1 node1))).
  apply (shared_step_good _ _ (shared_method _ _ (step_submit tx0 (apply_block block_a node0).2))).
  apply (shared_step_good _ _ (shared_method _ _ (step_apply block_a node0))).
  exact SystemDemo.node0_good.
Qed.

Definition consensus0 : @Consensus (@paqus_types demo) := 1.

Lemma node_starts_witness :
  starts (ledger node3) (tables (storage node3)) (init_or_load consensus0 0 (mkStore (tables (storage node3)) 0)).
Proof. apply (proj2 (node_starts consensus0 0 0)); [exact node3_good|exact node3_stored_wf]. Defined.

(** The restart comes to a node. *)
Example node3_restarts :
  match init_or_load consensus0 0 (storage node3) with
  | Ok (Some n) => bool_decide (tip_hash (ledger n) = Some (block_hash block_b2))
  | _ => false
  end = true.
Proof. by vm_compute. Qed.

Definition shell_console : Console := CliDemo.console [].

Definition start_args : list string := ["--listen"; "[::]:5555"; "--max-peers"; "3"].

Definition on_one_listener {E} (r : result E (Daemon * list Socket * list Z)) : bool :=
  match r with
  | Ok (d, sockets, _) => bool_decide (length sockets = 1%nat ∧
      tip_hash (ledger (P2p.shared_node (session (svc d)))) = Some (block_hash block_b2))
  | Err _ => false
  end.

Lemma prepares : on_one_listener (prepare_node start_args shell_console).1 = true.
Proof. by vm_compute. Qed.

Lemma startable_left k path store : open_environment k path = Ok store → startable store.
Proof.
  intros E. pose proof (f_equal (λ r, match r with Ok s => s | Err _ => storage node3 end) E) as Hs.
  change (storage node3 = store) in Hs. rewrite <-Hs. right. exists node3.
  exact (conj node3_good (conj node3_stored_wf eq_refl)).
Qed.

Lemma prepares_not_fails e c' : prepare_node start_args shell_console ≠ (Err e, c').
Proof. intros E. pose proof prepares as Hok. rewrite E in Hok. discriminate Hok. Qed.

Lemma prepared_node_witness :
  match prepare_node start_args shell_console with
  | (Ok (d, sockets, bound), _) =>
      ∃ config, Config.parse_run_config start_args = Ok config ∧
        service_ok node_good (Config.max_peers config) (svc d) ∧ 1 ≤ Config.max_peers config ∧
        Config.listen_addrs (cfg (svc d)) ≠ [] ∧ NoDup (Config.listen_addrs (cfg (svc d))) ∧
        Forall2 listens_on (Config.listen_addrs (cfg (svc d))) sockets ∧ length bound = length sockets
  | _ => False
  end.
Proof.
  destruct (prepare_node start_args shell_console) as [[[[d sockets] bound]|e] c'] eqn:E;
    [|exact (prepares_not_fails e c' E)].
  exact (prepared_node start_args shell_console d sockets bound c' startable_left E).
Defined.

End ProgramDemo.
